(** * Butter Launcher: install and patch orchestrator

    A shallow embedding of [electron/utils/game/install.ts] and
    [electron/utils/game/onlinePatch.ts], and the properties of the
    natural-language specification that concern them; then of
    [electron/utils/game/butler.ts], of the search for a log file name of
    [electron/utils/logger.ts], of the activity of
    [electron/utils/discord.ts], of the custom UUID of the settings dialog
    and of the submit handler of [src/components/Login.tsx], with
    properties read off the code.

    Conventions of the embedding.
    - JavaScript numbers are IEEE-754 doubles: [NaN], the two infinities,
      and the finite ones, each given by the rational it denotes.  The
      results of [*] and [/] are rounded to the nearest double, ties to
      even ([Double.round]); [Math.round] is [floor (x + 1/2)].  Whole
      numbers (a count of bytes, a parsed "content-length") are taken to
      be below 2^53 in magnitude, where a double holds them exactly; the
      sign of a zero is not kept.
    - Strings are [string]s of 8-bit characters, which stand for the UTF-16
      code units below 256.  [trim] removes the white space of that range
      (TAB to CR, SPACE and the no-break space U+00A0); [toUpperCase] and
      [toLowerCase] act on the ASCII letters.  A theorem whose statement
      depends on what these functions do outside ASCII is stated for the
      strings that satisfy [Str.is_ascii].
    - A file-system path is the list of its components; [path.join] is
      concatenation and [path.dirname] drops the last component.
    - Asynchronous code is sequentialised: every [await] is a bind of the
      state-and-exception monad [M]; the events of a stream or of a child
      process are delivered in order, before the promise that awaits them
      settles.  The one message that a listener sends after its promise
      has settled (the "close" listener of [applyPWR], when the patch tool
      could not be started) is logged as [Later] and delivered after the
      messages of the code that awaited the promise ([delivered]).
    - [win.webContents.send] and the logger do not throw; what the logger
      writes is left out.
    - The file system fails for reasons the tree shows (a missing file, a
      file where a directory is expected, a directory where a file is
      expected), not for reasons outside it (permissions, locks).
    - The clock ([Date.now()], the time stamp of a log file name) and the
      state of the Discord client are arguments of the functions that read
      them; an unbounded loop takes the number of iterations it may make,
      and is proved to end within a bound. *)

From Stdlib Require Import ZArith QArith Qround Qminmax Lqa Qpower List String Ascii Bool Lia.
From Stdlib Require Import DecimalString Sorted.
From Stdlib Require DecimalPos DecimalZ SpecFloat.
Import ListNotations.

Local Open Scope string_scope.
Local Open Scope Z_scope.

(* ===================================================================== *)
(** * Strings *)
(* ===================================================================== *)

Module Str.

(** White space and line terminators removed by [String.prototype.trim],
    among the code units below 256: TAB, LF, VT, FF, CR, SPACE and the
    no-break space U+00A0. *)
Definition is_ws (c : ascii) : bool :=
  let n := nat_of_ascii c in
  ((9 <=? n)%nat && (n <=? 13)%nat) || (n =? 32)%nat || (n =? 160)%nat.

(** The strings of ASCII characters. *)
Fixpoint is_ascii (s : string) : bool :=
  match s with
  | EmptyString => true
  | String c s' => (nat_of_ascii c <? 128)%nat && is_ascii s'
  end.

Definition is_empty (s : string) : bool :=
  match s with EmptyString => true | String _ _ => false end.

Fixpoint trimStart (s : string) : string :=
  match s with
  | EmptyString => EmptyString
  | String c s' => if is_ws c then trimStart s' else s
  end.

Fixpoint trimEnd (s : string) : string :=
  match s with
  | EmptyString => EmptyString
  | String c s' =>
      let r := trimEnd s' in
      if is_ws c && is_empty r then EmptyString else String c r
  end.

Definition trim (s : string) : string := trimEnd (trimStart s).

Definition upper (c : ascii) : ascii :=
  let n := nat_of_ascii c in
  if ((97 <=? n)%nat && (n <=? 122)%nat) then ascii_of_nat (n - 32) else c.

Definition lower (c : ascii) : ascii :=
  let n := nat_of_ascii c in
  if ((65 <=? n)%nat && (n <=? 90)%nat) then ascii_of_nat (n + 32) else c.

Fixpoint map (f : ascii -> ascii) (s : string) : string :=
  match s with
  | EmptyString => EmptyString
  | String c s' => String (f c) (map f s')
  end.

Definition toUpperCase : string -> string := map upper.
Definition toLowerCase : string -> string := map lower.

(** [hay.includes(needle)] *)
Fixpoint includes (needle hay : string) : bool :=
  if prefix needle hay then true
  else match hay with
       | EmptyString => false
       | String _ hay' => includes needle hay'
       end.

(** Template-literal rendering of an integer. *)
Definition of_Z (z : Z) : string := NilZero.string_of_int (Z.to_int z).

End Str.

(* ===================================================================== *)
(** * JavaScript numbers *)
(* ===================================================================== *)

Inductive number : Type :=
| NaN
| PInf
| NInf
| Num (q : Q).

Definition int (z : Z) : number := Num (inject_Z z).

(** Rounding a rational to the nearest IEEE-754 double (binary64), ties to
    even: what [*] and [/] do to their exact result. *)
Module Double.

Definition pow2 (e : Z) : Q := (2 ^ e)%Q.

(** The integer nearest to [s], the even one of two that are equally
    near. *)
Definition nearest_even (s : Q) : Z :=
  let f := Qfloor s in
  match (s - inject_Z f ?= 1 # 2)%Q with
  | Lt => f
  | Gt => f + 1
  | Eq => if Z.even f then f else f + 1
  end.

(** [floor (log2 q)] of a positive rational. *)
Definition ilog2 (q : Q) : Z :=
  let k := Z.log2 (Qnum q) - Z.log2 (Z.pos (Qden q)) in
  if Qle_bool (pow2 k) q then k else k - 1.

(** The exponent of the unit in the last place of the doubles around [q]:
    53 significant bits, and [2^-1074] for the subnormal ones. *)
Definition ulp (q : Q) : Z := Z.max (-1074) (ilog2 q - 52).

(** The multiple of [2^ulp] nearest to a positive [q]. *)
Definition nearest (q : Q) : Q :=
  (inject_Z (nearest_even (q / pow2 (ulp q))) * pow2 (ulp q))%Q.

(** The double of an exact result; it overflows to an infinity from
    [2^1024]. *)
Definition round (q : Q) : number :=
  match (q ?= 0)%Q with
  | Eq => Num 0
  | Gt => let r := nearest q in
          if Qle_bool (pow2 1024) r then PInf else Num (Qred r)
  | Lt => let r := nearest (- q) in
          if Qle_bool (pow2 1024) r then NInf else Num (Qred (- r))
  end.

(** The value of a numeric literal: the double nearest to it.  A double
    is the nearest to itself. *)
Definition of_literal (n : number) : number :=
  match n with
  | Num q => round q
  | _ => n
  end.

End Double.

Module Number.

Definition isNaN (a : number) : bool :=
  match a with NaN => true | _ => false end.

(** [a < b] *)
Definition lt (a b : number) : bool :=
  match a, b with
  | NaN, _ | _, NaN => false
  | _, NInf => false
  | PInf, _ => false
  | NInf, _ => true
  | _, PInf => true
  | Num x, Num y => if Qlt_le_dec x y then true else false
  end.

(** [a <= b] *)
Definition le (a b : number) : bool :=
  match a, b with
  | NaN, _ | _, NaN => false
  | NInf, _ => true
  | _, PInf => true
  | _, NInf => false
  | PInf, _ => false
  | Num x, Num y => if Qlt_le_dec y x then false else true
  end.

(** [a > b] *)
Definition gt (a b : number) : bool := lt b a.

Definition is_zero (q : Q) : bool := (Qnum q =? 0)%Z.

(** [a * b]: the exact product, rounded to a double. *)
Definition mul (a b : number) : number :=
  match a, b with
  | NaN, _ | _, NaN => NaN
  | Num x, Num y => Double.round (x * y)
  | Num x, PInf | PInf, Num x =>
      if is_zero x then NaN else if Qlt_le_dec 0 x then PInf else NInf
  | Num x, NInf | NInf, Num x =>
      if is_zero x then NaN else if Qlt_le_dec 0 x then NInf else PInf
  | PInf, PInf | NInf, NInf => PInf
  | PInf, NInf | NInf, PInf => NaN
  end.

(** [a / b], for the finite operands the program divides: the exact
    quotient, rounded to a double; a zero divisor gives an infinity or
    [NaN] as in JavaScript. *)
Definition div (a b : number) : number :=
  match a, b with
  | Num x, Num y =>
      if is_zero y then
        (if is_zero x then NaN else if Qlt_le_dec 0 x then PInf else NInf)
      else Double.round (x / y)
  | NaN, _ | _, NaN => NaN
  | Num _, _ => int 0
  | PInf, Num y => if Qlt_le_dec y 0 then NInf else PInf
  | NInf, Num y => if Qlt_le_dec y 0 then PInf else NInf
  | _, _ => NaN
  end.

(** [Math.min(a, b)] *)
Definition min (a b : number) : number :=
  match a, b with
  | NaN, _ | _, NaN => NaN
  | _, _ => if le a b then a else b
  end.

(** [Math.max(a, b)] *)
Definition max (a b : number) : number :=
  match a, b with
  | NaN, _ | _, NaN => NaN
  | _, _ => if le a b then b else a
  end.

(** [Math.round(a)]: the nearest integer, ties towards +infinity. *)
Definition round (a : number) : number :=
  match a with
  | Num q => int (Qfloor (q + (1 # 2)))
  | _ => a
  end.

(** Truthiness of a number in a condition: neither [NaN] nor zero. *)
Definition truthy (a : number) : bool :=
  match a with
  | NaN => false
  | Num q => negb (is_zero q)
  | _ => true
  end.

End Number.

(** The arithmetic of the percentages in the Standard Library's
    specification of IEEE-754 ([SpecFloat], for binary64: precision 53,
    exponents below 1024), to compare [Double.round] with. *)
Module Spec64.

Definition of_Z (z : Z) : SpecFloat.spec_float :=
  SpecFloat.binary_normalize 53 1024 z 0 false.

Definition value (f : SpecFloat.spec_float) : number :=
  match f with
  | SpecFloat.S754_zero _ => Num 0
  | SpecFloat.S754_infinity false => PInf
  | SpecFloat.S754_infinity true => NInf
  | SpecFloat.S754_nan => NaN
  | SpecFloat.S754_finite s m e =>
      let v := (inject_Z (Z.pos m) * Double.pow2 e)%Q in
      Num (Qred (if s then - v else v))
  end.

(** [d / t * 100] *)
Definition ratio (d t : Z) : number :=
  value (SpecFloat.SFmul 53 1024
           (SpecFloat.SFdiv 53 1024 (of_Z d) (of_Z t)) (of_Z 100)).

Definition same (a b : number) : bool :=
  match a, b with
  | Num x, Num y => Qeq_bool x y
  | NaN, NaN | PInf, PInf | NInf, NInf => true
  | _, _ => false
  end.

End Spec64.

(** A number that is zero or more, or plus infinity. *)
Definition not_negative (a : number) : Prop :=
  a = PInf \/ exists r, a = Num r /\ (0 <= r)%Q.

(* ===================================================================== *)
(** * JSON values and the renderer's progress records *)
(* ===================================================================== *)

(** What [JSON.parse] returns.  A number is given as [JNum n] by a literal
    [n] for it: its value is the double nearest to [n]
    ([Double.of_literal]), which is [n] when [n] is a double.  An object is
    given by its members in the order of the text. *)
#[warnings="-register-all"]
Inductive json : Type :=
| JNull
| JBool (b : bool)
| JNum (n : number)
| JStr (s : string)
| JArr (items : list json)
| JObj (fields : list (string * json)).

Module Json.

(** The member named [k]; of two members with the same name the later one
    counts, as it does for [JSON.parse]. *)
Fixpoint assoc (k : string) (fields : list (string * json)) : option json :=
  match fields with
  | [] => None
  | (k', v) :: rest =>
      match assoc k rest with
      | Some v' => Some v'
      | None => if String.eqb k k' then Some v else None
      end
  end.

(** [obj?.k] for the keys the program reads ([type], [percentage],
    [percent], [progress]): the field of an object, [undefined] ([None])
    on every other value. *)
Definition get (k : string) (obj : json) : option json :=
  match obj with
  | JObj fields => assoc k fields
  | _ => None
  end.

(** [typeof v === "number" ? v : undefined] *)
Definition as_number (v : option json) : option number :=
  match v with
  | Some (JNum n) => Some (Double.of_literal n)
  | _ => None
  end.

(** [typeof v === "number"] *)
Definition is_number (v : option json) : bool :=
  match as_number v with Some _ => true | None => false end.

(** [typeof v === "string" ? v : ""] *)
Definition string_or_empty (v : option json) : string :=
  match v with
  | Some (JStr s) => s
  | _ => ""
  end.

End Json.

(** [InstallProgress] of [vite-env.d.ts]; [total] and [current] are
    optional. *)
Record InstallProgress : Type := mkProgress {
  phase : string;
  percent : number;
  total : option number;
  current : option number
}.

(* ===================================================================== *)
(** * The patch tool's line protocol ([applyPWR], the [rl.on("line")]
      listener) *)
(* ===================================================================== *)

Section LineProtocol.

(** [JSON.parse]: [None] when it throws. *)
Variable JSON_parse : string -> option json.

(** [isProgress] of the listener. *)
Definition isProgress (obj : json) : bool :=
  let type := Json.string_or_empty (Json.get "type" obj) in
  Str.includes "progress" (Str.toLowerCase type)
  || Json.is_number (Json.get "percentage" obj)
  || Json.is_number (Json.get "percent" obj).

(** The cascade that assigns [percent]. *)
Definition readPercent (obj : json) : option number :=
  match Json.as_number (Json.get "percentage" obj) with
  | Some n => Some n
  | None =>
      match Json.as_number (Json.get "percent" obj) with
      | Some n => Some n
      | None => Json.as_number (Json.get "progress" obj)
      end
  end.

(** [if (percent > 0 && percent <= 1) percent = percent * 100;
     percent = Math.max(0, Math.min(100, percent));] and the
    [Math.round(percent)] of the event. *)
Definition normalizePercent (percent : number) : number :=
  let percent :=
    if Number.gt percent (int 0) && Number.le percent (int 1)
    then Number.mul percent (int 100) else percent in
  let percent := Number.max (int 0) (Number.min (int 100) percent) in
  Number.round percent.

(** The listener: the record it sends on ["install-progress"], or [None]
    when it returns (or catches) without sending. *)
Definition onLine (line : string) : option InstallProgress :=
  let trimmed := Str.trim line in
  if Str.is_empty trimmed then None
  else
    match JSON_parse trimmed with
    | None => None
    | Some obj =>
        if negb (isProgress obj) then None
        else
          match readPercent obj with
          | None => None
          | Some percent =>
              if Number.isNaN percent then None
              else Some (mkProgress "patching" (normalizePercent percent)
                                    None None)
          end
    end.

End LineProtocol.

(* ===================================================================== *)
(** * Versions, manifests and the file system *)
(* ===================================================================== *)

(** [VersionType] and [GameVersion] of [vite-env.d.ts] (the fields the
    orchestrator reads). *)
Inductive VersionType : Type := release | pre_release.

Record GameVersion : Type := mkVersion {
  url : string;
  type : VersionType;
  build_index : Z;
  build_name : string;
  isLatest : option bool;
  patch_url : option string;
  patch_hash : option string
}.

Definition VersionType_eqb (a b : VersionType) : bool :=
  match a, b with
  | release, release | pre_release, pre_release => true
  | _, _ => false
  end.

Definition type_name (t : VersionType) : string :=
  match t with release => "release" | pre_release => "pre-release" end.

(** Modelled from the spec: the record of [./manifest], which is not among
    the sources: [{ build_index: integer, build_name?: string }]. *)
Record InstallManifest : Type := mkManifest {
  m_build_index : Z;
  m_build_name : option string
}.

Definition path : Type := list string.

(** What a file holds: raw bytes, or an install manifest.  The JSON text of
    a manifest is not modelled; a manifest file holds the record. *)
Inductive content : Type :=
| Raw (bytes : string)
| Manifest (m : InstallManifest).

(** A file-system tree.  [mode] is [st.mode]. *)
#[warnings="-register-all"]
Inductive node : Type :=
| File (c : content) (mode : Z)
| Dir (entries : list (string * node)).

(** What the program throws: an [Error] with its message, or any other
    value ([e instanceof Error] is false). *)
Inductive thrown : Type :=
| JsError (message : string)
| JsOther.

Inductive result (A : Type) : Type :=
| Ok (a : A)
| Throw (e : thrown).
Arguments Ok {A} a.
Arguments Throw {A} e.

Module Fs.

Fixpoint assoc (k : string) (es : list (string * node)) : option node :=
  match es with
  | [] => None
  | (k', v) :: rest => if String.eqb k k' then Some v else assoc k rest
  end.

Fixpoint remove (k : string) (es : list (string * node))
  : list (string * node) :=
  match es with
  | [] => []
  | (k', v) :: rest =>
      if String.eqb k k' then remove k rest else (k', v) :: remove k rest
  end.

(** Replace the entry [k] where it stands, or add it. *)
Fixpoint put (k : string) (v : node) (es : list (string * node))
  : list (string * node) :=
  match es with
  | [] => [(k, v)]
  | (k', v') :: rest =>
      if String.eqb k k' then (k, v) :: rest else (k', v') :: put k v rest
  end.

Definition set (k : string) (v : option node) (es : list (string * node))
  : list (string * node) :=
  match v with
  | Some n => put k n es
  | None => remove k es
  end.

Fixpoint lookup (p : path) (n : node) : option node :=
  match p with
  | [] => Some n
  | c :: p' =>
      match n with
      | Dir es =>
          match assoc c es with
          | Some child => lookup p' child
          | None => None
          end
      | File _ _ => None
      end
  end.

(** Set ([Some]) or delete ([None]) the node at [p]; [None] when the parent
    of [p] is not an existing directory (or [p] is the root). *)
Fixpoint update (p : path) (v : option node) (n : node) : option node :=
  match p, n with
  | [], _ => None
  | _, File _ _ => None
  | c :: p', Dir es =>
      match p' with
      | [] => Some (Dir (set c v es))
      | _ :: _ =>
          match assoc c es with
          | Some child =>
              match update p' v child with
              | Some child' => Some (Dir (put c child' es))
              | None => None
              end
          | None => None
          end
      end
  end.

(** [mkdir -p]: [None] when a component of [p] is a file. *)
Fixpoint mkdir_p (p : path) (n : node) : option node :=
  match n with
  | File _ _ => None
  | Dir es =>
      match p with
      | [] => Some n
      | c :: p' =>
          let child :=
            match assoc c es with Some ch => ch | None => Dir [] end in
          match mkdir_p p' child with
          | Some child' => Some (Dir (put c child' es))
          | None => None
          end
      end
  end.

Definition exists_ (p : path) (n : node) : bool :=
  match lookup p n with Some _ => true | None => false end.

Definition ENOENT : thrown := JsError "ENOENT: no such file or directory".
Definition ENOTDIR : thrown := JsError "ENOTDIR: not a directory".
Definition EISDIR : thrown := JsError "EISDIR: illegal operation on a directory".
Definition ENOTEMPTY : thrown := JsError "ENOTEMPTY: directory not empty".

(** [fs.unlinkSync] *)
Definition unlink (p : path) (n : node) : result node :=
  match lookup p n with
  | Some (File _ _) =>
      match update p None n with Some n' => Ok n' | None => Throw ENOENT end
  | Some (Dir _) => Throw EISDIR
  | None => Throw ENOENT
  end.

(** [fs.rmSync(p, { recursive: true, force: true })] *)
Definition rm_rf (p : path) (n : node) : result node :=
  match lookup p n with
  | Some _ =>
      match update p None n with Some n' => Ok n' | None => Throw ENOENT end
  | None => Ok n
  end.

(** [fs.mkdirSync(p, { recursive: true })] *)
Definition mkdir (p : path) (n : node) : result node :=
  match mkdir_p p n with Some n' => Ok n' | None => Throw ENOTDIR end.

(** [fs.renameSync] *)
Definition rename (src dst : path) (n : node) : result node :=
  match lookup src n with
  | None => Throw ENOENT
  | Some moved =>
      match lookup dst n, moved with
      | Some (Dir (_ :: _)), _ => Throw ENOTEMPTY
      | Some (Dir []), File _ _ => Throw EISDIR
      | Some (File _ _), Dir _ => Throw ENOTDIR
      | _, _ =>
          match update src None n with
          | Some n1 =>
              match update dst (Some moved) n1 with
              | Some n2 => Ok n2
              | None => Throw ENOENT
              end
          | None => Throw ENOENT
          end
      end
  end.

(** Create or truncate the file [p] and write [c] to it
    ([fs.createWriteStream], [fs.writeFileSync]). *)
Definition write (p : path) (c : content) (n : node) : result node :=
  match lookup p n with
  | Some (Dir _) => Throw EISDIR
  | old =>
      let mode := match old with Some (File _ m) => m | _ => 420 end in
      match update p (Some (File c mode)) n with
      | Some n' => Ok n'
      | None => Throw ENOENT
      end
  end.

(** [fs.copyFileSync] *)
Definition copyFile (src dst : path) (n : node) : result node :=
  match lookup src n with
  | Some (File c m) =>
      match lookup dst n with
      | Some (Dir _) => Throw EISDIR
      | _ =>
          match update dst (Some (File c m)) n with
          | Some n' => Ok n'
          | None => Throw ENOENT
          end
      end
  | Some (Dir _) => Throw EISDIR
  | None => Throw ENOENT
  end.

(** [fs.statSync(p).mode]; a directory has its type bit and [0o755]. *)
Definition stat_mode (p : path) (n : node) : result Z :=
  match lookup p n with
  | Some (File _ m) => Ok m
  | Some (Dir _) => Ok 16877
  | None => Throw ENOENT
  end.

(** [fs.chmodSync] *)
Definition chmod (p : path) (mode : Z) (n : node) : result node :=
  match lookup p n with
  | Some (File c _) =>
      match update p (Some (File c mode)) n with
      | Some n' => Ok n'
      | None => Throw ENOENT
      end
  | Some (Dir _) => Ok n
  | None => Throw ENOENT
  end.

(** Reading a file whole, as a read stream does. *)
Definition read (p : path) (n : node) : result content :=
  match lookup p n with
  | Some (File c _) => Ok c
  | Some (Dir _) => Throw EISDIR
  | None => Throw ENOENT
  end.

End Fs.

(* ===================================================================== *)
(** * Effects, the outside world and the monad of the program *)
(* ===================================================================== *)

Inductive payload : Type :=
| NoPayload
| Progress (p : InstallProgress)
| Version (v : GameVersion)
| Message (msg : string).

(** What an invocation does to the outside, in order: the messages it
    sends to the window, its requests, the processes it spawns and its
    calls of the two installers. *)
Inductive effect : Type :=
| Send (channel : string) (arg : payload)   (* win.webContents.send *)
| Fetch (address : string)                  (* fetch(url) *)
| Spawn (command : path) (args : list string) (* child_process.spawn *)
| CallInstallButler                         (* installButler() *)
| CallInstallJRE (gameDir : path)           (* installJRE(gameDir, win) *)
| Later (channel : string) (arg : payload). (* a message of a listener
                                               that runs after its promise
                                               has settled *)

Record Body : Type := mkBody {
  chunks : list string;           (* the "data" chunks, in order *)
  failure : option thrown;        (* the stream errors after them *)
  flushed : nat                   (* when it errors: how many of the bytes
                                     had reached the file by then *)
}.

Record Response : Type := mkResponse {
  ok : bool;
  status : Z;
  statusText : string;
  content_length : option string; (* headers.get("content-length") *)
  body : option Body
}.

Inductive SpawnResult : Type :=
| SpawnError (e : thrown)                         (* the "error" event *)
| Exited (stdout : list string) (code : option Z). (* lines, then "close" *)

(** [{ client, server, jre }] of [checkGameInstallation]. *)
Record Installation : Type := mkInstallation {
  client : bool;
  server : bool;
  jre : bool
}.

(** The collaborators of the orchestrator that are not part of it: the
    platform, the network, the hash function, [JSON.parse], the patch tool
    and the modules [./jre], [./check], [./paths] (migration) and
    [./butler] (the bootstrap of the patch tool, which the orchestrator
    uses for the path it returns), each an arbitrary function of the
    file-system tree it sees. *)
Record Env : Type := mkEnv {
  platform : string;
  fetch : string -> result Response;
  sha256 : content -> string;
  JSON_parse : string -> option json;
  spawn : path -> list string -> node -> SpawnResult * node;
  installButler : node -> option path * node;
  installJRE : path -> node -> result (option path) * node;
  checkGameInstallation : path -> GameVersion -> node -> Installation;
  migrateLegacyChannelInstallIfNeeded : path -> VersionType -> node -> result node
}.

Record World : Type := mkWorld {
  fs : node;
  log : list effect
}.

Definition M (A : Type) : Type := World -> result A * World.

Definition ret {A} (a : A) : M A := fun w => (Ok a, w).

Definition throw {A} (e : thrown) : M A := fun w => (Throw e, w).

Definition bind {A B} (m : M A) (k : A -> M B) : M B :=
  fun w =>
    match m w with
    | (Ok a, w') => k a w'
    | (Throw e, w') => (Throw e, w')
    end.

(** [try { m } catch (e) { h e }] *)
Definition try_catch {A} (m : M A) (h : thrown -> M A) : M A :=
  fun w =>
    match m w with
    | (Ok a, w') => (Ok a, w')
    | (Throw e, w') => h e w'
    end.

Declare Scope prog_scope.
Delimit Scope prog_scope with prog.
Notation "x <- m ;; k" := (bind m (fun x => k))
  (at level 61, m at next level, right associativity) : prog_scope.
Notation "m ;; k" := (bind m (fun _ => k))
  (at level 61, right associativity) : prog_scope.
Local Open Scope prog_scope.

Definition emit (e : effect) : M unit :=
  fun w => (Ok tt, mkWorld (fs w) (log w ++ [e])).

Definition send (channel : string) (arg : payload) : M unit :=
  emit (Send channel arg).

(** A synchronous [fs] call that changes the tree. *)
Definition fs_do (op : node -> result node) : M unit :=
  fun w =>
    match op (fs w) with
    | Ok n => (Ok tt, mkWorld n (log w))
    | Throw e => (Throw e, w)
    end.

(** A synchronous [fs] call that reads the tree. *)
Definition fs_get {A} (op : node -> result A) : M A :=
  fun w => (op (fs w), w).

Definition existsSync (p : path) : M bool :=
  fun w => (Ok (Fs.exists_ p (fs w)), w).

(** [try { m } catch { /* ignore */ }] *)
Definition ignoring (m : M unit) : M unit := try_catch m (fun _ => ret tt).

Definition dirname (p : path) : path := removelast p.

Definition path_string (p : path) : string := String.concat "/" p.

(** [e instanceof Error ? e.message : "Unknown error"] *)
Definition message_of (e : thrown) : string :=
  match e with
  | JsError m => m
  | JsOther => "Unknown error"
  end.

(** [parseInt(s, 10)] *)
Definition digit (c : ascii) : option Z :=
  let n := nat_of_ascii c in
  if ((48 <=? n)%nat && (n <=? 57)%nat) then Some (Z.of_nat (n - 48)) else None.

Fixpoint digits (s : string) (acc : option Z) : option Z :=
  match s with
  | EmptyString => acc
  | String c s' =>
      match digit c with
      | Some d =>
          digits s' (Some (10 * match acc with Some a => a | None => 0 end + d))
      | None => acc
      end
  end.

Definition parseInt (s : string) : number :=
  let s := Str.trimStart s in
  let '(negative, s) :=
    match s with
    | String "-" s' => (true, s')
    | String "+" s' => (false, s')
    | _ => (false, s)
    end in
  match digits s None with
  | Some z => int (if negative then - z else z)
  | None => NaN
  end.

(** A string in a condition: present and not empty. *)
Definition truthy_string (s : option string) : bool :=
  match s with
  | Some s => negb (Str.is_empty s)
  | None => false
  end.

(* ===================================================================== *)
(** * [./paths] and [./manifest] *)
(* ===================================================================== *)

(** Modelled from the spec: [getLatestDir] of [./paths], which is not among
    the sources: [<gameRoot>/game/release/latest]. *)
Definition getLatestDir (gameDir : path) : path :=
  (gameDir ++ ["game"; "release"; "latest"])%list.

(** Modelled from the spec: the numbered build directory of [./paths]:
    [<gameRoot>/game/<type>/build-<N>]. *)
Definition getBuildDir (gameDir : path) (t : VersionType) (n : Z) : path :=
  (gameDir ++ ["game"; type_name t; ("build-" ++ Str.of_Z n)%string])%list.

(** Modelled from the spec: [getReleaseBuildDir] of [./paths]:
    [<gameRoot>/game/release/build-<N>]. *)
Definition getReleaseBuildDir (gameDir : path) (n : Z) : path :=
  getBuildDir gameDir release n.

(** Modelled from the spec: [resolveInstallDir] of [./paths]: the "latest"
    directory when [is_latest] is true, otherwise the numbered directory. *)
Definition resolveInstallDir (gameDir : path) (version : GameVersion) : path :=
  match isLatest version with
  | Some true => getLatestDir gameDir
  | _ => getBuildDir gameDir (type version) (build_index version)
  end.

(** The name of the client binary ([getClientPath] of [onlinePatch.ts]). *)
Definition clientName (os : string) : string :=
  if String.eqb os "win32" then "HytaleClient.exe" else "HytaleClient".

(** Modelled from the spec: [resolveClientPath] of [./paths]: the
    platform-specific client binary under the install directory, laid out
    as [getClientPath] of [onlinePatch.ts] lays it out. *)
Definition resolveClientPath (os : string) (installDir : path) : path :=
  (installDir ++ ["Client"; clientName os])%list.

(** Modelled from the spec: the manifest file "co-located per install
    directory"; the spec does not give its name. *)
Definition manifestName : string := "install-manifest.json".

Definition manifestPath (installDir : path) : path :=
  (installDir ++ [manifestName])%list.

(** Modelled from the spec: [readInstallManifest] of [./manifest]:
    [read(installDir) -> InstallManifest | absent]. *)
Definition readInstallManifest (installDir : path) (n : node)
  : option InstallManifest :=
  match Fs.lookup (manifestPath installDir) n with
  | Some (File (Manifest m) _) => Some m
  | _ => None
  end.

(** Modelled from the spec: [writeInstallManifest] of [./manifest]:
    persists [{build_index, build_name}], "write to a temp path then
    rename". *)
Definition writeInstallManifest (installDir : path) (version : GameVersion)
  : M unit :=
  let m := mkManifest (build_index version) (Some (build_name version)) in
  let tmp := (installDir ++ [(manifestName ++ ".tmp")%string])%list in
  fs_do (Fs.write tmp (Manifest m)) ;;
  fs_do (Fs.rename tmp (manifestPath installDir)).

(* ===================================================================== *)
(** * [install.ts] *)
(* ===================================================================== *)

Section Install.

Variable E : Env.

(** [ensureExecutable], lines 24-34. *)
Definition ensureExecutable (filePath : path) : M unit :=
  if String.eqb (platform E) "win32" then ret tt
  else
    ignoring (
      mode <- fs_get (Fs.stat_mode filePath) ;;
      if Z.land mode 64 =? 0
      then fs_do (Fs.chmod filePath 493)
      else ret tt).

(** [ensureClientExecutable], lines 36-43. *)
Definition ensureClientExecutable (installDir : path) : M unit :=
  ignoring (
    let clientPath := resolveClientPath (platform E) installDir in
    ensureExecutable clientPath).

(** The streams of [pipeline(Readable.fromWeb(body), progressStream,
    fs.createWriteStream(outPath))]: every chunk passes the "data"
    listener [onData], which receives the running [downloadedLength].
    When the source ends, the bytes that arrived are in [outPath].  When
    it fails, the pipeline destroys the write stream: [outPath], which
    [createWriteStream] has created or emptied, holds the bytes written
    by then, the first [flushed] of those that arrived (none, when the
    failure follows the chunks at once), and the pipeline rejects, as it
    does when the file cannot be opened.  Returns [downloadedLength]. *)
Fixpoint pump (onData : Z -> M unit) (cs : list string)
  (downloadedLength : Z) : M Z :=
  match cs with
  | [] => ret downloadedLength
  | chunk :: rest =>
      let downloadedLength :=
        downloadedLength + Z.of_nat (String.length chunk) in
      onData downloadedLength ;;
      pump onData rest downloadedLength
  end.

Definition pipeline (b : Body) (outPath : path) (onData : Z -> M unit)
  : M Z :=
  downloadedLength <- pump onData (chunks b) 0 ;;
  let arrived := String.concat "" (chunks b) in
  match failure b with
  | Some e =>
      fs_do (Fs.write outPath (Raw (substring 0 (flushed b) arrived))) ;;
      throw e
  | None =>
      fs_do (Fs.write outPath (Raw arrived)) ;;
      ret downloadedLength
  end.

Definition pwr_progress (percent : number) (totalLength : option number)
  (current : Z) : payload :=
  Progress (mkProgress "pwr-download" percent totalLength (Some (int current))).

(** The percentage of the "data" listener of [downloadPWR], lines 83-86. *)
Definition pwr_percent (totalLength : option number) (downloadedLength : Z)
  : number :=
  match totalLength with
  | Some t =>
      if Number.gt t (int 0)
      then Number.round
             (Number.mul (Number.div (int downloadedLength) t) (int 100))
      else int (-1)
  | None => int (-1)
  end.

Definition is_truthy (totalLength : option number) : bool :=
  match totalLength with
  | Some t => Number.truthy t
  | None => false
  end.

Definition tempPWRPath (gameDir : path) (version : GameVersion) : path :=
  (gameDir ++ [("temp_" ++ Str.of_Z (build_index version) ++ ".pwr")%string])%list.

(** [downloadPWR], lines 47-120. *)
Definition downloadPWR (gameDir : path) (version : GameVersion)
  : M (option path) :=
  let tempPWRPath := tempPWRPath gameDir version in
  try_catch (
    emit (Fetch (url version)) ;;
    match fetch E (url version) with
    | Throw e => throw e
    | Ok response =>
        if negb (ok response)
        then throw (JsError ("Failed to download: " ++ statusText response))
        else
          match body response with
          | None => throw (JsError "No response body")
          | Some b =>
              let contentLength := content_length response in
              let totalLength :=
                if truthy_string contentLength
                then option_map parseInt contentLength else None in
              send "install-progress"
                (pwr_progress (if is_truthy totalLength then int 0 else int (-1))
                              totalLength 0) ;;
              downloadedLength <-
                pipeline b tempPWRPath (fun downloadedLength =>
                  send "install-progress"
                    (pwr_progress (pwr_percent totalLength downloadedLength)
                                  totalLength downloadedLength)) ;;
              send "install-progress"
                (pwr_progress (int 100) totalLength downloadedLength) ;;
              ret (Some tempPWRPath)
          end
    end)
  (fun _ => ret None).

Definition patching (percent : number) : payload :=
  Progress (mkProgress "patching" percent None None).

(** The "line" listener of [applyPWR] over the lines of the tool's
    standard output, lines 166-199. *)
Fixpoint readLines (lines : list string) : M unit :=
  match lines with
  | [] => ret tt
  | line :: rest =>
      match onLine (JSON_parse E) line with
      | Some p => send "install-progress" (Progress p)
      | None => ret tt
      end ;;
      readLines rest
  end.

(** [applyPWR], lines 122-221.  The promise is rejected by the "error"
    listener and resolved by the "close" listener.  A child process that
    could not be started emits "close" after "error": the "close" listener
    then sends its "patching" 100 when the promise is rejected already and
    the code that awaited it has run ([Later]); its [resolve] does
    nothing. *)
Definition applyPWR (pwrPath butlerPath installDir : path) : M path :=
  let stagingDir := (installDir ++ ["staging-temp"])%list in
  (e <- existsSync installDir ;;
   if negb e then fs_do (Fs.mkdir installDir) else ret tt) ;;
  (e <- existsSync stagingDir ;;
   if negb e then fs_do (Fs.mkdir stagingDir) else ret tt) ;;
  send "install-progress" (patching (int (-1))) ;;
  let args := ["apply"; "--json"; "--staging-dir"; path_string stagingDir;
               path_string pwrPath; path_string installDir] in
  emit (Spawn butlerPath args) ;;
  r <- (fun w => let '(r, n) := spawn E butlerPath args (fs w) in
                 (Ok r, mkWorld n (log w))) ;;
  match r with
  | SpawnError e =>
      emit (Later "install-progress" (patching (int 100))) ;;
      throw e
  | Exited stdout code =>
      readLines stdout ;;
      send "install-progress" (patching (int 100)) ;;
      ret installDir
  end.

(** A boolean-or-undefined in a condition. *)
Definition truthy_bool (b : option bool) : bool :=
  match b with Some true => true | _ => false end.

(** Retiring the old "latest" build, [installGame] lines 234-260. *)
Definition retireLatest (gameDir : path) (version : GameVersion) : M unit :=
  if VersionType_eqb (type version) release && truthy_bool (isLatest version)
  then
    let latestDir := getLatestDir gameDir in
    e <- existsSync latestDir ;;
    if e then
      existing <- fs_get (fun n => Ok (readInstallManifest latestDir n)) ;;
      match existing with
      | Some existing =>
          if negb (m_build_index existing =? build_index version) then
            let targetBuildDir :=
              getReleaseBuildDir gameDir (m_build_index existing) in
            e' <- existsSync targetBuildDir ;;
            if e' then fs_do (Fs.rm_rf latestDir)
            else
              fs_do (Fs.mkdir (dirname targetBuildDir)) ;;
              fs_do (Fs.rename latestDir targetBuildDir)
          else ret tt
      | None => ret tt
      end
    else ret tt
  else ret tt.

Definition callInstallButler : M (option path) :=
  emit CallInstallButler ;;
  (fun w => let '(r, n) := installButler E (fs w) in
            (Ok r, mkWorld n (log w))).

Definition callInstallJRE (gameDir : path) : M (option path) :=
  emit (CallInstallJRE gameDir) ;;
  (fun w => let '(r, n) := installJRE E gameDir (fs w) in
            (r, mkWorld n (log w))).

(** What [installGame] has found when it decides whether to patch. *)
Record Findings : Type := mkFindings {
  installDir : path;
  found : Installation;
  alreadyOnThisBuild : bool
}.

(** [installGame] lines 232-278: migration, retirement, the look at the
    install directory, and the runtime. *)
Definition inspect (gameDir : path) (version : GameVersion) : M Findings :=
  fs_do (migrateLegacyChannelInstallIfNeeded E gameDir (type version)) ;;
  retireLatest gameDir version ;;
  let installDir := resolveInstallDir gameDir version in
  inst <- fs_get (fun n => Ok (checkGameInstallation E gameDir version n)) ;;
  installedManifest <-
    fs_get (fun n => Ok (readInstallManifest installDir n)) ;;
  let alreadyOnThisBuild :=
    match installedManifest with
    | Some m => m_build_index m =? build_index version
    | None => false
    end in
  fs_do (Fs.mkdir gameDir) ;;
  send "install-started" NoPayload ;;
  (if negb (jre inst) then
     jrePath <- callInstallJRE gameDir ;;
     match jrePath with
     | None => throw (JsError "Failed to install JRE")
     | Some _ => ret tt
     end
   else ret tt) ;;
  ret (mkFindings installDir inst alreadyOnThisBuild).

(** The patch steps, written twice in [installGame]: lines 286-308 and
    lines 316-335. *)
Definition patchGame (gameDir : path) (version : GameVersion)
  (installDir : path) : M unit :=
  butlerPath <- callInstallButler ;;
  match butlerPath with
  | None => throw (JsError "Failed to install butler")
  | Some butlerPath =>
      tempPWRPath <- downloadPWR gameDir version ;;
      match tempPWRPath with
      | None => throw (JsError "Failed to download PWR")
      | Some tempPWRPath =>
          gameFinalDir <- applyPWR tempPWRPath butlerPath installDir ;;
          match gameFinalDir with
          | [] => throw (JsError "Failed to apply PWR")
          | _ :: _ =>
              fs_do (Fs.unlink tempPWRPath) ;;
              writeInstallManifest installDir version ;;
              ensureClientExecutable installDir
          end
      end
  end.

(** [installGame] lines 280-339: the decision. *)
Definition patchIfNeeded (gameDir : path) (version : GameVersion)
  (f : Findings) : M unit :=
  if negb (alreadyOnThisBuild f) then
    patchGame gameDir version (installDir f)
  else if negb (client (found f)) || negb (server (found f)) then
    patchGame gameDir version (installDir f)
  else ret tt.

(** [installGame], lines 223-353. *)
Definition installGame (gameDir : path) (version : GameVersion) : M bool :=
  try_catch (
    f <- inspect gameDir version ;;
    patchIfNeeded gameDir version f ;;
    send "install-finished" (Version version) ;;
    ret true)
  (fun error =>
    send "install-error" (Message (message_of error)) ;;
    ret false).

End Install.

(* ===================================================================== *)
(** * [onlinePatch.ts] *)
(* ===================================================================== *)

Inductive PatchStatus : Type := patched | skipped | up_to_date.

Section OnlinePatch.

Variable E : Env.

(** [normalizeHash], line 12. *)
Definition normalizeHash (h : string) : string :=
  Str.toUpperCase (Str.trim h).

(** [sha256File], lines 14-22. *)
Definition sha256File (filePath : path) : M string :=
  c <- fs_get (Fs.read filePath) ;;
  ret (sha256 E c).

(** [getClientPath], lines 24-28. *)
Definition getClientPath (gameDir : path) (version : GameVersion) : path :=
  (gameDir ++ ["game"; type_name (type version); "Client";
               clientName (platform E)])%list.

Definition online_progress (percent totalLength : number) (current : Z)
  : payload :=
  Progress (mkProgress "online-patch" percent
              (if Number.gt totalLength (int 0) then Some totalLength else None)
              (Some (int current))).

(** The percentage of the "data" listener, lines 53-56. *)
Definition online_percent (totalLength : number) (downloadedLength : Z)
  : number :=
  if Number.gt totalLength (int 0)
  then Number.round
         (Number.mul (Number.div (int downloadedLength) totalLength) (int 100))
  else int (-1).

(** [downloadFileWithProgress], lines 30-87. *)
Definition downloadFileWithProgress (address : string) (outPath : path)
  (progressChannel : string) : M unit :=
  emit (Fetch address) ;;
  match fetch E address with
  | Throw e => throw e
  | Ok response =>
      if negb (ok response)
      then throw (JsError ("Failed to download patch: "
                           ++ Str.of_Z (status response)))
      else
        match body response with
        | None => throw (JsError "No response body")
        | Some b =>
            let contentLength := content_length response in
            let totalLength :=
              match contentLength with
              | Some s => if Str.is_empty s then int 0 else parseInt s
              | None => int 0
              end in
            send progressChannel
              (online_progress
                 (if Number.gt totalLength (int 0) then int 0 else int (-1))
                 totalLength 0) ;;
            downloadedLength <-
              pipeline b outPath (fun downloadedLength =>
                send progressChannel
                  (online_progress (online_percent totalLength downloadedLength)
                                   totalLength downloadedLength)) ;;
            send progressChannel
              (online_progress (int 100) totalLength downloadedLength)
        end
  end.

Definition tempPath (clientPath : path) (version : GameVersion) : path :=
  (dirname clientPath ++
   [("temp_online_patch_" ++ Str.of_Z (build_index version)
     ++ (if String.eqb (platform E) "win32" then ".exe" else ""))%string])%list.

(** The [try] block of [patchOnlineClientIfNeeded], lines 110-152. *)
Definition patchOnlineClient (clientPath : path) (address expectedHash : string)
  (version : GameVersion) (progressChannel : string) : M PatchStatus :=
  currentHash <-
    try_catch (h <- sha256File clientPath ;; ret (Some h))
              (fun _ => ret None) ;;
  if truthy_string currentHash
     && String.eqb (normalizeHash (match currentHash with
                                   | Some h => h | None => "" end))
                   (normalizeHash expectedHash)
  then ret up_to_date
  else
    let tempPath := tempPath clientPath version in
    downloadFileWithProgress address tempPath progressChannel ;;
    downloadedHash <- sha256File tempPath ;;
    if negb (String.eqb (normalizeHash downloadedHash)
                        (normalizeHash expectedHash))
    then
      ignoring (fs_do (Fs.unlink tempPath)) ;;
      throw (JsError "Patch hash mismatch (SHA256)")
    else
      ignoring (fs_do (Fs.unlink clientPath)) ;;
      try_catch (fs_do (Fs.rename tempPath clientPath))
        (fun _ =>
           fs_do (Fs.copyFile tempPath clientPath) ;;
           ignoring (fs_do (Fs.unlink tempPath))) ;;
      ret patched.

(** [patchOnlineClientIfNeeded], lines 89-158. *)
Definition patchOnlineClientIfNeeded (gameDir : path) (version : GameVersion)
  (progressChannel : string) : M PatchStatus :=
  if negb (String.eqb (platform E) "win32") then ret skipped
  else
    let address := patch_url version in
    let expectedHash := patch_hash version in
    if negb (truthy_string address) || negb (truthy_string expectedHash)
    then ret skipped
    else
      match address, expectedHash with
      | Some address, Some expectedHash =>
          let clientPath := getClientPath gameDir version in
          e <- existsSync clientPath ;;
          if negb e then ret skipped
          else
            try_catch
              (patchOnlineClient clientPath address expectedHash version
                                 progressChannel)
              (fun e =>
                 let msg := message_of e in
                 send "online-patch-error" (Message msg) ;;
                 ret skipped)
      | _, _ => ret skipped
      end.

End OnlinePatch.

(* ===================================================================== *)
(** * The words of the specification *)
(* ===================================================================== *)

(** [needle] occurs in [hay] up to the case of letters. *)
Definition occurs_ignoring_case (needle hay : string) : Prop :=
  exists pre mid post,
    hay = (pre ++ mid ++ post)%string
    /\ Str.toLowerCase mid = Str.toLowerCase needle.

(** "clamped to [0,100]", of a number that is not [NaN]. *)
Definition clamped (v : number) : Q :=
  match v with
  | Num q => Qmax 0 (Qmin 100 q)
  | PInf => 100
  | _ => 0
  end.

(** "Values in (0,1] are interpreted as a fraction and scaled x100": the
    product is a double. *)
Definition scaled (v : number) : number :=
  match v with
  | Num q =>
      if Qlt_le_dec 0 q
      then (if Qlt_le_dec 1 q then v else Double.round (q * 100))
      else v
  | _ => v
  end.

(** "the [k] field" of a parsed value: the value of the member named [k]
    of an object, the last one if the text has several; a value that is
    not an object has none. *)
Inductive field (k : string) : json -> json -> Prop :=
| field_here (v : json) (rest : list (string * json)) :
    (forall v', ~ In (k, v') rest) ->
    field k (JObj ((k, v) :: rest)) v
| field_later (k' : string) (v' v : json) (rest : list (string * json)) :
    field k (JObj rest) v -> field k (JObj ((k', v') :: rest)) v.

(** "it has a numeric [k] field" *)
Definition numeric (k : string) (obj : json) : Prop :=
  exists n, field k obj (JNum n).

(** "its type field contains "progress" (case-insensitive)" *)
Definition type_mentions_progress (obj : json) : Prop :=
  exists t, field "type" obj (JStr t)
            /\ occurs_ignoring_case "progress" t.

(** "classified as a progress record" *)
Definition progress_record (obj : json) : Prop :=
  type_mentions_progress obj
  \/ numeric "percentage" obj
  \/ numeric "percent" obj.

(** "read from percentage, else percent, else progress, in that priority
    order" *)
Inductive value_read (obj : json) : number -> Prop :=
| read_percentage (n : number) :
    field "percentage" obj (JNum n) ->
    value_read obj (Double.of_literal n)
| read_percent (n : number) :
    ~ numeric "percentage" obj ->
    field "percent" obj (JNum n) ->
    value_read obj (Double.of_literal n)
| read_progress (n : number) :
    ~ numeric "percentage" obj -> ~ numeric "percent" obj ->
    field "progress" obj (JNum n) ->
    value_read obj (Double.of_literal n).

(** "the value ... is clamped to [0,100], rounded", after the scaling. *)
Definition forwarded_percent (v : number) : Z :=
  Qfloor (clamped (scaled v) + (1 # 2)).

(** "a line is forwarded as a progress event iff it parses as JSON and ...
    is classified as a progress record", with the value [v] that is read;
    "non-numeric or NaN values produce no event", and a blank line is not
    parsed. *)
Definition accepted (parse : string -> option json) (line : string)
  (v : number) : Prop :=
  Str.trim line <> ""
  /\ exists obj,
       parse (Str.trim line) = Some obj
       /\ progress_record obj
       /\ value_read obj v
       /\ v <> NaN.


(** The percentages of the progress events of phase [ph], in order. *)
Definition percent_of (ph : string) (e : effect) : option number :=
  match e with
  | Send _ (Progress p) =>
      if String.eqb (phase p) ph then Some (percent p) else None
  | _ => None
  end.

Fixpoint percents (ph : string) (l : list effect) : list number :=
  match l with
  | [] => []
  | e :: l' =>
      match percent_of ph e with
      | Some p => p :: percents ph l'
      | None => percents ph l'
      end
  end.

(** "[-1], or within [0,100]" *)
Definition in_range (p : number) : Prop :=
  p = int (-1) \/ exists k, p = int k /\ 0 <= k <= 100.

(** "the last event of a phase that was started has [percent = 100]" *)
Definition ends_at_100 (ps : list number) : Prop :=
  ps <> [] -> last ps NaN = int 100.

Fixpoint total_bytes (cs : list string) : Z :=
  match cs with
  | [] => 0
  | chunk :: rest => Z.of_nat (String.length chunk) + total_bytes rest
  end.

(** The body of the response does not carry more bytes than its
    [content-length] header declares. *)
Definition within_declared_length (r : result Response) : Prop :=
  match r with
  | Ok response =>
      match body response, content_length response with
      | Some b, Some s =>
          match parseInt s with
          | Num t => (0 < t -> inject_Z (total_bytes (chunks b)) <= t)%Q
          | _ => True
          end
      | _, _ => True
      end
  | Throw _ => True
  end.

(** The events an invocation adds to the log. *)
Definition events {A} (m : M A) (w : World) : list effect :=
  skipn (List.length (log w)) (log (snd (m w))).

(** The values of [downloadedLength] that the "data" listener sees. *)
Fixpoint running (downloadedLength : Z) (cs : list string) : list Z :=
  match cs with
  | [] => []
  | chunk :: rest =>
      let downloadedLength :=
        downloadedLength + Z.of_nat (String.length chunk) in
      downloadedLength :: running downloadedLength rest
  end.

(** What the pipeline leaves in the file it writes: every byte that
    arrived when the stream ended, the bytes flushed when it failed. *)
Definition written (b : Body) : content :=
  let arrived := String.concat "" (chunks b) in
  Raw (match failure b with
       | Some _ => substring 0 (flushed b) arrived
       | None => arrived
       end).

(** [totalLength] of [downloadPWR]. *)
Definition pwr_total (response : Response) : option number :=
  if truthy_string (content_length response)
  then option_map parseInt (content_length response) else None.

(** [totalLength] of [downloadFileWithProgress]. *)
Definition online_total (response : Response) : number :=
  match content_length response with
  | Some s => if Str.is_empty s then int 0 else parseInt s
  | None => int 0
  end.

(** The events of a download of [downloadPWR] up to the end of the
    stream. *)
Definition pwr_started (address : string) (response : Response) (b : Body)
  : list effect :=
  let totalLength := pwr_total response in
  ([Fetch address;
    Send "install-progress"
      (pwr_progress (if is_truthy totalLength then int 0 else int (-1))
                    totalLength 0)]
   ++ map (fun d => Send "install-progress"
                      (pwr_progress (pwr_percent totalLength d) totalLength d))
          (running 0 (chunks b)))%list.

(** The events of a download of [downloadFileWithProgress] up to the end
    of the stream. *)
Definition online_started (address channel : string) (response : Response)
  (b : Body) : list effect :=
  let totalLength := online_total response in
  ([Fetch address;
    Send channel
      (online_progress
         (if Number.gt totalLength (int 0) then int 0 else int (-1))
         totalLength 0)]
   ++ map (fun d => Send channel
                      (online_progress (online_percent totalLength d)
                                       totalLength d))
          (running 0 (chunks b)))%list.

(** The events of the "line" listener over the lines of the tool. *)
Definition line_events (parse : string -> option json) (lines : list string)
  : list effect :=
  flat_map (fun line =>
              match onLine parse line with
              | Some p => [Send "install-progress" (Progress p)]
              | None => []
              end) lines.

(** [if (!fs.existsSync(p)) fs.mkdirSync(p, { recursive: true })] on the
    tree. *)
Definition ensureDir (p : path) (n : node) : result node :=
  if Fs.exists_ p n then Ok n else Fs.mkdir p n.

(** The arguments [applyPWR] gives the patch tool. *)
Definition butlerArgs (pwrPath installDir : path) : list string :=
  ["apply"; "--json"; "--staging-dir";
   path_string (installDir ++ ["staging-temp"])%list;
   path_string pwrPath; path_string installDir].

(** The three phases of [ProgressEvent]. *)
Definition phases : list string := ["pwr-download"; "patching"; "online-patch"].

(** The progress claim as the specification words it, of the events of one
    invocation. *)
Definition progress_claim (evs : list effect) : Prop :=
  forall ph, In ph phases ->
    Forall in_range (percents ph evs) /\ ends_at_100 (percents ph evs).

(* ===================================================================== *)
(** * Sample worlds *)
(* ===================================================================== *)

Module Sample.

Definition quote : string := String (ascii_of_nat 34) EmptyString.

(** The line [{"type":"Progress","percentage":0.5}]. *)
Definition progress_line : string :=
  ("{" ++ quote ++ "type" ++ quote ++ ":" ++ quote ++ "Progress" ++ quote
   ++ "," ++ quote ++ "percentage" ++ quote ++ ":0.5}")%string.

(** A parser that knows [progress_line] only. *)
Definition parse (s : string) : option json :=
  if String.eqb s progress_line
  then Some (JObj [("type", JStr "Progress");
                   ("percentage", JNum (Num (1 # 2)))])
  else None.

(** The descriptor of the end-to-end scenario of the specification. *)
Definition b3 : GameVersion :=
  mkVersion "https://x/b3.patch" release 3 "b3" (Some true) None None.

Definition gameDir : path := ["games"].

Definition latest : path := ["games"; "game"; "release"; "latest"].

(** An empty game root. *)
Definition start : World := mkWorld (Dir [("games", Dir [])]) [].

Definition response (len : option string) (cs : list string)
  (failure : option thrown) : Response :=
  mkResponse true 200 "OK" len (Some (mkBody cs failure 0)).

(** A catalogue that serves twenty bytes in two chunks. *)
Definition serve (len : option string) (failure : option thrown)
  (address : string) : result Response :=
  Ok (response len ["0123456789"; "abcdefghij"] failure).

Definition put_content (p : path) (c : content) (n : node) : node :=
  match Fs.mkdir (dirname p) n with
  | Ok n1 => match Fs.write p c n1 with Ok n2 => n2 | Throw _ => n1 end
  | Throw _ => n
  end.

Definition put_file (p : path) (c : string) (n : node) : node :=
  put_content p (Raw c) n.

(** A game root whose "latest" directory records the build [build], with
    a client and a server when [binaries], with a runtime when
    [runtime]. *)
Definition root (build : Z) (binaries runtime : bool) : node :=
  let n0 :=
    put_content (latest ++ [manifestName])%list
                (Manifest (mkManifest build (Some "b")))
                (Dir [("games", Dir [])]) in
  let n1 :=
    if binaries
    then put_file (latest ++ ["Server"; "HytaleServer.jar"])%list "server"
           (put_file (latest ++ ["Client"; "HytaleClient"])%list "client" n0)
    else n0 in
  if runtime
  then match Fs.mkdir ["games"; "jre"] n1 with Ok n2 => n2 | Throw _ => n1 end
  else n1.

(** A patch tool that prints [stdout] and exits with [code]; when [works]
    it leaves a client and a server under "latest". *)
Definition tool (works : bool) (stdout : list string) (code : option Z)
  (command : path) (args : list string) (n : node) : SpawnResult * node :=
  (Exited stdout code,
   if works
   then put_file (latest ++ ["Server"; "HytaleServer.jar"])%list "server"
          (put_file (latest ++ ["Client"; "HytaleClient"])%list "client" n)
   else n).

(** A check that looks for the client, the server and a runtime
    directory. *)
Definition check (gameDir : path) (version : GameVersion) (n : node)
  : Installation :=
  let dir := resolveInstallDir gameDir version in
  mkInstallation
    (Fs.exists_ (dir ++ ["Client"; "HytaleClient"])%list n)
    (Fs.exists_ (dir ++ ["Server"; "HytaleServer.jar"])%list n)
    (Fs.exists_ (gameDir ++ ["jre"])%list n).

(** A runtime installer that creates the runtime directory. *)
Definition jreInstaller (gameDir : path) (n : node)
  : result (option path) * node :=
  match Fs.mkdir (gameDir ++ ["jre"])%list n with
  | Ok n' => (Ok (Some (gameDir ++ ["jre"])%list), n')
  | Throw e => (Ok None, n)
  end.

(** A runtime installer that fails. *)
Definition noJre (gameDir : path) (n : node) : result (option path) * node :=
  (Ok None, n).

Definition env (os : string) (net : string -> result Response)
  (butler : path -> list string -> node -> SpawnResult * node)
  (runtime : path -> node -> result (option path) * node) : Env :=
  mkEnv os net
    (fun c => match c with Raw s => s | Manifest _ => "" end)
    parse butler
    (fun n => (Some ["tools"; "butler"], n))
    runtime check
    (fun _ _ n => Ok n).

(** A version with a hot patch whose expected hash is ["ABC123"]. *)
Definition hot : GameVersion :=
  mkVersion "https://x/b3.patch" release 3 "b3" (Some true)
            (Some "https://x/client.exe") (Some "ABC123").

Definition clientExe : path :=
  ["games"; "game"; "release"; "Client"; "HytaleClient.exe"].

(** A tree whose Windows client holds [c]. *)
Definition installed (c : string) : World :=
  mkWorld (put_file clientExe c (Dir [])) [].

(** Windows, a catalogue that serves [served] in one chunk; the hash of a
    file is its text. *)
Definition windows (served : string) : Env :=
  env "win32" (fun _ => Ok (response None [served] None))
      (tool false [] (Some 0)) noJre.

(** Linux, a catalogue that declares [len] bytes and serves twenty, a tool
    that works and exits with [code]. *)
Definition linux (len : option string) (failure : option thrown)
  (code : option Z) : Env :=
  env "linux" (serve len failure)
      (tool true [progress_line; "done"] code) jreInstaller.

End Sample.

(** The environment [E] with a patch tool that behaves as that of [E] but
    reports the exit code [code]. *)
Definition with_exit_code (code : option Z) (E : Env) : Env :=
  mkEnv (platform E) (fetch E) (sha256 E) (JSON_parse E)
    (fun command args n =>
       match spawn E command args n with
       | (Exited stdout _, n') => (Exited stdout code, n')
       | r => r
       end)
    (installButler E) (installJRE E) (checkGameInstallation E)
    (migrateLegacyChannelInstallIfNeeded E).

(** "case-insensitive comparison" of two hex strings. *)
Definition same_ignoring_case (a b : string) : Prop :=
  Str.toUpperCase a = Str.toUpperCase b.

(** The hash comparison of the hot patch: both sides trimmed and put in
    upper case. *)
Definition hash_matches (actual expected : string) : Prop :=
  normalizeHash actual = normalizeHash expected.

(** "an IntegrityError with message "Patch hash mismatch" is raised", of an
    outcome. *)
Definition integrity_error_raised {A} (out : result A * World) : Prop :=
  fst out = Throw (JsError "Patch hash mismatch").

(** [m] only appends to the log: it adds [evs]. *)
Definition adds {A} (m : M A) (w : World) (evs : list effect) : Prop :=
  log (snd (m w)) = (log w ++ evs)%list.

(** Two programs that run alike. *)
Definition alike {A} (m m' : M A) : Prop := forall w, m w = m' w.

(** Two paths part ways below a common prefix. *)
Definition part (p q : path) : Prop :=
  exists base a b r1 r2,
    p = (base ++ a :: r1)%list /\ q = (base ++ b :: r2)%list /\ a <> b.

(** The directory of the client binary of [getClientPath], and the name of
    the temporary file of the hot patch. *)
Definition clientDir (gameDir : path) (version : GameVersion) : path :=
  (gameDir ++ ["game"; type_name (type version); "Client"])%list.

Definition tempName (E : Env) (version : GameVersion) : string :=
  ("temp_online_patch_" ++ Str.of_Z (build_index version)
   ++ (if String.eqb (platform E) "win32" then ".exe" else ""))%string.

(** How [installGame] ends: [true] and "install-finished", or the handler's
    [false] and "install-error". *)
Definition conclude (version : GameVersion) (out : result unit * World)
  : result bool * World :=
  match out with
  | (Ok _, w) =>
      (Ok true,
       mkWorld (fs w) (log w ++ [Send "install-finished" (Version version)]))
  | (Throw e, w) =>
      (Ok false,
       mkWorld (fs w)
               (log w ++ [Send "install-error" (Message (message_of e))]))
  end.

(** Migration and retirement: how [installGame] arrives at the tree it
    inspects. *)
Definition arrive (E : Env) (gameDir : path) (version : GameVersion)
  : M unit :=
  (fs_do (migrateLegacyChannelInstallIfNeeded E gameDir (type version)) ;;
   retireLatest gameDir version)%prog.

(** "the manifest's build_index differs from the target, or the manifest
    matches but a required client or server binary is missing" *)
Definition patch_required (manifest : option InstallManifest)
  (inst : Installation) (version : GameVersion) : Prop :=
  (forall m, manifest = Some m -> m_build_index m <> build_index version)
  \/ client inst = false \/ server inst = false.

(** The same of the findings of [inspect]. *)
Definition needed (f : Findings) : bool :=
  negb (alreadyOnThisBuild f)
  || negb (client (found f)) || negb (server (found f)).

(** [m] never takes anything back from the log. *)
Definition grows {A} (m : M A) : Prop :=
  forall w, exists evs, adds m w evs.

(** [m] sends nothing and leaves the log as it is. *)
Definition silent {A} (m : M A) : Prop :=
  forall w, log (snd (m w)) = log w.

(** The runtime step of [inspect]: nothing when the runtime is there, the
    call of [installJRE] otherwise. *)
Definition runtime_step (E : Env) (gameDir : path) (inst : Installation)
  (w : World) : result unit * World :=
  if jre inst then (Ok tt, w)
  else
    let w' n := mkWorld n (log w ++ [CallInstallJRE gameDir]) in
    match installJRE E gameDir (fs w) with
    | (Ok (Some _), n) => (Ok tt, w' n)
    | (Ok None, n) => (Throw (JsError "Failed to install JRE"), w' n)
    | (Throw e, n) => (Throw e, w' n)
    end.

(** Whether the manifest records the build of [version]. *)
Definition records (manifest : option InstallManifest)
  (version : GameVersion) : bool :=
  match manifest with
  | Some m => m_build_index m =? build_index version
  | None => false
  end.

(** The patch decision as the specification words it, of one invocation:
    the download and the subprocess happen exactly when patching is
    required, and an invocation that needs no patch reports success. *)
Definition patch_decision_claim (E : Env) (gameDir : path)
  (version : GameVersion) (w : World) : Prop :=
  let out := installGame E gameDir version w in
  let seen := fs (snd (arrive E gameDir version w)) in
  let required :=
    patch_required
      (readInstallManifest (resolveInstallDir gameDir version) seen)
      (checkGameInstallation E gameDir version seen) version in
  ((In (Fetch (url version)) (log (snd out))
    /\ exists command args, In (Spawn command args) (log (snd out)))
   <-> required)
  /\ (~ required -> fst out = Ok true).

Module Sample2.

(** Linux with a runtime installer that fails. *)
Definition noRuntime : Env :=
  Sample.env "linux" (Sample.serve (Some "20") None)
             (Sample.tool true [] (Some 0)) Sample.noJre.

(** The build [build] installed under "latest", the runtime missing. *)
Definition withoutRuntime (build : Z) : World :=
  mkWorld (Sample.root build true false) [].

(** A patch tool that installs the client and the server and removes the
    patch file it was given. *)
Definition consuming (command : path) (args : list string) (n : node)
  : SpawnResult * node :=
  let '(r, n1) := Sample.tool true [] (Some 0) command args n in
  (r, match Fs.rm_rf ["games"; "temp_3.pwr"] n1 with
      | Ok n2 => n2
      | Throw _ => n1
      end).

(** Linux with the tool [consuming]. *)
Definition cleanupFails : Env :=
  Sample.env "linux" (Sample.serve (Some "20") None) consuming
             Sample.jreInstaller.

(** A pre-release that is latest. *)
Definition p3 : GameVersion :=
  mkVersion "https://x/p3.patch" pre_release 3 "p3" (Some true) None None.

(** "latest" holds build 2, and [release/build-2] exists already. *)
Definition retiredBefore : World :=
  mkWorld (Sample.put_file
             ["games"; "game"; "release"; "build-2"; "keep"] "kept"
             (Sample.root 2 true true)) [].

(** Linux with a tool that installs nothing and exits with 1. *)
Definition brokenTool : Env :=
  Sample.env "linux" (Sample.serve (Some "20") None)
             (Sample.tool false [] (Some 1)) Sample.jreInstaller.

(** Linux with a tool that works; the runtime is never installed. *)
Definition worksOffline : Env :=
  Sample.env "linux" (Sample.serve (Some "20") None)
             (Sample.tool true [] (Some 0)) Sample.noJre.

(** An empty game root with a runtime. *)
Definition withRuntime : World :=
  mkWorld (Dir [("games", Dir [("jre", Dir [])])]) [].

End Sample2.

(** Retirement as the specification words it: whenever the version to
    install is latest and "latest" holds another build, the old "latest"
    goes to its numbered directory, or is deleted when that directory
    exists, which then stays as it is. *)
Definition retirement_claim (gameDir : path) (version : GameVersion)
  (w : World) : Prop :=
  isLatest version = Some true ->
  forall existing,
    readInstallManifest (getLatestDir gameDir) (fs w) = Some existing ->
    m_build_index existing <> build_index version ->
    let latest := getLatestDir gameDir in
    let numbered := getReleaseBuildDir gameDir (m_build_index existing) in
    let after := fs (snd (retireLatest gameDir version w)) in
    Fs.lookup latest after = None
    /\ (Fs.exists_ numbered (fs w) = false ->
        Fs.lookup numbered after = Fs.lookup latest (fs w))
    /\ (Fs.exists_ numbered (fs w) = true ->
        Fs.lookup numbered after = Fs.lookup numbered (fs w)).

(** [<gameRoot>/game/release] *)
Definition releaseDir (gameDir : path) : path :=
  (gameDir ++ ["game"; "release"])%list.

(** Idempotence as the specification words it: after a first invocation
    that reports success, a second one on the tree it left reports success
    without a request and without a subprocess. *)
Definition idempotence_claim (E : Env) (gameDir : path)
  (version : GameVersion) (w : World) : Prop :=
  let first := installGame E gameDir version w in
  fst first = Ok true ->
  let second :=
    installGame E gameDir version (mkWorld (fs (snd first)) []) in
  fst second = Ok true
  /\ forall e, In e (log (snd second)) ->
       match e with
       | Fetch _ | Spawn _ _ => False
       | _ => True
       end.

(** The runtime installer leaves the manifest of [dir] as it is. *)
Definition keeps_manifest (E : Env) (gameDir dir : path) : Prop :=
  forall n,
    readInstallManifest dir (snd (installJRE E gameDir n))
    = readInstallManifest dir n.

(* ===================================================================== *)
(** * Further words for the properties of the code *)
(* ===================================================================== *)

(** [m] only appends to the log, and what it appends satisfies [ok]. *)
Definition only (ok : effect -> Prop) {A} (m : M A) : Prop :=
  forall w, exists evs, adds m w evs /\ Forall ok evs.


(** The events of the patch tool's step. *)
Definition apply_trace (E : Env) (pwrPath butlerPath installDir : path)
  (n : node) : list effect :=
  match ensureDir installDir n with
  | Throw _ => []
  | Ok n0 =>
      match ensureDir (installDir ++ ["staging-temp"])%list n0 with
      | Throw _ => []
      | Ok n1 =>
          let args := butlerArgs pwrPath installDir in
          Send "install-progress" (patching (int (-1)))
          :: Spawn butlerPath args
          :: match fst (spawn E butlerPath args n1) with
             | SpawnError _ =>
                 [Later "install-progress" (patching (int 100))]
             | Exited stdout _ =>
                 (line_events (JSON_parse E) stdout
                 ++ [Send "install-progress" (patching (int 100))])%list
             end
      end
  end.

(** The events of the patch steps. *)
Definition patch_trace (E : Env) (gameDir : path) (version : GameVersion)
  (dir : path) (w : World) : list effect :=
  let tool := installButler E (fs w) in
  let w2 := mkWorld (snd tool) (log w ++ [CallInstallButler]) in
  let download := downloadPWR E gameDir version w2 in
  CallInstallButler
  :: match fst tool with
     | None => []
     | Some butlerPath =>
         (events (downloadPWR E gameDir version) w2
         ++ match fst download with
            | Ok (Some temp) =>
                apply_trace E temp butlerPath dir (fs (snd download))
            | _ => []
            end)%list
     end.





(** How an invocation of [installGame] can begin. *)
Definition install_start (gameDir : path) (start : list effect) : Prop :=
  start = []
  \/ start = [Send "install-started" NoPayload]
  \/ start = [Send "install-started" NoPayload; CallInstallJRE gameDir].


(** "the percentage of the [d] bytes that have arrived of the [t] that
    were declared", as a whole number [k]: within a half of the exact
    percentage, up to the error of the two floating-point operations
    (less than [2^-45]). *)
Definition near_percentage (t d k : Z) : Prop :=
  (inject_Z k - (1 # 2) - Double.pow2 (-45) <= 100 * inject_Z d / inject_Z t
   /\ 100 * inject_Z d / inject_Z t
      <= inject_Z k + (1 # 2) + Double.pow2 (-45))%Q.

(** Percentages that never fall. *)
Definition rising (ps : list number) : Prop :=
  StronglySorted (fun a b => Number.le a b = true) ps.

(** What a download reports after [d] bytes of a declared [t]: while no
    more than [t] bytes have arrived, a whole number of [0,100] near the
    exact percentage. *)
Definition reports (t d : Z) (p : number) : Prop :=
  d <= t -> exists k, p = int k /\ 0 <= k <= 100 /\ near_percentage t d k.

(** The closing event of [downloadPWR], sent when it returns the path. *)
Definition pwr_closing (out : result (option path) * World) : list number :=
  match fst out with
  | Ok (Some _) => [int 100]
  | _ => []
  end.

(** The closing event of [downloadFileWithProgress], sent when it
    returns. *)
Definition online_closing (out : result unit * World) : list number :=
  match fst out with
  | Ok _ => [int 100]
  | Throw _ => []
  end.

Module Sample5.

(** The line [{"percentage":0.015}]. *)
Definition small_line : string :=
  ("{" ++ Sample.quote ++ "percentage" ++ Sample.quote ++ ":0.015}")%string.

(** A parser that knows [small_line] and [Sample.progress_line]. *)
Definition parse (s : string) : option json :=
  if String.eqb s small_line
  then Some (JObj [("percentage", JNum (Num (15 # 1000)))])
  else Sample.parse s.


End Sample5.

Module Sample3.

(** Linux without a network: every request is rejected. *)
Definition offline : Env :=
  Sample.env "linux" (fun _ => Throw (JsError "fetch failed"))
             (Sample.tool true [] (Some 0)) Sample.jreInstaller.

End Sample3.

(* ===================================================================== *)
(** * [butler.ts] *)
(* ===================================================================== *)

Module Butler.

Section Butler.

Variable E : Env.

(** [META_DIRECTORY] of [../const], and [extract] of the package
    "extract-zip": an arbitrary function of the archive path, the target
    directory and the tree, which may throw. *)
Variable META_DIRECTORY : path.
Variable extract : path -> path -> node -> result node.

(** The table [url] at the key [process.platform], lines 30-42, for the
    platform names of Node. *)
Definition downloadUrl (os : string) : option string :=
  if String.eqb os "win32" then
    Some "https://broth.itch.zone/butler/windows-amd64/LATEST/archive/default"
  else if String.eqb os "linux" then
    Some "https://broth.itch.zone/butler/linux-amd64/LATEST/archive/default"
  else if String.eqb os "darwin" then
    Some "https://broth.itch.zone/butler/darwin-amd64/LATEST/archive/default"
  else None.

(** [response.arrayBuffer()]: the whole body, or the failure of its
    stream; a response without a body gives an empty buffer. *)
Definition arrayBuffer (response : Response) : M string :=
  match body response with
  | None => ret ""
  | Some b =>
      match failure b with
      | Some e => throw e
      | None => ret (String.concat "" (chunks b))
      end
  end.

Definition butlerPath : path := (META_DIRECTORY ++ ["tools"; "butler"])%list.

Definition zipPath : path := (butlerPath ++ ["butler.zip"])%list.

Definition binName : string :=
  if String.eqb (platform E) "win32" then "butler.exe" else "butler".

Definition binPath : path := (butlerPath ++ [binName])%list.

(** [installButler] from the request on, lines 44-63. *)
Definition download (downloadUrl : string) : M (option path) :=
  emit (Fetch downloadUrl) ;;
  match fetch E downloadUrl with
  | Throw e => throw e
  | Ok response =>
      if negb (ok response)
      then throw (JsError ("Failed to download Butler: "
                           ++ statusText response))
      else
        zipData <- arrayBuffer response ;;
        fs_do (Fs.write zipPath (Raw zipData)) ;;
        fs_do (extract zipPath butlerPath) ;;
        (if negb (String.eqb (platform E) "win32")
         then fs_do (Fs.chmod binPath 493)
         else ret tt) ;;
        fs_do (Fs.unlink zipPath) ;;
        ret (Some binPath)
  end.

(** [installButler], lines 7-71. *)
Definition installButler : M (option path) :=
  try_catch (
    (e <- existsSync butlerPath ;;
     if negb e then fs_do (Fs.mkdir butlerPath) else ret tt) ;;
    e <- existsSync binPath ;;
    if e then ret (Some binPath)
    else
      match downloadUrl (platform E) with
      | None =>
          throw (JsError ("Unsupported platform for butler: " ++ platform E))
      | Some downloadUrl => download downloadUrl
      end)
  (fun _ => ret None).

End Butler.

End Butler.

(** What [installButler] does up to the check for the binary: the tree
    after [if (!fs.existsSync(butlerPath)) fs.mkdirSync(butlerPath, ...)],
    when that does not throw. *)
Definition butler_ready (META_DIRECTORY : path) (n : node) : result node :=
  ensureDir (Butler.butlerPath META_DIRECTORY) n.

Module Sample4.

(** An archive tool that extracts nothing. *)
Definition extractsNothing (zip dir : path) (n : node) : result node := Ok n.

(** An archive tool that puts the binary [name] beside the archive. *)
Definition extracts (name : string) (zip dir : path) (n : node)
  : result node :=
  Fs.write (dir ++ [name])%list (Raw "binary") n.

(** An empty tree. *)
Definition empty : World := mkWorld (Dir []) [].

End Sample4.

(* ===================================================================== *)
(** * The custom UUID of the settings dialog *)
(* ===================================================================== *)

Module Settings.

(** [[0-9a-fA-F]] *)
Definition isHexDigit (c : ascii) : bool :=
  let n := nat_of_ascii c in
  ((48 <=? n)%nat && (n <=? 57)%nat)
  || ((65 <=? n)%nat && (n <=? 70)%nat)
  || ((97 <=? n)%nat && (n <=? 102)%nat).

(** [s.replace(/-/g, "")] *)
Fixpoint removeHyphens (s : string) : string :=
  match s with
  | EmptyString => EmptyString
  | String c s' =>
      if Ascii.eqb c "-" then removeHyphens s' else String c (removeHyphens s')
  end.

Fixpoint all (f : ascii -> bool) (s : string) : bool :=
  match s with
  | EmptyString => true
  | String c s' => f c && all f s'
  end.

(** [/^[0-9a-fA-F]{32}$/.test(s)] *)
Definition isHex32 (s : string) : bool :=
  (String.length s =? 32)%nat && all isHexDigit s.

(** [[0-9a-fA-F]{n}] at the head of [s]: what follows it. *)
Fixpoint hexRun (n : nat) (s : string) : option string :=
  match n with
  | O => Some s
  | S n' =>
      match s with
      | String c s' => if isHexDigit c then hexRun n' s' else None
      | EmptyString => None
      end
  end.

(** [-] at the head of [s]: what follows it. *)
Definition hyphen (s : string) : option string :=
  match s with
  | String c s' => if Ascii.eqb c "-" then Some s' else None
  | EmptyString => None
  end.

Definition andThen (r : option string) (f : string -> option string)
  : option string :=
  match r with Some s => f s | None => None end.

(** [/^[0-9a-fA-F]{8}-[0-9a-fA-F]{4}-[0-9a-fA-F]{4}-[0-9a-fA-F]{4}-[0-9a-fA-F]{12}$/.test(s)] *)
Definition isUUID (s : string) : bool :=
  match andThen (andThen (andThen (andThen (andThen (andThen (andThen
          (andThen (hexRun 8 s) hyphen) (hexRun 4)) hyphen) (hexRun 4)) hyphen)
          (hexRun 4)) hyphen) (hexRun 12) with
  | Some EmptyString => true
  | _ => false
  end.

(** [s.slice(a, b)] and [s.slice(a)] for [0 <= a <= b]. *)
Definition slice (s : string) (a b : nat) : string := substring a (b - a) s.

Definition sliceFrom (s : string) (a : nat) : string :=
  substring a (String.length s - a) s.

(** The template of line 20. *)
Definition hyphenated (lower : string) : string :=
  slice lower 0 8 ++ "-" ++ slice lower 8 12 ++ "-" ++ slice lower 12 16
  ++ "-" ++ slice lower 16 20 ++ "-" ++ sliceFrom lower 20.

(** [normalizedUUID], lines 13-28 of the settings dialog. *)
Definition normalizedUUID (customUUID : string) : string :=
  let raw := Str.trim customUUID in
  if Str.is_empty raw then ""
  else
    let compact := removeHyphens raw in
    if isHex32 compact then
      let lower := Str.toLowerCase compact in
      hyphenated lower
    else if isUUID raw then Str.toLowerCase raw
    else "__invalid__".

(** The effect of lines 46-57 on the entry "customUUID" of the local
    storage: removed when the field is blank, set when the field holds a
    UUID, left alone otherwise. *)
Definition persist (open : bool) (customUUID : string)
  (stored : option string) : option string :=
  if negb open then stored
  else
    let raw := Str.trim customUUID in
    if Str.is_empty raw then None
    else
      let n := normalizedUUID customUUID in
      if negb (Str.is_empty n) && negb (String.eqb n "__invalid__")
      then Some n
      else stored.

(** The effect of lines 40-44: the field when the dialog opens,
    [localStorage.getItem("customUUID") || ""]. *)
Definition load (stored : option string) : string :=
  match stored with
  | Some s => s
  | None => ""
  end.

(** Opening the dialog on the field [customUUID] as it was left.  The two
    effects run in the order of their declaration: the first (lines 40-44)
    reads the entry and sets the field; the second (lines 46-57) persists
    the field as it was left, which it still sees.  A field that the first
    effect has changed renders the dialog again, and the second effect
    runs once more, on the loaded field.  Gives the field, the entry
    between the two runs, and the entry in the end. *)
Record Opened : Type := mkOpened {
  loaded : string;
  interim : option string;
  final : option string
}.

Definition onOpen (customUUID : string) (stored : option string) : Opened :=
  let loaded := load stored in
  let between := persist true customUUID stored in
  mkOpened loaded between
    (if String.eqb loaded customUUID then between
     else persist true loaded between).

End Settings.

(** A UUID in the form the dialog stores: the pattern of line 23, in lower
    case. *)
Definition canonical (s : string) : bool :=
  Settings.isUUID s && String.eqb (Str.toLowerCase s) s.

(** The five groups of a UUID: their lengths, and the string they make
    with hyphens between them. *)
Definition grouped (p1 p2 p3 p4 p5 : string) : Prop :=
  (String.length p1 = 8 /\ String.length p2 = 4 /\ String.length p3 = 4
   /\ String.length p4 = 4 /\ String.length p5 = 12)%nat.

Definition joined (p1 p2 p3 p4 p5 : string) : string :=
  p1 ++ "-" ++ p2 ++ "-" ++ p3 ++ "-" ++ p4 ++ "-" ++ p5.

(** The entry "customUUID" of the local storage is absent or holds a
    canonical UUID. *)
Definition well_stored (stored : option string) : Prop :=
  match stored with
  | Some u => canonical u = true
  | None => True
  end.

(** The white space of ASCII: TAB, LF, VT, FF, CR and SPACE. *)
Definition ascii_space (c : ascii) : Prop :=
  In (nat_of_ascii c) [9; 10; 11; 12; 13; 32]%nat.

(** A string of white space only. *)
Fixpoint blank (s : string) : Prop :=
  match s with
  | EmptyString => True
  | String c s' => ascii_space c /\ blank s'
  end.

(** [name] begins and ends with a character that is not white space. *)
Definition visible_ends (name : string) : Prop :=
  (exists c rest, name = String c rest /\ ~ ascii_space c)
  /\ (exists front d, name = front ++ String d "" /\ ~ ascii_space d).

(** [name] is [s] "without the white space around it": [s] is [name]
    between two blank strings, and [name] has visible ends. *)
Definition trimmed_to (s name : string) : Prop :=
  exists pre post,
    s = pre ++ name ++ post /\ blank pre /\ blank post /\ visible_ends name.

(* ===================================================================== *)
(** * [logger.ts] *)
(* ===================================================================== *)

Module Logger.

Section Logger.

(** [LOGS_DIRECTORY] of [./const]. *)
Variable LOGS_DIRECTORY : path.

(** [`${baseName}_session-${session}.log`] in the log directory,
    lines 20 and 25. *)
Definition logName (baseName : string) (session : Z) : string :=
  baseName ++ "_session-" ++ Str.of_Z session ++ ".log".

Definition logPath (baseName : string) (session : Z) : path :=
  (LOGS_DIRECTORY ++ [logName baseName session])%list.

(** The loop of lines 23-26, from [session] on, for at most [fuel]
    probes: [None] when the probes are used up. *)
Fixpoint probe (fuel : nat) (baseName : string) (session : Z) (n : node)
  : option path :=
  match fuel with
  | O => None
  | S fuel' =>
      if Fs.exists_ (logPath baseName session) n
      then probe fuel' baseName (session + 1) n
      else Some (logPath baseName session)
  end.

(** [getUniqueLogPath], lines 12-29, for the [baseName] that the clock
    gives. *)
Definition getUniqueLogPath (fuel : nat) (baseName : string) (n : node)
  : option path :=
  probe fuel baseName 1 n.

End Logger.

End Logger.

(** The entries of the directory [p], none when [p] is not a directory. *)
Definition listing (p : path) (n : node) : list (string * node) :=
  match Fs.lookup p n with
  | Some (Dir es) => es
  | _ => []
  end.

(* ===================================================================== *)
(** * [discord.ts] *)
(* ===================================================================== *)

Module Discord.

Record Button : Type := mkButton { label : string; target : string }.

(** [SetActivity], with the keys the launcher uses; [None] is
    [undefined]. *)
Record SetActivity : Type := mkActivity {
  startTimestamp : option Z;
  details : option string;
  state : option string;
  largeImageKey : option string;
  largeImageText : option string;
  smallImageKey : option string;
  smallImageText : option string;
  buttons : option (list Button)
}.

(** A key of an object literal: left out, or written with a value that
    may be [undefined]. *)
Inductive key (A : Type) : Type :=
| absent
| present (v : option A).

Arguments absent {A}.
Arguments present {A} v.

Record Literal : Type := mkLiteral {
  l_startTimestamp : key Z;
  l_details : key string;
  l_state : key string;
  l_largeImageKey : key string;
  l_largeImageText : key string;
  l_smallImageKey : key string;
  l_smallImageText : key string;
  l_buttons : key (list Button)
}.

Definition over {A} (old : option A) (k : key A) : option A :=
  match k with
  | absent => old
  | present v => v
  end.

(** [{ ...rpcActivity, ...activity }] *)
Definition spread (a : SetActivity) (l : Literal) : SetActivity :=
  mkActivity
    (over (startTimestamp a) (l_startTimestamp l))
    (over (details a) (l_details l))
    (over (state a) (l_state l))
    (over (largeImageKey a) (l_largeImageKey l))
    (over (largeImageText a) (l_largeImageText l))
    (over (smallImageKey a) (l_smallImageKey l))
    (over (smallImageText a) (l_smallImageText l))
    (over (buttons a) (l_buttons l)).

(** The module state [rpcActivity], and the activities given to
    [client.user.setActivity]. *)
Record Rpc : Type := mkRpc {
  rpcActivity : SetActivity;
  sent : list SetActivity
}.

Section Discord.

(** [dateElapsed], line 4: the clock when the module is loaded. *)
Variable dateElapsed : Z.

(** The initial [rpcActivity], lines 9-20. *)
Definition initial : SetActivity :=
  mkActivity (Some dateElapsed) (Some "Choosing Version") None
    (Some "butterlauncher") (Some "Butter Launcher") None None
    (Some [mkButton "Play Free Hytale" "https://butterlauncher.tech"]).

(** [setActivity], lines 46-55; [user] tells whether [client.user] is
    there.  A rejection of the call is caught and logged. *)
Definition setActivity (user : bool) (activity : option Literal) (st : Rpc)
  : Rpc :=
  let a :=
    match activity with
    | Some l => spread (rpcActivity st) l
    | None => rpcActivity st
    end in
  mkRpc a (if user then sent st ++ [a] else sent st)%list.

(** [setChoosingVersionActivity], lines 22-31. *)
Definition setChoosingVersionActivity (user : bool) (st : Rpc) : Rpc :=
  setActivity user
    (Some (mkLiteral (present (Some dateElapsed))
                     (present (Some "Choosing Version"))
                     (present None) absent absent
                     (present None) (present None) absent))
    st.

(** [setPlayingActivity], lines 33-44; [now] is [Date.now()]. *)
Definition setPlayingActivity (now : Z) (version : GameVersion)
  (user : bool) (st : Rpc) : Rpc :=
  let build :=
    if negb (Str.is_empty (build_name version)) then build_name version
    else "Build-" ++ Str.of_Z (build_index version) ++ " "
         ++ type_name (type version) in
  setActivity user
    (Some (mkLiteral (present (Some now))
                     (present (Some "Playing Hytale No-Premium"))
                     (present (Some build)) absent absent
                     (present (Some "hytale")) (present (Some "Hytale"))
                     absent))
    st.

(** The calls the launcher makes. *)
Inductive Call : Type :=
| Choosing (user : bool)
| Playing (now : Z) (version : GameVersion) (user : bool).

Definition step (st : Rpc) (c : Call) : Rpc :=
  match c with
  | Choosing user => setChoosingVersionActivity user st
  | Playing now version user => setPlayingActivity now version user st
  end.

Definition run (calls : list Call) : Rpc :=
  fold_left step calls (mkRpc initial []).

End Discord.

End Discord.

(** The activity shows the launcher: its image, the text of the image and
    its button. *)
Definition shows_launcher (a : Discord.SetActivity) : Prop :=
  Discord.largeImageKey a = Some "butterlauncher"
  /\ Discord.largeImageText a = Some "Butter Launcher"
  /\ Discord.buttons a
     = Some [Discord.mkButton "Play Free Hytale" "https://butterlauncher.tech"].

(* ===================================================================== *)
(** * The login form *)
(* ===================================================================== *)

Module Login.

(** What [handleSubmit] does, lines 10-18 of [Login.tsx]: the error it
    sets and the name it gives [onLogin], if it calls it. *)
Record Submitted : Type := mkSubmitted {
  error : string;
  onLogin : option string
}.

Definition handleSubmit (nick : string) : Submitted :=
  if Str.is_empty (Str.trim nick)
  then mkSubmitted "Enter your nickname" None
  else mkSubmitted "" (Some (Str.trim nick)).

End Login.

(* ===================================================================== *)
(** * Rounding to a double *)
(* ===================================================================== *)

Module DoubleFacts.

Import Double.
Local Open Scope Q_scope.

Lemma pow2_pos (e : Z) : 0 < pow2 e.
Proof. apply Qpower_0_lt. reflexivity. Qed.

Lemma pow2_plus (a b : Z) : pow2 (a + b) == pow2 a * pow2 b.
Proof. apply Qpower_plus. discriminate. Qed.

Lemma pow2_le (a b : Z) : (a <= b)%Z -> pow2 a <= pow2 b.
Proof. intros H. apply Qpower_le_compat_l; [exact H|discriminate]. Qed.

Lemma pow2_Z (n : Z) : (0 <= n)%Z -> pow2 n == inject_Z (2 ^ n).
Proof. intros H. unfold pow2. now rewrite Zpower_Qpower. Qed.

(** Rounding to the nearest integer. *)
Lemma nearest_even_comp (s s' : Q) :
  s == s' -> nearest_even s = nearest_even s'.
Proof.
  intros H. unfold nearest_even.
  rewrite (Qfloor_comp _ _ H).
  assert (Hc : (s - inject_Z (Qfloor s') ?= 1 # 2)
               = (s' - inject_Z (Qfloor s') ?= 1 # 2)).
  { apply Qcompare_comp; [now rewrite H|reflexivity]. }
  now rewrite Hc.
Qed.

Lemma nearest_even_bounds (s : Q) :
  (Qfloor s <= nearest_even s <= Qfloor s + 1)%Z.
Proof.
  unfold nearest_even.
  destruct (s - inject_Z (Qfloor s) ?= 1 # 2); [destruct (Z.even _)| |]; lia.
Qed.

Lemma nearest_even_Z (k : Z) : nearest_even (inject_Z k) = k.
Proof.
  unfold nearest_even. rewrite Qfloor_Z.
  assert (H : (inject_Z k - inject_Z k ?= 1 # 2) = Lt).
  { apply (proj1 (Qlt_alt _ _)). lra. }
  now rewrite H.
Qed.

Lemma nearest_even_mono (s s' : Q) :
  s <= s' -> (nearest_even s <= nearest_even s')%Z.
Proof.
  intros H.
  pose proof (Qfloor_resp_le _ _ H) as Hf.
  destruct (Z.eq_dec (Qfloor s) (Qfloor s')) as [Heq|Hne].
  - unfold nearest_even. rewrite Heq.
    destruct (s - inject_Z (Qfloor s') ?= 1 # 2) eqn:C1;
      destruct (s' - inject_Z (Qfloor s') ?= 1 # 2) eqn:C2;
      try (destruct (Z.even (Qfloor s'))); try lia;
      exfalso;
      try apply (proj2 (Qeq_alt _ _)) in C1;
      try apply (proj2 (Qlt_alt _ _)) in C1;
      try apply (proj2 (Qgt_alt _ _)) in C1;
      try apply (proj2 (Qeq_alt _ _)) in C2;
      try apply (proj2 (Qlt_alt _ _)) in C2;
      try apply (proj2 (Qgt_alt _ _)) in C2;
      lra.
  - pose proof (nearest_even_bounds s). pose proof (nearest_even_bounds s').
    lia.
Qed.

Lemma frac_lt (x y u v : Q) :
  0 < y -> 0 < v -> x * v < u * y -> x / y < u / v.
Proof.
  intros Hy Hv H. apply Qlt_shift_div_r; [exact Hy|].
  assert (E : u / v * y == u * y / v) by (field; lra).
  rewrite E. apply Qlt_shift_div_l; assumption.
Qed.

Lemma frac_le (x y u v : Q) :
  0 < y -> 0 < v -> x * v <= u * y -> x / y <= u / v.
Proof.
  intros Hy Hv H. apply Qle_shift_div_r; [exact Hy|].
  assert (E : u / v * y == u * y / v) by (field; lra).
  rewrite E. apply Qle_shift_div_l; assumption.
Qed.

Lemma log2_bounds (a : Z) :
  (0 < a)%Z ->
  pow2 (Z.log2 a) <= inject_Z a /\ inject_Z a < 2 * pow2 (Z.log2 a).
Proof.
  intros Ha. destruct (Z.log2_spec a Ha) as [H1 H2].
  pose proof (Z.log2_nonneg a) as H0.
  rewrite (pow2_Z _ H0). split.
  - now rewrite <- Zle_Qle.
  - rewrite Z.pow_succ_r in H2 by assumption.
    change 2 with (inject_Z 2). rewrite <- inject_Z_mult, <- Zlt_Qlt.
    exact H2.
Qed.

Lemma ilog2_spec (q : Q) :
  0 < q -> pow2 (ilog2 q) <= q /\ q < pow2 (ilog2 q + 1).
Proof.
  intros Hq. destruct q as [a b].
  assert (Ha : (0 < a)%Z) by (unfold Qlt in Hq; cbn in Hq; lia).
  destruct (log2_bounds a Ha) as [A1 A2].
  destruct (log2_bounds (Z.pos b) eq_refl) as [B1 B2].
  pose proof (pow2_pos (Z.log2 a)) as PA.
  pose proof (pow2_pos (Z.log2 (Z.pos b))) as PB.
  assert (Hb : 0 < inject_Z (Z.pos b)) by reflexivity.
  assert (Hia : 0 < inject_Z a) by (change 0 with (inject_Z 0); now rewrite <- Zlt_Qlt).
  assert (Eq : a # b == inject_Z a / inject_Z (Z.pos b)) by apply Qmake_Qdiv.
  unfold ilog2. cbn [Qnum Qden].
  set (la := Z.log2 a) in *. set (lb := Z.log2 (Z.pos b)) in *.
  assert (Ek : pow2 (la - lb) == pow2 la / pow2 lb)
    by (apply Qpower_minus; discriminate).
  assert (Ek1 : pow2 (la - lb + 1) == 2 * pow2 la / pow2 lb).
  { rewrite pow2_plus, Ek. change (pow2 1) with 2. field. lra. }
  assert (Ek0 : pow2 (la - lb - 1) == pow2 la / (2 * pow2 lb)).
  { replace (la - lb - 1)%Z with (la - lb + -1)%Z by lia.
    rewrite pow2_plus, Ek. change (pow2 (-1)) with (1 # 2).
    field. lra. }
  destruct (Qle_bool (pow2 (la - lb)) (a # b)) eqn:Hc.
  - apply Qle_bool_iff in Hc. split; [exact Hc|].
    rewrite Ek1, Eq. apply frac_lt; try assumption. nra.
  - assert (Hlt : a # b < pow2 (la - lb)).
    { apply Qnot_le_lt. intros H. apply Qle_bool_iff in H. congruence. }
    split.
    + rewrite Ek0, Eq. apply frac_le; try lra. nra.
    + now replace (la - lb - 1 + 1)%Z with (la - lb)%Z by lia.
Qed.

Lemma ilog2_mono (x y : Q) : 0 < x -> x <= y -> (ilog2 x <= ilog2 y)%Z.
Proof.
  intros Hx Hxy.
  destruct (ilog2_spec x Hx) as [X1 X2].
  destruct (ilog2_spec y ltac:(lra)) as [Y1 Y2].
  destruct (Z_le_gt_dec (ilog2 x) (ilog2 y)) as [H|H]; [exact H|].
  exfalso. pose proof (pow2_le (ilog2 y + 1) (ilog2 x) ltac:(lia)). lra.
Qed.

Lemma ulp_mono (x y : Q) : 0 < x -> x <= y -> (ulp x <= ulp y)%Z.
Proof.
  intros Hx Hxy. unfold ulp. pose proof (ilog2_mono x y Hx Hxy). lia.
Qed.

Lemma nearest_even_close (s : Q) :
  inject_Z (nearest_even s) - (1 # 2) <= s
  /\ s <= inject_Z (nearest_even s) + (1 # 2).
Proof.
  unfold nearest_even.
  pose proof (Qfloor_le s) as H1. pose proof (Qlt_floor s) as H2.
  rewrite inject_Z_plus in H2. change (inject_Z 1) with 1 in H2.
  destruct (s - inject_Z (Qfloor s) ?= 1 # 2) eqn:C;
    [apply (proj2 (Qeq_alt _ _)) in C; destruct (Z.even (Qfloor s))
    |apply (proj2 (Qlt_alt _ _)) in C
    |apply (proj2 (Qgt_alt _ _)) in C];
    rewrite ?inject_Z_plus; change (inject_Z 1) with 1; split; lra.
Qed.

Lemma scale_back (q : Q) (e : Z) : q / pow2 e * pow2 e == q.
Proof. pose proof (pow2_pos e). field. lra. Qed.

(** The double nearest to a positive rational is within half a unit in
    the last place of it. *)
Lemma nearest_close (q : Q) :
  nearest q - pow2 (ulp q) / 2 <= q /\ q <= nearest q + pow2 (ulp q) / 2.
Proof.
  unfold nearest. set (e := ulp q).
  pose proof (pow2_pos e) as He.
  destruct (nearest_even_close (q / pow2 e)) as [H1 H2].
  pose proof (scale_back q e) as Hq.
  set (n := inject_Z (nearest_even (q / pow2 e))) in *.
  set (s := q / pow2 e) in *.
  split.
  - rewrite <- Hq. 
    assert (E : n * pow2 e - pow2 e / 2 == (n - (1 # 2)) * pow2 e)
      by (field).
    rewrite E. apply Qmult_le_compat_r; lra.
  - rewrite <- Hq at 1.
    assert (E : n * pow2 e + pow2 e / 2 == (n + (1 # 2)) * pow2 e)
      by (field).
    rewrite E. apply Qmult_le_compat_r; lra.
Qed.

Lemma nearest_nonneg (q : Q) : 0 <= q -> 0 <= nearest q.
Proof.
  intros Hq. unfold nearest.
  pose proof (pow2_pos (ulp q)) as He.
  apply Qmult_le_0_compat; [|lra].
  change 0 with (inject_Z 0). rewrite <- Zle_Qle.
  rewrite <- (nearest_even_Z 0). apply nearest_even_mono.
  change (inject_Z 0) with 0.
  apply Qle_shift_div_l; lra.
Qed.

(** Rounding to the nearest double is monotone. *)
Lemma nearest_mono (x y : Q) : 0 < x -> x <= y -> nearest x <= nearest y.
Proof.
  intros Hx Hxy.
  pose proof (ulp_mono x y Hx Hxy) as He.
  pose proof (pow2_pos (ulp x)) as Px. pose proof (pow2_pos (ulp y)) as Py.
  destruct (Z.eq_dec (ulp x) (ulp y)) as [Heq|Hne].
  - unfold nearest. rewrite Heq.
    apply Qmult_le_compat_r; [|lra].
    rewrite <- Zle_Qle. apply nearest_even_mono.
    apply Qmult_le_compat_r; [exact Hxy|].
    apply Qlt_le_weak, Qinv_lt_0_compat, Py.
  - assert (Hlt : (ulp x < ulp y)%Z) by lia.
    assert (Ey : ulp y = (ilog2 y - 52)%Z) by (unfold ulp in *; lia).
    assert (Ex : (ilog2 x - 52 <= ulp x)%Z) by (unfold ulp; lia).
    destruct (ilog2_spec x Hx) as [_ X2].
    destruct (ilog2_spec y ltac:(lra)) as [Y1 _].
    assert (A : inject_Z (nearest_even (x / pow2 (ulp x))) <= pow2 53).
    { rewrite (pow2_Z 53) by lia. rewrite <- Zle_Qle.
      rewrite <- (nearest_even_Z (2 ^ 53)). apply nearest_even_mono.
      rewrite <- (pow2_Z 53) by lia.
      apply Qle_shift_div_r; [exact Px|].
      rewrite <- pow2_plus.
      apply Qle_trans with (pow2 (ilog2 x + 1)); [lra|].
      apply pow2_le. lia. }
    assert (B : pow2 52 <= inject_Z (nearest_even (y / pow2 (ulp y)))).
    { rewrite (pow2_Z 52) by lia. rewrite <- Zle_Qle.
      rewrite <- (nearest_even_Z (2 ^ 52)) at 1. apply nearest_even_mono.
      rewrite <- (pow2_Z 52) by lia.
      apply Qle_shift_div_l; [exact Py|].
      rewrite <- pow2_plus.
      replace (52 + ulp y)%Z with (ilog2 y) by lia. exact Y1. }
    apply Qle_trans with (pow2 53 * pow2 (ulp x)).
    { unfold nearest. apply Qmult_le_compat_r; lra. }
    apply Qle_trans with (pow2 52 * pow2 (ulp y)).
    { rewrite <- !pow2_plus. apply pow2_le. lia. }
    unfold nearest. apply Qmult_le_compat_r; lra.
Qed.

Lemma nearest_zero (q : Q) : q == 0 -> nearest q == 0.
Proof.
  intros C. unfold nearest.
  assert (E : nearest_even (q / pow2 (ulp q)) = 0%Z).
  { rewrite <- (nearest_even_Z 0). apply nearest_even_comp.
    change (inject_Z 0) with 0.
    transitivity (0 / pow2 (ulp q));
      [apply Qdiv_comp; [exact C|reflexivity]|unfold Qdiv; ring]. }
  rewrite E. ring.
Qed.

(** What [round] returns on a rational that is not negative. *)
Lemma round_nonneg (q : Q) :
  0 <= q ->
  (round q = PInf /\ pow2 1024 <= nearest q)
  \/ (exists r, round q = Num r /\ r == nearest q /\ 0 <= r
                /\ r < pow2 1024).
Proof.
  intros Hq. unfold round.
  destruct (q ?= 0) eqn:C.
  - right. exists 0. apply (proj2 (Qeq_alt _ _)) in C.
    split; [reflexivity|]. split; [symmetry; now apply nearest_zero|].
    split; [lra|apply pow2_pos].
  - apply (proj2 (Qlt_alt _ _)) in C. lra.
  - cbv zeta. destruct (Qle_bool (pow2 1024) (nearest q)) eqn:B.
    + left. apply Qle_bool_iff in B. now split.
    + right. exists (Qred (nearest q)).
      split; [reflexivity|]. split; [apply Qred_correct|].
      rewrite Qred_correct.
      split; [now apply nearest_nonneg|].
      apply Qnot_le_lt. intros H. apply Qle_bool_iff in H. congruence.
Qed.

Lemma nearest_mono0 (x y : Q) : 0 <= x -> x <= y -> nearest x <= nearest y.
Proof.
  intros Hx Hxy. destruct (Qlt_le_dec 0 x) as [H|H].
  - now apply nearest_mono.
  - rewrite (nearest_zero x) by lra. apply nearest_nonneg. lra.
Qed.

Lemma round_not_NaN (q : Q) : round q <> NaN.
Proof.
  unfold round. destruct (q ?= 0); cbv zeta;
    try destruct (Qle_bool _ _); discriminate.
Qed.

(** A result that does not exceed a double stays below it. *)
Lemma round_within (q y : Q) :
  0 <= q <= y -> nearest y == y -> y < pow2 1024 ->
  exists r, round q = Num r /\ r == nearest q /\ 0 <= r <= y.
Proof.
  intros [H0 Hy] Hrep Hfin.
  pose proof (nearest_mono0 q y H0 Hy) as Hm. rewrite Hrep in Hm.
  destruct (round_nonneg q H0) as [[_ Hbig]|(r & Hr & Hn & Hpos & _)].
  - lra.
  - exists r. split; [exact Hr|]. split; [exact Hn|]. split; lra.
Qed.

Lemma ilog2_below (q : Q) (k : Z) : 0 < q -> q < pow2 k -> (ilog2 q < k)%Z.
Proof.
  intros Hq Hk. destruct (ilog2_spec q Hq) as [H1 _].
  destruct (Z_lt_ge_dec (ilog2 q) k) as [H|H]; [exact H|].
  pose proof (pow2_le k (ilog2 q) ltac:(lia)). lra.
Qed.

(** The rounding error of a result below [2^k], in the normal range. *)
Lemma nearest_error (q : Q) (k : Z) :
  0 <= q -> q < pow2 k -> (-1021 <= k)%Z ->
  nearest q - pow2 (k - 54) <= q /\ q <= nearest q + pow2 (k - 54).
Proof.
  intros H0 Hk Hnormal. destruct (Qlt_le_dec 0 q) as [Hpos|Hzero].
  - pose proof (ilog2_below q k Hpos Hk) as Hlog.
    assert (Hulp : (ulp q <= k - 53)%Z) by (unfold ulp; lia).
    pose proof (pow2_le _ _ Hulp) as Hle.
    assert (Hhalf : pow2 (k - 53) / 2 == pow2 (k - 54)).
    { replace (k - 53)%Z with (k - 54 + 1)%Z by lia.
      rewrite pow2_plus. change (pow2 1) with 2. field. }
    destruct (nearest_close q) as [H1 H2].
    unfold Qdiv in Hhalf, H1, H2. change (/ 2) with (1 # 2) in Hhalf, H1, H2.
    split; lra.
  - pose proof (pow2_pos (k - 54)).
    rewrite (nearest_zero q) by lra. split; lra.
Qed.

Lemma nearest_1 : nearest 1 == 1.
Proof. vm_compute. reflexivity. Qed.

Lemma nearest_100 : nearest 100 == 100.
Proof. vm_compute. reflexivity. Qed.

Lemma below_overflow (q : Q) : q <= 100 -> q < pow2 1024.
Proof.
  intros H. apply Qle_lt_trans with (pow2 7); [change (pow2 7) with 128; lra|].
  apply Qlt_le_trans with (pow2 8); [reflexivity|].
  apply pow2_le. lia.
Qed.

Lemma round_not_negative (q : Q) : 0 <= q -> not_negative (round q).
Proof.
  intros H. destruct (round_nonneg q H) as [[-> _]|(r & -> & _ & Hr & _)].
  - now left.
  - right. eauto.
Qed.

(** [round] is monotone. *)
Lemma round_mono (x y : Q) :
  0 <= x -> x <= y -> Number.le (round x) (round y) = true.
Proof.
  intros Hx Hxy.
  pose proof (nearest_mono0 x y Hx Hxy) as Hm.
  destruct (round_nonneg x Hx) as [[-> Bx]|(rx & -> & Ex & Px & Fx)];
    destruct (round_nonneg y ltac:(lra)) as [[-> By]|(ry & -> & Ey & Py & Fy)];
    try reflexivity.
  - lra.
  - unfold Number.le. destruct (Qlt_le_dec ry rx); [lra|reflexivity].
Qed.

Lemma le_Num (x y : Q) : Number.le (Num x) (Num y) = true <-> x <= y.
Proof.
  unfold Number.le. destruct (Qlt_le_dec y x); split;
    try discriminate; try reflexivity; try lra; auto.
Qed.

(** [a * 100] and [Math.round(a)] of numbers that are not negative. *)
Lemma times_100_mono (a b : number) :
  not_negative a -> not_negative b -> Number.le a b = true ->
  Number.le (Number.mul a (int 100)) (Number.mul b (int 100)) = true
  /\ not_negative (Number.mul a (int 100))
  /\ not_negative (Number.mul b (int 100)).
Proof.
  assert (Hinf : Number.mul PInf (int 100) = PInf) by reflexivity.
  assert (Hnum : forall r, Number.mul (Num r) (int 100) = round (r * 100))
    by reflexivity.
  assert (Hle : forall c, not_negative c -> Number.le c PInf = true).
  { intros c [->|(r & -> & _)]; reflexivity. }
  intros [->|(ra & -> & Ha)] [->|(rb & -> & Hb)] H;
    rewrite ?Hinf, ?Hnum.
  - split; [reflexivity|]. split; now left.
  - discriminate.
  - assert (N : not_negative (round (ra * 100)))
      by (apply round_not_negative; nra).
    split; [now apply Hle|]. split; [exact N|now left].
  - apply le_Num in H.
    split; [apply round_mono; nra|].
    split; apply round_not_negative; nra.
Qed.

Lemma Math_round_mono (a b : number) :
  not_negative a -> not_negative b -> Number.le a b = true ->
  Number.le (Number.round a) (Number.round b) = true.
Proof.
  intros [->|(ra & -> & Ha)] [->|(rb & -> & Hb)] H; try reflexivity.
  - discriminate.
  - apply le_Num in H. unfold Number.round, int. apply le_Num.
    rewrite <- Zle_Qle. apply Qfloor_resp_le. lra.
Qed.

(** [a / t] for a positive [t]. *)
Lemma div_positive (d t : Q) :
  0 < t -> Number.div (Num d) (Num t) = round (d / t).
Proof.
  intros Ht. unfold Number.div.
  assert (Hz : Number.is_zero t = false).
  { unfold Number.is_zero. apply Z.eqb_neq. unfold Qlt in Ht. cbn in Ht. lia. }
  now rewrite Hz.
Qed.

(** [Math.round(d / t * 100)] does not fall when [d] rises. *)
Lemma percentage_mono (t : Q) (d d' : Z) :
  0 < t -> (0 <= d <= d')%Z ->
  Number.le
    (Number.round (Number.mul (Number.div (int d) (Num t)) (int 100)))
    (Number.round (Number.mul (Number.div (int d') (Num t)) (int 100)))
  = true.
Proof.
  intros Ht [H0 Hd]. unfold int at 1 3. rewrite !div_positive by assumption.
  assert (Q0 : 0 <= inject_Z d)
    by (change 0 with (inject_Z 0); now rewrite <- Zle_Qle).
  assert (Qd : inject_Z d <= inject_Z d') by (now rewrite <- Zle_Qle).
  assert (A : 0 <= inject_Z d / t) by (apply Qle_shift_div_l; lra).
  assert (B : inject_Z d / t <= inject_Z d' / t).
  { apply Qmult_le_compat_r; [exact Qd|].
    apply Qlt_le_weak, Qinv_lt_0_compat, Ht. }
  destruct (times_100_mono (round (inject_Z d / t)) (round (inject_Z d' / t)))
    as (H1 & H2 & H3).
  - now apply round_not_negative.
  - apply round_not_negative. lra.
  - now apply round_mono.
  - now apply Math_round_mono.
Qed.

(** [Math.round(d / t * 100)] when no more than [t] has arrived: a whole
    number of [0,100], within a half (and the error of the two roundings)
    of the exact percentage. *)
Lemma percentage_near (t : Q) (d : Z) :
  0 < t -> (0 <= d)%Z -> inject_Z d <= t ->
  exists k : Z,
    Number.round (Number.mul (Number.div (int d) (Num t)) (int 100)) = int k
    /\ (0 <= k <= 100)%Z
    /\ inject_Z k - (1 # 2) - pow2 (-45) <= 100 * inject_Z d / t
    /\ 100 * inject_Z d / t <= inject_Z k + (1 # 2) + pow2 (-45).
Proof.
  intros Ht H0 Hd. unfold int at 1. rewrite div_positive by assumption.
  assert (Q0 : 0 <= inject_Z d)
    by (change 0 with (inject_Z 0); now rewrite <- Zle_Qle).
  assert (A : 0 <= inject_Z d / t) by (apply Qle_shift_div_l; lra).
  assert (B : inject_Z d / t <= 1) by (apply Qle_shift_div_r; lra).
  destruct (round_within (inject_Z d / t) 1 (conj A B) nearest_1)
    as (r1 & -> & E1 & P1 & L1).
  { apply below_overflow. lra. }
  destruct (nearest_error (inject_Z d / t) 1 A) as [Ea Eb];
    [change (pow2 1) with 2; lra|lia|].
  rewrite <- E1 in Ea, Eb.
  change (Number.mul (Num r1) (int 100)) with (round (r1 * 100)).
  assert (A2 : 0 <= r1 * 100 <= 100) by (split; nra).
  destruct (round_within (r1 * 100) 100 A2 nearest_100)
    as (r2 & -> & E2 & P2 & L2).
  { apply below_overflow. lra. }
  destruct (nearest_error (r1 * 100) 7 (proj1 A2)) as [Ec Ed];
    [change (pow2 7) with 128; lra|lia|].
  rewrite <- E2 in Ec, Ed.
  exists (Qfloor (r2 + (1 # 2))). split; [reflexivity|].
  pose proof (Qfloor_le (r2 + (1 # 2))) as Fa.
  pose proof (Qlt_floor (r2 + (1 # 2))) as Fb.
  rewrite inject_Z_plus in Fb. change (inject_Z 1) with 1 in Fb.
  assert (E : 100 * inject_Z d / t == inject_Z d / t * 100)
    by (field; lra).
  rewrite E.
  change (pow2 (1 - 54)) with (1 # 9007199254740992) in Ea, Eb.
  change (pow2 (7 - 54)) with (1 # 140737488355328) in Ec, Ed.
  change (pow2 (-45)) with (1 # 35184372088832).
  split; [split|split].
  - change 0%Z with (Qfloor 0). apply Qfloor_resp_le. lra.
  - change 100%Z with (Qfloor (100 + (1 # 2))). apply Qfloor_resp_le. lra.
  - lra.
  - lra.
Qed.

(** A double is the double nearest to itself. *)
Lemma pow2_double (k : Z) : pow2 (k + 1) == 2 * pow2 k.
Proof. rewrite pow2_plus. change (pow2 1) with 2. ring. Qed.

Lemma ilog2_unique (q : Q) (k : Z) :
  pow2 k <= q -> q < pow2 (k + 1) -> ilog2 q = k.
Proof.
  intros H1 H2. pose proof (pow2_pos k) as Hk.
  destruct (ilog2_spec q ltac:(lra)) as [S1 S2].
  destruct (Z.lt_trichotomy (ilog2 q) k) as [H|[H|H]]; [|exact H|].
  - pose proof (pow2_le (ilog2 q + 1) k ltac:(lia)). lra.
  - pose proof (pow2_le (k + 1) (ilog2 q) ltac:(lia)). lra.
Qed.

Lemma ilog2_comp (q q' : Q) : 0 < q -> q == q' -> ilog2 q = ilog2 q'.
Proof.
  intros Hq E. destruct (ilog2_spec q Hq) as [S1 S2].
  symmetry. apply ilog2_unique; now rewrite <- E.
Qed.

Lemma nearest_comp (q q' : Q) : 0 < q -> q == q' -> nearest q == nearest q'.
Proof.
  intros Hq E. unfold nearest, ulp.
  rewrite <- (ilog2_comp q q' Hq E).
  rewrite (nearest_even_comp (q / pow2 (Z.max (-1074) (ilog2 q - 52)))
             (q' / pow2 (Z.max (-1074) (ilog2 q - 52))));
    [reflexivity|].
  apply Qdiv_comp; [exact E|reflexivity].
Qed.

Lemma mantissa_bound (q : Q) :
  0 < q -> inject_Z (nearest_even (q / pow2 (ulp q))) <= pow2 53.
Proof.
  intros Hq. pose proof (pow2_pos (ulp q)) as Px.
  destruct (ilog2_spec q Hq) as [_ X2].
  rewrite (pow2_Z 53) by lia. rewrite <- Zle_Qle.
  rewrite <- (nearest_even_Z (2 ^ 53)). apply nearest_even_mono.
  rewrite <- (pow2_Z 53) by lia.
  apply Qle_shift_div_r; [exact Px|].
  rewrite <- pow2_plus.
  apply Qle_trans with (pow2 (ilog2 q + 1)); [lra|].
  apply pow2_le. unfold ulp. lia.
Qed.

(** A whole multiple of [2^e] is a whole multiple of [2^e'] for
    [e' <= e]. *)
Lemma multiple_below (n e e' : Z) :
  (e' <= e)%Z ->
  inject_Z n * pow2 e / pow2 e' == inject_Z (n * 2 ^ (e - e')).
Proof.
  intros H. pose proof (pow2_pos e') as P.
  rewrite inject_Z_mult, <- (pow2_Z (e - e')) by lia.
  replace e with ((e - e') + e')%Z at 1 by lia.
  rewrite pow2_plus. field. lra.
Qed.

Lemma nearest_multiple (n e : Z) :
  (0 < n)%Z -> inject_Z n <= pow2 53 -> (-1074 <= e)%Z ->
  nearest (inject_Z n * pow2 e) == inject_Z n * pow2 e.
Proof.
  intros Hn Hb He. pose proof (pow2_pos e) as Pe.
  assert (Hn' : 0 < inject_Z n)
    by (change 0 with (inject_Z 0); now rewrite <- Zlt_Qlt).
  set (r := inject_Z n * pow2 e).
  assert (Hr : 0 < r) by (unfold r; nra).
  assert (Hwhole : exists m, r / pow2 (ulp r) == inject_Z m).
  { destruct (Qlt_le_dec (inject_Z n) (pow2 53)) as [Hlt|Hge].
    - assert (Hlog : (ilog2 r < 53 + e)%Z).
      { apply ilog2_below; [exact Hr|]. rewrite pow2_plus. unfold r.
        now apply Qmult_lt_compat_r. }
      eexists. unfold r in *. apply multiple_below. unfold ulp. lia.
    - assert (En : inject_Z n == pow2 53) by lra.
      assert (Er : r == inject_Z (2 ^ 52) * pow2 (e + 1)).
      { unfold r. rewrite En, <- (pow2_Z 52), <- !pow2_plus by lia.
        now replace (53 + e)%Z with (52 + (e + 1))%Z by lia. }
      assert (Hlog : ilog2 r = (53 + e)%Z).
      { apply ilog2_unique.
        - unfold r. rewrite En, <- pow2_plus. apply Qle_refl.
        - unfold r. rewrite En, <- pow2_plus, pow2_double.
          pose proof (pow2_pos (53 + e)). lra. }
      exists (2 ^ 52 * 2 ^ (e + 1 - ulp r))%Z.
      rewrite <- multiple_below by (unfold ulp; lia).
      apply Qdiv_comp; [exact Er|reflexivity]. }
  destruct Hwhole as [m Hm]. unfold nearest.
  rewrite (nearest_even_comp _ _ Hm), nearest_even_Z, <- Hm.
  apply scale_back.
Qed.

Lemma nearest_twice (q : Q) : 0 < q -> nearest (nearest q) == nearest q.
Proof.
  intros Hq.
  pose proof (nearest_nonneg q ltac:(lra)) as Hr.
  destruct (Qlt_le_dec 0 (nearest q)) as [Hpos|Hzero].
  2:{ assert (E : nearest q == 0) by lra.
      rewrite (nearest_zero _ E). now rewrite E. }
  unfold nearest at 2 3. unfold nearest in Hpos.
  pose proof (pow2_pos (ulp q)) as Pe.
  apply nearest_multiple.
  - rewrite Zlt_Qlt. change (inject_Z 0) with 0.
    destruct (Qlt_le_dec 0 (inject_Z (nearest_even (q / pow2 (ulp q)))));
      [assumption|nra].
  - now apply mantissa_bound.
  - unfold ulp. lia.
Qed.

Lemma round_positive (q : Q) :
  0 < q ->
  round q = if Qle_bool (pow2 1024) (nearest q) then PInf
            else Num (Qred (nearest q)).
Proof.
  intros H. unfold round.
  assert (C : (q ?= 0) = Gt) by (apply Qgt_alt; exact H).
  now rewrite C.
Qed.

Lemma round_negative (q : Q) :
  q < 0 ->
  round q = if Qle_bool (pow2 1024) (nearest (- q)) then NInf
            else Num (Qred (- nearest (- q))).
Proof.
  intros H. unfold round.
  assert (C : (q ?= 0) = Lt) by (apply Qlt_alt; exact H).
  now rewrite C.
Qed.

Lemma round_zero (q : Q) : q == 0 -> round q = Num 0.
Proof.
  intros H. unfold round.
  assert (C : (q ?= 0) = Eq) by (apply Qeq_alt; exact H).
  now rewrite C.
Qed.

Lemma Qle_bool_comp (a b b' : Q) : b == b' -> Qle_bool a b = Qle_bool a b'.
Proof.
  intros E. destruct (Qle_bool a b) eqn:H1, (Qle_bool a b') eqn:H2;
    try reflexivity.
  - apply Qle_bool_iff in H1. rewrite E in H1. apply Qle_bool_iff in H1.
    congruence.
  - apply Qle_bool_iff in H2. rewrite <- E in H2. apply Qle_bool_iff in H2.
    congruence.
Qed.

(** Rounding a double leaves it as it is. *)
Lemma round_twice (q : Q) (r : Q) : round q = Num r -> round r = Num r.
Proof.
  destruct (Q_dec q 0) as [[Hneg|Hpos]|Hzero].
  - rewrite (round_negative q Hneg).
    destruct (Qle_bool _ _) eqn:B; [discriminate|]. intros H.
    assert (H' : r = Qred (- nearest (- q))) by congruence.
    subst r. clear H.
    assert (Hq : 0 < - q) by lra.
    pose proof (nearest_nonneg (- q) ltac:(lra)) as Hn.
    destruct (Qlt_le_dec 0 (nearest (- q))) as [Hr|Hr].
    + assert (E : - Qred (- nearest (- q)) == nearest (- q))
        by (pose proof (Qred_correct (- nearest (- q))); lra).
      assert (N : Qred (- nearest (- q)) < 0)
        by (pose proof (Qred_correct (- nearest (- q))); lra).
      rewrite (round_negative _ N).
      assert (E2 : nearest (- Qred (- nearest (- q))) == nearest (- q)).
      { rewrite (nearest_comp _ (nearest (- q))); [|lra|exact E].
        now apply nearest_twice. }
      rewrite (Qle_bool_comp _ _ _ E2), B. f_equal.
      apply Qred_complete. now rewrite E2.
    + assert (E : Qred (- nearest (- q)) == 0)
        by (pose proof (Qred_correct (- nearest (- q))); lra).
      rewrite (round_zero _ E). f_equal. symmetry.
      change 0 with (Qred 0). apply Qred_complete.
      pose proof (Qred_correct (- nearest (- q))). lra.
  - rewrite (round_positive q Hpos).
    destruct (Qle_bool _ _) eqn:B; [discriminate|]. intros H.
    assert (H' : r = Qred (nearest q)) by congruence.
    subst r. clear H.
    pose proof (nearest_nonneg q ltac:(lra)) as Hn.
    destruct (Qlt_le_dec 0 (nearest q)) as [Hr|Hr].
    + assert (P : 0 < Qred (nearest q))
        by (pose proof (Qred_correct (nearest q)); lra).
      rewrite (round_positive _ P).
      assert (E2 : nearest (Qred (nearest q)) == nearest q).
      { rewrite (nearest_comp _ (nearest q));
          [|exact P|apply Qred_correct].
        now apply nearest_twice. }
      rewrite (Qle_bool_comp _ _ _ E2), B. f_equal.
      apply Qred_complete. exact E2.
    + assert (E : Qred (nearest q) == 0)
        by (pose proof (Qred_correct (nearest q)); lra).
      rewrite (round_zero _ E). f_equal. symmetry.
      change 0 with (Qred 0). apply Qred_complete.
      pose proof (Qred_correct (nearest q)). lra.
  - rewrite (round_zero q Hzero). intros H.
    assert (H' : r = 0) by congruence.
    subst r. reflexivity.
Qed.

(** The whole numbers below [2^53] are doubles. *)
Lemma whole_numbers_are_doubles (z : Z) :
  (- 2 ^ 53 < z < 2 ^ 53)%Z -> round (inject_Z z) = int z.
Proof.
  intros Hz.
  assert (Hwhole : forall n, (0 < n < 2 ^ 53)%Z ->
             nearest (inject_Z n) == inject_Z n
             /\ Qle_bool (pow2 1024) (nearest (inject_Z n)) = false).
  { intros n Hn.
    assert (Hb : inject_Z n <= pow2 53)
      by (rewrite (pow2_Z 53) by lia; rewrite <- Zle_Qle; lia).
    assert (E : nearest (inject_Z n) == inject_Z n).
    { assert (M : inject_Z n == inject_Z n * pow2 0)
        by (change (pow2 0) with 1; ring).
      assert (P : 0 < inject_Z n)
        by (change 0 with (inject_Z 0); rewrite <- Zlt_Qlt; lia).
      rewrite (nearest_comp _ _ P M).
      rewrite M at 2. apply nearest_multiple; [lia|exact Hb|lia]. }
    split; [exact E|].
    destruct (Qle_bool _ _) eqn:B; [|reflexivity].
    apply Qle_bool_iff in B. rewrite E in B.
    pose proof (pow2_le 53 1024 ltac:(lia)).
    assert (inject_Z n < pow2 53)
      by (rewrite (pow2_Z 53) by lia; rewrite <- Zlt_Qlt; lia).
    lra. }
  assert (Hred : forall n, Qred (inject_Z n) = inject_Z n).
  { intros n. unfold Qred, inject_Z.
    pose proof (Z.ggcd_gcd n 1) as G.
    pose proof (Z.ggcd_correct_divisors n 1) as D.
    destruct (Z.ggcd n 1) as [g [aa bb]]. cbn [fst snd] in *.
    rewrite Z.gcd_1_r in G. subst g. destruct D as [D1 D2].
    rewrite Z.mul_1_l in D1, D2. now subst. }
  destruct (Z.lt_trichotomy z 0) as [Hneg|[->|Hpos]].
  - rewrite round_negative
      by (change 0 with (inject_Z 0); now rewrite <- Zlt_Qlt).
    assert (E : - inject_Z z == inject_Z (- z))
      by (now rewrite inject_Z_opp).
    destruct (Hwhole (- z)%Z ltac:(lia)) as [Hn Ho].
    assert (E2 : nearest (- inject_Z z) == inject_Z (- z)).
    { assert (P : 0 < - inject_Z z)
        by (rewrite E; change 0 with (inject_Z 0); rewrite <- Zlt_Qlt; lia).
      rewrite (nearest_comp _ _ P E). exact Hn. }
    rewrite (Qle_bool_comp _ _ _ E2).
    rewrite <- (Qle_bool_comp _ _ _ Hn), Ho.
    unfold int. f_equal. rewrite <- (Hred z) at 2. apply Qred_complete.
    rewrite inject_Z_opp in E2. lra.
  - reflexivity.
  - rewrite round_positive
      by (change 0 with (inject_Z 0); now rewrite <- Zlt_Qlt).
    destruct (Hwhole z ltac:(lia)) as [Hn Ho]. rewrite Ho.
    unfold int. f_equal. rewrite <- (Hred z) at 2. now apply Qred_complete.
Qed.

Lemma of_literal_twice (n : number) :
  of_literal (of_literal n) = of_literal n.
Proof.
  destruct n as [| | |q]; try reflexivity. cbn [of_literal].
  destruct (round q) as [| | |r] eqn:H; try reflexivity.
  cbn [of_literal]. exact (round_twice q r H).
Qed.

(** The model of the double arithmetic agrees with the Standard
    Library's specification of IEEE-754 on [d / t * 100], for the first
    bytes of downloads of several lengths. *)
Lemma ratios_agree_with_SpecFloat :
  forallb (fun t =>
             forallb (fun d =>
                        Spec64.same
                          (Spec64.ratio d t)
                          (Number.mul (Number.div (int d) (int t)) (int 100)))
                     (map Z.of_nat (seq 0 64)))
          [1; 3; 7; 200; 997; 1000; 123457; 4294967311]%Z
  = true.
Proof. vm_compute. reflexivity. Qed.

(** Two values that exact arithmetic would get wrong: 29 bytes of 200 are
    14 per cent, because [29 / 200 * 100] is a little less than 14.5 in
    doubles; the fraction 0.015 of the patch tool is forwarded as 2,
    because the double nearest to it, times 100, is 1.5; and the fraction
    0.145 is forwarded as 14. *)
Lemma doubles_round_as_in_JavaScript :
  pwr_percent (Some (int 200)) 29 = int 14
  /\ online_percent (int 200) 29 = int 14
  /\ normalizePercent (of_literal (Num (15 # 1000))) = int 2
  /\ normalizePercent (of_literal (Num (145 # 1000))) = int 14.
Proof. vm_compute. repeat split. Qed.

End DoubleFacts.

(* ===================================================================== *)
(** * Facts about strings and numbers *)
(* ===================================================================== *)

Module StrFacts.

Lemma prefix_app (a b : string) :
  prefix a b = true <-> exists post, b = a ++ post.
Proof.
  revert b. induction a as [|c a IH]; intros b.
  - split; [intros _; exists b; reflexivity|intros _; destruct b; reflexivity].
  - destruct b as [|d b]; cbn.
    + split; [discriminate|intros [post H]; discriminate].
    + destruct (ascii_dec c d) as [->|Hcd].
      * rewrite IH. split; intros [post H]; exists post.
        -- now rewrite H.
        -- now injection H.
      * split; [discriminate|]. intros [post H]. injection H as H1 H2. congruence.
Qed.

Lemma includes_app (needle hay : string) :
  Str.includes needle hay = true <->
  exists pre post, hay = pre ++ needle ++ post.
Proof.
  induction hay as [|c hay IH].
  - change (Str.includes needle "") with (if prefix needle "" then true else false).
    destruct (prefix needle "") eqn:Hp.
    + apply prefix_app in Hp as [post H]. split; [intros _|reflexivity].
      exists "", post. exact H.
    + split; [discriminate|]. intros (pre & post & H).
      destruct pre; [|discriminate]. cbn in H.
      assert (prefix needle "" = true) by (apply prefix_app; eauto). congruence.
  - change (Str.includes needle (String c hay))
      with (if prefix needle (String c hay) then true else Str.includes needle hay).
    destruct (prefix needle (String c hay)) eqn:Hp.
    + apply prefix_app in Hp as [post H]. split; [intros _|reflexivity].
      exists "", post. exact H.
    + rewrite IH. split; intros (pre & post & H).
      * exists (String c pre), post. cbn. now rewrite H.
      * destruct pre as [|d pre]; cbn in H.
        -- assert (prefix needle (String c hay) = true) by (apply prefix_app; eauto).
           congruence.
        -- injection H as _ H. eauto.
Qed.

Lemma map_app f (a b : string) :
  Str.map f (a ++ b) = Str.map f a ++ Str.map f b.
Proof. induction a as [|c a IH]; cbn; [reflexivity|now rewrite IH]. Qed.

Lemma map_app_inv f (s a b : string) :
  Str.map f s = a ++ b ->
  exists s1 s2, s = s1 ++ s2 /\ Str.map f s1 = a /\ Str.map f s2 = b.
Proof.
  revert s. induction a as [|c a IH]; intros s H; cbn in H.
  - exists "", s. auto.
  - destruct s as [|d s]; [discriminate|]. cbn in H. injection H as H1 H2.
    destruct (IH _ H2) as (s1 & s2 & -> & <- & <-).
    exists (String d s1), s2. cbn. now rewrite H1.
Qed.

Lemma includes_lower (needle hay : string) :
  Str.toLowerCase needle = needle ->
  Str.includes needle (Str.toLowerCase hay) = true <->
  occurs_ignoring_case needle hay.
Proof.
  intros Hn. rewrite includes_app.
  unfold occurs_ignoring_case, Str.toLowerCase in *. split.
  - intros (pre & post & H).
    apply map_app_inv in H as (s1 & s2 & -> & <- & H).
    apply map_app_inv in H as (s3 & s4 & -> & H3 & <-).
    exists s1, s3, s4. split; [reflexivity|]. now rewrite Hn.
  - intros (pre & mid & post & -> & H).
    exists (Str.map Str.lower pre), (Str.map Str.lower post).
    rewrite !map_app, H, Hn. reflexivity.
Qed.

Lemma is_ws_upper (c : ascii) : Str.is_ws (Str.upper c) = Str.is_ws c.
Proof. destruct c as [[] [] [] [] [] [] [] []]; reflexivity. Qed.

Lemma is_empty_map f (s : string) : Str.is_empty (Str.map f s) = Str.is_empty s.
Proof. now destruct s. Qed.

Lemma map_trimStart f (s : string) :
  (forall c, Str.is_ws (f c) = Str.is_ws c) ->
  Str.map f (Str.trimStart s) = Str.trimStart (Str.map f s).
Proof.
  intros Hf. induction s as [|c s IH]; cbn; [reflexivity|].
  rewrite Hf. destruct (Str.is_ws c); [exact IH|reflexivity].
Qed.

Lemma map_trimEnd f (s : string) :
  (forall c, Str.is_ws (f c) = Str.is_ws c) ->
  Str.map f (Str.trimEnd s) = Str.trimEnd (Str.map f s).
Proof.
  intros Hf. induction s as [|c s IH]; cbn; [reflexivity|].
  rewrite Hf, <- IH, is_empty_map.
  destruct (Str.is_ws c && Str.is_empty (Str.trimEnd s)); reflexivity.
Qed.

Lemma toUpperCase_trim (s : string) :
  Str.toUpperCase (Str.trim s) = Str.trim (Str.toUpperCase s).
Proof.
  unfold Str.trim, Str.toUpperCase.
  rewrite map_trimEnd, map_trimStart by apply is_ws_upper. reflexivity.
Qed.

Lemma is_empty_true (s : string) : Str.is_empty s = true <-> s = "".
Proof. destruct s; cbn; split; congruence. Qed.

End StrFacts.

Module NumberFacts.

Ltac split_Q_tests :=
  repeat match goal with
         | |- context [Qlt_le_dec ?a ?b] => destruct (Qlt_le_dec a b); cbn
         end.

Lemma Qclamp_cases (q : Q) :
  (q <= 0 /\ Qmax 0 (Qmin 100 q) == 0)%Q \/
  (0 <= q <= 100 /\ Qmax 0 (Qmin 100 q) == q)%Q \/
  (100 <= q /\ Qmax 0 (Qmin 100 q) == 100)%Q.
Proof.
  destruct (Q.min_spec 100 q) as [[H1 E1]|[H1 E1]];
  destruct (Q.max_spec 0 (Qmin 100 q)) as [[H2 E2]|[H2 E2]];
  rewrite E2; rewrite E1 in *.
  - right; right. split; [lra|reflexivity].
  - lra.
  - right; left. split; [lra|reflexivity].
  - left. split; [lra|reflexivity].
Qed.

Lemma clamped_bounds (v : number) : (0 <= clamped v <= 100)%Q.
Proof.
  destruct v as [| | |q]; cbn; try lra.
  destruct (Qclamp_cases q) as [[H E]|[[H E]|[H E]]]; rewrite E; lra.
Qed.

Lemma clamp_number (v : number) :
  v <> NaN ->
  exists c, Number.max (int 0) (Number.min (int 100) v) = Num c
            /\ (c == clamped v)%Q.
Proof.
  intros Hv. destruct v as [| | |q]; try congruence; cbn.
  - exists 100%Q. split; reflexivity.
  - exists 0%Q. split; reflexivity.
  - unfold inject_Z.
    destruct (Qclamp_cases q) as [[H E]|[[H E]|[H E]]];
      split_Q_tests; eexists; (split; [reflexivity|]);
      rewrite E; unfold inject_Z; lra.
Qed.

Lemma round_bounded (c : Q) :
  (0 <= c <= 100)%Q ->
  0 <= Qfloor (c + (1 # 2)) <= 100
  /\ (inject_Z (Qfloor (c + (1 # 2))) - (1 # 2) <= c
      < inject_Z (Qfloor (c + (1 # 2))) + (1 # 2))%Q.
Proof.
  intros [H0 H1].
  pose proof (Qfloor_le (c + (1#2))) as Hle.
  pose proof (Qlt_floor (c + (1#2))) as Hlt.
  rewrite inject_Z_plus in Hlt. change (inject_Z 1) with 1%Q in Hlt.
  assert (Hk0 : 0 <= Qfloor (c + (1 # 2))).
  { change 0 with (Qfloor 0). apply Qfloor_resp_le. lra. }
  assert (Hk1 : Qfloor (c + (1 # 2)) <= 100).
  { change 100 with (Qfloor (100 + (1#2))). apply Qfloor_resp_le. lra. }
  repeat split; try assumption; lra.
Qed.

End NumberFacts.

(* ===================================================================== *)
(** * [trim], on ASCII strings *)
(* ===================================================================== *)

Module TrimFacts.

Lemma trimEnd_twice (s : string) : Str.trimEnd (Str.trimEnd s) = Str.trimEnd s.
Proof.
  induction s as [|c s IH]; cbn; [reflexivity|].
  destruct (Str.is_ws c && Str.is_empty (Str.trimEnd s)) eqn:H;
    [reflexivity|].
  cbn. rewrite IH, H. reflexivity.
Qed.

Lemma trimStart_head (s : string) :
  match Str.trimStart s with
  | EmptyString => True
  | String c _ => Str.is_ws c = false
  end.
Proof.
  induction s as [|c s IH]; cbn; [exact I|].
  destruct (Str.is_ws c) eqn:H; [exact IH|exact H].
Qed.

(** Trimming the end of a string that starts with a visible character
    leaves nothing to trim at the start. *)
Lemma trimStart_trimEnd (t : string) :
  match t with
  | EmptyString => True
  | String c _ => Str.is_ws c = false
  end ->
  Str.trimStart (Str.trimEnd t) = Str.trimEnd t.
Proof.
  destruct t as [|c t]; [reflexivity|]. intros Hc. cbn.
  rewrite Hc. cbn. now rewrite Hc.
Qed.

Lemma trim_twice (s : string) : Str.trim (Str.trim s) = Str.trim s.
Proof.
  unfold Str.trim.
  rewrite (trimStart_trimEnd _ (trimStart_head s)).
  apply trimEnd_twice.
Qed.

(** On ASCII, the white space of [trim] is the white space of ASCII. *)
Lemma is_ws_ascii (c : ascii) :
  (nat_of_ascii c < 128)%nat -> (Str.is_ws c = true <-> ascii_space c).
Proof.
  intros H. unfold Str.is_ws, ascii_space. cbv zeta.
  set (n := nat_of_ascii c) in *.
  rewrite !orb_true_iff, andb_true_iff, !Nat.leb_le, !Nat.eqb_eq.
  cbn [In]. lia.
Qed.

Lemma is_ascii_app (a b : string) :
  Str.is_ascii (a ++ b) = Str.is_ascii a && Str.is_ascii b.
Proof.
  induction a as [|c a IH]; cbn [Str.is_ascii append]; [reflexivity|].
  now rewrite IH, andb_assoc.
Qed.

(** A string of ASCII is blank when [trim] takes all its characters for
    white space. *)
Lemma blank_ascii (s : string) :
  Str.is_ascii s = true ->
  (Settings.all Str.is_ws s = true <-> blank s).
Proof.
  induction s as [|c s IH]; cbn [Str.is_ascii Settings.all blank];
    [tauto|].
  rewrite !andb_true_iff, Nat.ltb_lt. intros [Hc Hs].
  now rewrite (is_ws_ascii c Hc), (IH Hs).
Qed.

Lemma trimStart_blank (pre s : string) :
  Settings.all Str.is_ws pre = true ->
  Str.trimStart (pre ++ s) = Str.trimStart s.
Proof.
  induction pre as [|c pre IH]; cbn; [reflexivity|].
  rewrite andb_true_iff. intros [-> H]. auto.
Qed.

Lemma trimEnd_blank (post : string) :
  Settings.all Str.is_ws post = true -> Str.trimEnd post = "".
Proof.
  induction post as [|c post IH]; cbn; [reflexivity|].
  rewrite andb_true_iff. intros [-> H]. now rewrite IH.
Qed.

Lemma trimEnd_app_blank (s post : string) :
  Settings.all Str.is_ws post = true ->
  Str.trimEnd (s ++ post) = Str.trimEnd s.
Proof.
  intros H. induction s as [|c s IH]; cbn.
  - now apply trimEnd_blank.
  - now rewrite IH.
Qed.

Lemma trimEnd_visible (front : string) (d : ascii) :
  Str.is_ws d = false ->
  Str.trimEnd (front ++ String d "") = front ++ String d "".
Proof.
  intros Hd. induction front as [|c front IH]; cbn.
  - now rewrite Hd.
  - rewrite IH. destruct front; cbn; now rewrite andb_false_r.
Qed.

(** What [trimStart] and [trimEnd] take away is white space. *)
Lemma trimStart_split (s : string) :
  exists pre, s = pre ++ Str.trimStart s
              /\ Settings.all Str.is_ws pre = true.
Proof.
  induction s as [|c s (pre & E & H)]; cbn.
  - exists "". now split.
  - destruct (Str.is_ws c) eqn:Hc.
    + exists (String c pre). cbn. rewrite Hc, H. split; [now f_equal|reflexivity].
    + exists "". now split.
Qed.

Lemma trimEnd_split (s : string) :
  exists post, s = Str.trimEnd s ++ post
               /\ Settings.all Str.is_ws post = true.
Proof.
  induction s as [|c s (post & E & H)]; cbn.
  - exists "". now split.
  - destruct (Str.is_ws c && Str.is_empty (Str.trimEnd s)) eqn:Hc.
    + apply andb_true_iff in Hc as [Hc He].
      apply StrFacts.is_empty_true in He. rewrite He in E. cbn in E.
      exists (String c post). cbn. rewrite Hc, H, <- E. now split.
    + exists post. cbn. split; [now f_equal|exact H].
Qed.

(** What [trimEnd] leaves ends with a visible character. *)
Lemma trimEnd_last (s : string) :
  Str.trimEnd s = ""
  \/ exists front d, Str.trimEnd s = front ++ String d ""
                     /\ Str.is_ws d = false.
Proof.
  induction s as [|c s IH]; cbn; [now left|].
  destruct (Str.is_ws c && Str.is_empty (Str.trimEnd s)) eqn:Hc;
    [now left|right].
  destruct IH as [E|(front & d & E & Hd)].
  - rewrite E in *. cbn in Hc. rewrite andb_true_r in Hc.
    exists "", c. now split.
  - exists (String c front), d. rewrite E. now split.
Qed.

Lemma trimEnd_head (c : ascii) (t : string) :
  Str.is_ws c = false ->
  Str.trimEnd (String c t) = String c (Str.trimEnd t).
Proof. intros H. cbn. now rewrite H. Qed.

Lemma append_empty (s : string) : s ++ "" = s.
Proof. induction s as [|c s IH]; cbn; [reflexivity|now rewrite IH]. Qed.

(** [trim] is blank exactly on strings of white space. *)
Lemma trim_empty (s : string) :
  Str.trim s = "" <-> Settings.all Str.is_ws s = true.
Proof.
  unfold Str.trim. split.
  - intros H. destruct (trimStart_split s) as (pre & E & Hpre).
    pose proof (trimStart_head s) as Hh.
    destruct (Str.trimStart s) as [|c t].
    + rewrite E. now rewrite append_empty.
    + rewrite (trimEnd_head c t Hh) in H. discriminate.
  - intros H. rewrite <- (append_empty s).
    rewrite (trimStart_blank s "" H). reflexivity.
Qed.

(** [trim] finds the part between the white space at the two ends. *)
Lemma trim_between (pre name post : string) :
  Settings.all Str.is_ws pre = true ->
  Settings.all Str.is_ws post = true ->
  (exists c rest, name = String c rest /\ Str.is_ws c = false) ->
  (exists front d, name = front ++ String d "" /\ Str.is_ws d = false) ->
  Str.trim (pre ++ name ++ post) = name.
Proof.
  intros Hpre Hpost (c & rest & Hn & Hc) (front & d & Hl & Hd).
  unfold Str.trim. rewrite (trimStart_blank pre _ Hpre).
  assert (Hs : Str.trimStart (name ++ post) = name ++ post).
  { rewrite Hn. cbn. now rewrite Hc. }
  rewrite Hs, (trimEnd_app_blank name post Hpost), Hl.
  now apply trimEnd_visible.
Qed.

Lemma trim_parts (s : string) :
  Str.trim s <> "" ->
  exists pre post,
    s = pre ++ Str.trim s ++ post
    /\ Settings.all Str.is_ws pre = true
    /\ Settings.all Str.is_ws post = true
    /\ (exists c rest, Str.trim s = String c rest /\ Str.is_ws c = false)
    /\ (exists front d, Str.trim s = front ++ String d ""
                        /\ Str.is_ws d = false).
Proof.
  unfold Str.trim. intros Hne.
  destruct (trimStart_split s) as (pre & E & Hpre).
  destruct (trimEnd_split (Str.trimStart s)) as (post & E' & Hpost).
  exists pre, post. split; [now rewrite <- E', <- E|].
  split; [exact Hpre|]. split; [exact Hpost|].
  pose proof (trimStart_head s) as Hh. split.
  - destruct (Str.trimStart s) as [|c t]; [now destruct Hne|].
    rewrite (trimEnd_head c t Hh). eauto.
  - destruct (trimEnd_last (Str.trimStart s)) as [H|H]; [now destruct Hne|].
    exact H.
Qed.

(** On a string of ASCII, [trim] gives the empty string when the string
    is blank, and otherwise the part with visible ends that lies between
    two blank strings. *)
Lemma trim_ascii (s : string) :
  Str.is_ascii s = true ->
  (Str.trim s = "" <-> blank s)
  /\ (forall name, Str.trim s = name /\ name <> "" <-> trimmed_to s name).
Proof.
  intros Ha. split; [rewrite trim_empty; now apply blank_ascii|].
  intros name. split.
  - intros [<- Hne].
    destruct (trim_parts s Hne)
      as (pre & post & E & Hpre & Hpost & (c & rest & Hc & Wc)
          & (front & d & Hd & Wd)).
    assert (Hparts : Str.is_ascii pre = true
                     /\ Str.is_ascii (Str.trim s) = true
                     /\ Str.is_ascii post = true).
    { rewrite E in Ha at 1. rewrite !is_ascii_app, !andb_true_iff in Ha.
      tauto. }
    destruct Hparts as (Apre & Aname & Apost).
    exists pre, post. split; [exact E|].
    split; [now apply blank_ascii|]. split; [now apply blank_ascii|].
    split.
    + exists c, rest. split; [exact Hc|].
      rewrite Hc in Aname. cbn [Str.is_ascii] in Aname.
      apply andb_true_iff in Aname as [Ac _]. apply Nat.ltb_lt in Ac.
      rewrite <- (is_ws_ascii c Ac). congruence.
    + exists front, d. split; [exact Hd|].
      rewrite Hd, is_ascii_app in Aname. cbn [Str.is_ascii] in Aname.
      rewrite !andb_true_iff in Aname. destruct Aname as (_ & Ad & _).
      apply Nat.ltb_lt in Ad.
      rewrite <- (is_ws_ascii d Ad). congruence.
  - intros (pre & post & E & Hpre & Hpost & (c & rest & Hc & Wc)
            & (front & d & Hd & Wd)).
    assert (Hparts : Str.is_ascii pre = true
                     /\ Str.is_ascii name = true
                     /\ Str.is_ascii post = true).
    { rewrite E in Ha. rewrite !is_ascii_app, !andb_true_iff in Ha. tauto. }
    destruct Hparts as (Apre & Aname & Apost).
    split; [|rewrite Hc; discriminate].
    rewrite E. apply trim_between.
    + now apply blank_ascii.
    + now apply blank_ascii.
    + exists c, rest. split; [exact Hc|].
      rewrite Hc in Aname. cbn [Str.is_ascii] in Aname.
      apply andb_true_iff in Aname as [Ac _]. apply Nat.ltb_lt in Ac.
      destruct (Str.is_ws c) eqn:W; [|reflexivity].
      now apply (is_ws_ascii c Ac) in W.
    + exists front, d. split; [exact Hd|].
      rewrite Hd, is_ascii_app in Aname. cbn [Str.is_ascii] in Aname.
      rewrite !andb_true_iff in Aname. destruct Aname as (_ & Ad & _).
      apply Nat.ltb_lt in Ad.
      destruct (Str.is_ws d) eqn:W; [|reflexivity].
      now apply (is_ws_ascii d Ad) in W.
Qed.

End TrimFacts.

(* ===================================================================== *)
(** * The line protocol of the patch tool *)
(* ===================================================================== *)

Module LineFacts.

Lemma assoc_None (k : string) (fields : list (string * json)) :
  Json.assoc k fields = None <-> forall v, ~ In (k, v) fields.
Proof.
  induction fields as [|[k' v'] rest IH]; cbn.
  - split; [intros _ v []|reflexivity].
  - destruct (Json.assoc k rest) as [v|].
    + split; [discriminate|]. intros H.
      apply IH. intros v0 Hin. apply (H v0). now right.
    + destruct (String.eqb_spec k k') as [<-|Hne].
      * split; [discriminate|]. intros H. destruct (H v'). now left.
      * split; [|reflexivity]. intros _ v [[= E _]|Hin]; [congruence|].
        now apply (proj1 IH eq_refl v).
Qed.

(** [obj?.k] reads the field [k]. *)
Lemma get_field (k : string) (obj v : json) :
  Json.get k obj = Some v <-> field k obj v.
Proof.
  split.
  - destruct obj as [| | | | |fields]; try discriminate. cbn [Json.get].
    induction fields as [|[k' v'] rest IH]; cbn; [discriminate|].
    destruct (Json.assoc k rest) as [v0|] eqn:Hrest.
    + intros [= <-]. apply field_later. now apply IH.
    + destruct (String.eqb_spec k k') as [<-|Hne]; [|discriminate].
      intros [= <-]. apply field_here. now apply assoc_None.
  - induction 1 as [v rest Hno|k' v' v rest _ IH]; cbn.
    + apply assoc_None in Hno. now rewrite Hno, String.eqb_refl.
    + cbn [Json.get] in IH. now rewrite IH.
Qed.

Lemma is_number_numeric (k : string) (obj : json) :
  Json.is_number (Json.get k obj) = true <-> numeric k obj.
Proof.
  unfold Json.is_number, Json.as_number, numeric. split.
  - destruct (Json.get k obj) as [[]|] eqn:H; try discriminate.
    intros _. eexists. apply get_field. exact H.
  - intros [n H]. apply get_field in H. now rewrite H.
Qed.

Lemma as_number_None (k : string) (obj : json) :
  Json.as_number (Json.get k obj) = None <-> ~ numeric k obj.
Proof.
  rewrite <- is_number_numeric. unfold Json.is_number.
  destruct (Json.as_number _); split; congruence.
Qed.

Lemma as_number_Some (k : string) (obj : json) (v : number) :
  Json.as_number (Json.get k obj) = Some v <->
  exists n, field k obj (JNum n) /\ v = Double.of_literal n.
Proof.
  unfold Json.as_number. split.
  - destruct (Json.get k obj) as [[]|] eqn:H; try discriminate.
    intros [= <-]. apply get_field in H. eauto.
  - intros (n & H & ->). apply get_field in H. now rewrite H.
Qed.

Lemma isProgress_spec (obj : json) :
  isProgress obj = true <-> progress_record obj.
Proof.
  unfold isProgress, progress_record, type_mentions_progress.
  rewrite !orb_true_iff, !is_number_numeric.
  rewrite StrFacts.includes_lower by reflexivity.
  unfold Json.string_or_empty.
  split.
  - intros [[H|H]|H]; auto. left.
    destruct (Json.get "type" obj) as [[]|] eqn:Ht;
      try (destruct H as (pre & mid & post & H & Hm);
           destruct pre; [destruct mid; discriminate|discriminate]).
    apply get_field in Ht. eauto.
  - intros [(t & Ht & H)|[H|H]]; auto. apply get_field in Ht.
    rewrite Ht. auto.
Qed.

Lemma readPercent_spec (obj : json) (v : number) :
  readPercent obj = Some v <-> value_read obj v.
Proof.
  unfold readPercent. split.
  - destruct (Json.as_number (Json.get "percentage" obj)) as [v1|] eqn:H1.
    + intros [= <-]. apply as_number_Some in H1 as (l1 & H1 & ->).
      now apply read_percentage.
    + apply as_number_None in H1.
      destruct (Json.as_number (Json.get "percent" obj)) as [v2|] eqn:H2.
      * intros [= <-]. apply as_number_Some in H2 as (l2 & H2 & ->).
        now apply read_percent.
      * apply as_number_None in H2. intros H3.
        apply as_number_Some in H3 as (l3 & H3 & ->).
        now apply read_progress.
  - intros [l H|l H1 H|l H1 H2 H].
    + assert (E : Json.as_number (Json.get "percentage" obj)
                  = Some (Double.of_literal l))
        by (apply as_number_Some; eauto).
      now rewrite E.
    + apply as_number_None in H1.
      assert (E : Json.as_number (Json.get "percent" obj)
                  = Some (Double.of_literal l))
        by (apply as_number_Some; eauto).
      now rewrite H1, E.
    + apply as_number_None in H1. apply as_number_None in H2.
      assert (E : Json.as_number (Json.get "progress" obj)
                  = Some (Double.of_literal l))
        by (apply as_number_Some; eauto).
      now rewrite H1, H2, E.
Qed.

(** One value is read at most. *)
Lemma value_read_once (obj : json) (v v' : number) :
  value_read obj v -> value_read obj v' -> v = v'.
Proof.
  intros H H'. apply readPercent_spec in H. apply readPercent_spec in H'.
  congruence.
Qed.

Lemma scale_number (v : number) :
  (if Number.gt v (int 0) && Number.le v (int 1)
   then Number.mul v (int 100) else v) = scaled v.
Proof.
  destruct v as [| | |q]; try reflexivity.
  unfold Number.gt, Number.lt, Number.le, Number.mul, scaled, int.
  change (inject_Z 0) with 0%Q. change (inject_Z 1) with 1%Q.
  change (inject_Z 100) with 100%Q.
  destruct (Qlt_le_dec 0 q), (Qlt_le_dec 1 q); reflexivity.
Qed.

Lemma scaled_not_NaN (v : number) : v <> NaN -> scaled v <> NaN.
Proof.
  destruct v as [| | |q]; unfold scaled; try congruence.
  intros _. destruct (Qlt_le_dec 0 q), (Qlt_le_dec 1 q); try discriminate.
  apply DoubleFacts.round_not_NaN.
Qed.

Lemma normalizePercent_spec (v : number) :
  v <> NaN ->
  normalizePercent v = int (forwarded_percent v).
Proof.
  intros Hv. unfold normalizePercent, forwarded_percent.
  rewrite scale_number.
  destruct (NumberFacts.clamp_number (scaled v) (scaled_not_NaN v Hv))
    as (c & -> & Hc).
  unfold Number.round. f_equal. apply Qfloor_comp. now rewrite Hc.
Qed.

(** The forwarded percentage is a whole number of [0,100], the nearest to
    the clamped value. *)
Lemma forwarded_percent_nearest (v : number) :
  0 <= forwarded_percent v <= 100
  /\ (inject_Z (forwarded_percent v) - (1 # 2) <= clamped (scaled v)
      < inject_Z (forwarded_percent v) + (1 # 2))%Q.
Proof. apply NumberFacts.round_bounded, NumberFacts.clamped_bounds. Qed.

(** The listener sends a record exactly for an accepted line. *)
Lemma onLine_Some parse (line : string) (ev : InstallProgress) :
  onLine parse line = Some ev <->
  exists v, accepted parse line v
            /\ ev = mkProgress "patching" (int (forwarded_percent v))
                      None None.
Proof.
  unfold onLine, accepted. split.
  - destruct (Str.trim line) as [|c s] eqn:Ht; [discriminate|].
    cbn [Str.is_empty].
    destruct (parse (String c s)) as [obj|] eqn:Hp; [|discriminate].
    destruct (isProgress obj) eqn:Hi; [|discriminate]. cbn [negb].
    destruct (readPercent obj) as [v|] eqn:Hr; [|discriminate].
    destruct (Number.isNaN v) eqn:Hn; [discriminate|].
    intros [= <-]. exists v.
    assert (Hv : v <> NaN) by (intros ->; discriminate).
    split; [|now rewrite normalizePercent_spec].
    split; [discriminate|]. exists obj.
    split; [reflexivity|]. split; [now apply isProgress_spec|].
    split; [now apply readPercent_spec|assumption].
  - intros (v & (Ht & obj & Hp & Hi & Hr & Hv) & ->).
    destruct (Str.trim line) as [|c s]; [congruence|]. cbn [Str.is_empty].
    rewrite Hp.
    apply isProgress_spec in Hi. rewrite Hi. cbn [negb].
    apply readPercent_spec in Hr. rewrite Hr.
    destruct v; try congruence; cbn [Number.isNaN];
      now rewrite normalizePercent_spec.
Qed.

Lemma accepted_once parse (line : string) (v v' : number) :
  accepted parse line v -> accepted parse line v' -> v = v'.
Proof.
  intros (_ & obj & Hp & _ & Hr & _) (_ & obj' & Hp' & _ & Hr' & _).
  rewrite Hp in Hp'. injection Hp' as <-.
  eapply value_read_once; eassumption.
Qed.

Lemma onLine_percent parse (line : string) (ev : InstallProgress) :
  onLine parse line = Some ev ->
  exists v, ev = mkProgress "patching" (int (forwarded_percent v)) None None.
Proof.
  intros H. apply onLine_Some in H as (v & _ & ->). eauto.
Qed.



End LineFacts.

(* ===================================================================== *)
(** * The monad: how the log grows *)
(* ===================================================================== *)

Module Run.

Lemma adds_events {A} (m : M A) (w : World) (evs : list effect) :
  adds m w evs -> events m w = evs.
Proof.
  unfold adds, events. intros ->.
  rewrite skipn_app, skipn_all, Nat.sub_diag. reflexivity.
Qed.

End Run.

(* ===================================================================== *)
(** * Downloads and the patch tool, run *)
(* ===================================================================== *)

Module Download.

Ltac finish_run :=
  unfold throw, ret, emit; cbn; rewrite <- ?app_assoc; reflexivity.

Lemma running_total (d0 : Z) (cs : list string) :
  Forall (fun d => d0 <= d <= d0 + total_bytes cs) (running d0 cs)
  /\ 0 <= total_bytes cs.
Proof.
  revert d0. induction cs as [|c cs IH]; intros d0; cbn.
  - split; [constructor|lia].
  - destruct (IH (d0 + Z.of_nat (String.length c))) as [H1 H2].
    split; [|lia]. constructor; [lia|].
    eapply Forall_impl; [|exact H1]. cbn. intros d Hd. lia.
Qed.

Lemma pump_emits (onData : Z -> M unit) (ev : Z -> effect)
  (cs : list string) (d0 : Z) (w : World) :
  (forall d w', onData d w' = (Ok tt, mkWorld (fs w') (log w' ++ [ev d]))) ->
  pump onData cs d0 w =
  (Ok (d0 + total_bytes cs),
   mkWorld (fs w) (log w ++ map ev (running d0 cs))).
Proof.
  intros HonData. revert d0 w.
  induction cs as [|c cs IH]; intros d0 w; cbn.
  - rewrite Z.add_0_r, app_nil_r. now destruct w.
  - unfold bind. rewrite HonData, IH. cbn.
    rewrite <- app_assoc. cbn. do 2 f_equal. lia.
Qed.

Lemma downloadPWR_run (E : Env) (gameDir : path) (version : GameVersion)
  (w : World) :
  downloadPWR E gameDir version w =
  let quit := (Ok None, mkWorld (fs w) (log w ++ [Fetch (url version)])) in
  match fetch E (url version) with
  | Ok response =>
      if ok response then
        match body response with
        | Some b =>
            let started := pwr_started (url version) response b in
            match Fs.write (tempPWRPath gameDir version) (written b)
                           (fs w) with
            | Ok n =>
                match failure b with
                | None =>
                    (Ok (Some (tempPWRPath gameDir version)),
                     mkWorld n
                       (log w ++ started ++
                        [Send "install-progress"
                           (pwr_progress (int 100) (pwr_total response)
                                         (total_bytes (chunks b)))]))
                | Some _ => (Ok None, mkWorld n (log w ++ started))
                end
            | Throw _ => (Ok None, mkWorld (fs w) (log w ++ started))
            end
        | None => quit
        end
      else quit
  | Throw _ => quit
  end.
Proof.
  unfold downloadPWR, try_catch, bind at 1. cbn.
  destruct (fetch E (url version)) as [response|e]; [|reflexivity].
  destruct (ok response); [|reflexivity]. cbn [negb].
  destruct (body response) as [b|]; [|reflexivity].
  unfold bind, send, pipeline, bind. cbn.
  erewrite pump_emits by (intros; reflexivity). cbn. unfold fs_do. cbn.
  unfold pwr_started, pwr_total, written.
  destruct (failure b); cbn;
    destruct (Fs.write _ _ (fs w)) as [n|e]; cbn;
    rewrite <- ?app_assoc; reflexivity.
Qed.

Lemma downloadFileWithProgress_run (E : Env) (address : string)
  (outPath : path) (channel : string) (w : World) :
  downloadFileWithProgress E address outPath channel w =
  let quit e := (Throw e, mkWorld (fs w) (log w ++ [Fetch address])) in
  match fetch E address with
  | Ok response =>
      if ok response then
        match body response with
        | Some b =>
            let started := online_started address channel response b in
            match Fs.write outPath (written b) (fs w) with
            | Ok n =>
                match failure b with
                | None =>
                    (Ok tt,
                     mkWorld n
                       (log w ++ started ++
                        [Send channel
                           (online_progress (int 100) (online_total response)
                                            (total_bytes (chunks b)))]))
                | Some e => (Throw e, mkWorld n (log w ++ started))
                end
            | Throw e => (Throw e, mkWorld (fs w) (log w ++ started))
            end
        | None => quit (JsError "No response body")
        end
      else quit (JsError ("Failed to download patch: "
                          ++ Str.of_Z (status response)))
  | Throw e => quit e
  end.
Proof.
  unfold downloadFileWithProgress, bind at 1. cbn.
  destruct (fetch E address) as [response|e]; [|reflexivity].
  destruct (ok response); [|reflexivity]. cbn [negb].
  destruct (body response) as [b|]; [|reflexivity].
  unfold bind, send, pipeline, bind. cbn.
  erewrite pump_emits by (intros; reflexivity). cbn. unfold fs_do. cbn.
  unfold online_started, online_total, written.
  destruct (failure b); cbn;
    destruct (Fs.write _ _ (fs w)) as [n|e]; unfold emit; cbn;
    rewrite <- ?app_assoc; reflexivity.
Qed.

Lemma readLines_run (E : Env) (lines : list string) (w : World) :
  readLines E lines w =
  (Ok tt, mkWorld (fs w) (log w ++ line_events (JSON_parse E) lines)).
Proof.
  revert w. induction lines as [|line rest IH]; intros w; cbn.
  - rewrite app_nil_r. now destruct w.
  - unfold bind. destruct (onLine (JSON_parse E) line) as [p|]; cbn;
      rewrite IH; cbn; rewrite <- ?app_assoc; reflexivity.
Qed.

Lemma applyPWR_run (E : Env) (pwrPath butlerPath installDir : path)
  (w : World) :
  applyPWR E pwrPath butlerPath installDir w =
  match ensureDir installDir (fs w) with
  | Throw e => (Throw e, w)
  | Ok n0 =>
      match ensureDir (installDir ++ ["staging-temp"])%list n0 with
      | Throw e => (Throw e, mkWorld n0 (log w))
      | Ok n1 =>
          let args := butlerArgs pwrPath installDir in
          let started :=
            [Send "install-progress" (patching (int (-1)));
             Spawn butlerPath args] in
          match spawn E butlerPath args n1 with
          | (SpawnError e, n2) =>
              (Throw e,
               mkWorld n2
                 (log w ++ started
                  ++ [Later "install-progress" (patching (int 100))]))
          | (Exited stdout code, n2) =>
              (Ok installDir,
               mkWorld n2
                 (log w ++ started ++ line_events (JSON_parse E) stdout
                  ++ [Send "install-progress" (patching (int 100))]))
          end
      end
  end.
Proof.
  unfold applyPWR, ensureDir, butlerArgs.
  unfold bind at 1. unfold bind at 1. cbn.
  destruct (Fs.exists_ installDir (fs w)); cbn.
  - unfold bind at 1. unfold bind at 1. cbn.
    destruct (Fs.exists_ _ (fs w)); cbn.
    + unfold bind. cbn.
      destruct (spawn E _ _ (fs w)) as [[e|stdout code] n2];
        cbn; rewrite ?readLines_run; finish_run.
    + unfold fs_do. cbn. destruct (Fs.mkdir _ (fs w)) as [n1|e]; cbn.
      * unfold bind. cbn.
        destruct (spawn E _ _ n1) as [[e|stdout code] n2];
          cbn; rewrite ?readLines_run; finish_run.
      * now destruct w.
  - unfold fs_do. cbn. destruct (Fs.mkdir installDir (fs w)) as [n0|e]; cbn.
    + unfold bind at 1. unfold bind at 1. cbn.
      destruct (Fs.exists_ _ n0); cbn.
      * unfold bind. cbn.
        destruct (spawn E _ _ n0) as [[e|stdout code] n2];
          cbn; rewrite ?readLines_run; finish_run.
      * destruct (Fs.mkdir _ n0) as [n1|e]; cbn.
        -- unfold bind. cbn.
           destruct (spawn E _ _ n1) as [[e|stdout code] n2];
             cbn; rewrite ?readLines_run; finish_run.
        -- reflexivity.
    + now destruct w.
Qed.

End Download.

(* ===================================================================== *)
(** * Progress percentages *)
(* ===================================================================== *)

Module ProgressFacts.

Lemma percents_app ph (l1 l2 : list effect) :
  percents ph (l1 ++ l2) = (percents ph l1 ++ percents ph l2)%list.
Proof.
  induction l1 as [|e l1 IH]; cbn; [reflexivity|].
  destruct (percent_of ph e); cbn; now rewrite IH.
Qed.

Lemma percents_map_progress ph channel (mk : Z -> InstallProgress)
  (ds : list Z) :
  (forall d, phase (mk d) = ph) ->
  percents ph (map (fun d => Send channel (Progress (mk d))) ds)
  = map (fun d => percent (mk d)) ds.
Proof.
  intros Hph. induction ds as [|d ds IH]; cbn; [reflexivity|].
  rewrite Hph, String.eqb_refl, IH. reflexivity.
Qed.

Lemma in_range_int (k : Z) : 0 <= k <= 100 -> in_range (int k).
Proof. intros H. right. eauto. Qed.

Lemma in_range_indeterminate : in_range (int (-1)).
Proof. now left. Qed.

Lemma ratio_in_range (d : Z) (t : number) :
  Number.gt t (int 0) = true ->
  0 <= d ->
  (forall q, t = Num q -> (inject_Z d <= q)%Q) ->
  in_range (Number.round (Number.mul (Number.div (int d) t) (int 100))).
Proof.
  intros Hgt Hd Hle. destruct t as [| | |q]; try discriminate.
  - cbn. apply (in_range_int 0). lia.
  - specialize (Hle q eq_refl). cbn in Hgt.
    destruct (Qlt_le_dec (inject_Z 0) q) as [Hq|]; [|discriminate].
    change (inject_Z 0) with 0%Q in Hq.
    destruct (DoubleFacts.percentage_near q d Hq Hd Hle)
      as (k & -> & Hk & _).
    now apply in_range_int.
Qed.

Lemma last_percents_snoc ph (l : list effect) channel (p : InstallProgress) :
  phase p = ph ->
  last (percents ph (l ++ [Send channel (Progress p)])) NaN = percent p.
Proof.
  intros H. rewrite percents_app. cbn [percents percent_of].
  rewrite H, String.eqb_refl. apply last_last.
Qed.

End ProgressFacts.

Module ProgressRuns.

Import ProgressFacts.

Lemma pwr_percents_started (address : string) (response : Response) (b : Body) :
  percents "pwr-download" (pwr_started address response b) =
  (if is_truthy (pwr_total response) then int 0 else int (-1))
  :: map (pwr_percent (pwr_total response)) (running 0 (chunks b)).
Proof.
  unfold pwr_started. cbn. f_equal.
  unfold pwr_progress.
  exact (percents_map_progress "pwr-download" "install-progress"
           (fun d => mkProgress "pwr-download"
                       (pwr_percent (pwr_total response) d)
                       (pwr_total response) (Some (int d)))
           _ (fun _ => eq_refl)).
Qed.

Lemma online_percents_started (address channel : string)
  (response : Response) (b : Body) :
  percents "online-patch" (online_started address channel response b) =
  (if Number.gt (online_total response) (int 0) then int 0 else int (-1))
  :: map (online_percent (online_total response)) (running 0 (chunks b)).
Proof.
  unfold online_started. cbn. f_equal.
  unfold online_progress.
  exact (percents_map_progress "online-patch" channel
           (fun d => mkProgress "online-patch"
                       (online_percent (online_total response) d)
                       (if Number.gt (online_total response) (int 0)
                        then Some (online_total response) else None)
                       (Some (int d)))
           _ (fun _ => eq_refl)).
Qed.

Lemma first_in_range (c : bool) : in_range (if c then int 0 else int (-1)).
Proof. destruct c; [apply (in_range_int 0); lia|apply in_range_indeterminate]. Qed.

Lemma data_in_range (percent_at : Z -> number) (t : number) (cs : list string) :
  (forall d, percent_at d =
             if Number.gt t (int 0)
             then Number.round (Number.mul (Number.div (int d) t) (int 100))
             else int (-1)) ->
  (forall q, t = Num q -> (0 < q -> inject_Z (total_bytes cs) <= q)%Q) ->
  Forall in_range (map percent_at (running 0 cs)).
Proof.
  intros Hat Hlen. apply Forall_map.
  destruct (Download.running_total 0 cs) as [Hrun _].
  eapply Forall_impl; [|exact Hrun]. cbn. intros d Hd. rewrite Hat.
  destruct (Number.gt t (int 0)) eqn:Hgt; [|apply in_range_indeterminate].
  apply ratio_in_range; [assumption|lia|].
  intros q ->. cbn in Hgt.
  destruct (Qlt_le_dec (inject_Z 0) q) as [Hq|]; [|discriminate].
  eapply Qle_trans; [|apply (Hlen q eq_refl Hq)].
  rewrite <- Zle_Qle. lia.
Qed.

Lemma line_events_in_range parse (lines : list string) :
  Forall in_range (percents "patching" (line_events parse lines)).
Proof.
  induction lines as [|line rest IH]; cbn; [constructor|].
  rewrite percents_app. apply Forall_app. split; [|exact IH].
  destruct (onLine parse line) as [p|] eqn:Hp; [|constructor].
  apply LineFacts.onLine_percent in Hp as (v & ->).
  cbn. constructor; [|constructor].
  apply in_range_int.
  apply LineFacts.forwarded_percent_nearest.
Qed.

End ProgressRuns.

(** C4, as the code has it.  In each of the three phases every percentage
    emitted is [-1] or an integer of [0,100] -- in the two download phases
    provided the body carries no more bytes than a positive
    [content-length] declares, in the patching phase always -- and the last
    event of a phase that runs to its end (the download resolves, the patch
    process closes) has [percent = 100]. *)
Theorem progress_in_range_and_final
  (E : Env) (gameDir : path) (version : GameVersion)
  (address : string) (outPath : path) (channel : string)
  (pwrPath butlerPath installDir : path) (w : World) :
  let pwr := percents "pwr-download" (events (downloadPWR E gameDir version) w) in
  let online :=
    percents "online-patch"
      (events (downloadFileWithProgress E address outPath channel) w) in
  let patch :=
    percents "patching"
      (events (applyPWR E pwrPath butlerPath installDir) w) in
  (within_declared_length (fetch E (url version)) -> Forall in_range pwr)
  /\ (fst (downloadPWR E gameDir version w) <> Ok None ->
      last pwr NaN = int 100)
  /\ (within_declared_length (fetch E address) -> Forall in_range online)
  /\ (fst (downloadFileWithProgress E address outPath channel w) = Ok tt ->
      last online NaN = int 100)
  /\ Forall in_range patch
  /\ (fst (applyPWR E pwrPath butlerPath installDir w) = Ok installDir ->
      last patch NaN = int 100).
Proof.
  cbn zeta. repeat split.
  - (* pwr-download, range *)
    intros Hlen.
    assert (Hrun := Download.downloadPWR_run E gameDir version w).
    cbn zeta in Hrun.
    destruct (fetch E (url version)) as [response|e].
    2:{ erewrite Run.adds_events by (unfold adds; rewrite Hrun; reflexivity).
        constructor. }
    destruct (ok response).
    2:{ erewrite Run.adds_events by (unfold adds; rewrite Hrun; reflexivity).
        constructor. }
    destruct (body response) as [b|] eqn:Hb.
    2:{ erewrite Run.adds_events by (unfold adds; rewrite Hrun; reflexivity).
        constructor. }
    assert (Hstarted :
      Forall in_range
        (percents "pwr-download" (pwr_started (url version) response b))).
    { rewrite ProgressRuns.pwr_percents_started. constructor.
      - apply ProgressRuns.first_in_range.
      - destruct (pwr_total response) as [t|] eqn:Ht.
        + apply (ProgressRuns.data_in_range _ t); [reflexivity|].
          intros q ->. cbn in Hlen. rewrite Hb in Hlen.
          unfold pwr_total in Ht.
          destruct (content_length response) as [s|]; [|discriminate].
          destruct (truthy_string (Some s)); [|discriminate].
          cbn in Ht. injection Ht as Ht. rewrite Ht in Hlen. exact Hlen.
        + apply Forall_map, Forall_forall. intros d _.
          apply ProgressFacts.in_range_indeterminate. }
    destruct (Fs.write _ _ (fs w)) as [n|e].
    + destruct (failure b).
      * erewrite Run.adds_events by (unfold adds; rewrite Hrun; reflexivity).
        exact Hstarted.
      * erewrite Run.adds_events by (unfold adds; rewrite Hrun; reflexivity).
        rewrite ProgressFacts.percents_app. apply Forall_app. split; [exact Hstarted|].
        cbn. constructor; [apply ProgressFacts.in_range_int; lia|constructor].
    + erewrite Run.adds_events by (unfold adds; rewrite Hrun; reflexivity).
      exact Hstarted.
  - (* pwr-download, final *)
    assert (Hrun := Download.downloadPWR_run E gameDir version w).
    cbn zeta in Hrun. intros Hok. rewrite Hrun in Hok.
    destruct (fetch E (url version)) as [response|e]; [|now cbn in Hok].
    destruct (ok response); [|now cbn in Hok].
    destruct (body response) as [b|]; [|now cbn in Hok].
    destruct (Fs.write _ _ (fs w)) as [n|e]; [|now cbn in Hok].
    destruct (failure b); [now cbn in Hok|].
    erewrite Run.adds_events by (unfold adds; rewrite Hrun; reflexivity).
    rewrite ?app_assoc. unfold pwr_progress, online_progress, patching.
    now rewrite ProgressFacts.last_percents_snoc.
  - (* online-patch, range *)
    intros Hlen.
    assert (Hrun := Download.downloadFileWithProgress_run E address outPath channel w).
    cbn zeta in Hrun.
    destruct (fetch E address) as [response|e].
    2:{ erewrite Run.adds_events by (unfold adds; rewrite Hrun; reflexivity).
        constructor. }
    destruct (ok response).
    2:{ erewrite Run.adds_events by (unfold adds; rewrite Hrun; reflexivity).
        constructor. }
    destruct (body response) as [b|] eqn:Hb.
    2:{ erewrite Run.adds_events by (unfold adds; rewrite Hrun; reflexivity).
        constructor. }
    assert (Hstarted :
      Forall in_range
        (percents "online-patch"
                  (online_started address channel response b))).
    { rewrite ProgressRuns.online_percents_started. constructor.
      - apply ProgressRuns.first_in_range.
      - apply (ProgressRuns.data_in_range _ (online_total response));
          [reflexivity|].
        intros q Hq. cbn in Hlen. rewrite Hb in Hlen.
        unfold online_total in Hq.
        destruct (content_length response) as [s|].
        + destruct (Str.is_empty s).
          * injection Hq as <-. intros H. discriminate.
          * rewrite Hq in Hlen. exact Hlen.
        + injection Hq as <-. intros H. discriminate. }
    destruct (Fs.write _ _ (fs w)) as [n|e].
    + destruct (failure b).
      * erewrite Run.adds_events by (unfold adds; rewrite Hrun; reflexivity).
        exact Hstarted.
      * erewrite Run.adds_events by (unfold adds; rewrite Hrun; reflexivity).
        rewrite ProgressFacts.percents_app. apply Forall_app. split; [exact Hstarted|].
        cbn. constructor; [apply ProgressFacts.in_range_int; lia|constructor].
    + erewrite Run.adds_events by (unfold adds; rewrite Hrun; reflexivity).
      exact Hstarted.
  - (* online-patch, final *)
    assert (Hrun := Download.downloadFileWithProgress_run E address outPath channel w).
    cbn zeta in Hrun. intros Hok. rewrite Hrun in Hok.
    destruct (fetch E address) as [response|e]; [|now cbn in Hok].
    destruct (ok response); [|now cbn in Hok].
    destruct (body response) as [b|]; [|now cbn in Hok].
    destruct (Fs.write _ _ (fs w)) as [n|e]; [|now cbn in Hok].
    destruct (failure b); [now cbn in Hok|].
    erewrite Run.adds_events by (unfold adds; rewrite Hrun; reflexivity).
    rewrite ?app_assoc. unfold pwr_progress, online_progress, patching.
    now rewrite ProgressFacts.last_percents_snoc.
  - (* patching, range *)
    assert (Hrun := Download.applyPWR_run E pwrPath butlerPath installDir w).
    cbn zeta in Hrun.
    destruct (ensureDir installDir (fs w)) as [n0|e].
    2:{ erewrite Run.adds_events
          by (unfold adds; rewrite Hrun; cbn; now rewrite app_nil_r).
        constructor. }
    destruct (ensureDir _ n0) as [n1|e].
    2:{ erewrite Run.adds_events
          by (unfold adds; rewrite Hrun; cbn; now rewrite app_nil_r).
        constructor. }
    destruct (spawn E _ _ n1) as [[e|stdout code] n2].
    + erewrite Run.adds_events by (unfold adds; rewrite Hrun; reflexivity).
      cbn. constructor; [apply ProgressFacts.in_range_indeterminate|constructor].
    + erewrite Run.adds_events by (unfold adds; rewrite Hrun; reflexivity).
      cbn. constructor; [apply ProgressFacts.in_range_indeterminate|].
      rewrite ProgressFacts.percents_app. apply Forall_app. split.
      * apply ProgressRuns.line_events_in_range.
      * cbn. constructor; [apply ProgressFacts.in_range_int; lia|constructor].
  - (* patching, final *)
    assert (Hrun := Download.applyPWR_run E pwrPath butlerPath installDir w).
    cbn zeta in Hrun. intros Hok. rewrite Hrun in Hok.
    destruct (ensureDir installDir (fs w)) as [n0|e]; [|now cbn in Hok].
    destruct (ensureDir _ n0) as [n1|e]; [|now cbn in Hok].
    destruct (spawn E _ _ n1) as [[e|stdout code] n2]; [now cbn in Hok|].
    erewrite Run.adds_events by (unfold adds; rewrite Hrun; reflexivity).
    rewrite ?app_assoc. unfold pwr_progress, online_progress, patching.
    now rewrite ProgressFacts.last_percents_snoc.
Qed.

(** C4 as the specification words it fails: twenty bytes under a declared
    [content-length] of ten give a percentage of 200, and a download that
    breaks off after twenty of forty declared bytes ends at 50. *)
Lemma progress_claim_fails :
  ~ progress_claim
      (events (downloadPWR (Sample.linux (Some "10") None (Some 0))
                           Sample.gameDir Sample.b3) Sample.start)
  /\ ~ progress_claim
         (events (downloadPWR
                    (Sample.linux (Some "40") (Some (JsError "terminated"))
                                  (Some 0))
                    Sample.gameDir Sample.b3) Sample.start).
Proof.
  split; intros H; destruct (H "pwr-download" (or_introl eq_refl)) as [Hr He].
  - match type of Hr with
    | Forall _ ?l => let l' := eval vm_compute in l in change l with l' in Hr
    end.
    inversion_clear Hr as [|? ? _ Hr1]. inversion_clear Hr1 as [|? ? _ Hr2].
    inversion_clear Hr2 as [|? ? H200 _].
    destruct H200 as [H200|(k & Hk & Hb)]; [discriminate|].
    injection Hk as <-. lia.
  - vm_compute in He. specialize (He ltac:(discriminate)). discriminate.
Qed.

Lemma progress_in_range_and_final_witness :
  let E := Sample.linux (Some "20") None (Some 0) in
  let pwr :=
    percents "pwr-download"
      (events (downloadPWR E Sample.gameDir Sample.b3) Sample.start) in
  let online :=
    percents "online-patch"
      (events (downloadFileWithProgress E "https://x/client.exe"
                 ["games"; "client.tmp"] "online-patch-progress")
              Sample.start) in
  let patch :=
    percents "patching"
      (events (applyPWR E ["games"; "temp_3.pwr"] ["tools"; "butler"]
                        Sample.latest) Sample.start) in
  (Forall in_range pwr /\ last pwr NaN = int 100)
  /\ (Forall in_range online /\ last online NaN = int 100)
  /\ (Forall in_range patch /\ last patch NaN = int 100).
Proof.
  intros E pwr online patch.
  destruct (progress_in_range_and_final E Sample.gameDir Sample.b3
              "https://x/client.exe" ["games"; "client.tmp"]
              "online-patch-progress"
              ["games"; "temp_3.pwr"] ["tools"; "butler"] Sample.latest
              Sample.start) as (H1 & H2 & H3 & H4 & H5 & H6).
  split; [split|split; split].
  - apply H1. cbv. intros _. discriminate.
  - apply H2. cbv. discriminate.
  - apply H3. cbv. intros _. discriminate.
  - apply H4. reflexivity.
  - exact H5.
  - apply H6. reflexivity.
Defined.

(* ===================================================================== *)
(** * The lines of the patch tool, forwarded *)
(* ===================================================================== *)

Module Forwarding.

Local Open Scope list_scope.




End Forwarding.



(* ===================================================================== *)
(** * The exit code of the patch tool *)
(* ===================================================================== *)

Module Ext.

Lemma alike_refl {A} (m : M A) : alike m m.
Proof. intros w. reflexivity. Qed.

Lemma alike_bind {A B} (m m' : M A) (k k' : A -> M B) :
  alike m m' -> (forall a, alike (k a) (k' a)) ->
  alike (bind m k) (bind m' k').
Proof.
  intros Hm Hk w. unfold bind. rewrite Hm.
  destruct (m' w) as [[a|e] w']; [apply Hk|reflexivity].
Qed.

Lemma alike_try_catch {A} (m m' : M A) (h h' : thrown -> M A) :
  alike m m' -> (forall e, alike (h e) (h' e)) ->
  alike (try_catch m h) (try_catch m' h').
Proof.
  intros Hm Hh w. unfold try_catch. rewrite Hm.
  destruct (m' w) as [[a|e] w']; [reflexivity|apply Hh].
Qed.

Lemma applyPWR_alike (code : option Z) (E : Env)
  (pwrPath butlerPath installDir : path) :
  alike (applyPWR (with_exit_code code E) pwrPath butlerPath installDir)
        (applyPWR E pwrPath butlerPath installDir).
Proof.
  intros w. rewrite !Download.applyPWR_run. cbn.
  destruct (ensureDir installDir (fs w)) as [n0|e]; [|reflexivity].
  destruct (ensureDir _ n0) as [n1|e]; [|reflexivity].
  destruct (spawn E _ _ n1) as [[e|stdout c] n2]; reflexivity.
Qed.

Lemma patchGame_alike (code : option Z) (E : Env) (gameDir : path)
  (version : GameVersion) (installDir : path) :
  alike (patchGame (with_exit_code code E) gameDir version installDir)
        (patchGame E gameDir version installDir).
Proof.
  unfold patchGame. apply alike_bind; [apply alike_refl|].
  intros [butlerPath|]; [|apply alike_refl].
  apply alike_bind; [apply alike_refl|].
  intros [tempPWRPath|]; [|apply alike_refl].
  apply alike_bind; [apply applyPWR_alike|].
  intros gameFinalDir. apply alike_refl.
Qed.

Lemma installGame_alike (code : option Z) (E : Env) (gameDir : path)
  (version : GameVersion) :
  alike (installGame (with_exit_code code E) gameDir version)
        (installGame E gameDir version).
Proof.
  unfold installGame. apply alike_try_catch; [|intros e; apply alike_refl].
  apply alike_bind; [apply alike_refl|]. intros f.
  apply alike_bind; [|intros _; apply alike_refl].
  unfold patchIfNeeded.
  destruct (negb (alreadyOnThisBuild f)); [apply patchGame_alike|].
  destruct (_ || _); [apply patchGame_alike|apply alike_refl].
Qed.

End Ext.

(** C2.  When the patch tool has been spawned, [applyPWR] resolves with
    the install directory whatever the exit code, and the last event it
    sends is the patching event with [percent = 100]; and the exit code
    has no influence on [installGame]: with a tool that reports any other
    code the invocation returns the same value, sends the same events and
    leaves the same tree -- the install manifest included. *)
Theorem exit_code_is_not_fatal
  (E : Env) (pwrPath butlerPath installDir : path) (code : option Z)
  (gameDir : path) (version : GameVersion) (w : World) :
  (forall n0 n1 n2 stdout,
     ensureDir installDir (fs w) = Ok n0 ->
     ensureDir (installDir ++ ["staging-temp"])%list n0 = Ok n1 ->
     spawn E butlerPath (butlerArgs pwrPath installDir) n1
       = (Exited stdout code, n2) ->
     let out := applyPWR E pwrPath butlerPath installDir w in
     fst out = Ok installDir
     /\ fs (snd out) = n2
     /\ last (log (snd out)) CallInstallButler
        = Send "install-progress" (patching (int 100)))
  /\ installGame (with_exit_code code E) gameDir version w
     = installGame E gameDir version w.
Proof.
  split.
  - intros n0 n1 n2 stdout H0 H1 H2. cbn zeta.
    rewrite Download.applyPWR_run, H0, H1. cbn zeta. rewrite H2.
    cbn [fst snd fs log]. split; [reflexivity|split; [reflexivity|]].
    rewrite !app_assoc. apply last_last.
  - apply Ext.installGame_alike.
Qed.

Lemma exit_code_is_not_fatal_witness :
  let E := Sample.linux (Some "20") None (Some 0) in
  let failing := with_exit_code (Some 1) E in
  let out := installGame failing Sample.gameDir Sample.b3 Sample.start in
  fst (applyPWR failing ["games"; "temp_3.pwr"] ["tools"; "butler"]
                Sample.latest Sample.start) = Ok Sample.latest
  /\ fst out = Ok true
  /\ readInstallManifest Sample.latest (fs (snd out))
     = Some (mkManifest 3 (Some "b3")).
Proof.
  intros E failing out. split.
  - refine (proj1 (proj1 (exit_code_is_not_fatal failing
                            ["games"; "temp_3.pwr"] ["tools"; "butler"]
                            Sample.latest (Some 1) Sample.gameDir Sample.b3
                            Sample.start) _ _ _ _ _ _ _));
      vm_compute; reflexivity.
  - unfold out, failing.
    rewrite (proj2 (exit_code_is_not_fatal E [] [] [] (Some 1)
                      Sample.gameDir Sample.b3 Sample.start)).
    vm_compute. split; reflexivity.
Defined.

(* ===================================================================== *)
(** * Facts about the file-system tree *)
(* ===================================================================== *)

Module FsFacts.

Import Fs.
Local Open Scope list_scope.

Lemma assoc_put (k k' : string) (v : node) (es : list (string * node)) :
  assoc k' (put k v es) = if String.eqb k' k then Some v else assoc k' es.
Proof.
  induction es as [|[k0 v0] es IH]; cbn.
  - destruct (String.eqb_spec k' k); reflexivity.
  - destruct (String.eqb_spec k k0) as [->|Hk]; cbn.
    + destruct (String.eqb_spec k' k0); reflexivity.
    + rewrite IH. destruct (String.eqb_spec k' k0) as [->|Hk'].
      * destruct (String.eqb_spec k0 k); [congruence|reflexivity].
      * reflexivity.
Qed.

Lemma assoc_remove (k k' : string) (es : list (string * node)) :
  assoc k' (remove k es) = if String.eqb k' k then None else assoc k' es.
Proof.
  induction es as [|[k0 v0] es IH]; cbn.
  - destruct (String.eqb k' k); reflexivity.
  - destruct (String.eqb_spec k k0) as [->|Hk]; cbn.
    + rewrite IH. destruct (String.eqb_spec k' k0); reflexivity.
    + rewrite IH. destruct (String.eqb_spec k' k0) as [->|Hk'].
      * destruct (String.eqb_spec k0 k); [congruence|reflexivity].
      * reflexivity.
Qed.

Lemma assoc_set (k k' : string) (v : option node) (es : list (string * node)) :
  assoc k' (set k v es) = if String.eqb k' k then v else assoc k' es.
Proof. destruct v; cbn; [apply assoc_put|apply assoc_remove]. Qed.

Lemma put_same (k : string) (v : node) (es : list (string * node)) :
  assoc k es = Some v -> put k v es = es.
Proof.
  induction es as [|[k0 v0] es IH]; cbn; [discriminate|].
  destruct (String.eqb_spec k k0) as [->|Hk].
  - now intros [= ->].
  - intros H. now rewrite IH.
Qed.

(** [update] succeeds where the parent is a directory. *)
Lemma update_some (base : path) (c : string) (v : option node) (n : node)
  (es : list (string * node)) :
  lookup base n = Some (Dir es) ->
  exists n', update (base ++ [c]) v n = Some n'.
Proof.
  revert n. induction base as [|b base IH]; intros n H; cbn in H.
  - injection H as ->. cbn. eauto.
  - destruct n as [|es0]; [discriminate|].
    destruct (assoc b es0) as [child|] eqn:Hb; [|discriminate].
    destruct (IH child H) as [child' Hc].
    cbn [app update]. rewrite Hb.
    destruct (base ++ [c])%list eqn:Hl; [now destruct base|].
    rewrite Hc. eauto.
Qed.

Lemma lookup_update (base : path) (c : string) (v : option node)
  (n n' : node) :
  update (base ++ [c]) v n = Some n' ->
  lookup (base ++ [c]) n' = v
  /\ exists es, lookup base n = Some (Dir es).
Proof.
  revert n n'. induction base as [|b base IH]; intros n n' H.
  - cbn in H. destruct n as [|es]; [discriminate|]. injection H as <-.
    cbn. rewrite assoc_set, String.eqb_refl.
    split; [now destruct v|eauto].
  - cbn [app update] in H. destruct n as [|es]; [discriminate|].
    destruct (base ++ [c])%list as [|x l] eqn:Hl; [now destruct base|].
    destruct (assoc b es) as [child|] eqn:Hb; [|discriminate].
    destruct (update (x :: l) v child) as [child'|] eqn:Hu; [|discriminate].
    injection H as <-. rewrite <- Hl in *.
    destruct (IH _ _ Hu) as [H1 [es' H2]].
    cbn [app lookup]. rewrite assoc_put, String.eqb_refl, Hb. eauto.
Qed.

Lemma part_sym (p q : path) : part p q -> part q p.
Proof.
  intros (base & a & b & r1 & r2 & -> & -> & H).
  exists base, b, a, r2, r1. auto.
Qed.

Lemma part_siblings (base : path) (a b : string) (r1 r2 : path) :
  a <> b -> part (base ++ a :: r1) (base ++ b :: r2).
Proof. intros H. exists base, a, b, r1, r2. auto. Qed.

Lemma lookup_update_part (p q : path) (v : option node) (n n' : node) :
  part p q -> update p v n = Some n' -> lookup q n' = lookup q n.
Proof.
  intros (base & a & b & r1 & r2 & -> & -> & Hab).
  revert n n'. induction base as [|c base IH]; intros n n' H.
  - cbn [app] in *. cbn [update] in H. destruct n as [|es]; [discriminate|].
    assert (Hb : String.eqb b a = false) by (apply String.eqb_neq; congruence).
    destruct r1 as [|x r1].
    + injection H as <-. cbn. now rewrite assoc_set, Hb.
    + destruct (assoc a es) as [child|]; [|discriminate].
      destruct (update (x :: r1) v child) as [child'|]; [|discriminate].
      injection H as <-. cbn. now rewrite assoc_put, Hb.
  - cbn [app update] in H. destruct n as [|es]; [discriminate|].
    destruct (base ++ a :: r1)%list as [|x l] eqn:Hl; [now destruct base|].
    destruct (assoc c es) as [child|] eqn:Hc; [|discriminate].
    destruct (update (x :: l) v child) as [child'|] eqn:Hu; [|discriminate].
    injection H as <-. cbn [app lookup].
    rewrite assoc_put, String.eqb_refl, Hc. now apply IH.
Qed.

(** [mkdir -p] of a directory that exists changes nothing. *)
Lemma mkdir_p_exists (p : path) (n : node) (es : list (string * node)) :
  lookup p n = Some (Dir es) -> mkdir_p p n = Some n.
Proof.
  revert n. induction p as [|c p IH]; intros n H; cbn in H.
  - injection H as ->. reflexivity.
  - destruct n as [|es0]; [discriminate|].
    destruct (assoc c es0) as [child|] eqn:Hc; [|discriminate].
    cbn. rewrite Hc, (IH _ H). now rewrite put_same.
Qed.

(** What lies on the way to an existing node is a directory. *)
Lemma lookup_app (p q : path) (n : node) :
  lookup (p ++ q) n =
  match lookup p n with Some m => lookup q m | None => None end.
Proof.
  revert n. induction p as [|c p IH]; intros n; cbn; [reflexivity|].
  destruct n as [|es]; [reflexivity|].
  destruct (assoc c es); [apply IH|reflexivity].
Qed.

Lemma lookup_parent_dir (p : path) (c : string) (n m : node) :
  lookup (p ++ [c]) n = Some m -> exists es, lookup p n = Some (Dir es).
Proof.
  rewrite lookup_app. destruct (lookup p n) as [[|es]|]; cbn; try discriminate.
  eauto.
Qed.

End FsFacts.

(* ===================================================================== *)
(** * The hot patch *)
(* ===================================================================== *)

Module OnlineFacts.

Lemma normalizeHash_same (a b : string) :
  same_ignoring_case a b ->
  String.eqb (normalizeHash a) (normalizeHash b) = true.
Proof.
  unfold same_ignoring_case, normalizeHash. intros H.
  rewrite !StrFacts.toUpperCase_trim, H. apply String.eqb_refl.
Qed.

Lemma same_not_empty (a b : string) :
  same_ignoring_case a b -> b <> "" -> Str.is_empty a = false.
Proof.
  unfold same_ignoring_case. intros H Hb.
  destruct a; [|reflexivity]. destruct b; [congruence|discriminate].
Qed.

Lemma not_empty (s : string) : s <> "" -> Str.is_empty s = false.
Proof. destruct s; [congruence|reflexivity]. Qed.

End OnlineFacts.

(** C7.  [patchOnlineClientIfNeeded] returns "skipped" and does nothing at
    all -- no request, no event, no change of the tree -- when the platform
    is not Windows, or the version has no (or an empty) patch URL or hash,
    or the client binary is absent; and once past these gates it returns
    "up-to-date", again without doing anything, when the hash of the client
    binary equals the expected hash up to the case of letters. *)
Theorem hot_patch_skips_without_network
  (E : Env) (gameDir : path) (version : GameVersion) (channel : string)
  (w : World) :
  (platform E <> "win32"
   \/ truthy_string (patch_url version) = false
   \/ truthy_string (patch_hash version) = false
   \/ Fs.exists_ (getClientPath E gameDir version) (fs w) = false ->
   patchOnlineClientIfNeeded E gameDir version channel w = (Ok skipped, w))
  /\ (forall address expectedHash c mode,
        platform E = "win32" ->
        patch_url version = Some address -> address <> "" ->
        patch_hash version = Some expectedHash -> expectedHash <> "" ->
        Fs.lookup (getClientPath E gameDir version) (fs w)
          = Some (File c mode) ->
        same_ignoring_case (sha256 E c) expectedHash ->
        patchOnlineClientIfNeeded E gameDir version channel w
          = (Ok up_to_date, w)).
Proof.
  split.
  - intros H. unfold patchOnlineClientIfNeeded.
    destruct (String.eqb_spec (platform E) "win32") as [Hos|Hos];
      [|reflexivity]. cbn [negb].
    destruct H as [H|[H|[H|H]]]; [congruence| | |].
    + rewrite H. reflexivity.
    + rewrite H, orb_true_r. reflexivity.
    + destruct (negb _ || negb _); [reflexivity|].
      destruct (patch_url version), (patch_hash version); try reflexivity.
      unfold bind, existsSync. rewrite H. reflexivity.
  - intros address expectedHash c mode Hos Hu Hu' Hh Hh' Hc Hsame.
    unfold patchOnlineClientIfNeeded. rewrite Hos, Hu, Hh.
    cbn [String.eqb Ascii.eqb Bool.eqb negb truthy_string].
    rewrite !OnlineFacts.not_empty by assumption. cbn [negb orb].
    unfold bind at 1, existsSync, Fs.exists_. rewrite Hc. cbn [negb].
    unfold try_catch, patchOnlineClient, bind at 1, try_catch, bind at 1.
    unfold sha256File, bind at 1, fs_get, Fs.read. rewrite Hc.
    cbn [ret truthy_string negb]. unfold ret at 1. cbn iota beta.
    unfold ret at 1. cbn iota beta. cbn [truthy_string].
    rewrite (OnlineFacts.same_not_empty _ _ Hsame Hh'),
            (OnlineFacts.normalizeHash_same _ _ Hsame).
    reflexivity.
Qed.

Lemma hot_patch_skips_without_network_witness :
  patchOnlineClientIfNeeded (Sample.linux None None (Some 0)) Sample.gameDir
    Sample.hot "online-patch-progress" (Sample.installed "abc123")
  = (Ok skipped, Sample.installed "abc123")
  /\ patchOnlineClientIfNeeded (Sample.windows "new") Sample.gameDir
       Sample.hot "online-patch-progress" (Sample.installed "abc123")
     = (Ok up_to_date, Sample.installed "abc123").
Proof.
  split.
  - apply (proj1 (hot_patch_skips_without_network _ _ _ _ _)).
    left. cbn. discriminate.
  - eapply (proj2 (hot_patch_skips_without_network _ _ _ _ _)
              "https://x/client.exe" "ABC123" (Raw "abc123") 420);
      try reflexivity; discriminate.
Defined.

Module HotPatch.

Local Open Scope list_scope.

(** Past the gates, [patchOnlineClientIfNeeded] is its [try] block under
    the handler. *)
Lemma past_the_gates (E : Env) (gameDir : path) (version : GameVersion)
  (channel : string) (w : World) (address expectedHash : string) :
  platform E = "win32" ->
  patch_url version = Some address -> address <> ""%string ->
  patch_hash version = Some expectedHash -> expectedHash <> ""%string ->
  Fs.exists_ (getClientPath E gameDir version) (fs w) = true ->
  patchOnlineClientIfNeeded E gameDir version channel w =
  match patchOnlineClient E (getClientPath E gameDir version) address
                          expectedHash version channel w with
  | (Ok s, w1) => (Ok s, w1)
  | (Throw e, w1) =>
      (Ok skipped,
       mkWorld (fs w1)
               (log w1 ++ [Send "online-patch-error" (Message (message_of e))]))
  end.
Proof.
  intros Hos Hu Hu' Hh Hh' Hc.
  unfold patchOnlineClientIfNeeded. rewrite Hos, Hu, Hh.
  cbn [String.eqb Ascii.eqb Bool.eqb negb truthy_string].
  rewrite !OnlineFacts.not_empty by assumption. cbn [negb orb].
  unfold bind at 1, existsSync. rewrite Hc. cbn [negb].
  unfold try_catch.
  destruct (patchOnlineClient _ _ _ _ _ _ w) as [[s|e] w1]; reflexivity.
Qed.

Lemma returns (E : Env) (gameDir : path) (version : GameVersion)
  (channel : string) (w : World) :
  exists s, fst (patchOnlineClientIfNeeded E gameDir version channel w) = Ok s.
Proof.
  unfold patchOnlineClientIfNeeded.
  destruct (negb _); [cbn; eauto|].
  destruct (negb _ || negb _); [cbn; eauto|].
  destruct (patch_url version) as [address|]; [|cbn; eauto].
  destruct (patch_hash version) as [expectedHash|]; [|cbn; eauto].
  unfold bind at 1, existsSync.
  destruct (negb _); [cbn; eauto|].
  unfold try_catch.
  destruct (patchOnlineClient _ _ _ _ _ _ _) as [[s|e] w1]; cbn; eauto.
Qed.

End HotPatch.

(** C10.  [patchOnlineClientIfNeeded] never throws: for every environment,
    version and tree it returns one of "patched", "skipped" and
    "up-to-date"; and whatever its [try] block throws is caught, sent on
    ["online-patch-error"] with the message of the error, and turned into
    the return value "skipped". *)
Theorem hot_patch_never_throws
  (E : Env) (gameDir : path) (version : GameVersion) (channel : string)
  (w : World) :
  (exists s,
     fst (patchOnlineClientIfNeeded E gameDir version channel w) = Ok s
     /\ (s = patched \/ s = skipped \/ s = up_to_date))
  /\ (forall address expectedHash e w1,
        platform E = "win32" ->
        patch_url version = Some address -> address <> "" ->
        patch_hash version = Some expectedHash -> expectedHash <> "" ->
        Fs.exists_ (getClientPath E gameDir version) (fs w) = true ->
        patchOnlineClient E (getClientPath E gameDir version) address
                          expectedHash version channel w = (Throw e, w1) ->
        patchOnlineClientIfNeeded E gameDir version channel w =
        (Ok skipped,
         mkWorld (fs w1)
           (log w1 ++ [Send "online-patch-error" (Message (message_of e))])%list)).
Proof.
  split.
  - destruct (HotPatch.returns E gameDir version channel w) as [s Hs].
    exists s. split; [exact Hs|]. destruct s; auto.
  - intros address expectedHash e w1 Hos Hu Hu' Hh Hh' Hc Hbody.
    rewrite (HotPatch.past_the_gates E gameDir version channel w
               address expectedHash) by assumption.
    now rewrite Hbody.
Qed.

Module Mismatch.

Local Open Scope list_scope.

Lemma clientPath_eq (E : Env) (gameDir : path) (version : GameVersion) :
  getClientPath E gameDir version
  = clientDir gameDir version ++ [clientName (platform E)].
Proof. unfold getClientPath, clientDir. now rewrite <- app_assoc. Qed.

Lemma tempPath_eq (E : Env) (gameDir : path) (version : GameVersion) :
  tempPath E (getClientPath E gameDir version) version
  = clientDir gameDir version ++ [tempName E version].
Proof.
  unfold tempPath, dirname. rewrite clientPath_eq, removelast_last.
  reflexivity.
Qed.

Lemma tempName_fresh (E : Env) (version : GameVersion) :
  tempName E version <> clientName (platform E).
Proof.
  unfold tempName, clientName.
  destruct (String.eqb (platform E) "win32"); discriminate.
Qed.

Lemma paths_part (E : Env) (gameDir : path) (version : GameVersion) :
  part (tempPath E (getClientPath E gameDir version) version)
               (getClientPath E gameDir version).
Proof.
  rewrite tempPath_eq, clientPath_eq.
  apply FsFacts.part_siblings, tempName_fresh.
Qed.

(** The hash of the installed client, as the [try] block computes it. *)
Lemma current_hash (E : Env) (p : path) (w : World) :
  try_catch (h <- sha256File E p ;; ret (Some h)) (fun _ => ret None) w
  = (Ok match Fs.lookup p (fs w) with
        | Some (File c _) => Some (sha256 E c)
        | _ => None
        end, w).
Proof.
  unfold try_catch, bind, sha256File, bind, fs_get, Fs.read.
  destruct (Fs.lookup p (fs w)) as [[c m|es]|]; reflexivity.
Qed.

(** Writing a file and then removing it. *)
Lemma write_then_unlink (base : path) (name : string) (c : content)
  (n n1 : node) :
  Fs.write (base ++ [name]) c n = Ok n1 ->
  (exists m, Fs.lookup (base ++ [name]) n1 = Some (File c m))
  /\ (forall q, part (base ++ [name]) q ->
                Fs.lookup q n1 = Fs.lookup q n)
  /\ exists n2, Fs.unlink (base ++ [name]) n1 = Ok n2
                /\ Fs.lookup (base ++ [name]) n2 = None
                /\ (forall q, part (base ++ [name]) q ->
                              Fs.lookup q n2 = Fs.lookup q n).
Proof.
  unfold Fs.write. intros H.
  set (m := match Fs.lookup (base ++ [name]) n with
            | Some (File _ m) => m | _ => 420 end) in H.
  assert (Hu : Fs.update (base ++ [name]) (Some (File c m)) n = Some n1).
  { destruct (Fs.lookup (base ++ [name]) n) as [[c0 m0|es]|];
      try discriminate;
      destruct (Fs.update _ _ n); now inversion H. }
  clear H. destruct (FsFacts.lookup_update _ _ _ _ _ Hu) as [Hl _].
  assert (Hpart : forall q, part (base ++ [name]) q ->
                            Fs.lookup q n1 = Fs.lookup q n).
  { intros q Hq. eapply FsFacts.lookup_update_part; eauto. }
  split; [eauto|]. split; [exact Hpart|].
  destruct (FsFacts.lookup_parent_dir _ _ _ _ Hl) as [es Hes].
  destruct (FsFacts.update_some base name None n1 es Hes) as [n2 Hn2].
  exists n2. unfold Fs.unlink. rewrite Hl, Hn2.
  split; [reflexivity|]. split.
  - apply (FsFacts.lookup_update _ _ _ _ _ Hn2).
  - intros q Hq. rewrite <- (Hpart q Hq).
    eapply FsFacts.lookup_update_part; eauto.
Qed.

End Mismatch.

(** C6, as the code has it.  In the hot-patch path, when the download has
    completed and the hash of the downloaded file does not match the
    expected hash (both trimmed and compared without regard to case), the
    [try] block throws an [Error] with the message
    "Patch hash mismatch (SHA256)"; the handler of
    [patchOnlineClientIfNeeded] catches it, sends it on
    ["online-patch-error"] and returns "skipped".  The temporary file is
    gone, and the client binary is what it was: the downloaded file is not
    put in its place. *)
Theorem hash_mismatch_keeps_client
  (E : Env) (gameDir : path) (version : GameVersion) (channel : string)
  (w : World) (address expectedHash : string) (response : Response)
  (b : Body) :
  let clientPath := getClientPath E gameDir version in
  let temp := tempPath E clientPath version in
  platform E = "win32" ->
  patch_url version = Some address -> address <> "" ->
  patch_hash version = Some expectedHash -> expectedHash <> "" ->
  Fs.exists_ clientPath (fs w) = true ->
  (forall c m, Fs.lookup clientPath (fs w) = Some (File c m) ->
               ~ hash_matches (sha256 E c) expectedHash) ->
  fetch E address = Ok response -> body response = Some b ->
  fst (downloadFileWithProgress E address temp channel w) = Ok tt ->
  ~ hash_matches (sha256 E (Raw (String.concat "" (chunks b)))) expectedHash ->
  let out := patchOnlineClientIfNeeded E gameDir version channel w in
  fst (patchOnlineClient E clientPath address expectedHash version channel w)
    = Throw (JsError "Patch hash mismatch (SHA256)")
  /\ fst out = Ok skipped
  /\ last (log (snd out)) CallInstallButler
     = Send "online-patch-error" (Message "Patch hash mismatch (SHA256)")
  /\ Fs.lookup temp (fs (snd out)) = None
  /\ Fs.lookup clientPath (fs (snd out)) = Fs.lookup clientPath (fs w).
Proof.
  intros clientPath temp Hos Hu Hu' Hh Hh' Hc Hcur Hfetch Hbody Hdl Hbad out.
  (* the download *)
  assert (Hrun := Download.downloadFileWithProgress_run E address temp channel w).
  cbn zeta in Hrun. rewrite Hfetch, Hbody in Hrun.
  unfold written in Hrun. cbn zeta in Hrun.
  rewrite Hrun in Hdl.
  destruct (ok response); [|discriminate].
  destruct (failure b);
    [destruct (Fs.write temp _ (fs w)); discriminate|].
  destruct (Fs.write temp _ (fs w)) as [n1|e] eqn:Hwrite; [|discriminate].
  clear Hdl.
  unfold temp, clientPath in Hwrite. rewrite Mismatch.tempPath_eq in Hwrite.
  destruct (Mismatch.write_then_unlink _ _ _ _ _ Hwrite)
    as ([m Hread] & _ & n2 & Hunlink & Hgone & Hframe).
  rewrite <- Mismatch.tempPath_eq in Hread, Hunlink, Hgone, Hframe.
  fold clientPath in Hread, Hunlink, Hgone, Hframe.
  fold temp in Hread, Hunlink, Hgone, Hframe.
  (* the [try] block *)
  assert (Htry :
    patchOnlineClient E clientPath address expectedHash version channel w
    = (Throw (JsError "Patch hash mismatch (SHA256)"),
       mkWorld n2
         (log w ++ online_started address channel response b ++
          [Send channel (online_progress (int 100) (online_total response)
                                         (total_bytes (chunks b)))])%list)).
  { unfold patchOnlineClient. unfold bind at 1.
    rewrite Mismatch.current_hash.
    assert (Hstale :
      truthy_string
        match Fs.lookup clientPath (fs w) with
        | Some (File c _) => Some (sha256 E c)
        | _ => None
        end
      && String.eqb
           (normalizeHash
              match match Fs.lookup clientPath (fs w) with
                    | Some (File c _) => Some (sha256 E c)
                    | _ => None
                    end with
              | Some h => h
              | None => ""
              end)
           (normalizeHash expectedHash) = false).
    { destruct (Fs.lookup clientPath (fs w)) as [[c m0|es]|] eqn:Hl;
        try reflexivity.
      apply andb_false_iff. right. apply String.eqb_neq.
      exact (Hcur c m0 eq_refl). }
    rewrite Hstale. fold temp.
    unfold bind at 1. rewrite Hrun.
    unfold bind at 1, sha256File, bind at 1, fs_get, Fs.read.
    cbn [fs]. rewrite Hread. cbn [ret]. unfold ret at 1. cbn beta iota.
    assert (Hneq :
      String.eqb (normalizeHash (sha256 E (Raw (String.concat "" (chunks b)))))
                 (normalizeHash expectedHash) = false)
      by (apply String.eqb_neq; exact Hbad).
    rewrite Hneq. cbn [negb].
    unfold bind, ignoring, try_catch, fs_do. cbn [fs log].
    rewrite Hunlink. reflexivity. }
  split; [now rewrite Htry|].
  unfold out.
  rewrite (HotPatch.past_the_gates E gameDir version channel w
             address expectedHash) by assumption.
  fold clientPath. rewrite Htry. cbn [fst snd fs log message_of].
  split; [reflexivity|]. split; [apply last_last|].
  split; [exact Hgone|].
  apply Hframe. fold (tempPath E clientPath version).
  apply Mismatch.paths_part.
Qed.

(** C6 as the specification words it fails: with a client "old", an
    expected hash "ABC123" and a download "evil", no error with the message
    "Patch hash mismatch" is raised, neither by [patchOnlineClientIfNeeded]
    (which returns "skipped") nor inside it (the message differs). *)
Lemma no_integrity_error_is_raised :
  ~ integrity_error_raised
      (patchOnlineClientIfNeeded (Sample.windows "evil") Sample.gameDir
         Sample.hot "online-patch-progress" (Sample.installed "old"))
  /\ ~ integrity_error_raised
         (patchOnlineClient (Sample.windows "evil") Sample.clientExe
            "https://x/client.exe" "ABC123" Sample.hot
            "online-patch-progress" (Sample.installed "old")).
Proof. split; intros H; vm_compute in H; discriminate. Qed.

Lemma hash_mismatch_keeps_client_witness :
  let E := Sample.windows "evil" in
  let w := Sample.installed "old" in
  let out :=
    patchOnlineClientIfNeeded E Sample.gameDir Sample.hot
                              "online-patch-progress" w in
  fst out = Ok skipped
  /\ Fs.lookup ["games"; "game"; "release"; "Client";
                "temp_online_patch_3.exe"] (fs (snd out)) = None
  /\ Fs.lookup Sample.clientExe (fs (snd out))
     = Some (File (Raw "old") 420).
Proof.
  intros E w out.
  destruct (hash_mismatch_keeps_client E Sample.gameDir Sample.hot
              "online-patch-progress" w "https://x/client.exe" "ABC123"
              (Sample.response None ["evil"] None) (mkBody ["evil"] None 0))
    as (_ & H1 & _ & H2 & H3);
    try reflexivity; try discriminate.
  - intros c m H. injection H as <- <-. discriminate.
  - split; [exact H1|]. split; [exact H2|].
    etransitivity; [exact H3|reflexivity].
Defined.

Lemma hot_patch_never_throws_witness :
  let out :=
    patchOnlineClientIfNeeded (Sample.windows "evil") Sample.gameDir
      Sample.hot "online-patch-progress" (Sample.installed "old") in
  fst out = Ok skipped
  /\ last (log (snd out)) CallInstallButler
     = Send "online-patch-error" (Message "Patch hash mismatch (SHA256)").
Proof.
  intros out. unfold out.
  erewrite (proj2 (hot_patch_never_throws (Sample.windows "evil")
                     Sample.gameDir Sample.hot "online-patch-progress"
                     (Sample.installed "old"))
              "https://x/client.exe" "ABC123"
              (JsError "Patch hash mismatch (SHA256)")).
  - split; [reflexivity|]. cbn [snd log]. apply last_last.
  - reflexivity.
  - reflexivity.
  - discriminate.
  - reflexivity.
  - discriminate.
  - reflexivity.
  - vm_compute. reflexivity.
Defined.

(* ===================================================================== *)
(** * [installGame], step by step *)
(* ===================================================================== *)

Module Steps.

Local Open Scope list_scope.

Lemma silent_ret {A} (a : A) : silent (ret a).
Proof. intros w. reflexivity. Qed.

Lemma silent_throw {A} (e : thrown) : silent (@throw A e).
Proof. intros w. reflexivity. Qed.

Lemma silent_fs_do op : silent (fs_do op).
Proof. intros w. unfold fs_do. now destruct (op (fs w)). Qed.

Lemma silent_fs_get {A} (op : node -> result A) : silent (fs_get op).
Proof. intros w. reflexivity. Qed.

Lemma silent_existsSync p : silent (existsSync p).
Proof. intros w. reflexivity. Qed.

Lemma silent_bind {A B} (m : M A) (k : A -> M B) :
  silent m -> (forall a, silent (k a)) -> silent (bind m k).
Proof.
  intros Hm Hk w. unfold bind. specialize (Hm w).
  destruct (m w) as [[a|e] w']; cbn in *; [now rewrite Hk|assumption].
Qed.

Lemma silent_try_catch {A} (m : M A) (h : thrown -> M A) :
  silent m -> (forall e, silent (h e)) -> silent (try_catch m h).
Proof.
  intros Hm Hh w. unfold try_catch. specialize (Hm w).
  destruct (m w) as [[a|e] w']; cbn in *; [assumption|now rewrite Hh].
Qed.

Lemma silent_grows {A} (m : M A) : silent m -> grows m.
Proof. intros H w. exists []. unfold adds. now rewrite H, app_nil_r. Qed.

Lemma grows_bind {A B} (m : M A) (k : A -> M B) :
  grows m -> (forall a, grows (k a)) -> grows (bind m k).
Proof.
  intros Hm Hk w. unfold adds, bind. destruct (Hm w) as [evs1 H1].
  unfold adds in H1.
  destruct (m w) as [[a|e] w']; cbn in *.
  - destruct (Hk a w') as [evs2 H2]. unfold adds in H2.
    exists (evs1 ++ evs2). now rewrite H2, H1, app_assoc.
  - eauto.
Qed.

Lemma grows_try_catch {A} (m : M A) (h : thrown -> M A) :
  grows m -> (forall e, grows (h e)) -> grows (try_catch m h).
Proof.
  intros Hm Hh w. unfold adds, try_catch. destruct (Hm w) as [evs1 H1].
  unfold adds in H1.
  destruct (m w) as [[a|e] w']; cbn in *.
  - eauto.
  - destruct (Hh e w') as [evs2 H2]. unfold adds in H2.
    exists (evs1 ++ evs2). now rewrite H2, H1, app_assoc.
Qed.

Lemma silent_writeInstallManifest dir version :
  silent (writeInstallManifest dir version).
Proof.
  unfold writeInstallManifest.
  apply silent_bind; [apply silent_fs_do|intros _; apply silent_fs_do].
Qed.

Lemma silent_ensureClientExecutable E dir :
  silent (ensureClientExecutable E dir).
Proof.
  unfold ensureClientExecutable, ensureExecutable, ignoring.
  apply silent_try_catch; [|intros; apply silent_ret].
  destruct (String.eqb _ _); [apply silent_ret|].
  apply silent_try_catch; [|intros; apply silent_ret].
  apply silent_bind; [apply silent_fs_get|].
  intros mode. destruct (_ =? _)%Z; [apply silent_fs_do|apply silent_ret].
Qed.

Lemma silent_retireLatest gameDir version :
  silent (retireLatest gameDir version).
Proof.
  unfold retireLatest.
  destruct (_ && _); [|apply silent_ret].
  apply silent_bind; [apply silent_existsSync|].
  intros []; [|apply silent_ret].
  apply silent_bind; [apply silent_fs_get|].
  intros [existing|]; [|apply silent_ret].
  destruct (negb _); [|apply silent_ret].
  apply silent_bind; [apply silent_existsSync|].
  intros []; [apply silent_fs_do|].
  apply silent_bind; [apply silent_fs_do|intros _; apply silent_fs_do].
Qed.

Lemma silent_arrive E gameDir version : silent (arrive E gameDir version).
Proof.
  unfold arrive.
  apply silent_bind; [apply silent_fs_do|intros _; apply silent_retireLatest].
Qed.

Lemma grows_downloadPWR E gameDir version :
  grows (downloadPWR E gameDir version).
Proof.
  intros w. unfold adds. rewrite Download.downloadPWR_run. cbn zeta.
  destruct (fetch E (url version)) as [response|e]; [|cbn; eauto].
  destruct (ok response); [|cbn; eauto].
  destruct (body response) as [b|]; [|cbn; eauto].
  destruct (Fs.write _ _ _); [destruct (failure b)|]; cbn; eauto.
Qed.

Lemma grows_applyPWR E pwrPath butlerPath installDir :
  grows (applyPWR E pwrPath butlerPath installDir).
Proof.
  intros w. unfold adds. rewrite Download.applyPWR_run.
  destruct (ensureDir installDir (fs w)) as [n0|e];
    [|exists []; now rewrite app_nil_r].
  destruct (ensureDir _ n0) as [n1|e];
    [|exists []; cbn; now rewrite app_nil_r].
  cbn zeta. destruct (spawn E _ _ n1) as [[e|stdout code] n2]; cbn; eauto.
Qed.

Lemma grows_patchGame_rest E gameDir version installDir butlerPath :
  grows (match butlerPath with
         | None => throw (JsError "Failed to install butler")
         | Some butlerPath =>
             tempPWRPath <- downloadPWR E gameDir version ;;
             match tempPWRPath with
             | None => throw (JsError "Failed to download PWR")
             | Some tempPWRPath =>
                 gameFinalDir <- applyPWR E tempPWRPath butlerPath installDir ;;
                 match gameFinalDir with
                 | [] => throw (JsError "Failed to apply PWR")
                 | _ :: _ =>
                     fs_do (Fs.unlink tempPWRPath) ;;
                     writeInstallManifest installDir version ;;
                     ensureClientExecutable E installDir
                 end
             end
         end).
Proof.
  destruct butlerPath as [butlerPath|];
    [|apply silent_grows, silent_throw].
  apply grows_bind; [apply grows_downloadPWR|].
  intros [tempPWRPath|]; [|apply silent_grows, silent_throw].
  apply grows_bind; [apply grows_applyPWR|].
  intros [|c dir]; [apply silent_grows, silent_throw|].
  apply silent_grows.
  apply silent_bind; [apply silent_fs_do|intros _].
  apply silent_bind; [apply silent_writeInstallManifest|intros _].
  apply silent_ensureClientExecutable.
Qed.

(** The patch steps begin with the call of [installButler]. *)
Lemma patchGame_begins E gameDir version installDir (w : World) :
  exists rest,
    adds (patchGame E gameDir version installDir) w
         (CallInstallButler :: rest).
Proof.
  unfold adds, patchGame, callInstallButler.
  unfold bind at 1. unfold bind at 1. unfold emit at 1. cbn [fs log].
  destruct (installButler E (fs w)) as [butlerPath n].
  destruct (grows_patchGame_rest E gameDir version installDir butlerPath
              (mkWorld n (log w ++ [CallInstallButler]))) as [rest H].
  unfold adds in H. cbn [fs log] in H. exists rest.
  rewrite H, <- app_assoc. reflexivity.
Qed.

Lemma inspect_run (E : Env) (gameDir : path) (version : GameVersion)
  (w : World) :
  inspect E gameDir version w =
  match arrive E gameDir version w with
  | (Throw e, w0) => (Throw e, w0)
  | (Ok _, w0) =>
      let dir := resolveInstallDir gameDir version in
      let inst := checkGameInstallation E gameDir version (fs w0) in
      let already := records (readInstallManifest dir (fs w0)) version in
      match Fs.mkdir gameDir (fs w0) with
      | Throw e => (Throw e, w0)
      | Ok n =>
          match runtime_step E gameDir inst
                  (mkWorld n (log w0 ++ [Send "install-started" NoPayload]))
          with
          | (Ok _, w1) => (Ok (mkFindings dir inst already), w1)
          | (Throw e, w1) => (Throw e, w1)
          end
      end
  end.
Proof.
  unfold inspect, arrive, bind, records, runtime_step, callInstallJRE, bind.
  destruct (fs_do _ w) as [[[]|e] w']; [|reflexivity].
  destruct (retireLatest gameDir version w') as [[[]|e] w0]; [|reflexivity].
  cbn. unfold fs_do.
  destruct (Fs.mkdir gameDir (fs w0)) as [n|e]; [|reflexivity].
  cbn.
  destruct (jre (checkGameInstallation E gameDir version (fs w0)));
    [reflexivity|].
  cbn. destruct (installJRE E gameDir n) as [[[p|]|e] n']; reflexivity.
Qed.

Lemma installGame_run (E : Env) (gameDir : path) (version : GameVersion)
  (w : World) :
  installGame E gameDir version w =
  match inspect E gameDir version w with
  | (Ok f, w1) => conclude version (patchIfNeeded E gameDir version f w1)
  | (Throw e, w1) => conclude version (Throw e, w1)
  end.
Proof.
  unfold installGame, try_catch. unfold bind at 1.
  destruct (inspect E gameDir version w) as [[f|e] w1]; [|reflexivity].
  unfold bind at 1.
  destruct (patchIfNeeded E gameDir version f w1) as [[[]|e] w2];
    reflexivity.
Qed.

Lemma patchIfNeeded_run (E : Env) (gameDir : path) (version : GameVersion)
  (f : Findings) (w : World) :
  patchIfNeeded E gameDir version f w =
  if needed f then patchGame E gameDir version (installDir f) w
  else (Ok tt, w).
Proof.
  unfold patchIfNeeded, needed.
  destruct (alreadyOnThisBuild f); cbn; [|reflexivity].
  destruct (_ || _); reflexivity.
Qed.

End Steps.

Module Decision.

Local Open Scope list_scope.

Lemma inspect_events (E : Env) (gameDir : path) (version : GameVersion)
  (w w1 : World) (f : Findings) :
  inspect E gameDir version w = (Ok f, w1) ->
  exists w0 ievs,
    arrive E gameDir version w = (Ok tt, w0)
    /\ f = mkFindings (resolveInstallDir gameDir version)
             (checkGameInstallation E gameDir version (fs w0))
             (records (readInstallManifest
                         (resolveInstallDir gameDir version) (fs w0))
                      version)
    /\ log w1 = log w ++ ievs
    /\ (forall e, In e ievs ->
          e = Send "install-started" NoPayload \/ e = CallInstallJRE gameDir).
Proof.
  rewrite Steps.inspect_run. intros H.
  pose proof (Steps.silent_arrive E gameDir version w) as Hlog.
  destruct (arrive E gameDir version w) as [[[]|e] w0]; [|discriminate].
  cbn [snd] in Hlog. cbn zeta in H.
  destruct (Fs.mkdir gameDir (fs w0)) as [n|e]; [|discriminate].
  unfold runtime_step in H. cbn [fs log] in H.
  destruct (jre (checkGameInstallation E gameDir version (fs w0))).
  - injection H as <- <-. exists w0, [Send "install-started" NoPayload].
    cbn [log]. rewrite Hlog. repeat split.
    intros e [<-|[]]. now left.
  - destruct (installJRE E gameDir n) as [[[p|]|e] n']; try discriminate.
    injection H as <- <-.
    exists w0, [Send "install-started" NoPayload; CallInstallJRE gameDir].
    cbn [log]. rewrite Hlog, <- app_assoc. repeat split.
    intros e [<-|[<-|[]]]; auto.
Qed.

Lemma needed_required (manifest : option InstallManifest)
  (inst : Installation) (version : GameVersion) (dir : path) :
  needed (mkFindings dir inst (records manifest version)) = true
  <-> patch_required manifest inst version.
Proof.
  unfold needed, patch_required, records. cbn.
  rewrite !orb_true_iff, !negb_true_iff. split.
  - intros [[H|H]|H]; auto. left. intros m ->.
    now apply Z.eqb_neq.
  - intros [H|[H|H]]; auto. left; left.
    destruct manifest as [m|]; [|reflexivity].
    apply Z.eqb_neq. now apply H.
Qed.

End Decision.

Module Trace.

Local Open Scope list_scope.

(** A program that only appends to the log appends its events. *)
Lemma grows_log {A} (m : M A) (w : World) :
  grows m -> log (snd (m w)) = log w ++ events m w.
Proof.
  intros H. destruct (H w) as [evs Hevs].
  rewrite (Run.adds_events _ _ _ Hevs). exact Hevs.
Qed.

Lemma events_of_log {A} (m : M A) (w : World) (evs : list effect) :
  log (snd (m w)) = log w ++ evs -> events m w = evs.
Proof. apply Run.adds_events. Qed.

Lemma callInstallButler_run (E : Env) (w : World) :
  callInstallButler E w
  = (Ok (fst (installButler E (fs w))),
     mkWorld (snd (installButler E (fs w))) (log w ++ [CallInstallButler])).
Proof.
  unfold callInstallButler, bind, emit. cbn.
  now destruct (installButler E (fs w)).
Qed.

Lemma patchGame_run (E : Env) gameDir version (dir : path) (w : World) :
  patchGame E gameDir version dir w =
  let w2 := mkWorld (snd (installButler E (fs w)))
                    (log w ++ [CallInstallButler]) in
  match fst (installButler E (fs w)) with
  | None => (Throw (JsError "Failed to install butler"), w2)
  | Some butlerPath =>
      match downloadPWR E gameDir version w2 with
      | (Ok None, w3) => (Throw (JsError "Failed to download PWR"), w3)
      | (Ok (Some temp), w3) =>
          match applyPWR E temp butlerPath dir w3 with
          | (Ok [], w4) => (Throw (JsError "Failed to apply PWR"), w4)
          | (Ok (_ :: _), w4) =>
              (fs_do (Fs.unlink temp) ;;
               writeInstallManifest dir version ;;
               ensureClientExecutable E dir) w4
          | (Throw e, w4) => (Throw e, w4)
          end
      | (Throw e, w3) => (Throw e, w3)
      end
  end.
Proof.
  unfold patchGame. unfold bind at 1. rewrite callInstallButler_run.
  cbn zeta. destruct (fst (installButler E (fs w))); [|reflexivity].
  unfold bind at 1.
  destruct (downloadPWR E gameDir version _) as [[[temp|]|e] w3];
    try reflexivity.
  unfold bind at 1.
  destruct (applyPWR E temp p dir w3) as [[[|c d]|e] w4]; reflexivity.
Qed.

(** A download begins with its request and goes on with progress records
    on "install-progress"; it returns the path of the temporary file or
    [null]. *)
Lemma downloadPWR_trace (E : Env) gameDir version (w : World) :
  exists sent,
    events (downloadPWR E gameDir version) w = Fetch (url version) :: sent
    /\ Forall (fun e => exists p, e = Send "install-progress" (Progress p))
              sent.
Proof.
  assert (Hrun := Download.downloadPWR_run E gameDir version w).
  cbn zeta in Hrun.
  assert (Hsent : forall response b,
             Forall (fun e => exists p,
                        e = Send "install-progress" (Progress p))
                    (tl (pwr_started (url version) response b))).
  { intros response b. unfold pwr_started. cbn [app tl].
    constructor; [unfold pwr_progress; eauto|].
    apply Forall_map, Forall_forall. intros d _. unfold pwr_progress. eauto. }
  assert (Hhead : forall response b,
             pwr_started (url version) response b
             = Fetch (url version)
               :: tl (pwr_started (url version) response b))
    by reflexivity.
  destruct (fetch E (url version)) as [response|e];
    [|exists []; split; [apply events_of_log; now rewrite Hrun|constructor]].
  destruct (ok response);
    [|exists []; split; [apply events_of_log; now rewrite Hrun|constructor]].
  destruct (body response) as [b|];
    [|exists []; split; [apply events_of_log; now rewrite Hrun|constructor]].
  destruct (Fs.write _ _ (fs w)); [destruct (failure b)|].
  - exists (tl (pwr_started (url version) response b)).
    split; [|apply Hsent].
    apply events_of_log. rewrite Hrun. cbn [snd log]. now rewrite <- Hhead.
  - exists (tl (pwr_started (url version) response b)
            ++ [Send "install-progress"
                  (pwr_progress (int 100) (pwr_total response)
                     (total_bytes (chunks b)))]).
    split.
    + apply events_of_log. rewrite Hrun. cbn [snd log].
      now rewrite (Hhead response b) at 1.
    + apply Forall_app. split; [apply Hsent|].
      constructor; [unfold pwr_progress; eauto|constructor].
  - exists (tl (pwr_started (url version) response b)).
    split; [|apply Hsent].
    apply events_of_log. rewrite Hrun. cbn [snd log]. now rewrite <- Hhead.
Qed.

Lemma downloadPWR_result (E : Env) gameDir version (w : World) :
  fst (downloadPWR E gameDir version w) = Ok None
  \/ fst (downloadPWR E gameDir version w)
     = Ok (Some (tempPWRPath gameDir version)).
Proof.
  rewrite Download.downloadPWR_run. cbn zeta.
  destruct (fetch E (url version)) as [response|e]; [|now left].
  destruct (ok response); [|now left].
  destruct (body response) as [b|]; [|now left].
  destruct (Fs.write _ _ _); [destruct (failure b)|]; auto.
Qed.

Lemma applyPWR_trace (E : Env) pwrPath butlerPath installDir (w : World) :
  events (applyPWR E pwrPath butlerPath installDir) w
  = apply_trace E pwrPath butlerPath installDir (fs w).
Proof.
  apply events_of_log. rewrite Download.applyPWR_run. unfold apply_trace.
  destruct (ensureDir installDir (fs w)) as [n0|e];
    [|now rewrite app_nil_r].
  destruct (ensureDir _ n0) as [n1|e]; [|cbn; now rewrite app_nil_r].
  cbn zeta. destruct (spawn E _ _ n1) as [[e|stdout code] n2]; reflexivity.
Qed.

Lemma patchGame_trace (E : Env) gameDir version (dir : path) (w : World) :
  log (snd (patchGame E gameDir version dir w))
  = log w ++ patch_trace E gameDir version dir w.
Proof.
  rewrite patchGame_run. unfold patch_trace. cbn zeta.
  destruct (fst (installButler E (fs w))) as [butlerPath|];
    [|reflexivity].
  set (w2 := mkWorld _ _).
  pose proof (grows_log _ w2 (Steps.grows_downloadPWR E gameDir version))
    as Hd.
  destruct (downloadPWR E gameDir version w2) as [[[temp|]|e] w3];
    cbn [fst snd] in *; rewrite ?app_nil_r;
    try (rewrite Hd; unfold w2; cbn [log]; now rewrite <- app_assoc).
  pose proof (grows_log _ w3
                (Steps.grows_applyPWR E temp butlerPath dir)) as Ha.
  rewrite applyPWR_trace in Ha.
  assert (Hall : log w3 ++ apply_trace E temp butlerPath dir (fs w3)
                 = log w ++ CallInstallButler
                     :: events (downloadPWR E gameDir version) w2
                        ++ apply_trace E temp butlerPath dir (fs w3)).
  { rewrite Hd. unfold w2. cbn [log]. now rewrite <- !app_assoc. }
  destruct (applyPWR E temp butlerPath dir w3) as [[[|c d]|e] w4];
    cbn [snd] in *; try (now rewrite Ha).
  rewrite <- Hall, <- Ha.
  apply (Steps.silent_bind _ _ (Steps.silent_fs_do _)). intros _.
  apply (Steps.silent_bind _ _ (Steps.silent_writeInstallManifest _ _)).
  intros _. apply Steps.silent_ensureClientExecutable.
Qed.

(** The events of an invocation whose preliminary steps succeed. *)
Lemma installGame_trace (E : Env) gameDir version (w w1 : World)
  (f : Findings) :
  inspect E gameDir version w = (Ok f, w1) ->
  exists ievs ending,
    log w1 = log w ++ ievs
    /\ (forall e, In e ievs ->
          e = Send "install-started" NoPayload \/ e = CallInstallJRE gameDir)
    /\ events (installGame E gameDir version) w
       = ievs
         ++ (if needed f
             then patch_trace E gameDir version (installDir f) w1 else [])
         ++ [ending]
    /\ (ending = Send "install-finished" (Version version)
        \/ exists msg, ending = Send "install-error" (Message msg)).
Proof.
  intros Hi.
  destruct (Decision.inspect_events _ _ _ _ _ _ Hi)
    as (w0 & ievs & _ & _ & Hlog & Hievs).
  assert (Hp : log (snd (patchIfNeeded E gameDir version f w1))
               = log w1 ++ (if needed f
                            then patch_trace E gameDir version (installDir f) w1
                            else [])).
  { rewrite Steps.patchIfNeeded_run. destruct (needed f).
    - apply patchGame_trace.
    - cbn. now rewrite app_nil_r. }
  exists ievs.
  destruct (patchIfNeeded E gameDir version f w1) as [[[]|e] w2] eqn:Hrun;
    cbn [snd] in Hp; eexists;
    (split; [exact Hlog|]); (split; [exact Hievs|]);
    (split; [apply events_of_log; rewrite Steps.installGame_run, Hi, Hrun;
             cbn [conclude snd log]; rewrite Hp, Hlog, <- !app_assoc;
             reflexivity|]); eauto.
Qed.

End Trace.

(** C1, as the code has it.  For every invocation of [installGame] whose
    preliminary steps succeed (migration, retirement, the creation of the
    game root and, when the runtime is missing, its installation): the
    patch steps are run exactly when the manifest read from the resolved
    install directory does not record the target build, or records it
    while the client or the server binary is missing.  Run, they are
    steps each of which needs the one before: [installButler] is called
    exactly when a patch is required; the download is requested exactly
    when, besides, [installButler] has given a path; the patch tool is
    spawned exactly when, besides, the download has returned its file and
    the two directories could be prepared, and then it is the tool
    [installButler] gave, with the arguments of [applyPWR]; and the
    invocation ends as the patch steps end.  When the manifest matches and
    both binaries are present nothing is downloaded, nothing spawned, and
    the invocation reports success. *)
Theorem patch_exactly_when_required
  (E : Env) (gameDir : path) (version : GameVersion) (w w1 : World)
  (f : Findings) :
  inspect E gameDir version w = (Ok f, w1) ->
  let out := installGame E gameDir version w in
  let evs := events (installGame E gameDir version) w in
  let tool := fst (installButler E (fs w1)) in
  let w2 := mkWorld (snd (installButler E (fs w1)))
                    (log w1 ++ [CallInstallButler])%list in
  let download := downloadPWR E gameDir version w2 in
  let temp := tempPWRPath gameDir version in
  let prepared :=
    exists n0 n1,
      ensureDir (installDir f) (fs (snd download)) = Ok n0
      /\ ensureDir (installDir f ++ ["staging-temp"])%list n0 = Ok n1 in
  (exists w0,
     arrive E gameDir version w = (Ok tt, w0)
     /\ installDir f = resolveInstallDir gameDir version
     /\ (needed f = true <->
         patch_required (readInstallManifest (installDir f) (fs w0))
                        (checkGameInstallation E gameDir version (fs w0))
                        version))
  /\ (needed f = true <-> In CallInstallButler evs)
  /\ (In (Fetch (url version)) evs <->
      needed f = true /\ exists butlerPath, tool = Some butlerPath)
  /\ (forall command args,
        In (Spawn command args) evs <->
        needed f = true
        /\ tool = Some command
        /\ fst download = Ok (Some temp)
        /\ prepared
        /\ args = butlerArgs temp (installDir f))
  /\ (needed f = true ->
      out = conclude version (patchGame E gameDir version (installDir f) w1))
  /\ (needed f = false ->
      out = (Ok true,
             mkWorld (fs w1)
               (log w1 ++ [Send "install-finished" (Version version)])%list)
      /\ forall e, In e evs ->
           match e with
           | Send _ _ | CallInstallJRE _ => True
           | Fetch _ | Spawn _ _ | CallInstallButler | Later _ _ => False
           end).
Proof.
  intros Hinspect out evs tool w2 download temp prepared.
  destruct (Decision.inspect_events _ _ _ _ _ _ Hinspect)
    as (w0 & ievs0 & Harrive & Hf & _ & _).
  destruct (Trace.installGame_trace _ _ _ _ _ _ Hinspect)
    as (ievs & ending & Hlog & Hievs & Hevs & Hending).
  fold evs in Hevs.
  assert (Hout : out = conclude version
                         (if needed f
                          then patchGame E gameDir version (installDir f) w1
                          else (Ok tt, w1))).
  { unfold out. rewrite Steps.installGame_run, Hinspect.
    now rewrite Steps.patchIfNeeded_run. }
  (* what the preliminary steps and the closing event are not *)
  assert (Hpre : forall e, In e ievs ->
                   e <> CallInstallButler
                   /\ (forall a, e <> Fetch a)
                   /\ (forall c a, e <> Spawn c a)).
  { intros e Hin. destruct (Hievs e Hin) as [-> | ->];
      repeat split; discriminate. }
  assert (Hend : ending <> CallInstallButler
                 /\ (forall a, ending <> Fetch a)
                 /\ (forall c a, ending <> Spawn c a)).
  { destruct Hending as [-> | [msg ->]]; repeat split; discriminate. }
  (* an event of the patch steps is one of the invocation *)
  assert (Hin : forall e,
             e <> Send "install-started" NoPayload ->
             e <> CallInstallJRE gameDir ->
             e <> ending ->
             (In e evs <->
              needed f = true
              /\ In e (patch_trace E gameDir version (installDir f) w1))).
  { intros e N1 N2 N3. rewrite Hevs, !in_app_iff. split.
    - intros [H|[H|[H|[]]]].
      + destruct (Hievs e H); congruence.
      + destruct (needed f); [auto|destruct H].
      + congruence.
    - intros [Hn H]. rewrite Hn. auto. }
  destruct (Trace.downloadPWR_trace E gameDir version w2)
    as (sent & Hsent & Fsent).
  fold download in Hsent.
  assert (Hnospawn : forall c a,
             ~ In (Spawn c a) (events (downloadPWR E gameDir version) w2)).
  { intros c a. rewrite Hsent. intros [H|H]; [discriminate|].
    rewrite Forall_forall in Fsent. destruct (Fsent _ H). discriminate. }
  split; [|split; [|split; [|split; [|split]]]].
  - exists w0. split; [exact Harrive|]. subst f. cbn [installDir].
    split; [reflexivity|]. apply Decision.needed_required.
  - rewrite Hin; try discriminate; [|apply not_eq_sym, Hend].
    unfold patch_trace. cbn [In]. intuition.
  - rewrite Hin; try discriminate;
      [|apply not_eq_sym, (proj1 (proj2 Hend))].
    unfold patch_trace. cbv zeta. fold tool w2.
    cbn [In]. split.
    + intros [Hn [H|H]]; [discriminate|]. split; [exact Hn|].
      destruct tool as [butlerPath|]; [eauto|destruct H].
    + intros [Hn [butlerPath ->]]. split; [exact Hn|]. right.
      apply in_or_app. left. rewrite Hsent. now left.
  - intros command args.
    rewrite Hin; try discriminate;
      [|apply not_eq_sym, (proj2 (proj2 Hend))].
    unfold patch_trace. cbv zeta. fold tool w2 download.
    cbn [In]. unfold prepared. split.
    + intros [Hn [H|H]]; [discriminate|]. split; [exact Hn|].
      destruct tool as [butlerPath|]; [|destruct H].
      apply in_app_or in H as [H|H]; [now destruct (Hnospawn _ _ H)|].
      destruct (Trace.downloadPWR_result E gameDir version w2) as [Hd|Hd];
        fold download in Hd; rewrite Hd in H; [destruct H|].
      fold temp in H, Hd. unfold apply_trace in H.
      destruct (ensureDir (installDir f) (fs (snd download))) as [n0|e];
        [|destruct H].
      destruct (ensureDir _ n0) as [n1|e] eqn:H1; [|destruct H].
      cbv zeta in H. destruct H as [H|[H|H]]; [discriminate| |].
      * injection H as <- <-. repeat split; try assumption. eauto.
      * exfalso.
        destruct (fst (spawn E butlerPath (butlerArgs temp (installDir f))
                         n1)) as [e|stdout code].
        -- destruct H as [H|[]]. discriminate.
        -- apply in_app_or in H as [H|[H|[]]]; [|discriminate].
           unfold line_events in H. apply in_flat_map in H as (l & _ & H).
           destruct (onLine (JSON_parse E) l); [|destruct H].
           destruct H as [H|[]]. discriminate.
    + intros (Hn & -> & Hd & (n0 & n1 & H0 & H1) & ->).
      split; [exact Hn|]. right. apply in_or_app. right.
      rewrite Hd. fold temp. unfold apply_trace. rewrite H0, H1.
      right. now left.
  - intros Hn. now rewrite Hout, Hn.
  - intros Hn. rewrite Hout, Hn. split; [reflexivity|].
    rewrite Hevs, Hn. intros e H.
    apply in_app_or in H as [H|[<-|[]]].
    + destruct (Hievs _ H) as [-> | ->]; exact I.
    + destruct Hending as [-> | [msg ->]]; exact I.
Qed.

(** C1 as the specification words it fails.  With build 3 recorded, client
    and server present, the runtime missing and its installation failing,
    no patch is required and yet the invocation reports failure; with
    build 2 recorded a patch is required and yet nothing is downloaded. *)
Lemma patch_decision_claim_fails :
  ~ patch_decision_claim Sample2.noRuntime Sample.gameDir Sample.b3
      (Sample2.withoutRuntime 3)
  /\ ~ patch_decision_claim Sample2.noRuntime Sample.gameDir Sample.b3
         (Sample2.withoutRuntime 2).
Proof.
  split.
  - intros [_ H].
    assert (Hok : fst (installGame Sample2.noRuntime Sample.gameDir Sample.b3
                         (Sample2.withoutRuntime 3)) = Ok true).
    { apply H. intros [Hm|[Hc|Hs]].
      - apply (Hm (mkManifest 3 (Some "b"))); reflexivity.
      - vm_compute in Hc. discriminate.
      - vm_compute in Hs. discriminate. }
    vm_compute in Hok. discriminate.
  - intros [[_ H] _].
    assert (Hin : In (Fetch (url Sample.b3))
                     (log (snd (installGame Sample2.noRuntime Sample.gameDir
                                  Sample.b3 (Sample2.withoutRuntime 2))))).
    { apply H. left. intros m Hm. vm_compute in Hm. discriminate. }
    vm_compute in Hin.
    repeat (destruct Hin as [Hin|Hin]; [discriminate|]). exact Hin.
Qed.

Lemma patch_exactly_when_required_witness :
  let E := Sample.linux (Some "20") None (Some 0) in
  let evs := events (installGame E Sample.gameDir Sample.b3) Sample.start in
  In CallInstallButler evs
  /\ In (Fetch "https://x/b3.patch") evs
  /\ In (Spawn ["tools"; "butler"]
           ["apply"; "--json"; "--staging-dir";
            "games/game/release/latest/staging-temp"; "games/temp_3.pwr";
            "games/game/release/latest"]) evs
  /\ fst (installGame E Sample.gameDir Sample.b3 Sample.start) = Ok true.
Proof.
  intros E evs.
  destruct (patch_exactly_when_required E Sample.gameDir Sample.b3
              Sample.start
              (snd (inspect E Sample.gameDir Sample.b3 Sample.start))
              (mkFindings Sample.latest (mkInstallation false false false)
                          false)
              eq_refl) as (_ & H1 & H2 & H3 & H4 & _).
  split; [apply H1; reflexivity|].
  split; [apply H2; split; [reflexivity|]; eexists; reflexivity|].
  split.
  - apply H3. split; [reflexivity|]. split; [reflexivity|].
    split; [vm_compute; reflexivity|].
    split; [|vm_compute; reflexivity].
    eexists. eexists. split; vm_compute; reflexivity.
  - rewrite (H4 eq_refl). reflexivity.
Defined.

Module BestEffort.

Lemma ensureClientExecutable_returns (E : Env) (installDir : path)
  (w : World) :
  fst (ensureClientExecutable E installDir w) = Ok tt.
Proof.
  unfold ensureClientExecutable, ignoring, try_catch.
  destruct (ensureExecutable E _ w) as [[[]|e] w']; reflexivity.
Qed.

(** What [fs.unlinkSync(tempPWRPath)] throws, the patch steps throw. *)
Lemma unlink_escalates (E : Env) (gameDir : path) (version : GameVersion)
  (dir : path) (w w2 w3 w4 : World) (butlerPath tmp : path)
  (c : string) (d : path) (e : thrown) :
  callInstallButler E w = (Ok (Some butlerPath), w2) ->
  downloadPWR E gameDir version w2 = (Ok (Some tmp), w3) ->
  applyPWR E tmp butlerPath dir w3 = (Ok (c :: d), w4) ->
  Fs.unlink tmp (fs w4) = Throw e ->
  patchGame E gameDir version dir w = (Throw e, w4).
Proof.
  intros Hbutler Hdownload Happly Hunlink.
  unfold patchGame. unfold bind at 1. rewrite Hbutler.
  unfold bind at 1. rewrite Hdownload.
  unfold bind at 1. rewrite Happly.
  unfold bind at 1, fs_do at 1. now rewrite Hunlink.
Qed.

End BestEffort.

(** C5, evaluated.  Restoring the executable bit never escalates:
    [ensureClientExecutable] returns whatever happens, and an install whose
    tool leaves no client at all still reports success.  Deleting the
    temporary patch file does escalate: what [fs.unlinkSync] throws, the
    patch steps throw; in the run below (the tool has removed the file)
    [installGame] sends "install-error", returns [false] and records no
    manifest, although the patch has been applied. *)
Theorem temp_cleanup_failure_is_fatal :
  (forall E installDir w,
     fst (ensureClientExecutable E installDir w) = Ok tt)
  /\ (let out :=
        installGame (Sample.env "linux" (Sample.serve (Some "20") None)
                                (Sample.tool false [] (Some 0))
                                Sample.jreInstaller)
                    Sample.gameDir Sample.b3 Sample.start in
      fst out = Ok true
      /\ Fs.exists_ (resolveClientPath "linux" Sample.latest) (fs (snd out))
         = false)
  /\ (forall E gameDir version dir w w2 w3 w4 butlerPath tmp c d e,
        callInstallButler E w = (Ok (Some butlerPath), w2) ->
        downloadPWR E gameDir version w2 = (Ok (Some tmp), w3) ->
        applyPWR E tmp butlerPath dir w3 = (Ok (c :: d), w4) ->
        Fs.unlink tmp (fs w4) = Throw e ->
        patchGame E gameDir version dir w = (Throw e, w4))
  /\ (let out :=
        installGame Sample2.cleanupFails Sample.gameDir Sample.b3
                    Sample.start in
      fst out = Ok false
      /\ last (log (snd out)) CallInstallButler
         = Send "install-error"
                (Message "ENOENT: no such file or directory")
      /\ Fs.exists_ (resolveClientPath "linux" Sample.latest) (fs (snd out))
         = true
      /\ readInstallManifest Sample.latest (fs (snd out)) = None).
Proof.
  split; [apply BestEffort.ensureClientExecutable_returns|].
  split; [vm_compute; repeat split|].
  split; [apply BestEffort.unlink_escalates|].
  vm_compute. repeat split.
Qed.

Lemma temp_cleanup_failure_is_fatal_witness :
  let E := Sample2.cleanupFails in
  let w := snd (inspect E Sample.gameDir Sample.b3 Sample.start) in
  fst (patchGame E Sample.gameDir Sample.b3 Sample.latest w)
  = Throw Fs.ENOENT.
Proof.
  intros E w.
  erewrite (proj1 (proj2 (proj2 temp_cleanup_failure_is_fatal))
              E Sample.gameDir Sample.b3 Sample.latest w).
  - reflexivity.
  - vm_compute. reflexivity.
  - vm_compute. reflexivity.
  - vm_compute. reflexivity.
  - vm_compute. reflexivity.
Defined.

(* ===================================================================== *)
(** * Retiring the old "latest" *)
(* ===================================================================== *)

Module Retire.

Import Fs.
Local Open Scope list_scope.

Lemma update_parent (base : path) (c : string) (v : option node)
  (n n' : node) :
  update (base ++ [c]) v n = Some n' ->
  exists es, lookup base n' = Some (Dir es).
Proof.
  revert n n'. induction base as [|b base IH]; intros n n' H.
  - cbn in H. destruct n as [|es]; [discriminate|]. injection H as <-.
    cbn. eauto.
  - cbn [app update] in H. destruct n as [|es]; [discriminate|].
    destruct (base ++ [c]) as [|x l] eqn:Hl; [now destruct base|].
    destruct (assoc b es) as [child|] eqn:Hb; [|discriminate].
    destruct (update (x :: l) v child) as [child'|] eqn:Hu; [|discriminate].
    injection H as <-. rewrite <- Hl in *.
    destruct (IH _ _ Hu) as [es' H'].
    cbn [lookup]. rewrite FsFacts.assoc_put, String.eqb_refl. eauto.
Qed.

(** Deleting a tree that exists. *)
Lemma rm_rf_there (base : path) (a : string) (n old : node) :
  lookup (base ++ [a]) n = Some old ->
  exists n1,
    rm_rf (base ++ [a]) n = Ok n1
    /\ lookup (base ++ [a]) n1 = None
    /\ (forall q, part (base ++ [a]) q -> lookup q n1 = lookup q n).
Proof.
  intros Hold. unfold rm_rf. rewrite Hold.
  destruct (FsFacts.lookup_parent_dir _ _ _ _ Hold) as [es Hes].
  destruct (FsFacts.update_some base a None n es Hes) as [n1 Hn1].
  rewrite Hn1. exists n1. split; [reflexivity|]. split.
  - apply (FsFacts.lookup_update _ _ _ _ _ Hn1).
  - intros q Hq. eapply FsFacts.lookup_update_part; eauto.
Qed.

(** Moving a tree to a sibling name that is free. *)
Lemma rename_fresh (base : path) (a b : string) (n moved : node) :
  a <> b ->
  lookup (base ++ [a]) n = Some moved ->
  lookup (base ++ [b]) n = None ->
  exists n2,
    rename (base ++ [a]) (base ++ [b]) n = Ok n2
    /\ lookup (base ++ [b]) n2 = Some moved
    /\ lookup (base ++ [a]) n2 = None
    /\ (forall q, part (base ++ [a]) q -> part (base ++ [b]) q ->
                  lookup q n2 = lookup q n).
Proof.
  intros Hab Hsrc Hdst. unfold rename. rewrite Hsrc, Hdst.
  destruct (FsFacts.lookup_parent_dir _ _ _ _ Hsrc) as [es Hes].
  destruct (FsFacts.update_some base a None n es Hes) as [n1 Hn1].
  rewrite Hn1.
  destruct (update_parent _ _ _ _ _ Hn1) as [es1 Hes1].
  destruct (FsFacts.update_some base b (Some moved) n1 es1 Hes1) as [n2 Hn2].
  rewrite Hn2. exists n2. split; [reflexivity|]. split; [|split].
  - apply (FsFacts.lookup_update _ _ _ _ _ Hn2).
  - rewrite (FsFacts.lookup_update_part _ _ _ _ _
               (FsFacts.part_siblings base b a [] [] (not_eq_sym Hab)) Hn2).
    apply (FsFacts.lookup_update _ _ _ _ _ Hn1).
  - intros q Ha Hb.
    rewrite (FsFacts.lookup_update_part _ _ _ _ _ Hb Hn2).
    apply (FsFacts.lookup_update_part _ _ _ _ _ Ha Hn1).
Qed.

Lemma latest_eq (gameDir : path) :
  getLatestDir gameDir = releaseDir gameDir ++ ["latest"%string].
Proof. unfold getLatestDir, releaseDir. now rewrite <- app_assoc. Qed.

Lemma numbered_eq (gameDir : path) (k : Z) :
  getReleaseBuildDir gameDir k
  = releaseDir gameDir ++ [("build-" ++ Str.of_Z k)%string].
Proof.
  unfold getReleaseBuildDir, getBuildDir, releaseDir.
  now rewrite <- app_assoc.
Qed.

Lemma latest_not_numbered (k : Z) :
  "latest"%string <> ("build-" ++ Str.of_Z k)%string.
Proof. discriminate. Qed.

Lemma retireLatest_run (gameDir : path) (version : GameVersion) (w : World) :
  retireLatest gameDir version w =
  let latest := getLatestDir gameDir in
  if VersionType_eqb (type version) release && truthy_bool (isLatest version)
  then
    if exists_ latest (fs w) then
      match readInstallManifest latest (fs w) with
      | Some existing =>
          let numbered := getReleaseBuildDir gameDir (m_build_index existing) in
          if negb (m_build_index existing =? build_index version)%Z then
            if exists_ numbered (fs w) then fs_do (rm_rf latest) w
            else
              match mkdir (dirname numbered) (fs w) with
              | Ok n => fs_do (rename latest numbered) (mkWorld n (log w))
              | Throw e => (Throw e, w)
              end
          else (Ok tt, w)
      | None => (Ok tt, w)
      end
    else (Ok tt, w)
  else (Ok tt, w).
Proof.
  unfold retireLatest. cbn zeta.
  destruct (_ && _); [|reflexivity].
  unfold bind, existsSync, fs_get.
  destruct (exists_ (getLatestDir gameDir) (fs w)); [|reflexivity].
  destruct (readInstallManifest _ (fs w)) as [existing|]; [|reflexivity].
  destruct (negb _); [|reflexivity].
  destruct (exists_ _ (fs w)); [reflexivity|].
  unfold fs_do at 1.
  destruct (mkdir _ (fs w)); reflexivity.
Qed.

End Retire.

(** C8, as the code has it.  When a release version that is latest is
    installed while the "latest" directory holds, by its manifest, another
    build, the retirement step succeeds and the "latest" directory is
    gone: moved, as it was, to the numbered directory of the build it
    recorded when that directory did not exist; deleted when it did, and
    then the numbered directory holds what it held.  Nothing else in the
    tree changes. *)
Theorem retirement_never_overwrites
  (gameDir : path) (version : GameVersion) (w : World)
  (existing : InstallManifest) :
  type version = release ->
  isLatest version = Some true ->
  readInstallManifest (getLatestDir gameDir) (fs w) = Some existing ->
  m_build_index existing <> build_index version ->
  let latest := getLatestDir gameDir in
  let numbered := getReleaseBuildDir gameDir (m_build_index existing) in
  let out := retireLatest gameDir version w in
  fst out = Ok tt
  /\ log (snd out) = log w
  /\ Fs.lookup latest (fs (snd out)) = None
  /\ (Fs.exists_ numbered (fs w) = false ->
      Fs.lookup numbered (fs (snd out)) = Fs.lookup latest (fs w))
  /\ (Fs.exists_ numbered (fs w) = true ->
      Fs.lookup numbered (fs (snd out)) = Fs.lookup numbered (fs w))
  /\ (forall q, part latest q -> part numbered q ->
                Fs.lookup q (fs (snd out)) = Fs.lookup q (fs w)).
Proof.
  intros Htype Hlatest Hread Hother latest numbered out.
  assert (Hdir : exists old, Fs.lookup latest (fs w) = Some old).
  { unfold readInstallManifest, manifestPath in Hread.
    destruct (Fs.lookup (getLatestDir gameDir ++ [manifestName])%list (fs w))
      as [m|] eqn:Hm; [|discriminate].
    destruct (FsFacts.lookup_parent_dir _ _ _ _ Hm) as [es Hes]. eauto. }
  destruct Hdir as [old Hold].
  assert (Hneq : (m_build_index existing =? build_index version) = false)
    by now apply Z.eqb_neq.
  assert (Hthere : Fs.exists_ latest (fs w) = true)
    by (unfold Fs.exists_; now rewrite Hold).
  unfold out. rewrite Retire.retireLatest_run. cbn zeta.
  rewrite Htype, Hlatest. cbn [VersionType_eqb truthy_bool andb].
  fold latest. fold latest in Hread. rewrite Hthere, Hread, Hneq.
  cbn [negb]. fold numbered.
  unfold latest, numbered in *.
  rewrite Retire.latest_eq, Retire.numbered_eq in *.
  destruct (Fs.exists_
              (releaseDir gameDir
               ++ [("build-" ++ Str.of_Z (m_build_index existing))%string])%list
              (fs w)) eqn:Hnum.
  - (* the numbered directory exists: "latest" is deleted *)
    destruct (Retire.rm_rf_there _ _ _ _ Hold) as (n1 & Hrm & Hgone & Hframe).
    unfold fs_do. rewrite Hrm. cbn [fst snd fs log].
    split; [reflexivity|]. split; [reflexivity|]. split; [exact Hgone|].
    split; [intros H; discriminate H|]. split.
    + intros _. apply Hframe.
      apply FsFacts.part_siblings, Retire.latest_not_numbered.
    + intros q Hq _. now apply Hframe.
  - (* it does not: "latest" is moved *)
    unfold Fs.exists_ in Hnum.
    destruct (Fs.lookup _ (fs w)) eqn:Hnone in Hnum; [discriminate|].
    destruct (FsFacts.lookup_parent_dir _ _ _ _ Hold) as [es Hes].
    unfold fs_do, Fs.mkdir, dirname.
    rewrite removelast_last, (FsFacts.mkdir_p_exists _ _ _ Hes).
    cbn [fs log].
    destruct (Retire.rename_fresh _ _ _ _ _
                (Retire.latest_not_numbered (m_build_index existing))
                Hold Hnone) as (n2 & Hmv & Hmoved & Hgone & Hframe).
    rewrite Hmv. cbn [fst snd fs log].
    split; [reflexivity|]. split; [reflexivity|]. split; [exact Hgone|].
    split; [intros _; now rewrite Hmoved, Hold|].
    split; [intros H; discriminate H|].
    intros q Ha Hb. now apply Hframe.
Qed.

(** C8 as the specification words it fails: installing a pre-release that
    is latest while "latest" holds build 2 leaves "latest" where it is. *)
Lemma retirement_claim_fails :
  ~ retirement_claim Sample.gameDir Sample2.p3
      (mkWorld (Sample.root 2 true true) []).
Proof.
  intros H.
  destruct (H eq_refl (mkManifest 2 (Some "b")) eq_refl) as [Hgone _].
  - cbn. lia.
  - vm_compute in Hgone. discriminate.
Qed.

Lemma retirement_never_overwrites_witness :
  let moved := mkWorld (Sample.root 2 true true) [] in
  let build2 := ["games"; "game"; "release"; "build-2"] in
  Fs.lookup build2 (fs (snd (retireLatest Sample.gameDir Sample.b3 moved)))
  = Fs.lookup Sample.latest (fs moved)
  /\ Fs.lookup build2
       (fs (snd (retireLatest Sample.gameDir Sample.b3 Sample2.retiredBefore)))
     = Fs.lookup build2 (fs Sample2.retiredBefore)
  /\ Fs.lookup Sample.latest
       (fs (snd (retireLatest Sample.gameDir Sample.b3 Sample2.retiredBefore)))
     = None.
Proof.
  intros moved build2.
  assert (Hother : m_build_index (mkManifest 2 (Some "b"))
                   <> build_index Sample.b3) by (cbn; lia).
  destruct (retirement_never_overwrites Sample.gameDir Sample.b3 moved
              (mkManifest 2 (Some "b")) eq_refl eq_refl eq_refl Hother)
    as (_ & _ & _ & H1 & _).
  destruct (retirement_never_overwrites Sample.gameDir Sample.b3
              Sample2.retiredBefore
              (mkManifest 2 (Some "b")) eq_refl eq_refl eq_refl Hother)
    as (_ & _ & H2 & _ & H3 & _).
  split; [exact (H1 eq_refl)|]. split; [exact (H3 eq_refl)|exact H2].
Defined.

(* ===================================================================== *)
(** * Installing twice *)
(* ===================================================================== *)

Module Twice.

Local Open Scope list_scope.

(** What lies above an existing node is a directory. *)
Lemma lookup_above (p : path) (c : string) (rest : path) (n m : node) :
  Fs.lookup (p ++ c :: rest) n = Some m ->
  exists es, Fs.lookup p n = Some (Dir es).
Proof.
  rewrite FsFacts.lookup_app.
  destruct (Fs.lookup p n) as [[|es]|]; cbn; try discriminate. eauto.
Qed.

Lemma installDir_below (gameDir : path) (version : GameVersion) :
  exists c rest,
    manifestPath (resolveInstallDir gameDir version) = gameDir ++ c :: rest.
Proof.
  unfold manifestPath, resolveInstallDir, getLatestDir, getBuildDir.
  destruct (isLatest version) as [[]|]; rewrite <- app_assoc; cbn; eauto.
Qed.

(** A recorded manifest means the game root is a directory. *)
Lemma recorded_root (gameDir : path) (version : GameVersion) (n : node) :
  records (readInstallManifest (resolveInstallDir gameDir version) n) version
    = true ->
  Fs.mkdir gameDir n = Ok n.
Proof.
  unfold records, readInstallManifest. intros H.
  destruct (installDir_below gameDir version) as (c & rest & Hp).
  rewrite Hp in H.
  destruct (Fs.lookup (gameDir ++ c :: rest) n) as [m|] eqn:Hm;
    [|discriminate].
  destruct (lookup_above _ _ _ _ _ Hm) as [es Hes].
  unfold Fs.mkdir. now rewrite (FsFacts.mkdir_p_exists _ _ _ Hes).
Qed.

(** After [writeInstallManifest] the manifest records the version. *)
Lemma written_manifest (dir : path) (version : GameVersion) (w w' : World) :
  writeInstallManifest dir version w = (Ok tt, w') ->
  readInstallManifest dir (fs w')
  = Some (mkManifest (build_index version) (Some (build_name version))).
Proof.
  unfold writeInstallManifest, bind, fs_do.
  destruct (Fs.write _ _ (fs w)) as [n1|e] eqn:Hwrite; [|discriminate].
  cbn [fs log].
  destruct (Mismatch.write_then_unlink _ _ _ _ _ Hwrite)
    as ([m Hread] & _ & _).
  unfold manifestPath.
  destruct (Fs.rename _ _ n1) as [n3|e] eqn:Hrename; [|discriminate].
  intros [= <-]. cbn [fs].
  unfold Fs.rename in Hrename. rewrite Hread in Hrename.
  unfold readInstallManifest, manifestPath.
  destruct (Fs.lookup (dir ++ [manifestName]) n1) as [[c0 m0|[|x es]]|];
    try discriminate;
    (destruct (Fs.update _ None n1) as [n2|]; [|discriminate]);
    (destruct (Fs.update _ (Some _) n2) as [n4|] eqn:Hput; [|discriminate]);
    injection Hrename as <-;
    now rewrite (proj1 (FsFacts.lookup_update _ _ _ _ _ Hput)).
Qed.

(** Restoring the executable bit changes the client binary only. *)
Lemma ensureClientExecutable_keeps (E : Env) (dir : path) (w : World)
  (q : path) :
  part (resolveClientPath (platform E) dir) q ->
  Fs.lookup q (fs (snd (ensureClientExecutable E dir w))) = Fs.lookup q (fs w).
Proof.
  intros Hq.
  unfold ensureClientExecutable, ensureExecutable, ignoring, try_catch.
  destruct (String.eqb (platform E) "win32"); [reflexivity|].
  unfold bind, fs_get, fs_do.
  destruct (Fs.stat_mode _ (fs w)) as [mode|e]; [|reflexivity].
  destruct (Z.land mode 64 =? 0)%Z; [|reflexivity].
  destruct (Fs.chmod _ 493 (fs w)) as [n|e] eqn:Hch; [|reflexivity].
  cbn [snd fs]. unfold Fs.chmod in Hch.
  destruct (Fs.lookup (resolveClientPath (platform E) dir) (fs w))
    as [[c m|es]|]; try discriminate.
  - destruct (Fs.update _ _ (fs w)) as [n'|] eqn:Hu; [|discriminate].
    injection Hch as <-. eapply FsFacts.lookup_update_part; eauto.
  - now injection Hch as <-.
Qed.

Lemma manifest_apart (os : string) (dir : path) :
  part (resolveClientPath os dir) (manifestPath dir).
Proof.
  unfold resolveClientPath, manifestPath.
  apply (FsFacts.part_siblings dir "Client" manifestName [clientName os] []).
  discriminate.
Qed.

(** Patch steps that succeed leave the manifest of the version. *)
Lemma patchGame_records (E : Env) (gameDir : path) (version : GameVersion)
  (dir : path) (w wp : World) :
  patchGame E gameDir version dir w = (Ok tt, wp) ->
  records (readInstallManifest dir (fs wp)) version = true.
Proof.
  unfold patchGame. unfold bind at 1.
  destruct (callInstallButler E w) as [[[butlerPath|]|e] w2];
    try discriminate.
  unfold bind at 1.
  destruct (downloadPWR E gameDir version w2) as [[[tmp|]|e] w3];
    try discriminate.
  unfold bind at 1.
  destruct (applyPWR E tmp butlerPath dir w3) as [[[|c d]|e] w4];
    try discriminate.
  unfold bind at 1.
  destruct (fs_do (Fs.unlink tmp) w4) as [[[]|e] w5]; try discriminate.
  unfold bind at 1.
  destruct (writeInstallManifest dir version w5) as [[[]|e] w6] eqn:Hw;
    try discriminate.
  intros Hx.
  pose proof (ensureClientExecutable_keeps E dir w6 (manifestPath dir)
                (manifest_apart _ _)) as Hkeep.
  rewrite Hx in Hkeep. cbn [snd] in Hkeep.
  unfold records, readInstallManifest. rewrite Hkeep.
  pose proof (written_manifest _ _ _ _ Hw) as Hm.
  unfold readInstallManifest in Hm.
  destruct (Fs.lookup (manifestPath dir) (fs w6)) as [[[b|m] mode|es]|];
    try discriminate.
  injection Hm as ->. cbn. apply Z.eqb_refl.
Qed.

(** A first invocation that reports success leaves the manifest of the
    version in the install directory. *)
Lemma first_run_records (E : Env) (gameDir : path) (version : GameVersion)
  (w w1 : World) :
  keeps_manifest E gameDir (resolveInstallDir gameDir version) ->
  installGame E gameDir version w = (Ok true, w1) ->
  records (readInstallManifest (resolveInstallDir gameDir version) (fs w1))
          version = true.
Proof.
  intros Hjre. rewrite Steps.installGame_run.
  destruct (inspect E gameDir version w) as [[f|e] wi] eqn:Hi;
    [|discriminate].
  rewrite Steps.patchIfNeeded_run.
  destruct (needed f) eqn:Hn.
  - destruct (patchGame E gameDir version (installDir f) wi)
      as [[[]|e] wp] eqn:Hp; [|discriminate].
    intros [= <-]. cbn [fs].
    destruct (Decision.inspect_events _ _ _ _ _ _ Hi)
      as (w0 & ievs & _ & -> & _).
    exact (patchGame_records _ _ _ _ _ _ Hp).
  - intros [= <-]. cbn [fs].
    rewrite Steps.inspect_run in Hi.
    destruct (arrive E gameDir version w) as [[[]|e] w0]; [|discriminate].
    cbn zeta in Hi.
    set (dir := resolveInstallDir gameDir version) in *.
    destruct (records (readInstallManifest dir (fs w0)) version) eqn:Hrec.
    2:{ destruct (Fs.mkdir gameDir (fs w0)); [|discriminate].
        destruct (runtime_step _ _ _ _) as [[[]|e] wx]; [|discriminate].
        injection Hi as <- <-. discriminate. }
    rewrite (recorded_root gameDir version (fs w0) Hrec) in Hi.
    unfold runtime_step in Hi. cbn [fs log] in Hi.
    destruct (jre _).
    + injection Hi as _ <-. exact Hrec.
    + pose proof (Hjre (fs w0)) as Hkeep.
      destruct (installJRE E gameDir (fs w0)) as [[[p|]|e] n'];
        try discriminate.
      injection Hi as _ <-. cbn [fs]. cbn [snd] in Hkeep.
      now rewrite Hkeep.
Qed.

(** On a tree that records the version and has the binaries and the
    runtime, an invocation only sends its two events. *)
Lemma second_run (E : Env) (gameDir : path) (version : GameVersion)
  (w : World) :
  records (readInstallManifest (resolveInstallDir gameDir version) (fs w))
          version = true ->
  client (checkGameInstallation E gameDir version (fs w)) = true ->
  server (checkGameInstallation E gameDir version (fs w)) = true ->
  jre (checkGameInstallation E gameDir version (fs w)) = true ->
  migrateLegacyChannelInstallIfNeeded E gameDir (type version) (fs w)
    = Ok (fs w) ->
  installGame E gameDir version w =
  (Ok true,
   mkWorld (fs w)
     (log w ++ [Send "install-started" NoPayload;
                Send "install-finished" (Version version)])).
Proof.
  intros Hrec Hc Hs Hj Hmig.
  assert (Harrive : arrive E gameDir version w = (Ok tt, w)).
  { unfold arrive, bind, fs_do. rewrite Hmig.
    replace (mkWorld (fs w) (log w)) with w by now destruct w.
    rewrite Retire.retireLatest_run. cbn zeta.
    destruct (VersionType_eqb _ _ && truthy_bool _) eqn:Hlatest;
      [|reflexivity].
    destruct (Fs.exists_ _ (fs w)); [|reflexivity].
    apply andb_true_iff in Hlatest as [_ Hlatest].
    unfold resolveInstallDir in Hrec.
    destruct (isLatest version) as [[]|]; try discriminate.
    unfold records in Hrec.
    destruct (readInstallManifest (getLatestDir gameDir) (fs w)) as [m|];
      [|reflexivity].
    now rewrite Hrec. }
  rewrite Steps.installGame_run, Steps.inspect_run, Harrive. cbn zeta.
  rewrite (recorded_root gameDir version (fs w) Hrec).
  unfold runtime_step. rewrite Hj.
  rewrite Steps.patchIfNeeded_run. unfold needed. cbn [alreadyOnThisBuild found].
  rewrite Hrec, Hc, Hs. cbn. now rewrite <- app_assoc.
Qed.

End Twice.

(** C3, as the code has it.  When a first invocation of [installGame]
    reports success and leaves the client, the server and the runtime in
    place (as [checkGameInstallation] sees them), a second invocation with
    the same version on the tree it left reads a manifest that records the
    target build, sends "install-started" and "install-finished" and
    nothing else -- no request, no subprocess, no call of a collaborator
    -- leaves the tree as it is and reports success.  (The legacy
    migration is a no-op on an installed tree and the runtime installer
    does not touch the manifest.) *)
Theorem second_install_does_nothing
  (E : Env) (gameDir : path) (version : GameVersion) (w w1 : World) :
  installGame E gameDir version w = (Ok true, w1) ->
  client (checkGameInstallation E gameDir version (fs w1)) = true ->
  server (checkGameInstallation E gameDir version (fs w1)) = true ->
  jre (checkGameInstallation E gameDir version (fs w1)) = true ->
  migrateLegacyChannelInstallIfNeeded E gameDir (type version) (fs w1)
    = Ok (fs w1) ->
  keeps_manifest E gameDir (resolveInstallDir gameDir version) ->
  records (readInstallManifest (resolveInstallDir gameDir version) (fs w1))
          version = true
  /\ installGame E gameDir version w1 =
     (Ok true,
      mkWorld (fs w1)
        (log w1 ++ [Send "install-started" NoPayload;
                    Send "install-finished" (Version version)])%list).
Proof.
  intros Hfirst Hc Hs Hj Hmig Hjre.
  pose proof (Twice.first_run_records E gameDir version w w1 Hjre Hfirst)
    as Hrec.
  split; [exact Hrec|].
  now apply Twice.second_run.
Qed.

(** C3 as the specification words it fails: a tool that exits with 1 and
    installs nothing lets the first invocation report success and record
    the manifest; the second invocation finds the binaries missing,
    downloads and spawns again. *)
Lemma idempotence_claim_fails :
  ~ idempotence_claim Sample2.brokenTool Sample.gameDir Sample.b3
      Sample.start.
Proof.
  intros H. destruct (H eq_refl) as [_ Hquiet].
  apply (Hquiet (Fetch "https://x/b3.patch")).
  vm_compute. repeat (try (left; reflexivity); right).
Qed.

Lemma second_install_does_nothing_witness :
  let E := Sample2.worksOffline in
  let w1 := snd (installGame E Sample.gameDir Sample.b3 Sample2.withRuntime) in
  installGame E Sample.gameDir Sample.b3 w1 =
  (Ok true,
   mkWorld (fs w1)
     (log w1 ++ [Send "install-started" NoPayload;
                 Send "install-finished" (Version Sample.b3)])%list).
Proof.
  intros E w1.
  refine (proj2 (second_install_does_nothing E Sample.gameDir Sample.b3
                   Sample2.withRuntime w1 _ _ _ _ _ _)).
  - vm_compute. reflexivity.
  - vm_compute. reflexivity.
  - vm_compute. reflexivity.
  - vm_compute. reflexivity.
  - reflexivity.
  - intros n. reflexivity.
Defined.

(* ===================================================================== *)
(** * Runs of the sample worlds *)
(* ===================================================================== *)

Module Runs.

Example parseInt_digits : parseInt " 42abc" = int 42.
Proof. reflexivity. Qed.

Example parseInt_no_digits : parseInt "abc" = NaN.
Proof. reflexivity. Qed.

Example trim_both_ends : Str.trim "  a b  " = "a b".
Proof. reflexivity. Qed.

Example half_is_fifty :
  onLine Sample.parse Sample.progress_line
  = Some (mkProgress "patching" (int 50) None None).
Proof. reflexivity. Qed.

Example noise_is_ignored : onLine Sample.parse "patching..." = None.
Proof. reflexivity. Qed.

(** The end-to-end scenario of the specification: an empty game root and
    the target [{type: release, build_index: 3, is_latest: true}]. *)
Example end_to_end :
  let out :=
    installGame (Sample.linux (Some "20") None (Some 0)) Sample.gameDir
                Sample.b3 Sample.start in
  fst out = Ok true
  /\ Fs.exists_ Sample.latest (fs (snd out)) = true
  /\ readInstallManifest Sample.latest (fs (snd out))
     = Some (mkManifest 3 (Some "b3"))
  /\ last (log (snd out)) CallInstallButler
     = Send "install-finished" (Version Sample.b3)
  /\ Fs.exists_ (tempPWRPath Sample.gameDir Sample.b3) (fs (snd out))
     = false.
Proof. vm_compute. repeat split. Qed.

(** Manifest mismatch: build 2 is retired to [release/build-2] and
    build 3 is patched into "latest". *)
Example mismatch_repatches :
  let out :=
    installGame (Sample.linux (Some "20") None (Some 0)) Sample.gameDir
                Sample.b3 (mkWorld (Sample.root 2 true true) []) in
  fst out = Ok true
  /\ readInstallManifest Sample.latest (fs (snd out))
     = Some (mkManifest 3 (Some "b3"))
  /\ readInstallManifest ["games"; "game"; "release"; "build-2"]
                         (fs (snd out))
     = Some (mkManifest 2 (Some "b")).
Proof. vm_compute. repeat split. Qed.

(** A replacement whose hash is the expected one is put in place. *)
Example hot_patch_applies :
  let out :=
    patchOnlineClientIfNeeded (Sample.windows "abc123") Sample.gameDir
      Sample.hot "online-patch-progress" (Sample.installed "old") in
  fst out = Ok patched
  /\ Fs.lookup Sample.clientExe (fs (snd out))
     = Some (File (Raw "abc123") 420).
Proof. vm_compute. repeat split. Qed.

(** Partial-install recovery: the manifest records build 3 but the
    binaries are missing, and the patch is downloaded and applied again. *)
Example partial_install_recovers :
  let out :=
    installGame (Sample.linux (Some "20") None (Some 0)) Sample.gameDir
                Sample.b3 (mkWorld (Sample.root 3 false true) []) in
  fst out = Ok true
  /\ In (Fetch "https://x/b3.patch") (log (snd out))
  /\ Fs.exists_ (resolveClientPath "linux" Sample.latest) (fs (snd out))
     = true.
Proof.
  vm_compute. split; [reflexivity|]. split; [|reflexivity].
  repeat (try (left; reflexivity); right).
Qed.

(** The client that the tool left without the executable bit has it after
    the install. *)
Example executable_bit_restored :
  Fs.lookup (resolveClientPath "linux" Sample.latest)
    (fs (snd (installGame (Sample.linux (Some "20") None (Some 0))
                          Sample.gameDir Sample.b3 Sample.start)))
  = Some (File (Raw "client") 493).
Proof. reflexivity. Qed.

End Runs.

(* ===================================================================== *)
(** * The events of an installation *)
(* ===================================================================== *)

Module Only.

Local Open Scope list_scope.

Lemma of_silent ok {A} (m : M A) : silent m -> only ok m.
Proof.
  intros H w. exists []. split; [|constructor].
  unfold adds. now rewrite H, app_nil_r.
Qed.

Lemma of_bind ok {A B} (m : M A) (k : A -> M B) :
  only ok m -> (forall a, only ok (k a)) -> only ok (bind m k).
Proof.
  intros Hm Hk w. unfold adds, bind. destruct (Hm w) as (evs1 & H1 & F1).
  unfold adds in H1.
  destruct (m w) as [[a|e] w']; cbn in *.
  - destruct (Hk a w') as (evs2 & H2 & F2). unfold adds in H2.
    exists (evs1 ++ evs2). split; [now rewrite H2, H1, app_assoc|].
    now apply Forall_app.
  - eauto.
Qed.

(** [downloadPWR] adds a request and progress records, nothing else. *)
Lemma downloadPWR_only (good : effect -> Prop) (E : Env) gameDir version :
  (forall address, good (Fetch address)) ->
  (forall p, good (Send "install-progress" (Progress p))) ->
  only good (downloadPWR E gameDir version).
Proof.
  intros Hfetch Hsend w. unfold adds. rewrite Download.downloadPWR_run.
  cbn zeta.
  assert (Hstarted : forall response b,
             Forall good (pwr_started (url version) response b)).
  { intros response b. unfold pwr_started.
    repeat constructor; [apply Hfetch|apply Hsend|].
    apply Forall_map, Forall_forall. intros d _. apply Hsend. }
  assert (Hquit : exists evs,
             log w ++ [Fetch (url version)] = log w ++ evs
             /\ Forall good evs).
  { exists [Fetch (url version)]. split; [reflexivity|].
    repeat constructor. apply Hfetch. }
  destruct (fetch E (url version)) as [response|e]; [|exact Hquit].
  destruct (ok response); [|exact Hquit].
  destruct (body response) as [b|]; [|exact Hquit].
  destruct (Fs.write _ _ _); [destruct (failure b)|]; cbn [snd log];
    eexists; (split; [reflexivity|]); auto.
  apply Forall_app. split; [auto|]. repeat constructor. apply Hsend.
Qed.









(** How [inspect] begins, whatever its outcome. *)
Lemma inspect_start (E : Env) (gameDir : path) (version : GameVersion)
  (w : World) :
  exists start,
    adds (inspect E gameDir version) w start
    /\ install_start gameDir start
    /\ (start = [] ->
        exists e, fst (inspect E gameDir version w) = Throw e).
Proof.
  unfold adds, install_start. rewrite Steps.inspect_run.
  pose proof (Steps.silent_arrive E gameDir version w) as Hlog.
  destruct (arrive E gameDir version w) as [[[]|e] w0]; cbn [snd] in Hlog.
  2:{ exists []. cbn. rewrite Hlog, app_nil_r. eauto 6. }
  cbn zeta. destruct (Fs.mkdir gameDir (fs w0)) as [n|e].
  2:{ exists []. cbn. rewrite Hlog, app_nil_r. eauto 6. }
  unfold runtime_step. cbn [fs log].
  destruct (jre _).
  - exists [Send "install-started" NoPayload]. cbn. rewrite Hlog.
    split; [reflexivity|]. split; [auto|discriminate].
  - exists [Send "install-started" NoPayload; CallInstallJRE gameDir].
    destruct (installJRE E gameDir n) as [[[p|]|e] n']; cbn;
      rewrite Hlog, <- app_assoc;
      (split; [reflexivity|]); (split; [auto|discriminate]).
Qed.

End Only.


(* ===================================================================== *)
(** * The steps of the installer, one by one *)
(* ===================================================================== *)

Module TreeFacts.

Import Fs.
Local Open Scope list_scope.

(** [mkdir -p] leaves a directory at its path. *)
Lemma mkdir_p_dir (p : path) (n n' : node) :
  mkdir_p p n = Some n' -> exists es, lookup p n' = Some (Dir es).
Proof.
  revert n n'. induction p as [|c p IH]; intros n n' H.
  - destruct n as [|es]; [discriminate|]. injection H as <-. cbn. eauto.
  - destruct n as [|es]; [discriminate|]. cbn in H.
    destruct (mkdir_p p _) as [child'|] eqn:Hc; [|discriminate].
    injection H as <-. cbn. rewrite FsFacts.assoc_put, String.eqb_refl.
    eapply IH, Hc.
Qed.

(** A path that is not the root has a last component. *)
Lemma split_last (p : path) :
  p <> [] -> exists base name, p = base ++ [name].
Proof.
  intros H. destruct (exists_last H) as (base & name & ->). eauto.
Qed.

(** Replacing a file where it stands. *)
Lemma update_file (p : path) (n : node) (c c' : content) (m m' : Z) :
  p <> [] ->
  lookup p n = Some (File c m) ->
  exists n', update p (Some (File c' m')) n = Some n'
             /\ lookup p n' = Some (File c' m')
             /\ forall q, part p q -> lookup q n' = lookup q n.
Proof.
  intros Hp Hl. destruct (split_last p Hp) as (base & name & ->).
  destruct (FsFacts.lookup_parent_dir _ _ _ _ Hl) as [es Hes].
  destruct (FsFacts.update_some base name (Some (File c' m')) n es Hes)
    as [n' Hn'].
  exists n'. split; [exact Hn'|]. split.
  - apply (FsFacts.lookup_update _ _ _ _ _ Hn').
  - intros q Hq. eapply FsFacts.lookup_update_part; eauto.
Qed.

(** [mkdir -p] of a missing entry of an existing directory succeeds. *)
Lemma mkdir_p_child (p : path) (c : string) (n : node)
  (es : list (string * node)) :
  lookup p n = Some (Dir es) ->
  lookup (p ++ [c]) n = None ->
  exists n', mkdir_p (p ++ [c]) n = Some n'.
Proof.
  revert n. induction p as [|a p IH]; intros n Hd Hc.
  - cbn in Hd. injection Hd as ->. cbn in Hc. cbn.
    destruct (assoc c es); [discriminate|]. eauto.
  - destruct n as [|es0]; [discriminate|]. cbn in Hd, Hc. cbn.
    destruct (assoc a es0) as [child|]; [|discriminate].
    destruct (IH child Hd Hc) as [child' ->]. eauto.
Qed.

Lemma exists_parent (p : path) (c : string) (n : node) :
  exists_ (p ++ [c]) n = true -> exists es, lookup p n = Some (Dir es).
Proof.
  unfold exists_. destruct (lookup (p ++ [c]) n) eqn:H; [|discriminate].
  intros _. eapply FsFacts.lookup_parent_dir, H.
Qed.

Lemma missing_parent (p : path) (c : string) (n : node) :
  exists_ p n = false -> exists_ (p ++ [c]) n = false.
Proof.
  unfold exists_. rewrite FsFacts.lookup_app.
  destruct (lookup p n); [discriminate|reflexivity].
Qed.

(** A file can be written where the parent is a directory and the path
    itself is not one. *)
Lemma write_ok (base : path) (name : string) (c : content) (n : node)
  (es : list (string * node)) :
  lookup base n = Some (Dir es) ->
  (forall es', lookup (base ++ [name]) n <> Some (Dir es')) ->
  exists n1, write (base ++ [name]) c n = Ok n1.
Proof.
  intros Hd Hf. unfold write.
  destruct (lookup (base ++ [name]) n) as [[c0 m0|es0]|] eqn:Hl.
  - destruct (FsFacts.update_some base name (Some (File c m0)) n es Hd)
      as [n1 ->]. eauto.
  - now destruct (Hf es0).
  - destruct (FsFacts.update_some base name (Some (File c 420)) n es Hd)
      as [n1 ->]. eauto.
Qed.

(** A rename changes its two paths only. *)
Lemma rename_frame (a b q : path) (n n' : node) :
  rename a b n = Ok n' -> part a q -> part b q ->
  lookup q n' = lookup q n.
Proof.
  unfold rename. intros H Ha Hb.
  destruct (lookup a n) as [moved|]; [|discriminate].
  assert (Hmove :
    match update a None n with
    | Some n1 =>
        match update b (Some moved) n1 with
        | Some n2 => Ok n2
        | None => Throw ENOENT
        end
    | None => Throw ENOENT
    end = Ok n' -> lookup q n' = lookup q n).
  { destruct (update a None n) as [n1|] eqn:H1; [|discriminate].
    destruct (update b (Some moved) n1) as [n2|] eqn:H2; [|discriminate].
    intros [= <-].
    rewrite (FsFacts.lookup_update_part _ _ _ _ _ Hb H2).
    apply (FsFacts.lookup_update_part _ _ _ _ _ Ha H1). }
  destruct (lookup b n) as [[c m|[|x es]]|]; destruct moved;
    try discriminate; auto.
Qed.

(** Removing a file leaves nothing at its path. *)
Lemma unlink_gone (base : path) (name : string) (n n' : node) :
  unlink (base ++ [name]) n = Ok n' -> lookup (base ++ [name]) n' = None.
Proof.
  unfold unlink.
  destruct (lookup (base ++ [name]) n) as [[c m|es]|]; try discriminate.
  destruct (update _ None n) as [n1|] eqn:Hu; [|discriminate].
  intros [= <-]. apply (FsFacts.lookup_update _ _ _ _ _ Hu).
Qed.

Lemma substring_prefix (n : nat) (s : string) :
  prefix (substring 0 n s) s = true.
Proof.
  revert n. induction s as [|c s IH]; intros [|n]; cbn; try reflexivity.
  destruct (Ascii.ascii_dec c c); [apply IH|congruence].
Qed.

End TreeFacts.

Module Rounding.

(** [Math.round] of an integer. *)
Lemma round_int (c : Q) (j : Z) :
  (c == inject_Z j)%Q -> Qfloor (c + (1 # 2)) = j.
Proof.
  intros H. rewrite (Qfloor_comp _ (inject_Z j + (1 # 2))) by now rewrite H.
  unfold Qfloor, Qplus, inject_Z. cbn [Qnum Qden].
  change (Z.pos (1 * 2)) with 2. symmetry.
  apply Z.div_unique with 1; lia.
Qed.

End Rounding.

(** X2.  The percentage of a progress line of the patch tool that is a
    whole number: zero and negative values are sent as 0; values from 2 to
    100 are sent as they are; values above 100 are sent as 100; and the
    value 1 is sent as 100, because it is taken for the fraction 1.0. *)
Theorem whole_percentages_of_the_tool (k : Z) :
  normalizePercent (int k)
  = int (if k <=? 0 then 0 else if k =? 1 then 100 else Z.min k 100).
Proof.
  rewrite LineFacts.normalizePercent_spec by discriminate.
  f_equal. apply Rounding.round_int.
  unfold scaled, int.
  destruct (Qlt_le_dec 0 (inject_Z k)) as [Hpos|Hneg].
  - change 0%Q with (inject_Z 0) in Hpos. rewrite <- Zlt_Qlt in Hpos.
    destruct (Z.leb_spec k 0); [lia|].
    destruct (Qlt_le_dec 1 (inject_Z k)) as [Hbig|Hone].
    + change 1%Q with (inject_Z 1) in Hbig. rewrite <- Zlt_Qlt in Hbig.
      destruct (Z.eqb_spec k 1); [lia|].
      cbn [clamped].
      destruct (NumberFacts.Qclamp_cases (inject_Z k))
        as [[Hq Eq]|[[Hq Eq]|[Hq Eq]]]; rewrite Eq.
      * change 0%Q with (inject_Z 0) in Hq. rewrite <- Zle_Qle in Hq. lia.
      * destruct Hq as [_ Hq]. change 100%Q with (inject_Z 100) in Hq.
        rewrite <- Zle_Qle in Hq. now rewrite Z.min_l by lia.
      * change 100%Q with (inject_Z 100) in Hq. rewrite <- Zle_Qle in Hq.
        now rewrite Z.min_r by lia.
    + change 1%Q with (inject_Z 1) in Hone. rewrite <- Zle_Qle in Hone.
      assert (k = 1) as -> by lia. reflexivity.
  - change 0%Q with (inject_Z 0) in Hneg. rewrite <- Zle_Qle in Hneg.
    destruct (Z.leb_spec k 0); [|lia].
    cbn [clamped].
    destruct (NumberFacts.Qclamp_cases (inject_Z k))
      as [[Hq Eq]|[[Hq Eq]|[Hq Eq]]]; rewrite Eq.
    + reflexivity.
    + destruct Hq as [Hq _]. change 0%Q with (inject_Z 0) in Hq.
      rewrite <- Zle_Qle in Hq. assert (k = 0) as -> by lia. reflexivity.
    + change 100%Q with (inject_Z 100) in Hq. rewrite <- Zle_Qle in Hq. lia.
Qed.

(** X3.  On a platform other than Windows, [ensureExecutable] of an
    existing file returns without an error and without an event, leaves
    the file with its owner-execute bit set and its content as it was,
    and leaves every other path alone; a file that has the bit already
    keeps its mode, and one that lacks it gets mode 0o755. *)
Theorem ensureExecutable_sets_the_owner_bit
  (E : Env) (filePath : path) (c : content) (mode : Z) (w : World) :
  platform E <> "win32" ->
  filePath <> [] ->
  Fs.lookup filePath (fs w) = Some (File c mode) ->
  let out := ensureExecutable E filePath w in
  fst out = Ok tt
  /\ log (snd out) = log w
  /\ (exists mode',
        Fs.lookup filePath (fs (snd out)) = Some (File c mode')
        /\ Z.land mode' 64 <> 0
        /\ (Z.land mode 64 <> 0 -> mode' = mode)
        /\ (Z.land mode 64 = 0 -> mode' = 493))
  /\ forall q, part filePath q ->
               Fs.lookup q (fs (snd out)) = Fs.lookup q (fs w).
Proof.
  intros Hos Hp Hl. cbn zeta. unfold ensureExecutable.
  apply String.eqb_neq in Hos. rewrite Hos.
  unfold ignoring, try_catch, bind, fs_get, fs_do, Fs.stat_mode, Fs.chmod.
  rewrite Hl.
  destruct (Z.eqb_spec (Z.land mode 64) 0) as [Hbit|Hbit].
  - rewrite Hl.
    destruct (TreeFacts.update_file filePath (fs w) c c mode 493 Hp Hl)
      as (n' & -> & Hn' & Hframe).
    cbn. repeat split; auto.
    exists 493. repeat split; auto; [discriminate|congruence].
  - cbn. repeat split; auto.
    exists mode. repeat split; auto. congruence.
Qed.

Lemma ensureExecutable_sets_the_owner_bit_witness :
  let filePath :=
    ["games"; "game"; "release"; "latest"; "Client"; "HytaleClient"] in
  let out :=
    ensureExecutable (Sample.linux None None (Some 0)) filePath
      (mkWorld (Sample.root 3 true true) []) in
  fst out = Ok tt
  /\ exists mode',
       Fs.lookup filePath (fs (snd out)) = Some (File (Raw "client") mode')
       /\ Z.land mode' 64 <> 0.
Proof.
  cbn zeta.
  destruct (ensureExecutable_sets_the_owner_bit
              (Sample.linux None None (Some 0))
              ["games"; "game"; "release"; "latest"; "Client"; "HytaleClient"]
              (Raw "client") 420
              (mkWorld (Sample.root 3 true true) []))
    as (H1 & _ & (mode' & H2 & H3 & _) & _).
  - vm_compute. discriminate.
  - discriminate.
  - vm_compute. reflexivity.
  - split; [exact H1|]. exists mode'. split; [exact H2|exact H3].
Defined.

(** X4.  [applyPWR] either fails with ENOTDIR before it has sent anything
    or changed anything (a component of the install path is a file), or it
    sends the indeterminate "patching" event and spawns the patch tool
    with its six arguments; and when the tool is spawned, the install
    directory is a directory and "staging-temp" exists in it, in the tree
    the tool is given.  A staging path that exists already is left as it
    is. *)
Theorem applyPWR_prepares_the_directories
  (E : Env) (pwrPath butlerPath installDir : path) (w : World) :
  let out := applyPWR E pwrPath butlerPath installDir w in
  let stagingDir := (installDir ++ ["staging-temp"])%list in
  out = (Throw Fs.ENOTDIR, w)
  \/ exists n es rest,
       Fs.lookup installDir n = Some (Dir es)
       /\ Fs.exists_ stagingDir n = true
       /\ (Fs.exists_ stagingDir (fs w) = true -> n = fs w)
       /\ events (applyPWR E pwrPath butlerPath installDir) w
          = Send "install-progress" (patching (int (-1)))
            :: Spawn butlerPath
                 ["apply"; "--json"; "--staging-dir"; path_string stagingDir;
                  path_string pwrPath; path_string installDir]
            :: rest
       /\ fs (snd out)
          = snd (spawn E butlerPath (butlerArgs pwrPath installDir) n).
Proof.
  cbn zeta.
  assert (Hspawn : forall n es,
    Fs.lookup installDir n = Some (Dir es) ->
    Fs.exists_ (installDir ++ ["staging-temp"])%list n = true ->
    (Fs.exists_ (installDir ++ ["staging-temp"])%list (fs w) = true ->
     n = fs w) ->
    match spawn E butlerPath (butlerArgs pwrPath installDir) n with
    | (SpawnError e, n2) =>
        (Throw e,
         mkWorld n2 (log w ++ [Send "install-progress" (patching (int (-1)));
                               Spawn butlerPath
                                 (butlerArgs pwrPath installDir)]
                     ++ [Later "install-progress" (patching (int 100))]))
    | (Exited stdout code, n2) =>
        (Ok installDir,
         mkWorld n2
           (log w ++ [Send "install-progress" (patching (int (-1)));
                      Spawn butlerPath (butlerArgs pwrPath installDir)]
            ++ line_events (JSON_parse E) stdout
            ++ [Send "install-progress" (patching (int 100))]))
    end = applyPWR E pwrPath butlerPath installDir w ->
    exists n es rest,
      Fs.lookup installDir n = Some (Dir es)
      /\ Fs.exists_ (installDir ++ ["staging-temp"])%list n = true
      /\ (Fs.exists_ (installDir ++ ["staging-temp"])%list (fs w) = true ->
          n = fs w)
      /\ events (applyPWR E pwrPath butlerPath installDir) w
         = Send "install-progress" (patching (int (-1)))
           :: Spawn butlerPath
                ["apply"; "--json"; "--staging-dir";
                 path_string (installDir ++ ["staging-temp"])%list;
                 path_string pwrPath; path_string installDir]
           :: rest
      /\ fs (snd (applyPWR E pwrPath butlerPath installDir w))
         = snd (spawn E butlerPath (butlerArgs pwrPath installDir) n)).
  { intros n es Hd Hs Hsame Hrun. exists n, es.
    destruct (spawn E butlerPath (butlerArgs pwrPath installDir) n)
      as [[e|stdout code] n2]; eexists;
      (split; [exact Hd|]); (split; [exact Hs|]); (split; [exact Hsame|]);
      (split; [apply Run.adds_events; unfold adds; rewrite <- Hrun;
               cbn [snd log app]; reflexivity
              |now rewrite <- Hrun]). }
  pose proof (Download.applyPWR_run E pwrPath butlerPath installDir w) as Hrun.
  unfold ensureDir in Hrun. cbn zeta in Hrun.
  destruct (Fs.exists_ installDir (fs w)) eqn:Hdir.
  - destruct (Fs.exists_ (installDir ++ ["staging-temp"])%list (fs w))
      eqn:Hst.
    + right. destruct (TreeFacts.exists_parent _ _ _ Hst) as [es Hes].
      apply (Hspawn (fs w) es Hes Hst (fun _ => eq_refl)).
      now rewrite Hrun.
    + unfold Fs.mkdir in Hrun.
      destruct (Fs.mkdir_p _ (fs w)) as [n1|] eqn:Hmk.
      * right. destruct (TreeFacts.mkdir_p_dir _ _ _ Hmk) as [es1 Hes1].
        assert (Hex : Fs.exists_ (installDir ++ ["staging-temp"])%list n1
                      = true) by (unfold Fs.exists_; now rewrite Hes1).
        destruct (TreeFacts.exists_parent _ _ _ Hex) as [es Hes].
        apply (Hspawn n1 es Hes Hex); [intros Hx; congruence|].
        now rewrite Hrun.
      * left. rewrite Hrun. destruct w; reflexivity.
  - unfold Fs.mkdir in Hrun at 1.
    destruct (Fs.mkdir_p installDir (fs w)) as [n0|] eqn:Hmk0.
    + right. destruct (TreeFacts.mkdir_p_dir _ _ _ Hmk0) as [es Hes].
      pose proof (TreeFacts.missing_parent _ "staging-temp" _ Hdir) as Hno.
      destruct (Fs.exists_ (installDir ++ ["staging-temp"])%list n0) eqn:Hst.
      * apply (Hspawn n0 es Hes Hst); [intros Hx; congruence|].
        now rewrite Hrun.
      * assert (Hnone : Fs.lookup (installDir ++ ["staging-temp"])%list n0
                        = None).
        { unfold Fs.exists_ in Hst. now destruct (Fs.lookup _ n0). }
        destruct (TreeFacts.mkdir_p_child _ _ _ _ Hes Hnone) as [n1 Hn1].
        unfold Fs.mkdir in Hrun. rewrite Hn1 in Hrun.
        destruct (TreeFacts.mkdir_p_dir _ _ _ Hn1) as [es1 Hes1].
        assert (Hex : Fs.exists_ (installDir ++ ["staging-temp"])%list n1
                      = true) by (unfold Fs.exists_; now rewrite Hes1).
        destruct (TreeFacts.exists_parent _ _ _ Hex) as [es' Hes'].
        apply (Hspawn n1 es' Hes' Hex); [intros Hx; congruence|].
        now rewrite Hrun.
    + left. now rewrite Hrun.
Qed.

(** X5.  [downloadPWR] never throws: it returns the temporary path
    [gameDir/temp_<build_index>.pwr] or null, and it touches no other path
    of the tree.  When it returns the path, the response was ok, the
    stream ended without a failure, and the file holds the bytes of the
    body.  When the stream breaks, it returns null and does not remove the
    temporary file, which holds what had been written by then: a prefix,
    possibly empty, of the bytes that arrived, whatever the file held
    before. *)
Theorem downloadPWR_keeps_what_arrived
  (E : Env) (gameDir : path) (version : GameVersion) (w : World) :
  let out := downloadPWR E gameDir version w in
  let temp := tempPWRPath gameDir version in
  (fst out = Ok None \/ fst out = Ok (Some temp))
  /\ (forall q, part temp q ->
                Fs.lookup q (fs (snd out)) = Fs.lookup q (fs w))
  /\ (fst out = Ok (Some temp) ->
      exists response b m,
        fetch E (url version) = Ok response
        /\ ok response = true
        /\ body response = Some b
        /\ failure b = None
        /\ Fs.lookup temp (fs (snd out))
           = Some (File (Raw (String.concat "" (chunks b))) m))
  /\ (forall response b e es,
        fetch E (url version) = Ok response ->
        ok response = true ->
        body response = Some b ->
        failure b = Some e ->
        Fs.lookup gameDir (fs w) = Some (Dir es) ->
        (forall es', Fs.lookup temp (fs w) <> Some (Dir es')) ->
        fst out = Ok None
        /\ exists kept m,
             Fs.lookup temp (fs (snd out)) = Some (File (Raw kept) m)
             /\ kept = substring 0 (flushed b) (String.concat "" (chunks b))
             /\ prefix kept (String.concat "" (chunks b)) = true).
Proof.
  cbn zeta. rewrite Download.downloadPWR_run. cbn zeta.
  unfold tempPWRPath.
  set (name := ("temp_" ++ Str.of_Z (build_index version) ++ ".pwr")%string).
  destruct (fetch E (url version)) as [response|e0] eqn:Hfetch.
  2:{ cbn. split; [auto|]. split; [auto|]. split; discriminate. }
  destruct (ok response) eqn:Hok.
  2:{ cbn. split; [auto|]. split; [auto|]. split; [discriminate|].
      intros response' b' e' es [= <-]; congruence. }
  destruct (body response) as [b|] eqn:Hbody.
  2:{ cbn. split; [auto|]. split; [auto|]. split; [discriminate|].
      intros response' b' e' es [= <-]; congruence. }
  destruct (Fs.write _ _ (fs w)) as [n|e1] eqn:Hwrite.
  - destruct (Mismatch.write_then_unlink _ _ _ _ _ Hwrite)
      as ([m Hread] & Hframe & _).
    unfold written in Hread. cbv zeta in Hread.
    destruct (failure b) as [e|] eqn:Hfail; cbn [fst snd fs].
    + split; [auto|]. split; [exact Hframe|]. split; [discriminate|].
      intros response' b' e' es [= <-] _ Hb _ _ _.
      rewrite Hbody in Hb. injection Hb as <-.
      split; [reflexivity|]. eexists. exists m.
      split; [exact Hread|]. split; [reflexivity|].
      apply TreeFacts.substring_prefix.
    + split; [auto|]. split; [exact Hframe|]. split.
      * intros _. exists response, b, m. auto.
      * intros response' b' e' es [= <-] _ Hb Hf.
        rewrite Hbody in Hb. injection Hb as <-. congruence.
  - cbn [fst snd fs]. split; [auto|]. split; [auto|].
    split; [discriminate|].
    intros response' b' e' es [= <-] _ Hb _ Hd Hf.
    rewrite Hbody in Hb. injection Hb as <-.
    destruct (TreeFacts.write_ok gameDir name (written b) (fs w) es Hd Hf)
      as [n1 Hn1].
    rewrite Hn1 in Hwrite. discriminate.
Qed.

Lemma downloadPWR_keeps_what_arrived_witness :
  let E :=
    Sample.env "linux"
      (fun _ => Ok (mkResponse true 200 "OK" None
                      (Some (mkBody ["0123456789"; "abcdefghij"]
                                    (Some JsOther) 13))))
      (Sample.tool true [] (Some 0)) Sample.jreInstaller in
  let out := downloadPWR E Sample.gameDir Sample.b3 Sample.start in
  fst out = Ok None
  /\ exists kept m,
       Fs.lookup ["games"; "temp_3.pwr"] (fs (snd out))
       = Some (File (Raw kept) m)
       /\ kept = "0123456789abc"
       /\ prefix kept "0123456789abcdefghij" = true.
Proof.
  cbn zeta.
  destruct (downloadPWR_keeps_what_arrived
              (Sample.env "linux"
                 (fun _ => Ok (mkResponse true 200 "OK" None
                                 (Some (mkBody ["0123456789"; "abcdefghij"]
                                               (Some JsOther) 13))))
                 (Sample.tool true [] (Some 0)) Sample.jreInstaller)
              Sample.gameDir Sample.b3 Sample.start) as (_ & _ & _ & H).
  apply (H (mkResponse true 200 "OK" None
              (Some (mkBody ["0123456789"; "abcdefghij"] (Some JsOther) 13)))
           (mkBody ["0123456789"; "abcdefghij"] (Some JsOther) 13)
           JsOther []).
  - reflexivity.
  - reflexivity.
  - reflexivity.
  - reflexivity.
  - reflexivity.
  - intros es'. vm_compute. discriminate.
Defined.

Module Percent.

Local Open Scope list_scope.

(** Before a byte has arrived the percentage is 0. *)
Lemma at_zero (t : Z) :
  0 < t ->
  Number.round (Number.mul (Number.div (int 0) (int t)) (int 100)) = int 0.
Proof.
  intros Ht. unfold int at 1 2.
  rewrite DoubleFacts.div_positive
    by (change 0%Q with (inject_Z 0); now rewrite <- Zlt_Qlt).
  assert (E : Double.round (inject_Z 0 / inject_Z t) = Num 0).
  { unfold Double.round.
    assert (C : (inject_Z 0 / inject_Z t ?= 0)%Q = Eq).
    { apply Qeq_alt. unfold Qdiv. ring. }
    now rewrite C. }
  rewrite E. reflexivity.
Qed.

Lemma running_sorted (d0 : Z) (cs : list string) :
  StronglySorted Z.le (d0 :: running d0 cs).
Proof.
  revert d0. induction cs as [|c cs IH]; intros d0; cbn.
  - repeat constructor.
  - constructor; [apply IH|].
    destruct (Download.running_total d0 (c :: cs)) as [H _].
    eapply Forall_impl; [|exact H]. cbn. intros d Hd. lia.
Qed.

Lemma map_sorted (f : Z -> number) (lo : Z) (l : list Z) :
  (forall a b, lo <= a <= b -> Number.le (f a) (f b) = true) ->
  StronglySorted Z.le (lo :: l) -> rising (map f (lo :: l)).
Proof.
  intros Hf. revert lo Hf. induction l as [|x l IH]; intros lo Hf Hs.
  - repeat constructor.
  - apply StronglySorted_inv in Hs as [Hs Hlo].
    cbn [map]. constructor.
    + apply IH; [|exact Hs].
      apply Forall_inv in Hlo. intros a b Hab. apply Hf. lia.
    + change (f x :: map f l) with (map f (x :: l)).
      apply Forall_map. eapply Forall_impl; [|exact Hlo].
      cbn. intros d Hd. apply Hf. lia.
Qed.

(** The percentages of a download never fall. *)
Lemma percentages_rise (t : Z) (cs : list string) :
  0 < t ->
  rising (int 0
          :: map (fun d => Number.round
                             (Number.mul (Number.div (int d) (int t))
                                         (int 100)))
                 (running 0 cs)).
Proof.
  intros Ht. rewrite <- (at_zero t Ht) at 1.
  apply (map_sorted
           (fun d => Number.round
                       (Number.mul (Number.div (int d) (int t)) (int 100)))
           0 (running 0 cs)).
  - intros a b Hab. apply DoubleFacts.percentage_mono; [|exact Hab].
    change 0%Q with (inject_Z 0). now rewrite <- Zlt_Qlt.
  - apply running_sorted.
Qed.

(** Each percentage is near the exact one. *)
Lemma percentages_near (t : Z) (cs : list string) :
  0 < t ->
  Forall2 (reports t) (running 0 cs)
    (map (fun d => Number.round
                     (Number.mul (Number.div (int d) (int t)) (int 100)))
         (running 0 cs)).
Proof.
  intros Ht.
  destruct (Download.running_total 0 cs) as [Hrun _].
  induction (running 0 cs) as [|d l IH]; cbn [map]; constructor.
  - apply Forall_inv in Hrun. intros Hd.
    destruct (DoubleFacts.percentage_near (inject_Z t) d)
      as (k & Hk & Hrange & Hnear).
    + change 0%Q with (inject_Z 0). now rewrite <- Zlt_Qlt.
    + lia.
    + now rewrite <- Zle_Qle.
    + exists k. split; [exact Hk|]. split; [exact Hrange|exact Hnear].
  - apply IH. now apply Forall_inv_tail in Hrun.
Qed.

Lemma map_const {A B} (f : A -> B) (c : B) (l : list A) :
  (forall a, f a = c) -> map f l = repeat c (List.length l).
Proof.
  intros H. induction l as [|a l IH]; cbn; [reflexivity|].
  now rewrite H, IH.
Qed.

Lemma running_length (d0 : Z) (cs : list string) :
  List.length (running d0 cs) = List.length cs.
Proof.
  revert d0. induction cs as [|c cs IH]; intros d0; cbn; [reflexivity|].
  now rewrite IH.
Qed.

(** The percentages of an invocation of [downloadPWR] whose response is ok
    and has a body. *)
Lemma pwr_percents (E : Env) (gameDir : path) (version : GameVersion)
  (w : World) (response : Response) (b : Body) :
  fetch E (url version) = Ok response ->
  ok response = true ->
  body response = Some b ->
  percents "pwr-download" (events (downloadPWR E gameDir version) w)
  = ((if is_truthy (pwr_total response) then int 0 else int (-1))
     :: map (pwr_percent (pwr_total response)) (running 0 (chunks b)))
    ++ pwr_closing (downloadPWR E gameDir version w).
Proof.
  intros Hfetch Hok Hbody.
  rewrite <- (ProgressRuns.pwr_percents_started (url version)).
  unfold pwr_closing.
  assert (Hrun := Download.downloadPWR_run E gameDir version w).
  cbn zeta in Hrun. rewrite Hfetch, Hok, Hbody in Hrun.
  destruct (Fs.write _ _ (fs w)) as [n|e]; [destruct (failure b)|].
  - rewrite (Run.adds_events _ w (pwr_started (url version) response b))
      by (unfold adds; now rewrite Hrun).
    rewrite Hrun. cbn [fst]. now rewrite app_nil_r.
  - rewrite (Run.adds_events _ w
               (pwr_started (url version) response b ++
                [Send "install-progress"
                   (pwr_progress (int 100) (pwr_total response)
                      (total_bytes (chunks b)))]))
      by (unfold adds; now rewrite Hrun).
    rewrite Hrun. cbn [fst]. now rewrite ProgressFacts.percents_app.
  - rewrite (Run.adds_events _ w (pwr_started (url version) response b))
      by (unfold adds; now rewrite Hrun).
    rewrite Hrun. cbn [fst]. now rewrite app_nil_r.
Qed.

(** The same of [downloadFileWithProgress]. *)
Lemma online_percents (E : Env) (address : string) (outPath : path)
  (channel : string) (w : World) (response : Response) (b : Body) :
  fetch E address = Ok response ->
  ok response = true ->
  body response = Some b ->
  percents "online-patch"
    (events (downloadFileWithProgress E address outPath channel) w)
  = ((if Number.gt (online_total response) (int 0) then int 0 else int (-1))
     :: map (online_percent (online_total response)) (running 0 (chunks b)))
    ++ online_closing (downloadFileWithProgress E address outPath channel w).
Proof.
  intros Hfetch Hok Hbody.
  rewrite <- (ProgressRuns.online_percents_started address channel).
  unfold online_closing.
  assert (Hrun :=
            Download.downloadFileWithProgress_run E address outPath channel w).
  cbn zeta in Hrun. rewrite Hfetch, Hok, Hbody in Hrun.
  destruct (Fs.write _ _ (fs w)) as [n|e]; [destruct (failure b)|].
  - rewrite (Run.adds_events _ w (online_started address channel response b))
      by (unfold adds; now rewrite Hrun).
    rewrite Hrun. cbn [fst]. now rewrite app_nil_r.
  - rewrite (Run.adds_events _ w
               (online_started address channel response b ++
                [Send channel
                   (online_progress (int 100) (online_total response)
                      (total_bytes (chunks b)))]))
      by (unfold adds; now rewrite Hrun).
    rewrite Hrun. cbn [fst]. rewrite ProgressFacts.percents_app.
    reflexivity.
  - rewrite (Run.adds_events _ w (online_started address channel response b))
      by (unfold adds; now rewrite Hrun).
    rewrite Hrun. cbn [fst]. now rewrite app_nil_r.
Qed.

Lemma gt_int (t : Z) : Number.gt (int t) (int 0) = (0 <? t).
Proof.
  unfold Number.gt, Number.lt, int.
  destruct (Qlt_le_dec (inject_Z 0) (inject_Z t)) as [H|H].
  - rewrite <- Zlt_Qlt in H. symmetry. now apply Z.ltb_lt.
  - rewrite <- Zle_Qle in H. symmetry. apply Z.ltb_ge. lia.
Qed.

Lemma truthy_int (t : Z) : Number.truthy (int t) = negb (t =? 0).
Proof. reflexivity. Qed.

Lemma parseInt_empty (s : string) (t : Z) :
  parseInt s = int t -> Str.is_empty s = false.
Proof. destruct s; [discriminate|reflexivity]. Qed.

End Percent.

(** X6.  The percentages [downloadPWR] reports, for a response that is ok
    and has a body, as the "content-length" header decides.  Without the
    header, or with one that is empty, not a number or zero, every event
    before the closing one reports -1.  With a positive length [t] (below
    [2^53], so that it is a double), the first event reports 0 and one
    event follows for every chunk; the
    percentages never fall before the closing event; and while no more
    than [t] bytes have arrived, the event after [d] bytes reports a whole
    number of [0,100] that is within a half of [100 * d / t], up to the
    rounding error of the floating-point division and multiplication
    (less than [2^-45]).  With a negative length the first event reports 0
    and the others -1.  The closing 100 is sent exactly when the path is
    returned. *)
Theorem downloadPWR_percentages
  (E : Env) (gameDir : path) (version : GameVersion) (w : World)
  (response : Response) (b : Body) :
  fetch E (url version) = Ok response ->
  ok response = true ->
  body response = Some b ->
  let ps := percents "pwr-download" (events (downloadPWR E gameDir version) w) in
  let closing := pwr_closing (downloadPWR E gameDir version w) in
  let arrived := running 0 (chunks b) in
  (content_length response = None
   \/ (exists s, content_length response = Some s
                 /\ (parseInt s = NaN \/ parseInt s = int 0)) ->
   ps = (repeat (int (-1)) (S (List.length (chunks b))) ++ closing)%list)
  /\ (forall s t,
        content_length response = Some s -> parseInt s = int t ->
        0 < t < 2 ^ 53 ->
        exists qs,
          ps = (int 0 :: qs ++ closing)%list
          /\ rising (int 0 :: qs)
          /\ Forall2 (reports t) arrived qs)
  /\ (forall s t,
        content_length response = Some s -> parseInt s = int t -> t < 0 ->
        ps = (int 0 :: repeat (int (-1)) (List.length (chunks b))
              ++ closing)%list).
Proof.
  intros Hfetch Hok Hbody. cbn zeta.
  rewrite (Percent.pwr_percents E gameDir version w response b Hfetch Hok Hbody).
  unfold pwr_total, truthy_string.
  split; [|split].
  - intros [Hnone|(s & Hs & Hv)].
    + rewrite Hnone. cbn [is_truthy pwr_percent].
      rewrite (Percent.map_const _ (int (-1))) by reflexivity.
      now rewrite Percent.running_length.
    + rewrite Hs. destruct (Str.is_empty s); cbn [negb option_map].
      * cbn [is_truthy pwr_percent].
        rewrite (Percent.map_const _ (int (-1))) by reflexivity.
        now rewrite Percent.running_length.
      * destruct Hv as [-> | ->]; cbn [is_truthy Number.truthy];
          rewrite (Percent.map_const _ (int (-1))) by reflexivity;
          now rewrite Percent.running_length.
  - intros s t Hs Ht [Hpos _]. rewrite Hs, (Percent.parseInt_empty s t Ht).
    cbn [negb option_map]. rewrite Ht. cbn [is_truthy].
    rewrite Percent.truthy_int.
    destruct (Z.eqb_spec t 0) as [->|_]; [lia|]. cbn [negb].
    assert (Hmap : map (pwr_percent (Some (int t))) (running 0 (chunks b))
                   = map (fun d => Number.round
                                     (Number.mul (Number.div (int d) (int t))
                                                 (int 100)))
                         (running 0 (chunks b))).
    { apply map_ext. intros d. unfold pwr_percent.
      rewrite Percent.gt_int. now destruct (Z.ltb_spec 0 t); [|lia]. }
    rewrite Hmap. eexists. split; [reflexivity|].
    split; [now apply Percent.percentages_rise
           |now apply Percent.percentages_near].
  - intros s t Hs Ht Hneg. rewrite Hs, (Percent.parseInt_empty s t Ht).
    cbn [negb option_map]. rewrite Ht. cbn [is_truthy].
    rewrite Percent.truthy_int.
    destruct (Z.eqb_spec t 0) as [->|_]; [lia|]. cbn [negb].
    rewrite (Percent.map_const _ (int (-1))).
    + now rewrite Percent.running_length.
    + intros d. unfold pwr_percent. rewrite Percent.gt_int.
      destruct (Z.ltb_spec 0 t); [lia|reflexivity].
Qed.

Lemma downloadPWR_percentages_witness :
  exists qs,
    percents "pwr-download"
      (events (downloadPWR (Sample.linux (Some "40") None (Some 0))
                 Sample.gameDir Sample.b3) Sample.start)
    = (int 0 :: qs ++ [int 100])%list
    /\ rising (int 0 :: qs)
    /\ Forall2 (reports 40) [10; 20] qs.
Proof.
  destruct (downloadPWR_percentages
              (Sample.linux (Some "40") None (Some 0)) Sample.gameDir
              Sample.b3 Sample.start
              (Sample.response (Some "40") ["0123456789"; "abcdefghij"] None)
              (mkBody ["0123456789"; "abcdefghij"] None 0)
              eq_refl eq_refl eq_refl) as (_ & H & _).
  destruct (H "40" 40 eq_refl eq_refl ltac:(split; reflexivity))
    as (qs & Hps & Hrise & Hnear).
  exists qs. split; [|split; assumption].
  etransitivity; [exact Hps|]. reflexivity.
Defined.

(** X7.  The percentages [downloadFileWithProgress] reports, for a
    response that is ok and has a body.  Without a "content-length"
    header, or with one that is not a positive number, every event before
    the closing one reports -1.  With a positive length [t] (below [2^53],
    so that it is a double), the first event reports 0 and one event
    follows for every chunk; the percentages
    never fall before the closing event; and while no more than [t] bytes
    have arrived, the event after [d] bytes reports a whole number of
    [0,100] that is within a half of [100 * d / t], up to the rounding
    error of the floating-point division and multiplication (less than
    [2^-45]).  The closing 100 is sent exactly when the download
    returns. *)
Theorem downloadFileWithProgress_percentages
  (E : Env) (address : string) (outPath : path) (channel : string)
  (w : World) (response : Response) (b : Body) :
  fetch E address = Ok response ->
  ok response = true ->
  body response = Some b ->
  let ps :=
    percents "online-patch"
      (events (downloadFileWithProgress E address outPath channel) w) in
  let closing :=
    online_closing (downloadFileWithProgress E address outPath channel w) in
  let arrived := running 0 (chunks b) in
  (content_length response = None
   \/ (exists s, content_length response = Some s
                 /\ (parseInt s = NaN
                     \/ exists t, parseInt s = int t /\ t <= 0)) ->
   ps = (repeat (int (-1)) (S (List.length (chunks b))) ++ closing)%list)
  /\ (forall s t,
        content_length response = Some s -> parseInt s = int t ->
        0 < t < 2 ^ 53 ->
        exists qs,
          ps = (int 0 :: qs ++ closing)%list
          /\ rising (int 0 :: qs)
          /\ Forall2 (reports t) arrived qs).
Proof.
  intros Hfetch Hok Hbody. cbn zeta.
  rewrite (Percent.online_percents E address outPath channel w response b
             Hfetch Hok Hbody).
  unfold online_total. split.
  - assert (Hflat : forall t : number,
               Number.gt t (int 0) = false ->
               ((if Number.gt t (int 0) then int 0 else int (-1))
                :: map (online_percent t) (running 0 (chunks b)))
               = repeat (int (-1)) (S (List.length (chunks b)))).
    { intros t Ht. rewrite Ht. cbn [repeat]. f_equal.
      rewrite (Percent.map_const _ (int (-1))).
      - now rewrite Percent.running_length.
      - intros d. unfold online_percent. now rewrite Ht. }
    intros [Hnone|(s & Hs & Hv)].
    + rewrite Hnone. now rewrite Hflat by reflexivity.
    + rewrite Hs. destruct (Str.is_empty s).
      * now rewrite Hflat by reflexivity.
      * destruct Hv as [-> | (t & -> & Ht)].
        -- now rewrite Hflat by reflexivity.
        -- rewrite Hflat; [reflexivity|].
           rewrite Percent.gt_int. now apply Z.ltb_ge.
  - intros s t Hs Ht [Hpos _].
    rewrite Hs, (Percent.parseInt_empty s t Ht), Ht.
    rewrite Percent.gt_int. destruct (Z.ltb_spec 0 t); [|lia].
    assert (Hmap : map (online_percent (int t)) (running 0 (chunks b))
                   = map (fun d => Number.round
                                     (Number.mul (Number.div (int d) (int t))
                                                 (int 100)))
                         (running 0 (chunks b))).
    { apply map_ext. intros d. unfold online_percent.
      rewrite Percent.gt_int. now destruct (Z.ltb_spec 0 t); [|lia]. }
    rewrite Hmap. eexists. split; [reflexivity|].
    split; [now apply Percent.percentages_rise
           |now apply Percent.percentages_near].
Qed.

Lemma downloadFileWithProgress_percentages_witness :
  exists qs,
    percents "online-patch"
      (events (downloadFileWithProgress (Sample.linux (Some "40") None (Some 0))
                 "https://x/client.exe" ["games"; "temp"]
                 "online-patch-progress")
              Sample.start)
    = (int 0 :: qs ++ [int 100])%list
    /\ rising (int 0 :: qs)
    /\ Forall2 (reports 40) [10; 20] qs.
Proof.
  destruct (downloadFileWithProgress_percentages
              (Sample.linux (Some "40") None (Some 0)) "https://x/client.exe"
              ["games"; "temp"] "online-patch-progress" Sample.start
              (Sample.response (Some "40") ["0123456789"; "abcdefghij"] None)
              (mkBody ["0123456789"; "abcdefghij"] None 0)
              eq_refl eq_refl eq_refl) as (_ & H).
  destruct (H "40" 40 eq_refl eq_refl ltac:(split; reflexivity))
    as (qs & Hps & Hrise & Hnear).
  exists qs. split; [|split; assumption].
  etransitivity; [exact Hps|]. reflexivity.
Defined.

Module PatchSteps.

Local Open Scope list_scope.

Lemma returns_temp (E : Env) gameDir version (w : World) (p : path) :
  fst (downloadPWR E gameDir version w) = Ok (Some p) ->
  p = tempPWRPath gameDir version.
Proof.
  rewrite Download.downloadPWR_run. cbn zeta.
  destruct (fetch E (url version)) as [response|e]; [|discriminate].
  destruct (ok response); [|discriminate].
  destruct (body response) as [b|]; [|discriminate].
  destruct (Fs.write _ _ _); [destruct (failure b)|]; try discriminate.
  now intros [= <-].
Qed.

(** The install directory lies in the "game" directory of the root. *)
Lemma installDir_form (gameDir : path) (version : GameVersion) :
  exists rest, resolveInstallDir gameDir version = gameDir ++ "game" :: rest.
Proof.
  unfold resolveInstallDir, getLatestDir, getBuildDir.
  destruct (isLatest version) as [[]|]; eauto.
Qed.

(** The temporary file of the download is apart from everything in the
    install directory. *)
Lemma temp_apart (gameDir : path) (version : GameVersion) (rest : path) :
  part (resolveInstallDir gameDir version ++ rest)
       (tempPWRPath gameDir version).
Proof.
  destruct (installDir_form gameDir version) as [r ->].
  unfold tempPWRPath. rewrite <- app_assoc. cbn [app].
  apply (FsFacts.part_siblings gameDir "game" _ (r ++ rest) []).
  discriminate.
Qed.

Lemma writeInstallManifest_frame (dir : path) (version : GameVersion)
  (w w' : World) (q : path) :
  writeInstallManifest dir version w = (Ok tt, w') ->
  (forall rest, part (dir ++ rest) q) ->
  Fs.lookup q (fs w') = Fs.lookup q (fs w).
Proof.
  unfold writeInstallManifest, bind, fs_do. intros H Hq.
  destruct (Fs.write _ _ (fs w)) as [n1|e] eqn:Hwrite; [|discriminate].
  cbn [fs log] in H.
  destruct (Fs.rename _ _ n1) as [n2|e] eqn:Hrename; [|discriminate].
  injection H as <-. cbn [fs].
  rewrite (TreeFacts.rename_frame _ _ q _ _ Hrename (Hq _) (Hq _)).
  destruct (Mismatch.write_then_unlink _ _ _ _ _ Hwrite) as (_ & Hframe & _).
  apply Hframe, Hq.
Qed.

Lemma inspect_installDir (E : Env) gameDir version (w w1 : World)
  (f : Findings) :
  inspect E gameDir version w = (Ok f, w1) ->
  installDir f = resolveInstallDir gameDir version.
Proof.
  rewrite Steps.inspect_run.
  destruct (arrive E gameDir version w) as [[[]|e] w0]; [|discriminate].
  cbn zeta. destruct (Fs.mkdir gameDir (fs w0)); [|discriminate].
  destruct (runtime_step _ _ _ _) as [[[]|e] w2]; [|discriminate].
  now intros [= <- _].
Qed.

End PatchSteps.

(** X8.  When the patch steps are due, a step that fails ends the
    installation at once.  If [installButler] gives no path, [installGame]
    returns [false] with the message "Failed to install butler", after the
    call of [installButler] and nothing else.  If the download gives no
    path, it returns [false] with "Failed to download PWR" and the patch
    tool is not spawned.  If [applyPWR] throws, it returns [false] with the
    message of the error, and the tree is as [applyPWR] left it: the
    downloaded file is not removed and no manifest is written. *)
Theorem a_failed_step_ends_the_installation
  (E : Env) (gameDir : path) (version : GameVersion) (w w1 : World)
  (f : Findings) :
  inspect E gameDir version w = (Ok f, w1) ->
  needed f = true ->
  let out := installGame E gameDir version w in
  let w2 := mkWorld (snd (installButler E (fs w1)))
                    (log w1 ++ [CallInstallButler]) in
  (fst (installButler E (fs w1)) = None ->
   out = (Ok false,
          mkWorld (fs w2)
            (log w2 ++ [Send "install-error"
                          (Message "Failed to install butler")])))
  /\ (forall butlerPath w3,
        fst (installButler E (fs w1)) = Some butlerPath ->
        downloadPWR E gameDir version w2 = (Ok None, w3) ->
        out = (Ok false,
               mkWorld (fs w3)
                 (log w3 ++ [Send "install-error"
                               (Message "Failed to download PWR")]))
        /\ forall command args,
             ~ In (Spawn command args)
                  (events (installGame E gameDir version) w))
  /\ (forall butlerPath temp w3 e w4,
        fst (installButler E (fs w1)) = Some butlerPath ->
        downloadPWR E gameDir version w2 = (Ok (Some temp), w3) ->
        applyPWR E temp butlerPath (installDir f) w3 = (Throw e, w4) ->
        out = (Ok false,
               mkWorld (fs w4)
                 (log w4 ++ [Send "install-error" (Message (message_of e))]))).
Proof.
  intros Hi Hn. cbn zeta.
  rewrite Steps.installGame_run, Hi, Steps.patchIfNeeded_run, Hn.
  rewrite Trace.patchGame_run. cbn zeta.
  split; [|split].
  - intros ->. reflexivity.
  - intros butlerPath w3 Hb Hd. rewrite Hb, Hd.
    split; [reflexivity|].
    intros command args Hin.
    destruct (Only.inspect_start E gameDir version w)
      as (start & Hstart & Hform & _).
    unfold adds in Hstart. rewrite Hi in Hstart. cbn [snd] in Hstart.
    destruct (Only.downloadPWR_only
                (fun e => forall c a, e <> Spawn c a) E gameDir version
                ltac:(discriminate) ltac:(discriminate)
                (mkWorld (snd (installButler E (fs w1)))
                         (log w1 ++ [CallInstallButler])))
      as (devs & Hdevs & Fdevs).
    unfold adds in Hdevs. rewrite Hd in Hdevs. cbn [snd log] in Hdevs.
    rewrite (Run.adds_events _ w
               (start ++ [CallInstallButler] ++ devs ++
                [Send "install-error" (Message "Failed to download PWR")]))
      in Hin.
    + apply in_app_or in Hin. destruct Hin as [Hin|Hin].
      * destruct Hform as [ -> | [ -> | -> ] ]; cbn in Hin;
          intuition discriminate.
      * cbn [app] in Hin. destruct Hin as [Hin|Hin]; [discriminate|].
        apply in_app_or in Hin. destruct Hin as [Hin|Hin].
        -- rewrite Forall_forall in Fdevs.
           now apply (Fdevs _ Hin command args).
        -- cbn in Hin. intuition discriminate.
    + unfold adds. rewrite Steps.installGame_run, Hi,
        Steps.patchIfNeeded_run, Hn, Trace.patchGame_run.
      cbn zeta.
      rewrite Hb, Hd. cbn [conclude snd log].
      rewrite Hdevs, Hstart, <- !app_assoc. reflexivity.
  - intros butlerPath temp w3 e w4 -> Hd Ha.
    rewrite Hd, Ha. reflexivity.
Qed.

Lemma a_failed_step_ends_the_installation_witness :
  let out :=
    installGame Sample3.offline Sample.gameDir Sample.b3 Sample.start in
  fst out = Ok false
  /\ last (log (snd out)) CallInstallButler
     = Send "install-error" (Message "Failed to download PWR").
Proof.
  cbn zeta.
  let r := eval vm_compute in
             (inspect Sample3.offline Sample.gameDir Sample.b3 Sample.start) in
  match r with
  | (Ok ?f, ?w1) =>
      pose proof (proj1 (proj2 (a_failed_step_ends_the_installation
                                  Sample3.offline Sample.gameDir Sample.b3
                                  Sample.start w1 f
                                  ltac:(vm_compute; reflexivity)
                                  ltac:(vm_compute; reflexivity)))) as H
  end.
  cbn zeta in H.
  edestruct (H ["tools"; "butler"]) as [Hout _].
  - vm_compute. reflexivity.
  - vm_compute. reflexivity.
  - rewrite Hout. split; [reflexivity|apply last_last].
Defined.

(** X9.  When the patch steps were due and [installGame] returns [true],
    the downloaded file [gameDir/temp_<build_index>.pwr] is gone from the
    tree, and the manifest of the install directory records the build
    index and the build name of the version. *)
Theorem a_patched_installation_is_clean
  (E : Env) (gameDir : path) (version : GameVersion) (w w1 : World)
  (f : Findings) :
  inspect E gameDir version w = (Ok f, w1) ->
  needed f = true ->
  fst (installGame E gameDir version w) = Ok true ->
  let after := fs (snd (installGame E gameDir version w)) in
  Fs.lookup (tempPWRPath gameDir version) after = None
  /\ readInstallManifest (resolveInstallDir gameDir version) after
     = Some (mkManifest (build_index version) (Some (build_name version))).
Proof.
  intros Hi Hn. cbn zeta.
  rewrite Steps.installGame_run, Hi, Steps.patchIfNeeded_run, Hn.
  rewrite Trace.patchGame_run. cbn zeta.
  rewrite (PatchSteps.inspect_installDir _ _ _ _ _ _ Hi).
  set (dir := resolveInstallDir gameDir version).
  destruct (fst (installButler E (fs w1))) as [butlerPath|]; [|discriminate].
  destruct (downloadPWR E gameDir version _) as [[[temp|]|e] w3] eqn:Hd;
    try discriminate.
  assert (Htemp : temp = tempPWRPath gameDir version).
  { eapply PatchSteps.returns_temp. rewrite Hd. reflexivity. }
  subst temp.
  destruct (applyPWR E _ butlerPath dir w3) as [[[|c d]|e] w4];
    try discriminate.
  destruct ((fs_do (Fs.unlink (tempPWRPath gameDir version)) ;;
             writeInstallManifest dir version ;;
             ensureClientExecutable E dir) w4) as [[[]|e] wp] eqn:Hp;
    [|discriminate].
  intros _. cbn [conclude snd fs].
  revert Hp. unfold bind at 1, fs_do at 1.
  destruct (Fs.unlink _ (fs w4)) as [n5|e] eqn:Hu; [|discriminate].
  apply TreeFacts.unlink_gone in Hu.
  unfold bind at 1.
  destruct (writeInstallManifest dir version _) as [[[]|e] w6] eqn:Hw;
    [|discriminate].
  pose proof (PatchSteps.writeInstallManifest_frame dir version _ _
                (tempPWRPath gameDir version) Hw
                (PatchSteps.temp_apart gameDir version)) as Hkeep.
  cbn [fs] in Hkeep.
  pose proof (Twice.written_manifest _ _ _ _ Hw) as Hm.
  pose proof (Twice.ensureClientExecutable_keeps E dir w6) as Hclient.
  intros He. rewrite He in Hclient. cbn [snd] in Hclient. split.
  - rewrite Hclient by apply PatchSteps.temp_apart.
    now rewrite Hkeep.
  - unfold readInstallManifest in *.
    rewrite Hclient by apply Twice.manifest_apart. exact Hm.
Qed.

Lemma a_patched_installation_is_clean_witness :
  let after :=
    fs (snd (installGame (Sample.linux (Some "20") None (Some 0))
               Sample.gameDir Sample.b3 Sample.start)) in
  Fs.lookup ["games"; "temp_3.pwr"] after = None
  /\ readInstallManifest Sample.latest after
     = Some (mkManifest 3 (Some "b3")).
Proof.
  cbn zeta.
  let r := eval vm_compute in
             (inspect (Sample.linux (Some "20") None (Some 0)) Sample.gameDir
                Sample.b3 Sample.start) in
  match r with
  | (Ok ?f, ?w1) =>
      exact (a_patched_installation_is_clean
               (Sample.linux (Some "20") None (Some 0)) Sample.gameDir
               Sample.b3 Sample.start w1 f
               ltac:(vm_compute; reflexivity)
               ltac:(vm_compute; reflexivity)
               ltac:(vm_compute; reflexivity))
  end.
Defined.

(* ===================================================================== *)
(** * The hot patch, past its gates *)
(* ===================================================================== *)

Module Replace.

Local Open Scope list_scope.

(** With a client whose hash does not match, the [try] block goes on to
    the download. *)
Lemma begins (E : Env) (clientPath : path) (address expectedHash : string)
  (version : GameVersion) (channel : string) (w : World)
  (c : content) (m : Z) :
  Fs.lookup clientPath (fs w) = Some (File c m) ->
  ~ hash_matches (sha256 E c) expectedHash ->
  patchOnlineClient E clientPath address expectedHash version channel w
  = (let tempPath := tempPath E clientPath version in
     downloadFileWithProgress E address tempPath channel ;;
     downloadedHash <- sha256File E tempPath ;;
     if negb (String.eqb (normalizeHash downloadedHash)
                         (normalizeHash expectedHash))
     then
       ignoring (fs_do (Fs.unlink tempPath)) ;;
       throw (JsError "Patch hash mismatch (SHA256)")
     else
       ignoring (fs_do (Fs.unlink clientPath)) ;;
       try_catch (fs_do (Fs.rename tempPath clientPath))
         (fun _ =>
            fs_do (Fs.copyFile tempPath clientPath) ;;
            ignoring (fs_do (Fs.unlink tempPath))) ;;
       ret patched) w.
Proof.
  intros Hl Hstale. unfold patchOnlineClient. unfold bind at 1.
  rewrite Mismatch.current_hash, Hl. cbn [truthy_string].
  apply String.eqb_neq in Hstale. rewrite Hstale, andb_false_r.
  reflexivity.
Qed.

(** The client binary and the temporary file lie in the same directory,
    which exists when the client does. *)
Lemma client_dir (E : Env) (gameDir : path) (version : GameVersion)
  (n m : node) :
  Fs.lookup (getClientPath E gameDir version) n = Some m ->
  exists es, Fs.lookup (clientDir gameDir version) n = Some (Dir es).
Proof.
  rewrite Mismatch.clientPath_eq. apply FsFacts.lookup_parent_dir.
Qed.

End Replace.

(** X10.  The hot patch that goes through.  On Windows, with a patch
    address and an expected hash, a client binary whose hash does not
    match, a download that completes, and a downloaded file whose hash
    matches: [patchOnlineClientIfNeeded] returns "patched", the client
    binary holds the downloaded bytes, the temporary file is gone, no other
    path of the tree has changed, and nothing is sent on
    "online-patch-error". *)
Theorem hot_patch_replaces_the_client
  (E : Env) (gameDir : path) (version : GameVersion) (channel : string)
  (w : World) (address expectedHash : string) (response : Response)
  (b : Body) (c : content) (m : Z) :
  let clientPath := getClientPath E gameDir version in
  let temp := tempPath E clientPath version in
  let bytes := Raw (String.concat "" (chunks b)) in
  platform E = "win32" ->
  patch_url version = Some address -> address <> "" ->
  patch_hash version = Some expectedHash -> expectedHash <> "" ->
  Fs.lookup clientPath (fs w) = Some (File c m) ->
  ~ hash_matches (sha256 E c) expectedHash ->
  fetch E address = Ok response -> ok response = true ->
  body response = Some b -> failure b = None ->
  (forall es, Fs.lookup temp (fs w) <> Some (Dir es)) ->
  hash_matches (sha256 E bytes) expectedHash ->
  let out := patchOnlineClientIfNeeded E gameDir version channel w in
  fst out = Ok patched
  /\ (exists m', Fs.lookup clientPath (fs (snd out)) = Some (File bytes m'))
  /\ Fs.lookup temp (fs (snd out)) = None
  /\ (forall q, part clientPath q -> part temp q ->
                Fs.lookup q (fs (snd out)) = Fs.lookup q (fs w))
  /\ (forall msg,
        ~ In (Send "online-patch-error" (Message msg))
             (events (patchOnlineClientIfNeeded E gameDir version channel) w)).
Proof.
  intros clientPath temp bytes Hos Hu Hu' Hh Hh' Hl Hstale Hfetch Hok Hbody
         Hfail Hfree Hgood out.
  destruct (Replace.client_dir E gameDir version _ _ Hl) as [es Hes].
  (* the download *)
  assert (Hrun := Download.downloadFileWithProgress_run E address temp channel w).
  cbn zeta in Hrun. unfold written in Hrun. cbv zeta in Hrun.
  rewrite Hfetch, Hok, Hbody, Hfail in Hrun.
  unfold temp, clientPath in Hfree, Hrun.
  rewrite Mismatch.tempPath_eq in Hfree, Hrun.
  destruct (TreeFacts.write_ok _ (tempName E version) bytes (fs w) es Hes Hfree)
    as [n1 Hwrite].
  fold bytes in Hrun. rewrite Hwrite in Hrun.
  destruct (Mismatch.write_then_unlink _ _ _ _ _ Hwrite)
    as ([m1 Hread] & Hframe1 & _).
  (* the client is removed, the temporary file takes its name *)
  assert (Hclient1 : Fs.lookup (clientDir gameDir version
                                ++ [clientName (platform E)])%list n1
                     = Some (File c m)).
  { rewrite Hframe1; [now rewrite <- Mismatch.clientPath_eq|].
    apply FsFacts.part_siblings, Mismatch.tempName_fresh. }
  destruct (FsFacts.lookup_parent_dir _ _ _ _ Hclient1) as [es1 Hes1].
  destruct (FsFacts.update_some _ (clientName (platform E)) None n1 es1 Hes1)
    as [n2 Hn2].
  assert (Hunlink : Fs.unlink (clientDir gameDir version
                               ++ [clientName (platform E)])%list n1 = Ok n2).
  { unfold Fs.unlink. now rewrite Hclient1, Hn2. }
  assert (Hgone2 := proj1 (FsFacts.lookup_update _ _ _ _ _ Hn2)).
  assert (Htemp2 : Fs.lookup (clientDir gameDir version ++ [tempName E version])%list
                             n2 = Some (File bytes m1)).
  { rewrite <- Hread. eapply FsFacts.lookup_update_part; [|exact Hn2].
    apply FsFacts.part_siblings, not_eq_sym, Mismatch.tempName_fresh. }
  destruct (Retire.rename_fresh _ _ _ _ _ (Mismatch.tempName_fresh E version)
              Htemp2 Hgone2)
    as (n3 & Hrename & Hnew & Hold & Hframe3).
  (* the [try] block *)
  assert (Htry :
    patchOnlineClient E clientPath address expectedHash version channel w
    = (Ok patched,
       mkWorld n3
         (log w ++ online_started address channel response b ++
          [Send channel (online_progress (int 100) (online_total response)
                                         (total_bytes (chunks b)))])%list)).
  { rewrite (Replace.begins E clientPath address expectedHash version channel
               w c m Hl Hstale).
    cbn zeta. unfold clientPath. rewrite Mismatch.tempPath_eq.
    unfold bind at 1. rewrite Hrun.
    unfold bind at 1, sha256File, bind at 1, fs_get, Fs.read.
    cbn [fs]. rewrite Hread. cbn [ret]. unfold ret at 1. cbn beta iota.
    apply String.eqb_eq in Hgood. fold bytes. rewrite Hgood. cbn [negb].
    rewrite Mismatch.clientPath_eq.
    unfold bind, ignoring, try_catch, fs_do. cbn [fs log].
    rewrite Hunlink. cbn [fs log]. rewrite Hrename. reflexivity. }
  assert (Hc : Fs.exists_ (getClientPath E gameDir version) (fs w) = true).
  { unfold Fs.exists_. fold clientPath. now rewrite Hl. }
  assert (Hout : out
    = (Ok patched,
       mkWorld n3
         (log w ++ online_started address channel response b ++
          [Send channel (online_progress (int 100) (online_total response)
                                         (total_bytes (chunks b)))])%list)).
  { unfold out.
    rewrite (HotPatch.past_the_gates E gameDir version channel w
               address expectedHash) by assumption.
    fold clientPath. now rewrite Htry. }
  unfold temp, clientPath. rewrite Mismatch.tempPath_eq, Mismatch.clientPath_eq.
  rewrite Hout. cbn [fst snd fs].
  split; [reflexivity|]. split; [eauto|]. split; [exact Hold|]. split.
  - intros q Hq1 Hq2. rewrite (Hframe3 q Hq2 Hq1).
    rewrite (FsFacts.lookup_update_part _ _ _ _ _ Hq1 Hn2).
    now apply Hframe1.
  - intros msg Hin.
    erewrite Run.adds_events in Hin
      by (unfold adds; fold out; rewrite Hout; reflexivity).
    apply in_app_or in Hin. destruct Hin as [Hin|Hin].
    + unfold online_started in Hin. cbn [app] in Hin.
      destruct Hin as [Hin|[Hin|Hin]]; try discriminate.
      apply in_map_iff in Hin. destruct Hin as (d & Hd & _). discriminate.
    + cbn in Hin. destruct Hin as [Hin|[]]. discriminate.
Qed.

Lemma hot_patch_replaces_the_client_witness :
  let out :=
    patchOnlineClientIfNeeded (Sample.windows "abc123") Sample.gameDir
      Sample.hot "online-patch-progress" (Sample.installed "old") in
  fst out = Ok patched
  /\ exists m',
       Fs.lookup Sample.clientExe (fs (snd out))
       = Some (File (Raw "abc123") m').
Proof.
  cbn zeta.
  destruct (hot_patch_replaces_the_client
              (Sample.windows "abc123") Sample.gameDir Sample.hot
              "online-patch-progress" (Sample.installed "old")
              "https://x/client.exe" "ABC123"
              (Sample.response None ["abc123"] None)
              (mkBody ["abc123"] None 0) (Raw "old") 420)
    as (H1 & H2 & _).
  - reflexivity.
  - reflexivity.
  - discriminate.
  - reflexivity.
  - discriminate.
  - vm_compute. reflexivity.
  - intros H. vm_compute in H. discriminate.
  - reflexivity.
  - reflexivity.
  - reflexivity.
  - reflexivity.
  - intros es. vm_compute. discriminate.
  - vm_compute. reflexivity.
  - split; [exact H1|exact H2].
Defined.

(** X11.  The hot patch whose download fails.  Past the gates and with a
    client binary whose hash does not match, [patchOnlineClientIfNeeded]
    returns "skipped" and reports on "online-patch-error": the message of
    the rejection when the request is rejected; "Failed to download
    patch: " and the status code when the response is not ok;
    "No response body" when it has no body -- each time after the request
    alone and with the tree as it was.  When the stream breaks, it reports
    the message of the failure, the client binary is as it was, and the
    temporary file is not removed: it holds what had been written by then,
    a prefix, possibly empty, of the bytes that arrived. *)
Theorem hot_patch_reports_a_failed_download
  (E : Env) (gameDir : path) (version : GameVersion) (channel : string)
  (w : World) (address expectedHash : string) (c : content) (m : Z) :
  let clientPath := getClientPath E gameDir version in
  let temp := tempPath E clientPath version in
  platform E = "win32" ->
  patch_url version = Some address -> address <> "" ->
  patch_hash version = Some expectedHash -> expectedHash <> "" ->
  Fs.lookup clientPath (fs w) = Some (File c m) ->
  ~ hash_matches (sha256 E c) expectedHash ->
  let out := patchOnlineClientIfNeeded E gameDir version channel w in
  let reported msg :=
    (Ok skipped,
     mkWorld (fs w)
       (log w ++ [Fetch address;
                  Send "online-patch-error" (Message msg)])%list) in
  (forall e, fetch E address = Throw e -> out = reported (message_of e))
  /\ (forall response,
        fetch E address = Ok response -> ok response = false ->
        out = reported ("Failed to download patch: "
                        ++ Str.of_Z (status response)))
  /\ (forall response,
        fetch E address = Ok response -> ok response = true ->
        body response = None ->
        out = reported "No response body")
  /\ (forall response b e,
        fetch E address = Ok response -> ok response = true ->
        body response = Some b -> failure b = Some e ->
        (forall es, Fs.lookup temp (fs w) <> Some (Dir es)) ->
        fst out = Ok skipped
        /\ last (log (snd out)) CallInstallButler
           = Send "online-patch-error" (Message (message_of e))
        /\ Fs.lookup clientPath (fs (snd out)) = Some (File c m)
        /\ exists kept m',
             Fs.lookup temp (fs (snd out)) = Some (File (Raw kept) m')
             /\ kept = substring 0 (flushed b) (String.concat "" (chunks b))
             /\ prefix kept (String.concat "" (chunks b)) = true).
Proof.
  intros clientPath temp Hos Hu Hu' Hh Hh' Hl Hstale out reported.
  assert (Hc : Fs.exists_ (getClientPath E gameDir version) (fs w) = true).
  { unfold Fs.exists_. fold clientPath. now rewrite Hl. }
  assert (Hout : forall e w1,
    downloadFileWithProgress E address temp channel w = (Throw e, w1) ->
    out = (Ok skipped,
           mkWorld (fs w1)
             (log w1 ++ [Send "online-patch-error"
                           (Message (message_of e))])%list)).
  { intros e w1 Hd. unfold out.
    rewrite (HotPatch.past_the_gates E gameDir version channel w
               address expectedHash) by assumption.
    fold clientPath.
    rewrite (Replace.begins E clientPath address expectedHash version channel
               w c m Hl Hstale).
    cbn zeta. fold temp. unfold bind at 1. now rewrite Hd. }
  pose proof (Download.downloadFileWithProgress_run E address temp channel w)
    as Hrun.
  cbn zeta in Hrun. unfold reported.
  split; [|split; [|split]].
  - intros e He. rewrite He in Hrun. rewrite (Hout _ _ Hrun).
    cbn [fs log]. now rewrite <- app_assoc.
  - intros response He Hok. rewrite He, Hok in Hrun. rewrite (Hout _ _ Hrun).
    cbn [fs log]. now rewrite <- app_assoc.
  - intros response He Hok Hb. rewrite He, Hok, Hb in Hrun.
    rewrite (Hout _ _ Hrun). cbn [fs log]. now rewrite <- app_assoc.
  - intros response b e He Hok Hb Hf Hfree.
    unfold written in Hrun. cbv zeta in Hrun.
    rewrite He, Hok, Hb, Hf in Hrun.
    destruct (Replace.client_dir E gameDir version _ _ Hl) as [es Hes].
    unfold temp, clientPath in Hfree, Hrun.
    rewrite Mismatch.tempPath_eq in Hfree, Hrun.
    destruct (TreeFacts.write_ok _ (tempName E version)
                (Raw (substring 0 (flushed b) (String.concat "" (chunks b))))
                (fs w) es Hes Hfree)
      as [n1 Hwrite].
    rewrite Hwrite in Hrun.
    rewrite <- Mismatch.tempPath_eq in Hrun. fold clientPath temp in Hrun.
    rewrite (Hout _ _ Hrun). cbn [fst snd fs log].
    destruct (Mismatch.write_then_unlink _ _ _ _ _ Hwrite)
      as ([m1 Hread] & Hframe1 & _).
    split; [reflexivity|]. split; [apply last_last|].
    unfold temp, clientPath. rewrite Mismatch.tempPath_eq.
    split.
    2:{ eexists. exists m1. split; [exact Hread|].
        split; [reflexivity|apply TreeFacts.substring_prefix]. }
    rewrite Hframe1; [exact Hl|].
    rewrite Mismatch.clientPath_eq.
    apply FsFacts.part_siblings, Mismatch.tempName_fresh.
Qed.

Lemma hot_patch_reports_a_failed_download_witness :
  let E :=
    Sample.env "win32"
      (fun _ => Ok (mkResponse true 200 "OK" None
                      (Some (mkBody ["abc"; "123"] (Some (JsError "aborted"))
                                    4))))
      (Sample.tool false [] (Some 0)) Sample.noJre in
  let out :=
    patchOnlineClientIfNeeded E Sample.gameDir Sample.hot
      "online-patch-progress" (Sample.installed "old") in
  fst out = Ok skipped
  /\ last (log (snd out)) CallInstallButler
     = Send "online-patch-error" (Message "aborted")
  /\ Fs.lookup Sample.clientExe (fs (snd out)) = Some (File (Raw "old") 420)
  /\ exists kept m',
       Fs.lookup ["games"; "game"; "release"; "Client";
                  "temp_online_patch_3.exe"] (fs (snd out))
       = Some (File (Raw kept) m')
       /\ kept = "abc1"
       /\ prefix kept "abc123" = true.
Proof.
  cbv zeta.
  refine (proj2 (proj2 (proj2
            (hot_patch_reports_a_failed_download
               (Sample.env "win32"
                  (fun _ => Ok (mkResponse true 200 "OK" None
                                  (Some (mkBody ["abc"; "123"]
                                           (Some (JsError "aborted")) 4))))
                  (Sample.tool false [] (Some 0)) Sample.noJre)
               Sample.gameDir Sample.hot "online-patch-progress"
               (Sample.installed "old") "https://x/client.exe" "ABC123"
               (Raw "old") 420 _ _ _ _ _ _ _)))
            (mkResponse true 200 "OK" None
               (Some (mkBody ["abc"; "123"] (Some (JsError "aborted")) 4)))
            (mkBody ["abc"; "123"] (Some (JsError "aborted")) 4)
            (JsError "aborted") _ _ _ _ _).
  - reflexivity.
  - reflexivity.
  - discriminate.
  - reflexivity.
  - discriminate.
  - vm_compute. reflexivity.
  - intros H. vm_compute in H. discriminate.
  - reflexivity.
  - reflexivity.
  - reflexivity.
  - reflexivity.
  - intros es. vm_compute. discriminate.
Defined.

(* ===================================================================== *)
(** * The bootstrap of the patch tool *)
(* ===================================================================== *)

Module ButlerFacts.

Local Open Scope list_scope.

(** [installButler] by the tree it finds. *)
Lemma installButler_run (E : Env) (META : path)
  (extract : path -> path -> node -> result node) (w : World) :
  Butler.installButler E META extract w =
  match butler_ready META (fs w) with
  | Throw _ => (Ok None, w)
  | Ok n0 =>
      let w0 := mkWorld n0 (log w) in
      if Fs.exists_ (Butler.binPath E META) n0
      then (Ok (Some (Butler.binPath E META)), w0)
      else
        match Butler.downloadUrl (platform E) with
        | None => (Ok None, w0)
        | Some address =>
            match Butler.download E META extract address w0 with
            | (Ok r, w1) => (Ok r, w1)
            | (Throw _, w1) => (Ok None, w1)
            end
        end
  end.
Proof.
  unfold Butler.installButler, butler_ready, ensureDir, try_catch.
  unfold bind at 1. unfold bind at 1. unfold existsSync at 1.
  destruct (Fs.exists_ (Butler.butlerPath META) (fs w)) eqn:Hdir; cbn [negb].
  - unfold ret at 1. unfold bind at 1, existsSync at 1.
    destruct w as [n l]. cbn [fs log].
    destruct (Fs.exists_ (Butler.binPath E META) n); [reflexivity|].
    destruct (Butler.downloadUrl (platform E)) as [address|]; reflexivity.
  - unfold fs_do at 1.
    destruct (Fs.mkdir (Butler.butlerPath META) (fs w)) as [n0|e];
      [|reflexivity].
    unfold bind at 1, existsSync at 1. cbn [fs log].
    destruct (Fs.exists_ (Butler.binPath E META) n0); [reflexivity|].
    destruct (Butler.downloadUrl (platform E)) as [address|]; reflexivity.
Qed.

(** The download by what the network, the archive and the tree give. *)
Lemma download_run (E : Env) (META : path)
  (extract : path -> path -> node -> result node) (address : string)
  (w : World) :
  Butler.download E META extract address w =
  let l := log w ++ [Fetch address] in
  let quit e n := (Throw e, mkWorld n l) in
  match fetch E address with
  | Throw e => quit e (fs w)
  | Ok response =>
      if ok response then
        match Butler.arrayBuffer response (mkWorld (fs w) l) with
        | (Throw e, _) => quit e (fs w)
        | (Ok zipData, _) =>
            match Fs.write (Butler.zipPath META) (Raw zipData) (fs w) with
            | Throw e => quit e (fs w)
            | Ok n1 =>
                match extract (Butler.zipPath META) (Butler.butlerPath META)
                              n1 with
                | Throw e => quit e n1
                | Ok n2 =>
                    match (if String.eqb (platform E) "win32" then Ok n2
                           else Fs.chmod (Butler.binPath E META) 493 n2) with
                    | Throw e => quit e n2
                    | Ok n3 =>
                        match Fs.unlink (Butler.zipPath META) n3 with
                        | Throw e => quit e n3
                        | Ok n4 =>
                            (Ok (Some (Butler.binPath E META)), mkWorld n4 l)
                        end
                    end
                end
            end
        end
      else quit (JsError ("Failed to download Butler: "
                          ++ statusText response)) (fs w)
  end.
Proof.
  unfold Butler.download. unfold bind at 1. cbn [emit].
  destruct (fetch E address) as [response|e]; [|reflexivity].
  destruct (ok response); [|reflexivity]. cbn [negb].
  unfold bind at 1. unfold Butler.arrayBuffer.
  destruct (body response) as [b|].
  - destruct (failure b) as [e|]; [reflexivity|]. cbn [ret].
    unfold bind at 1, fs_do at 1. cbn [fs log].
    destruct (Fs.write _ _ (fs w)) as [n1|e]; [|reflexivity].
    unfold bind at 1, fs_do at 1. cbn [fs log].
    destruct (extract _ _ n1) as [n2|e]; [|reflexivity].
    unfold bind at 1.
    destruct (String.eqb (platform E) "win32"); cbn [negb].
    + unfold ret at 1. unfold bind at 1, fs_do at 1. cbn [fs log].
      destruct (Fs.unlink _ n2); reflexivity.
    + unfold fs_do at 1. cbn [fs log].
      destruct (Fs.chmod _ 493 n2) as [n3|e]; [|reflexivity].
      unfold bind at 1, fs_do at 1. cbn [fs log].
      destruct (Fs.unlink _ n3); reflexivity.
  - cbn [ret].
    unfold bind at 1, fs_do at 1. cbn [fs log].
    destruct (Fs.write _ _ (fs w)) as [n1|e]; [|reflexivity].
    unfold bind at 1, fs_do at 1. cbn [fs log].
    destruct (extract _ _ n1) as [n2|e]; [|reflexivity].
    unfold bind at 1.
    destruct (String.eqb (platform E) "win32"); cbn [negb].
    + unfold ret at 1. unfold bind at 1, fs_do at 1. cbn [fs log].
      destruct (Fs.unlink _ n2); reflexivity.
    + unfold fs_do at 1. cbn [fs log].
      destruct (Fs.chmod _ 493 n2) as [n3|e]; [|reflexivity].
      unfold bind at 1, fs_do at 1. cbn [fs log].
      destruct (Fs.unlink _ n3); reflexivity.
Qed.

(** The archive and the binary have different names. *)
Lemma zip_apart (E : Env) (META : path) :
  part (Butler.zipPath META) (Butler.binPath E META).
Proof.
  unfold Butler.zipPath, Butler.binPath, Butler.binName.
  apply FsFacts.part_siblings.
  destruct (String.eqb (platform E) "win32"); discriminate.
Qed.

(** A successful [chmod] leaves something at its path. *)
Lemma chmod_exists (base : path) (name : string) (mode : Z) (n n' : node) :
  Fs.chmod (base ++ [name]) mode n = Ok n' ->
  Fs.exists_ (base ++ [name]) n' = true.
Proof.
  unfold Fs.chmod, Fs.exists_.
  destruct (Fs.lookup (base ++ [name]) n) as [[c m|es]|] eqn:Hl;
    [| |discriminate].
  - destruct (Fs.update _ _ n) as [n1|] eqn:Hu; [|discriminate].
    intros [= <-]. now rewrite (proj1 (FsFacts.lookup_update _ _ _ _ _ Hu)).
  - intros [= <-]. now rewrite Hl.
Qed.

(** Removing a file changes nothing elsewhere. *)
Lemma unlink_frame (p q : path) (n n' : node) :
  Fs.unlink p n = Ok n' -> part p q -> Fs.lookup q n' = Fs.lookup q n.
Proof.
  unfold Fs.unlink. intros H Hq.
  destruct (Fs.lookup p n) as [[c m|es]|]; try discriminate.
  destruct (Fs.update p None n) as [n1|] eqn:Hu; [|discriminate].
  injection H as <-. eapply FsFacts.lookup_update_part; eauto.
Qed.

End ButlerFacts.

(** X12.  When the binary of the patch tool is in place, [installButler]
    returns its path at once: no request, no event, and the tree as it
    was. *)
Theorem an_installed_butler_is_reused
  (E : Env) (META_DIRECTORY : path)
  (extract : path -> path -> node -> result node) (w : World) :
  Fs.exists_ (Butler.binPath E META_DIRECTORY) (fs w) = true ->
  Butler.installButler E META_DIRECTORY extract w
  = (Ok (Some (Butler.binPath E META_DIRECTORY)), w).
Proof.
  intros Hbin. rewrite ButlerFacts.installButler_run.
  unfold butler_ready, ensureDir.
  destruct (TreeFacts.exists_parent _ _ _ Hbin) as [es Hes].
  unfold Fs.exists_ at 1. fold (Butler.butlerPath META_DIRECTORY) in Hes.
  rewrite Hes. cbn zeta. rewrite Hbin. now destruct w.
Qed.

Lemma an_installed_butler_is_reused_witness :
  let w :=
    mkWorld (Sample.put_file ["meta"; "tools"; "butler"; "butler"] "elf"
               (Dir [])) [] in
  Butler.installButler (Sample.linux None None (Some 0)) ["meta"]
    (fun _ _ n => Ok n) w
  = (Ok (Some ["meta"; "tools"; "butler"; "butler"]), w).
Proof.
  cbn zeta.
  apply (an_installed_butler_is_reused (Sample.linux None None (Some 0))
           ["meta"] (fun _ _ n => Ok n)).
  vm_compute. reflexivity.
Defined.

(** X13.  [installButler] never throws: it returns null or the path of
    the binary, [META_DIRECTORY/tools/butler/butler] (with ".exe" on
    Windows), and it makes at most one request, to the address of the
    platform.  On a platform other than Windows, a path that is returned
    names something that exists in the tree.  After an installation that
    made a request and returned the path, the archive "butler.zip" is
    gone. *)
Theorem installButler_returns_the_binary_or_null
  (E : Env) (META_DIRECTORY : path)
  (extract : path -> path -> node -> result node) (w : World) :
  let out := Butler.installButler E META_DIRECTORY extract w in
  let evs := events (Butler.installButler E META_DIRECTORY extract) w in
  let binPath := Butler.binPath E META_DIRECTORY in
  (fst out = Ok None \/ fst out = Ok (Some binPath))
  /\ (evs = []
      \/ exists address,
           Butler.downloadUrl (platform E) = Some address
           /\ evs = [Fetch address])
  /\ (platform E <> "win32" -> fst out = Ok (Some binPath) ->
      Fs.exists_ binPath (fs (snd out)) = true)
  /\ (evs <> [] -> fst out = Ok (Some binPath) ->
      Fs.lookup (Butler.zipPath META_DIRECTORY) (fs (snd out)) = None).
Proof.
  cbn zeta.
  assert (Hnil : forall (r : option path) n,
             events (fun _ : World => (Ok r, mkWorld n (log w))) w = []).
  { intros r n. apply Run.adds_events. unfold adds. cbn.
    now rewrite app_nil_r. }
  assert (Hev : forall out',
             Butler.installButler E META_DIRECTORY extract w = out' ->
             events (Butler.installButler E META_DIRECTORY extract) w
             = skipn (List.length (log w)) (log (snd out'))).
  { intros out' <-. reflexivity. }
  pose proof (ButlerFacts.installButler_run E META_DIRECTORY extract w) as Hrun.
  destruct (butler_ready META_DIRECTORY (fs w)) as [n0|e0].
  2:{ rewrite (Hev _ Hrun), Hrun. cbn [fst snd].
      rewrite skipn_all. split; [auto|]. split; [auto|].
      split; [discriminate|]. intros H. now destruct H. }
  cbn zeta in Hrun.
  destruct (Fs.exists_ (Butler.binPath E META_DIRECTORY) n0) eqn:Hbin.
  { rewrite (Hev _ Hrun), Hrun. cbn [fst snd fs log].
    rewrite skipn_all. split; [auto|]. split; [auto|].
    split; [auto|]. intros H. now destruct H. }
  destruct (Butler.downloadUrl (platform E)) as [address|] eqn:Haddr.
  2:{ rewrite (Hev _ Hrun), Hrun. cbn [fst snd fs log].
      rewrite skipn_all. split; [auto|]. split; [auto|].
      split; [discriminate|]. intros H. now destruct H. }
  rewrite ButlerFacts.download_run in Hrun. cbn zeta in Hrun. cbn [fs log] in Hrun.
  assert (Hskip : skipn (List.length (log w)) (log w ++ [Fetch address])
                  = [Fetch address]).
  { now rewrite skipn_app, skipn_all, Nat.sub_diag. }
  assert (Hquit : forall n,
    Butler.installButler E META_DIRECTORY extract w
    = (Ok None, mkWorld n (log w ++ [Fetch address])) ->
    (fst (Butler.installButler E META_DIRECTORY extract w) = Ok None
     \/ fst (Butler.installButler E META_DIRECTORY extract w)
        = Ok (Some (Butler.binPath E META_DIRECTORY)))
    /\ (events (Butler.installButler E META_DIRECTORY extract) w = []
        \/ exists address0,
             Some address = Some address0
             /\ events (Butler.installButler E META_DIRECTORY extract) w
                = [Fetch address0])
    /\ (platform E <> "win32" ->
        fst (Butler.installButler E META_DIRECTORY extract w)
        = Ok (Some (Butler.binPath E META_DIRECTORY)) ->
        Fs.exists_ (Butler.binPath E META_DIRECTORY)
          (fs (snd (Butler.installButler E META_DIRECTORY extract w))) = true)
    /\ (events (Butler.installButler E META_DIRECTORY extract) w <> [] ->
        fst (Butler.installButler E META_DIRECTORY extract w)
        = Ok (Some (Butler.binPath E META_DIRECTORY)) ->
        Fs.lookup (Butler.zipPath META_DIRECTORY)
          (fs (snd (Butler.installButler E META_DIRECTORY extract w)))
        = None)).
  { intros n H. rewrite (Hev _ H), H. cbn [fst snd fs log]. rewrite Hskip.
    split; [auto|]. split; [eauto|]. split; discriminate. }
  destruct (fetch E address) as [response|e]; [|exact (Hquit _ Hrun)].
  destruct (ok response); [|exact (Hquit _ Hrun)].
  destruct (Butler.arrayBuffer response _) as [[zipData|e] wz];
    [|exact (Hquit _ Hrun)].
  destruct (Fs.write _ _ n0) as [n1|e]; [|exact (Hquit _ Hrun)].
  destruct (extract _ _ n1) as [n2|e]; [|exact (Hquit _ Hrun)].
  destruct (String.eqb (platform E) "win32") eqn:Hos.
  - destruct (Fs.unlink _ n2) as [n4|e] eqn:Hunlink; [|exact (Hquit _ Hrun)].
    rewrite (Hev _ Hrun), Hrun. cbn [fst snd fs log]. rewrite Hskip.
    split; [auto|]. split; [eauto|]. split.
    + intros Hne. apply String.eqb_eq in Hos. contradiction.
    + intros _ _. eapply TreeFacts.unlink_gone. exact Hunlink.
  - destruct (Fs.chmod _ 493 n2) as [n3|e] eqn:Hchmod; [|exact (Hquit _ Hrun)].
    destruct (Fs.unlink _ n3) as [n4|e] eqn:Hunlink; [|exact (Hquit _ Hrun)].
    rewrite (Hev _ Hrun), Hrun. cbn [fst snd fs log]. rewrite Hskip.
    split; [auto|]. split; [eauto|]. split.
    + intros _ _. apply ButlerFacts.chmod_exists in Hchmod.
      unfold Fs.exists_ in *.
      rewrite (ButlerFacts.unlink_frame _ _ _ _ Hunlink
                 (ButlerFacts.zip_apart E META_DIRECTORY)).
      exact Hchmod.
    + intros _ _. eapply TreeFacts.unlink_gone. exact Hunlink.
Qed.

(** X14.  When the binary is missing, [installButler] gives up with null
    before it has written anything: on a platform without an address,
    without a request; when the request is rejected, when the response is
    not ok, or when the stream of the body breaks, after the request
    alone.  The tree is then the one the check for the binary saw, with
    the directory of the tool created. *)
Theorem installButler_gives_up_before_writing
  (E : Env) (META_DIRECTORY : path)
  (extract : path -> path -> node -> result node) (w : World) (n0 : node) :
  butler_ready META_DIRECTORY (fs w) = Ok n0 ->
  Fs.exists_ (Butler.binPath E META_DIRECTORY) n0 = false ->
  let out := Butler.installButler E META_DIRECTORY extract w in
  (Butler.downloadUrl (platform E) = None ->
   out = (Ok None, mkWorld n0 (log w)))
  /\ (forall address,
        Butler.downloadUrl (platform E) = Some address ->
        (exists e, fetch E address = Throw e)
        \/ (exists response,
              fetch E address = Ok response
              /\ (ok response = false
                  \/ exists b e,
                       body response = Some b /\ failure b = Some e)) ->
        out = (Ok None, mkWorld n0 (log w ++ [Fetch address])%list)).
Proof.
  intros Hready Hbin. cbn zeta.
  rewrite ButlerFacts.installButler_run, Hready. cbn zeta. rewrite Hbin.
  split.
  - intros ->. reflexivity.
  - intros address -> Hfail. rewrite ButlerFacts.download_run. cbn zeta.
    cbn [fs log].
    destruct Hfail as [[e ->]|(response & -> & [->|(b & e & Hb & Hf)])];
      try reflexivity.
    destruct (ok response); [|reflexivity].
    unfold Butler.arrayBuffer. rewrite Hb, Hf. reflexivity.
Qed.

Lemma installButler_gives_up_before_writing_witness :
  Butler.installButler Sample3.offline ["meta"] Sample4.extractsNothing
    Sample4.empty
  = (Ok None,
     mkWorld (Dir [("meta", Dir [("tools", Dir [("butler", Dir [])])])])
       [Fetch "https://broth.itch.zone/butler/linux-amd64/LATEST/archive/default"]).
Proof.
  refine (proj2 (installButler_gives_up_before_writing
                   Sample3.offline ["meta"] Sample4.extractsNothing
                   Sample4.empty
                   (Dir [("meta", Dir [("tools", Dir [("butler", Dir [])])])])
                   _ _)
                "https://broth.itch.zone/butler/linux-amd64/LATEST/archive/default"
                _ _).
  - vm_compute. reflexivity.
  - vm_compute. reflexivity.
  - reflexivity.
  - left. eexists. reflexivity.
Defined.

(** X15.  On Windows [installButler] does not look at what the archive
    held: when the binary is missing, the download completes, the
    archive is written, extracted and removed without an error, it
    returns the path of the binary, whether or not the extraction has put
    a binary there. *)
Theorem installButler_trusts_the_archive_on_windows
  (E : Env) (META_DIRECTORY : path)
  (extract : path -> path -> node -> result node) (w : World)
  (n0 n1 n2 n3 : node) (address : string) (response : Response) (b : Body) :
  platform E = "win32" ->
  butler_ready META_DIRECTORY (fs w) = Ok n0 ->
  Fs.exists_ (Butler.binPath E META_DIRECTORY) n0 = false ->
  Butler.downloadUrl (platform E) = Some address ->
  fetch E address = Ok response -> ok response = true ->
  body response = Some b -> failure b = None ->
  Fs.write (Butler.zipPath META_DIRECTORY)
           (Raw (String.concat "" (chunks b))) n0 = Ok n1 ->
  extract (Butler.zipPath META_DIRECTORY) (Butler.butlerPath META_DIRECTORY) n1
    = Ok n2 ->
  Fs.unlink (Butler.zipPath META_DIRECTORY) n2 = Ok n3 ->
  let out := Butler.installButler E META_DIRECTORY extract w in
  out = (Ok (Some (Butler.binPath E META_DIRECTORY)),
         mkWorld n3 (log w ++ [Fetch address])%list)
  /\ Fs.exists_ (Butler.binPath E META_DIRECTORY) (fs (snd out))
     = Fs.exists_ (Butler.binPath E META_DIRECTORY) n2.
Proof.
  intros Hos Hready Hbin Haddr Hfetch Hok Hbody Hfail Hwrite Hextract Hunlink.
  cbn zeta.
  assert (Hbuf : forall w',
             Butler.arrayBuffer response w'
             = (Ok (String.concat "" (chunks b)), w')).
  { intros w'. unfold Butler.arrayBuffer. now rewrite Hbody, Hfail. }
  rewrite ButlerFacts.installButler_run, Hready. cbn zeta.
  rewrite Hbin, Haddr, ButlerFacts.download_run. cbn zeta. cbn [fs log].
  apply String.eqb_eq in Hos.
  rewrite Hfetch, Hok, Hbuf, Hwrite, Hextract, Hos, Hunlink. split; [reflexivity|]. cbn [snd fs].
  unfold Fs.exists_.
  now rewrite (ButlerFacts.unlink_frame _ _ _ _ Hunlink
                 (ButlerFacts.zip_apart E META_DIRECTORY)).
Qed.

Lemma installButler_trusts_the_archive_on_windows_witness :
  let out :=
    Butler.installButler (Sample.windows "zip") ["meta"]
      Sample4.extractsNothing Sample4.empty in
  fst out = Ok (Some ["meta"; "tools"; "butler"; "butler.exe"])
  /\ Fs.exists_ ["meta"; "tools"; "butler"; "butler.exe"] (fs (snd out))
     = false.
Proof.
  cbn zeta.
  let n1 := eval vm_compute in
              (Sample.put_file ["meta"; "tools"; "butler"; "butler.zip"] "zip"
                 (Dir [])) in
  destruct (installButler_trusts_the_archive_on_windows
              (Sample.windows "zip") ["meta"] Sample4.extractsNothing
              Sample4.empty
              (Dir [("meta", Dir [("tools", Dir [("butler", Dir [])])])])
              n1 n1
              (Dir [("meta", Dir [("tools", Dir [("butler", Dir [])])])])
              "https://broth.itch.zone/butler/windows-amd64/LATEST/archive/default"
              (Sample.response None ["zip"] None) (mkBody ["zip"] None 0))
    as [Hout Hex].
  - reflexivity.
  - vm_compute. reflexivity.
  - vm_compute. reflexivity.
  - reflexivity.
  - reflexivity.
  - reflexivity.
  - reflexivity.
  - reflexivity.
  - vm_compute. reflexivity.
  - reflexivity.
  - vm_compute. reflexivity.
  - split; [now rewrite Hout|].
    etransitivity; [exact Hex|]. vm_compute. reflexivity.
Defined.

(* ===================================================================== *)
(** * The custom UUID of the settings dialog *)
(* ===================================================================== *)

Module UuidFacts.

Import Settings.

(** Facts about one character, by cases on its eight bits. *)
Ltac by_bits c :=
  destruct c as [[] [] [] [] [] [] [] []]; try reflexivity; discriminate.

Lemma hex_lower (c : ascii) :
  isHexDigit c = true -> isHexDigit (Str.lower c) = true.
Proof. by_bits c. Qed.

Lemma hex_not_hyphen (c : ascii) :
  isHexDigit c = true -> Ascii.eqb c "-" = false.
Proof. by_bits c. Qed.

Lemma hex_lower_not_hyphen (c : ascii) :
  isHexDigit c = true -> Ascii.eqb (Str.lower c) "-" = false.
Proof. by_bits c. Qed.

Lemma hex_lower_not_ws (c : ascii) :
  isHexDigit c = true -> Str.is_ws (Str.lower c) = false.
Proof. by_bits c. Qed.

Lemma lower_lower (c : ascii) : Str.lower (Str.lower c) = Str.lower c.
Proof. by_bits c. Qed.

Lemma hex_not_ws (c : ascii) :
  isHexDigit c = true -> negb (Str.is_ws c) = true.
Proof. by_bits c. Qed.

(** Strings. *)
Lemma length_app (a b : string) :
  String.length (a ++ b) = (String.length a + String.length b)%nat.
Proof. induction a as [|c a IH]; cbn; [reflexivity|now rewrite IH]. Qed.

Lemma app_assoc (a b c : string) : (a ++ b) ++ c = a ++ b ++ c.
Proof. induction a as [|x a IH]; cbn; [reflexivity|now rewrite IH]. Qed.

Lemma app_empty (a : string) : a ++ "" = a.
Proof. induction a as [|x a IH]; cbn; [reflexivity|now rewrite IH]. Qed.

Lemma all_app f (a b : string) : all f (a ++ b) = all f a && all f b.
Proof.
  induction a as [|c a IH]; cbn; [reflexivity|].
  now rewrite IH, andb_assoc.
Qed.

Lemma all_impl (f g : ascii -> bool) (s : string) :
  (forall c, f c = true -> g c = true) -> all f s = true -> all g s = true.
Proof.
  intros Hfg. induction s as [|c s IH]; cbn; [reflexivity|].
  intros H. apply andb_prop in H. destruct H as [Hc Hs].
  now rewrite (Hfg c Hc), IH.
Qed.

Lemma all_map (f : ascii -> bool) (g : ascii -> ascii) (s : string) :
  all f (Str.map g s) = all (fun c => f (g c)) s.
Proof. induction s as [|c s IH]; cbn; [reflexivity|now rewrite IH]. Qed.

Lemma length_map (g : ascii -> ascii) (s : string) :
  String.length (Str.map g s) = String.length s.
Proof. induction s as [|c s IH]; cbn; [reflexivity|now rewrite IH]. Qed.

Lemma map_fixed (g : ascii -> ascii) (s : string) :
  all (fun c => Ascii.eqb (g c) c) s = true -> Str.map g s = s.
Proof.
  induction s as [|c s IH]; cbn; [reflexivity|].
  intros H. apply andb_prop in H. destruct H as [Hc Hs].
  apply Ascii.eqb_eq in Hc. now rewrite Hc, IH.
Qed.

Lemma fixed_map (g : ascii -> ascii) (s : string) :
  Str.map g s = s -> all (fun c => Ascii.eqb (g c) c) s = true.
Proof.
  induction s as [|c s IH]; cbn; [reflexivity|].
  intros [= Hc Hs]. now rewrite Hc, Ascii.eqb_refl, IH.
Qed.

Lemma substring_head (p r : string) :
  substring 0 (String.length p) (p ++ r) = p.
Proof.
  induction p as [|c p IH]; cbn; [now destruct r|now rewrite IH].
Qed.

Lemma substring_skip (p r : string) (a n : nat) :
  substring (String.length p + a) n (p ++ r) = substring a n r.
Proof. induction p as [|c p IH]; cbn; [reflexivity|exact IH]. Qed.

Lemma substring_whole (p : string) : substring 0 (String.length p) p = p.
Proof. induction p as [|c p IH]; cbn; [reflexivity|now rewrite IH]. Qed.

Lemma substring_group (a n : nat) (p q r : string) :
  String.length p = a -> String.length q = n ->
  substring a n (p ++ q ++ r) = q.
Proof.
  intros <- <-. rewrite <- (Nat.add_0_r (String.length p)), substring_skip.
  apply substring_head.
Qed.

Lemma split_at (n : nat) (s : string) :
  (n <= String.length s)%nat ->
  exists p r, s = p ++ r /\ String.length p = n.
Proof.
  revert s. induction n as [|n IH]; intros s H.
  - exists "", s. split; reflexivity.
  - destruct s as [|c s]; [cbn in H; lia|]. cbn in H.
    destruct (IH s ltac:(lia)) as (p & r & -> & Hp).
    exists (String c p), r. split; [reflexivity|]. cbn. now rewrite Hp.
Qed.

Lemma trim_no_ws (s : string) :
  all (fun c => negb (Str.is_ws c)) s = true -> Str.trim s = s.
Proof.
  intros H. unfold Str.trim.
  assert (Hstart : Str.trimStart s = s).
  { destruct s as [|c s]; [reflexivity|]. cbn in *.
    apply andb_prop in H. destruct H as [Hc _].
    apply negb_true_iff in Hc. now rewrite Hc. }
  rewrite Hstart. induction s as [|c s IH]; [reflexivity|].
  cbn in *. apply andb_prop in H. destruct H as [Hc Hs].
  apply negb_true_iff in Hc. rewrite Hc. cbn.
  rewrite IH; [reflexivity|exact Hs|].
  destruct s as [|c' s]; [reflexivity|]. cbn in *.
  apply andb_prop in Hs. destruct Hs as [Hc' _].
  apply negb_true_iff in Hc'. now rewrite Hc'.
Qed.

(** The pattern of line 23, piece by piece. *)
Lemma hexRun_spec (n : nat) (s r : string) :
  hexRun n s = Some r ->
  exists p, s = p ++ r /\ String.length p = n /\ all isHexDigit p = true.
Proof.
  revert s. induction n as [|n IH]; intros s H; cbn in H.
  - injection H as ->. exists "". auto.
  - destruct s as [|c s]; [discriminate|].
    destruct (isHexDigit c) eqn:Hc; [|discriminate].
    destruct (IH s H) as (p & -> & Hp & Hh).
    exists (String c p). cbn. now rewrite Hp, Hc, Hh.
Qed.

Lemma hexRun_app (p r : string) :
  all isHexDigit p = true -> hexRun (String.length p) (p ++ r) = Some r.
Proof.
  induction p as [|c p IH]; cbn; [reflexivity|].
  intros H. apply andb_prop in H. destruct H as [Hc Hp].
  now rewrite Hc, IH.
Qed.

Lemma hexRun_group (n : nat) (p r : string) :
  String.length p = n -> all isHexDigit p = true ->
  hexRun n (p ++ r) = Some r.
Proof. intros <-. apply hexRun_app. Qed.

Lemma hyphen_spec (s r : string) : hyphen s = Some r -> s = String "-" r.
Proof.
  destruct s as [|c s]; [discriminate|]. cbn.
  destruct (Ascii.eqb c "-") eqn:Hc; [|discriminate].
  apply Ascii.eqb_eq in Hc. now intros [= ->]; subst.
Qed.

Lemma removeHyphens_hex (p r : string) :
  all isHexDigit p = true -> removeHyphens (p ++ r) = p ++ removeHyphens r.
Proof.
  induction p as [|c p IH]; cbn; [reflexivity|].
  intros H. apply andb_prop in H. destruct H as [Hc Hp].
  now rewrite (hex_not_hyphen c Hc), IH.
Qed.

Lemma isUUID_spec (s : string) :
  isUUID s = true ->
  exists p1 p2 p3 p4 p5,
    s = joined p1 p2 p3 p4 p5
    /\ grouped p1 p2 p3 p4 p5
    /\ all isHexDigit (p1 ++ p2 ++ p3 ++ p4 ++ p5) = true.
Proof.
  unfold isUUID. intros H.
  destruct (hexRun 8 s) as [r1|] eqn:H1; [|discriminate]. cbn [andThen] in H.
  destruct (hyphen r1) as [r1'|] eqn:Y1; [|discriminate]. cbn [andThen] in H.
  destruct (hexRun 4 r1') as [r2|] eqn:H2; [|discriminate]. cbn [andThen] in H.
  destruct (hyphen r2) as [r2'|] eqn:Y2; [|discriminate]. cbn [andThen] in H.
  destruct (hexRun 4 r2') as [r3|] eqn:H3; [|discriminate]. cbn [andThen] in H.
  destruct (hyphen r3) as [r3'|] eqn:Y3; [|discriminate]. cbn [andThen] in H.
  destruct (hexRun 4 r3') as [r4|] eqn:H4; [|discriminate]. cbn [andThen] in H.
  destruct (hyphen r4) as [r4'|] eqn:Y4; [|discriminate]. cbn [andThen] in H.
  destruct (hexRun 12 r4') as [[|c r5]|] eqn:H5; try discriminate. clear H.
  apply hexRun_spec in H1, H2, H3, H4, H5.
  apply hyphen_spec in Y1, Y2, Y3, Y4.
  destruct H1 as (p1 & -> & L1 & X1). destruct H2 as (p2 & -> & L2 & X2).
  destruct H3 as (p3 & -> & L3 & X3). destruct H4 as (p4 & -> & L4 & X4).
  destruct H5 as (p5 & -> & L5 & X5). subst.
  exists p1, p2, p3, p4, p5. unfold joined, grouped.
  rewrite !all_app, X1, X2, X3, X4, X5, app_empty. auto 10.
Qed.

Lemma all_groups (f : ascii -> bool) (p1 p2 p3 p4 p5 : string) :
  all f (p1 ++ p2 ++ p3 ++ p4 ++ p5) = true ->
  all f p1 = true /\ all f p2 = true /\ all f p3 = true
  /\ all f p4 = true /\ all f p5 = true.
Proof.
  rewrite !all_app. intros H.
  repeat (apply andb_prop in H; destruct H as [? H]). auto.
Qed.

Lemma isUUID_joined (p1 p2 p3 p4 p5 : string) :
  grouped p1 p2 p3 p4 p5 ->
  all isHexDigit (p1 ++ p2 ++ p3 ++ p4 ++ p5) = true ->
  isUUID (joined p1 p2 p3 p4 p5) = true.
Proof.
  intros (L1 & L2 & L3 & L4 & L5) H.
  destruct (all_groups _ _ _ _ _ _ H) as (X1 & X2 & X3 & X4 & X5).
  unfold isUUID, joined.
  rewrite (hexRun_group 8 p1) by assumption.
  cbn [andThen hyphen append Ascii.eqb Bool.eqb].
  rewrite (hexRun_group 4 p2) by assumption.
  cbn [andThen hyphen append Ascii.eqb Bool.eqb].
  rewrite (hexRun_group 4 p3) by assumption.
  cbn [andThen hyphen append Ascii.eqb Bool.eqb].
  rewrite (hexRun_group 4 p4) by assumption.
  cbn [andThen hyphen append Ascii.eqb Bool.eqb].
  rewrite <- (app_empty p5), (hexRun_group 12 p5) by assumption.
  reflexivity.
Qed.

Lemma removeHyphens_joined (p1 p2 p3 p4 p5 : string) :
  all isHexDigit (p1 ++ p2 ++ p3 ++ p4 ++ p5) = true ->
  removeHyphens (joined p1 p2 p3 p4 p5) = p1 ++ p2 ++ p3 ++ p4 ++ p5.
Proof.
  intros H.
  destruct (all_groups _ _ _ _ _ _ H) as (X1 & X2 & X3 & X4 & X5).
  unfold joined.
  rewrite (removeHyphens_hex p1) by assumption. cbn [append removeHyphens].
  cbn [Ascii.eqb Bool.eqb].
  rewrite (removeHyphens_hex p2) by assumption.
  cbn [append removeHyphens Ascii.eqb Bool.eqb].
  rewrite (removeHyphens_hex p3) by assumption.
  cbn [append removeHyphens Ascii.eqb Bool.eqb].
  rewrite (removeHyphens_hex p4) by assumption.
  cbn [append removeHyphens Ascii.eqb Bool.eqb].
  rewrite <- (app_empty p5) at 1.
  rewrite (removeHyphens_hex p5) by assumption. cbn [removeHyphens].
  now rewrite app_empty.
Qed.

Lemma hyphenated_joined (p1 p2 p3 p4 p5 : string) :
  grouped p1 p2 p3 p4 p5 ->
  hyphenated (p1 ++ p2 ++ p3 ++ p4 ++ p5) = joined p1 p2 p3 p4 p5.
Proof.
  intros (L1 & L2 & L3 & L4 & L5).
  unfold hyphenated, joined, slice, sliceFrom.
  rewrite !length_app, L1, L2, L3, L4, L5. cbn [Nat.sub Nat.add].
  assert (S1 : substring 0 8 (p1 ++ p2 ++ p3 ++ p4 ++ p5) = p1)
    by (apply (substring_group 0 8 "" p1); auto).
  assert (S2 : substring 8 4 (p1 ++ p2 ++ p3 ++ p4 ++ p5) = p2)
    by (apply (substring_group 8 4 p1 p2); auto).
  assert (S3 : substring 12 4 (p1 ++ p2 ++ p3 ++ p4 ++ p5) = p3).
  { rewrite <- (app_assoc p1 p2).
    apply (substring_group 12 4 (p1 ++ p2) p3); auto.
    rewrite length_app. lia. }
  assert (S4 : substring 16 4 (p1 ++ p2 ++ p3 ++ p4 ++ p5) = p4).
  { rewrite <- (app_assoc p2 p3), <- (app_assoc p1 (p2 ++ p3)).
    apply (substring_group 16 4 (p1 ++ p2 ++ p3) p4); auto.
    rewrite !length_app. lia. }
  assert (S5 : substring 20 12 (p1 ++ p2 ++ p3 ++ p4 ++ p5) = p5).
  { rewrite <- (app_empty p5) at 1.
    rewrite <- (app_assoc p3 p4), <- (app_assoc p2 (p3 ++ p4)),
      <- (app_assoc p1 (p2 ++ p3 ++ p4)).
    apply (substring_group 20 12 (p1 ++ p2 ++ p3 ++ p4) p5 ""); auto.
    rewrite !length_app. lia. }
  now rewrite S1, S2, S3, S4, S5.
Qed.

Lemma split_groups (s : string) :
  String.length s = 32%nat ->
  exists p1 p2 p3 p4 p5,
    s = p1 ++ p2 ++ p3 ++ p4 ++ p5 /\ grouped p1 p2 p3 p4 p5.
Proof.
  intros H.
  destruct (split_at 8 s ltac:(lia)) as (p1 & r1 & -> & L1).
  rewrite length_app in H.
  destruct (split_at 4 r1 ltac:(lia)) as (p2 & r2 & -> & L2).
  rewrite length_app in H.
  destruct (split_at 4 r2 ltac:(lia)) as (p3 & r3 & -> & L3).
  rewrite length_app in H.
  destruct (split_at 4 r3 ltac:(lia)) as (p4 & p5 & -> & L4).
  rewrite length_app in H.
  exists p1, p2, p3, p4, p5. unfold grouped.
  repeat split; auto; lia.
Qed.

(** A canonical string, spelled out. *)
Lemma canonical_spec (s : string) :
  canonical s = true <->
  exists p1 p2 p3 p4 p5,
    s = joined p1 p2 p3 p4 p5
    /\ grouped p1 p2 p3 p4 p5
    /\ all isHexDigit (p1 ++ p2 ++ p3 ++ p4 ++ p5) = true
    /\ Str.toLowerCase (p1 ++ p2 ++ p3 ++ p4 ++ p5)
       = p1 ++ p2 ++ p3 ++ p4 ++ p5.
Proof.
  unfold canonical, Str.toLowerCase. split.
  - intros H. apply andb_prop in H. destruct H as [Hu Hl].
    apply String.eqb_eq in Hl.
    destruct (isUUID_spec s Hu) as (p1 & p2 & p3 & p4 & p5 & -> & Hg & Hx).
    exists p1, p2, p3, p4, p5. repeat split; auto; try apply Hg.
    unfold joined in Hl.
    apply map_fixed. apply fixed_map in Hl.
    rewrite !all_app in *. cbn [all] in Hl.
    repeat (apply andb_prop in Hl; destruct Hl as [? Hl]).
    repeat (apply andb_true_intro; split); assumption.
  - intros (p1 & p2 & p3 & p4 & p5 & -> & Hg & Hx & Hl).
    rewrite (isUUID_joined _ _ _ _ _ Hg Hx). cbn [andb].
    apply String.eqb_eq. apply map_fixed. apply fixed_map in Hl.
    unfold joined. rewrite !all_app in *. cbn [all].
    repeat (apply andb_prop in Hl; destruct Hl as [? Hl]).
    repeat (apply andb_true_intro; split); try assumption; reflexivity.
Qed.

Lemma pattern_subsumed (s : string) :
  isUUID s = true -> isHex32 (removeHyphens s) = true.
Proof.
  intros H.
  destruct (isUUID_spec s H) as (p1 & p2 & p3 & p4 & p5 & -> & Hg & Hx).
  rewrite (removeHyphens_joined _ _ _ _ _ Hx). unfold isHex32.
  rewrite Hx, andb_true_r. destruct Hg as (L1 & L2 & L3 & L4 & L5).
  rewrite !length_app, L1, L2, L3, L4, L5. reflexivity.
Qed.

Lemma lower_twice (s : string) :
  Str.toLowerCase (Str.toLowerCase s) = Str.toLowerCase s.
Proof.
  unfold Str.toLowerCase.
  induction s as [|c s IH]; cbn; [reflexivity|].
  now rewrite lower_lower, IH.
Qed.

(** Thirty-two digits give a canonical string. *)
Lemma hyphenated_canonical (compact : string) :
  isHex32 compact = true ->
  canonical (hyphenated (Str.toLowerCase compact)) = true.
Proof.
  unfold isHex32. intros H. apply andb_prop in H. destruct H as [Hl Hx].
  apply Nat.eqb_eq in Hl.
  assert (Hl' : String.length (Str.toLowerCase compact) = 32%nat)
    by (unfold Str.toLowerCase; now rewrite length_map).
  assert (Hx' : all isHexDigit (Str.toLowerCase compact) = true).
  { unfold Str.toLowerCase. rewrite all_map.
    apply (all_impl isHexDigit); [apply hex_lower|exact Hx]. }
  pose proof (lower_twice compact) as Hfix.
  destruct (split_groups _ Hl') as (p1 & p2 & p3 & p4 & p5 & Hs & Hg).
  rewrite Hs in *. rewrite (hyphenated_joined _ _ _ _ _ Hg).
  apply canonical_spec. exists p1, p2, p3, p4, p5. auto.
Qed.

(** A canonical string is neither blank nor the mark of an invalid
    field, and trimming leaves it alone. *)
Lemma canonical_plain (r : string) :
  canonical r = true ->
  Str.trim r = r /\ Str.is_empty r = false
  /\ String.eqb r "__invalid__" = false.
Proof.
  intros H. split; [|split].
  - apply canonical_spec in H.
    destruct H as (p1 & p2 & p3 & p4 & p5 & -> & Hg & Hx & _).
    apply trim_no_ws. unfold joined.
    destruct (all_groups _ _ _ _ _ _ Hx) as (X1 & X2 & X3 & X4 & X5).
    rewrite !all_app. cbn [all].
    rewrite !(all_impl isHexDigit _ _ hex_not_ws) by assumption.
    reflexivity.
  - destruct r; [discriminate H|reflexivity].
  - destruct (String.eqb_spec r "__invalid__") as [->|]; [|reflexivity].
    discriminate H.
Qed.

Lemma canonical_fixed (r : string) :
  canonical r = true -> normalizedUUID r = r.
Proof.
  intros H. destruct (canonical_plain r H) as (Ht & He & _).
  unfold normalizedUUID. rewrite Ht, He.
  apply canonical_spec in H.
  destruct H as (p1 & p2 & p3 & p4 & p5 & -> & Hg & Hx & Hl).
  rewrite (removeHyphens_joined _ _ _ _ _ Hx).
  assert (H32 : isHex32 (p1 ++ p2 ++ p3 ++ p4 ++ p5) = true).
  { unfold isHex32. rewrite Hx, andb_true_r.
    destruct Hg as (L1 & L2 & L3 & L4 & L5).
    rewrite !length_app, L1, L2, L3, L4, L5. reflexivity. }
  rewrite H32, Hl. now apply hyphenated_joined.
Qed.

(** A blank field gives the empty string; the other results are the mark
    of an invalid field and the canonical strings. *)
Lemma shape (customUUID : string) :
  (Str.trim customUUID = "" -> normalizedUUID customUUID = "")
  /\ (normalizedUUID customUUID = ""
      \/ normalizedUUID customUUID = "__invalid__"
      \/ canonical (normalizedUUID customUUID) = true).
Proof.
  unfold normalizedUUID.
  destruct (Str.trim customUUID) as [|c raw]; [cbn; auto|].
  cbn [Str.is_empty]. split; [discriminate|].
  destruct (isHex32 _) eqn:Hx.
  - right. right. now apply hyphenated_canonical.
  - destruct (isUUID _) eqn:Hu; [|auto].
    apply pattern_subsumed in Hu. congruence.
Qed.

(** The effect that persists the field stores a canonical UUID as it
    is. *)
Lemma persist_canonical (u : string) (stored : option string) :
  canonical u = true -> Settings.persist true u stored = Some u.
Proof.
  intros H. destruct (canonical_plain u H) as (Ht & He & Hi).
  unfold Settings.persist. cbn [negb].
  now rewrite Ht, He, (canonical_fixed u H), He, Hi.
Qed.

(** It keeps a store that is absent or canonical so. *)
Lemma persist_well_stored (open : bool) (customUUID : string)
  (stored : option string) :
  well_stored stored ->
  well_stored (Settings.persist open customUUID stored).
Proof.
  intros Hw. destruct (shape customUUID) as [_ Hshape].
  unfold Settings.persist. destruct open; [|exact Hw]. cbn [negb].
  destruct (Str.is_empty (Str.trim customUUID)); [exact I|].
  destruct Hshape as [-> | [-> | Hc]]; try exact Hw.
  destruct (canonical_plain _ Hc) as (_ & -> & ->). exact Hc.
Qed.

End UuidFacts.

(** X16.  [normalizedUUID] gives the empty string exactly for a blank
    field; for any other field it gives either "__invalid__" or a
    canonical UUID: five groups of 8, 4, 4, 4 and 12 hexadecimal digits,
    in lower case, with hyphens between them. *)
Theorem normalizedUUID_is_blank_invalid_or_canonical (customUUID : string) :
  let r := Settings.normalizedUUID customUUID in
  (Str.trim customUUID = "" <-> r = "")
  /\ (r = "" \/ r = "__invalid__" \/ canonical r = true).
Proof.
  cbn zeta. unfold Settings.normalizedUUID.
  destruct (Str.trim customUUID) as [|c raw] eqn:Hraw.
  - cbn. split; [tauto|auto].
  - cbn [Str.is_empty].
    destruct (Settings.isHex32 _) eqn:Hx.
    + pose proof (UuidFacts.hyphenated_canonical _ Hx) as Hc.
      split; [|auto].
      split; [discriminate|]. intros Hr. rewrite Hr in Hc. discriminate Hc.
    + destruct (Settings.isUUID _) eqn:Hu.
      * apply UuidFacts.pattern_subsumed in Hu. congruence.
      * split; [|auto]. split; discriminate.
Qed.

(** X17.  A canonical UUID is a fixed point of [normalizedUUID], so that
    normalising twice is normalising once; and the effect that persists
    the field stores a canonical UUID as it is, whatever was stored. *)
Theorem normalizedUUID_keeps_a_canonical_uuid (u : string) :
  canonical u = true ->
  Settings.normalizedUUID u = u
  /\ Settings.normalizedUUID (Settings.normalizedUUID u)
     = Settings.normalizedUUID u
  /\ forall stored, Settings.persist true u stored = Some u.
Proof.
  intros H. pose proof (UuidFacts.canonical_fixed u H) as Hfix.
  destruct (UuidFacts.canonical_plain u H) as (Ht & He & Hi).
  split; [exact Hfix|]. split; [now rewrite !Hfix|].
  intros stored. unfold Settings.persist. cbn [negb].
  now rewrite Ht, He, Hfix, He, Hi.
Qed.

Lemma normalizedUUID_keeps_a_canonical_uuid_witness :
  Settings.normalizedUUID "0123abcd-4567-89ef-0123-456789abcdef"
  = "0123abcd-4567-89ef-0123-456789abcdef".
Proof.
  apply (normalizedUUID_keeps_a_canonical_uuid
           "0123abcd-4567-89ef-0123-456789abcdef").
  vm_compute. reflexivity.
Defined.

(** X18.  For a field of ASCII characters: the field is marked
    "__invalid__" exactly when it is not blank and, without the white
    space around it and with its hyphens removed, is not a string of
    thirty-two hexadecimal digits.  The second pattern of [normalizedUUID]
    (with the hyphens in their places) never decides: what matches it has
    matched the first; and hyphens are accepted wherever they stand.  What
    is tested is the part of the field between the white space at its two
    ends. *)
Theorem invalid_exactly_without_32_digits (customUUID : string) :
  Str.is_ascii customUUID = true ->
  let compact := Settings.removeHyphens (Str.trim customUUID) in
  (Settings.normalizedUUID customUUID = "__invalid__" <->
   ~ blank customUUID /\ Settings.isHex32 compact = false)
  /\ (Settings.isHex32 compact = true ->
      Settings.normalizedUUID customUUID
      = Settings.hyphenated (Str.toLowerCase compact))
  /\ (Settings.isUUID (Str.trim customUUID) = true ->
      Settings.isHex32 compact = true)
  /\ (blank customUUID \/ trimmed_to customUUID (Str.trim customUUID)).
Proof.
  intros Ha. cbn zeta.
  destruct (TrimFacts.trim_ascii customUUID Ha) as [Hblank Hparts].
  rewrite <- Hblank.
  assert (Hlast : Str.trim customUUID = ""
                  \/ trimmed_to customUUID (Str.trim customUUID)).
  { destruct (Str.trim customUUID) as [|c raw] eqn:Hraw; [now left|right].
    apply Hparts. split; [reflexivity|discriminate]. }
  unfold Settings.normalizedUUID.
  destruct (Str.trim customUUID) as [|c raw] eqn:Hraw.
  - cbn. split; [|split; [|split; [discriminate|exact Hlast]]].
    + split; [discriminate|]. intros [H _]. now destruct H.
    + discriminate.
  - cbn [Str.is_empty].
    split; [|split; [|split; [apply UuidFacts.pattern_subsumed
                             |exact Hlast]]].
    + destruct (Settings.isHex32 _) eqn:Hx.
      * pose proof (UuidFacts.hyphenated_canonical _ Hx) as Hc.
        split; [|intros [_ H]; discriminate H].
        intros Hr. rewrite Hr in Hc. discriminate Hc.
      * destruct (Settings.isUUID _) eqn:Hu.
        -- apply UuidFacts.pattern_subsumed in Hu. congruence.
        -- split; [|reflexivity]. intros _. split; [discriminate|reflexivity].
    + intros ->. reflexivity.
Qed.

Lemma invalid_exactly_without_32_digits_witness :
  Settings.normalizedUUID "  0123ABCD4567-89ef0123456789abcd-ef "
  = "0123abcd-4567-89ef-0123-456789abcdef"
  /\ Settings.normalizedUUID " 0123 " = "__invalid__".
Proof.
  split.
  - etransitivity;
      [apply (proj1 (proj2 (invalid_exactly_without_32_digits
                              "  0123ABCD4567-89ef0123456789abcd-ef "
                              eq_refl))); reflexivity
      |reflexivity].
  - apply (proj1 (invalid_exactly_without_32_digits " 0123 " eq_refl)).
    split; [|reflexivity].
    intros H. cbn in H. destruct H as (_ & H & _). cbn in H.
    repeat (destruct H as [H|H]; [discriminate|]). exact H.
Defined.

(** X19.  For a field of ASCII characters and an entry "customUUID" of the
    local storage that is absent or canonical: the effect that persists
    the field keeps the entry absent or canonical; an invalid field is
    never stored (the entry is left as it was); a blank field removes the
    entry.  When the dialog opens, the field is loaded from the entry and
    in the end the entry is as it was; but between the two runs of the
    effect it is what the effect makes of the field as it was left: still
    absent or canonical, and absent when that field was blank, as it is
    when the dialog opens for the first time. *)
Theorem the_store_stays_canonical
  (open : bool) (customUUID : string) (stored : option string) :
  Str.is_ascii customUUID = true ->
  well_stored stored ->
  well_stored (Settings.persist open customUUID stored)
  /\ (Settings.normalizedUUID customUUID = "__invalid__" ->
      Settings.persist open customUUID stored = stored)
  /\ (blank customUUID -> Settings.persist true customUUID stored = None)
  /\ (let opened := Settings.onOpen customUUID stored in
      Settings.loaded opened = Settings.load stored
      /\ Settings.final opened = stored
      /\ Settings.interim opened = Settings.persist true customUUID stored
      /\ well_stored (Settings.interim opened)
      /\ (blank customUUID -> Settings.interim opened = None)).
Proof.
  intros Ha Hw.
  destruct (UuidFacts.shape customUUID) as [Hblank Hshape].
  destruct (TrimFacts.trim_ascii customUUID Ha) as [Htrim _].
  assert (Hremove : blank customUUID ->
                    Settings.persist true customUUID stored = None).
  { intros Hb. apply Htrim in Hb. unfold Settings.persist. cbn [negb].
    now rewrite Hb. }
  split; [|split; [|split]].
  - now apply UuidFacts.persist_well_stored.
  - intros Hinv. unfold Settings.persist. destruct open; [|reflexivity].
    cbn [negb].
    destruct (Str.is_empty (Str.trim customUUID)) eqn:He.
    + apply StrFacts.is_empty_true in He. apply Hblank in He.
      rewrite He in Hinv. discriminate.
    + now rewrite Hinv.
  - exact Hremove.
  - unfold Settings.onOpen. cbv zeta.
    cbn [Settings.loaded Settings.interim Settings.final].
    split; [reflexivity|]. split; [|split; [reflexivity|split]].
    + destruct stored as [u|]; cbn [Settings.load].
      * cbn in Hw. destruct (String.eqb_spec u customUUID) as [<-|_];
          now apply UuidFacts.persist_canonical.
      * destruct (String.eqb_spec "" customUUID) as [<-|_]; reflexivity.
    + now apply UuidFacts.persist_well_stored.
    + exact Hremove.
Qed.

Lemma the_store_stays_canonical_witness :
  Settings.onOpen "" (Some "0123abcd-4567-89ef-0123-456789abcdef")
  = Settings.mkOpened "0123abcd-4567-89ef-0123-456789abcdef" None
      (Some "0123abcd-4567-89ef-0123-456789abcdef")
  /\ Settings.persist true "not a uuid"
       (Some "0123abcd-4567-89ef-0123-456789abcdef")
     = Some "0123abcd-4567-89ef-0123-456789abcdef".
Proof.
  split.
  - destruct (proj2 (proj2 (proj2
        (the_store_stays_canonical true ""
           (Some "0123abcd-4567-89ef-0123-456789abcdef") eq_refl
           ltac:(vm_compute; reflexivity))))) as (H1 & H2 & _ & _ & H3).
    specialize (H3 I).
    destruct (Settings.onOpen "" (Some "0123abcd-4567-89ef-0123-456789abcdef"))
      as [l i f].
    cbn in H1, H2, H3. now subst.
  - refine (proj1 (proj2 (the_store_stays_canonical true "not a uuid"
                            (Some "0123abcd-4567-89ef-0123-456789abcdef")
                            _ _)) _).
    + reflexivity.
    + vm_compute. reflexivity.
    + vm_compute. reflexivity.
Defined.

(* ===================================================================== *)
(** * The name of the log file *)
(* ===================================================================== *)

Module LogFacts.

Import Logger.

Lemma to_int_proper (z : Z) :
  Z.to_int z <> Decimal.Pos Decimal.Nil /\ Z.to_int z <> Decimal.Neg Decimal.Nil.
Proof.
  destruct z as [|p|p]; cbn; split; try discriminate;
    intros [= H]; exact (DecimalPos.Unsigned.to_uint_nonnil p H).
Qed.

Lemma of_Z_inj (a b : Z) : Str.of_Z a = Str.of_Z b -> a = b.
Proof.
  unfold Str.of_Z. intros H.
  apply (f_equal NilZero.int_of_string) in H.
  destruct (to_int_proper a) as [Ha1 Ha2].
  destruct (to_int_proper b) as [Hb1 Hb2].
  rewrite !NilZero.isi in H by assumption.
  injection H as H. now apply DecimalZ.to_int_inj.
Qed.

Lemma app_inv_head (p a b : string) : p ++ a = p ++ b -> a = b.
Proof.
  induction p as [|c p IH]; cbn; [auto|]. intros [= H]. auto.
Qed.

Lemma app_inv_tail (t a b : string) : a ++ t = b ++ t -> a = b.
Proof.
  revert b. induction a as [|c a IH]; intros [|c' b] H; cbn in H.
  - reflexivity.
  - apply (f_equal String.length) in H. cbn in H.
    rewrite UuidFacts.length_app in H. lia.
  - apply (f_equal String.length) in H. cbn in H.
    rewrite UuidFacts.length_app in H. lia.
  - injection H as -> H. f_equal. auto.
Qed.

Lemma logName_inj (baseName : string) (a b : Z) :
  logName baseName a = logName baseName b -> a = b.
Proof.
  unfold logName. intros H.
  apply app_inv_head, app_inv_head, app_inv_tail in H.
  now apply of_Z_inj.
Qed.

Lemma assoc_in (k : string) (es : list (string * node)) (v : node) :
  Fs.assoc k es = Some v -> In k (map fst es).
Proof.
  induction es as [|[k' v'] es IH]; cbn; [discriminate|].
  destruct (String.eqb_spec k k') as [->|_]; auto.
Qed.

(** What exists in a directory is among its entries. *)
Lemma exists_listed (p : path) (c : string) (n : node) :
  Fs.exists_ (p ++ [c])%list n = true -> In c (map fst (listing p n)).
Proof.
  unfold Fs.exists_, listing. rewrite FsFacts.lookup_app.
  destruct (Fs.lookup p n) as [[|es]|]; cbn; try discriminate.
  destruct (Fs.assoc c es) as [v|] eqn:Hc; [|discriminate].
  intros _. eapply assoc_in, Hc.
Qed.

(** A directory cannot hold more log names than it has entries. *)
Lemma crowded (LOGS : path) (baseName : string) (n : node) :
  (forall j, 1 <= j <= Z.of_nat (List.length (listing LOGS n)) + 1 ->
             Fs.exists_ (logPath LOGS baseName j) n = true) ->
  False.
Proof.
  intros H.
  set (N := List.length (listing LOGS n)) in *.
  set (names := map (fun i => logName baseName (Z.of_nat i)) (seq 1 (S N))).
  assert (Hnodup : NoDup names).
  { apply NoDup_map_NoDup_ForallPairs; [|apply seq_NoDup].
    intros a b _ _ Hab. apply logName_inj in Hab. lia. }
  assert (Hincl : incl names (map fst (listing LOGS n))).
  { intros name Hin. apply in_map_iff in Hin.
    destruct Hin as (i & <- & Hi). apply in_seq in Hi.
    apply exists_listed. apply H. lia. }
  pose proof (NoDup_incl_length Hnodup Hincl) as Hlen.
  unfold names in Hlen. rewrite !length_map, length_seq in Hlen.
  fold N in Hlen. lia.
Qed.

(** What the probes find. *)
Lemma probe_run (LOGS : path) (fuel : nat) (baseName : string) (s : Z)
  (n : node) :
  match probe LOGS fuel baseName s n with
  | Some p =>
      exists k, s <= k < s + Z.of_nat fuel
                /\ p = logPath LOGS baseName k
                /\ Fs.exists_ p n = false
                /\ forall j, s <= j < k ->
                             Fs.exists_ (logPath LOGS baseName j) n = true
  | None =>
      forall j, s <= j < s + Z.of_nat fuel ->
                Fs.exists_ (logPath LOGS baseName j) n = true
  end.
Proof.
  revert s. induction fuel as [|fuel IH]; intros s; cbn [probe].
  - intros j Hj. lia.
  - destruct (Fs.exists_ (logPath LOGS baseName s) n) eqn:Hs.
    + specialize (IH (s + 1)).
      destruct (probe LOGS fuel baseName (s + 1) n) as [p|].
      * destruct IH as (k & Hk & -> & Hfree & Hbelow).
        exists k. split; [lia|]. split; [reflexivity|]. split; [exact Hfree|].
        intros j Hj. destruct (Z.eq_dec j s) as [->|]; [exact Hs|].
        apply Hbelow. lia.
      * intros j Hj. destruct (Z.eq_dec j s) as [->|]; [exact Hs|].
        apply IH. lia.
    + exists s. split; [lia|]. split; [reflexivity|]. split; [exact Hs|].
      intros j Hj. lia.
Qed.

(** Enough probes reach the first free name. *)
Lemma probe_reaches (LOGS : path) (baseName : string) (n : node) (k : Z)
  (fuel : nat) (s : Z) :
  s <= k -> (Z.to_nat (k - s) < fuel)%nat ->
  Fs.exists_ (logPath LOGS baseName k) n = false ->
  (forall j, s <= j < k -> Fs.exists_ (logPath LOGS baseName j) n = true) ->
  probe LOGS fuel baseName s n = Some (logPath LOGS baseName k).
Proof.
  revert s. induction fuel as [|fuel IH]; intros s Hsk Hfuel Hfree Hbelow.
  - lia.
  - cbn [probe]. destruct (Z.eq_dec s k) as [->|Hne].
    + now rewrite Hfree.
    + rewrite (Hbelow s) by lia. apply IH; try assumption; try lia.
      intros j Hj. apply Hbelow. lia.
Qed.

End LogFacts.

(** X20.  [getUniqueLogPath] ends, and what it returns is a name that is
    free.  For every tree and every time stamp there is a session index,
    at least 1 and at most one more than the number of entries of the log
    directory, such that the path with this index does not exist, the
    paths with every smaller index exist, and the loop returns this path
    after as many probes as the index. *)
Theorem getUniqueLogPath_finds_the_first_free_name
  (LOGS_DIRECTORY : path) (baseName : string) (n : node) :
  exists session,
    1 <= session <= Z.of_nat (List.length (listing LOGS_DIRECTORY n)) + 1
    /\ Fs.exists_ (Logger.logPath LOGS_DIRECTORY baseName session) n = false
    /\ (forall j, 1 <= j < session ->
                  Fs.exists_ (Logger.logPath LOGS_DIRECTORY baseName j) n
                  = true)
    /\ forall fuel, (Z.to_nat session <= fuel)%nat ->
                    Logger.getUniqueLogPath LOGS_DIRECTORY fuel baseName n
                    = Some (Logger.logPath LOGS_DIRECTORY baseName session).
Proof.
  pose proof (LogFacts.probe_run LOGS_DIRECTORY
                (S (List.length (listing LOGS_DIRECTORY n))) baseName 1 n)
    as Hrun.
  destruct (Logger.probe _ _ _ _ _) as [p|].
  - destruct Hrun as (k & Hk & -> & Hfree & Hbelow).
    exists k. split; [lia|]. split; [exact Hfree|]. split; [exact Hbelow|].
    intros fuel Hfuel. unfold Logger.getUniqueLogPath.
    apply LogFacts.probe_reaches; try assumption; lia.
  - exfalso. apply (LogFacts.crowded LOGS_DIRECTORY baseName n).
    intros j Hj. apply Hrun. lia.
Qed.

(* ===================================================================== *)
(** * The Discord presence *)
(* ===================================================================== *)

Module Presence.

Import Discord.

Lemma step_keeps (dateElapsed : Z) (st : Rpc) (c : Call) :
  shows_launcher (rpcActivity st) ->
  Forall shows_launcher (sent st) ->
  shows_launcher (rpcActivity (step dateElapsed st c))
  /\ Forall shows_launcher (sent (step dateElapsed st c)).
Proof.
  intros Ha Hs.
  assert (Hnew : shows_launcher (rpcActivity (step dateElapsed st c)))
    by (destruct c; exact Ha).
  split; [exact Hnew|].
  destruct c as [[]|now version []]; cbn [step sent setActivity
    setChoosingVersionActivity setPlayingActivity]; try exact Hs;
    (apply Forall_app; split; [exact Hs|]);
    (constructor; [exact Hnew|constructor]).
Qed.

Lemma run_keeps (dateElapsed : Z) (calls : list Call) (st : Rpc) :
  shows_launcher (rpcActivity st) ->
  Forall shows_launcher (sent st) ->
  shows_launcher (rpcActivity (fold_left (step dateElapsed) calls st))
  /\ Forall shows_launcher (sent (fold_left (step dateElapsed) calls st)).
Proof.
  revert st. induction calls as [|c calls IH]; intros st Ha Hs; cbn.
  - auto.
  - destruct (step_keeps dateElapsed st c Ha Hs). now apply IH.
Qed.

End Presence.

(** X21.  Whatever the launcher has called, in whatever order, the
    activity shows the launcher's image, its text and its button, and so
    does every activity that was given to Discord; and
    [setChoosingVersionActivity] brings the initial activity back, with
    the time stamp of the launcher's start, not of the call. *)
Theorem the_presence_returns_to_the_launcher
  (dateElapsed : Z) (calls : list Discord.Call) (user : bool) :
  let st := Discord.run dateElapsed calls in
  shows_launcher (Discord.rpcActivity st)
  /\ Forall shows_launcher (Discord.sent st)
  /\ Discord.rpcActivity (Discord.setChoosingVersionActivity dateElapsed user st)
     = Discord.initial dateElapsed.
Proof.
  cbn zeta.
  destruct (Presence.run_keeps dateElapsed calls
              (Discord.mkRpc (Discord.initial dateElapsed) []))
    as [Ha Hs]; [repeat split|constructor|].
  split; [exact Ha|]. split; [exact Hs|].
  fold (Discord.run dateElapsed calls) in Ha.
  destruct Ha as (H1 & H2 & H3).
  unfold Discord.setChoosingVersionActivity, Discord.setActivity,
    Discord.spread, Discord.initial.
  cbn [Discord.rpcActivity Discord.over Discord.l_startTimestamp
       Discord.l_details Discord.l_state Discord.l_largeImageKey
       Discord.l_largeImageText Discord.l_smallImageKey
       Discord.l_smallImageText Discord.l_buttons].
  now rewrite H1, H2, H3.
Qed.

(* ===================================================================== *)
(** * The login form *)
(* ===================================================================== *)

(** X22.  For a nickname of ASCII characters, [handleSubmit] sets the
    error "Enter your nickname" and does not call [onLogin] exactly when
    the nickname is blank: empty, or white space only.  Otherwise it
    clears the error and gives [onLogin] the nickname without the white
    space around it: the part of the nickname that begins and ends with a
    visible character and lies between two blank strings.  One of the two
    happens. *)
Theorem handleSubmit_passes_a_trimmed_name (nick : string) :
  Str.is_ascii nick = true ->
  (Login.handleSubmit nick = Login.mkSubmitted "Enter your nickname" None
   <-> blank nick)
  /\ (forall name,
        Login.handleSubmit nick = Login.mkSubmitted "" (Some name)
        <-> trimmed_to nick name)
  /\ (blank nick \/ exists name, trimmed_to nick name).
Proof.
  intros Ha. destruct (TrimFacts.trim_ascii nick Ha) as [Hblank Hname].
  unfold Login.handleSubmit.
  destruct (Str.trim nick) as [|c rest] eqn:Ht; cbn [Str.is_empty].
  - split; [|split].
    + split; [intros _; now apply Hblank|reflexivity].
    + intros name. split; [discriminate|].
      intros H. apply Hname in H as [H Hne]. now destruct Hne.
    + left. now apply Hblank.
  - assert (Hcore : trimmed_to nick (String c rest))
      by (apply Hname; split; [reflexivity|discriminate]).
    split; [|split].
    + split; [discriminate|]. intros H. apply Hblank in H. discriminate.
    + intros name. split.
      * intros [= <-]. exact Hcore.
      * intros H. apply Hname in H as [<- _]. reflexivity.
    + right. eauto.
Qed.

Lemma handleSubmit_passes_a_trimmed_name_witness :
  Login.handleSubmit "  Bob Ross " = Login.mkSubmitted "" (Some "Bob Ross")
  /\ Login.handleSubmit "   " = Login.mkSubmitted "Enter your nickname" None.
Proof.
  split.
  - apply (proj1 (proj2 (handleSubmit_passes_a_trimmed_name "  Bob Ross "
                           eq_refl))).
    exists "  ", " ". split; [reflexivity|].
    split; [cbn; unfold ascii_space; cbn; tauto|].
    split; [cbn; unfold ascii_space; cbn; tauto|].
    split.
    + exists "B"%char, "ob Ross". split; [reflexivity|].
      unfold ascii_space. cbn. intros H.
      repeat (destruct H as [H|H]; [discriminate|]). exact H.
    + exists "Bob Ros", "s"%char. split; [reflexivity|].
      unfold ascii_space. cbn. intros H.
      repeat (destruct H as [H|H]; [discriminate|]). exact H.
  - apply (proj1 (handleSubmit_passes_a_trimmed_name "   " eq_refl)).
    cbn. unfold ascii_space. cbn. tauto.
Defined.
